(* ===== verification/_CoqProject ===== *)
-Q . S2P
Prelude.v
Exceptions.v
Name.v
Merkle.v
Config.v
Database.v
ResourceLimits.v
Authority.v
AuthorityChecker.v
Transaction.v
Bytes.v
ChainConfig.v
AuthorizationManager.v
StateMonad.v
Asset.v
AssetTheorems.v
IteratorCache.v
BlockHeaderState.v
ChainDatabase.v
ForkDatabase.v
ForkStorage.v
ForkFacts.v
ErrorState.v
Controller.v
ControllerTheorems.v
ForkSwitch.v
SwitchOutcome.v
BlockLog.v
SnapshotStream.v
TransactionContext.v
ApplyContext.v
EosioContract.v
ContractTables.v
TableSnapshot.v
PermissionSnapshot.v
TableCalls.v
TableTheorems.v
NativeActions.v
ActionExecution.v
ExecutionTheorems.v
PushTransaction.v
PushTheorems.v
BlockExecution.v
Genesis.v
ChainSnapshot.v
SnapshotExample.v
BlockTheorems.v
ChainExample.v
ContractCalls.v
Token.v
