(* ===== verification/Prelude.v ===== *)
(** * A verification of the core of SafeOS (libraries/chain)

    SafeOS is a blockchain node derived from EOSIO.  Its core is the library
    src/libraries/chain.  A node receives blocks and transactions.  The fork
    database keeps the tree of blocks that can still be reverted and says which
    of them is the best; the controller keeps the chain database equal to the
    effect of the blocks up to its head, and moves from fork to fork.  A block
    is a header, which producers sign in turn, and transactions.  A transaction
    is checked against the permissions of the accounts that authorize it, runs
    its actions in the native system contract and in contracts that are
    virtual-machine code, and is billed for RAM, network and CPU.

    ** Files

    Foundations.
    - Prelude.v: machine integers ([u32], [i64], ... are reduction modulo a
      power of two), the [result] monad for code that may throw, lemmas on
      lists and maps, tactics.
    - Exceptions.v: exceptions.hpp and exceptions.cpp: every class, its code
      and its base, and the switch through which EOS_THROW and EOS_ASSERT throw.
    - StateMonad.v and ErrorState.v: the two monads for code with state.  In
      the first a throw drops the state, because the undo session of the
      transaction restores it; in the second the state at the throw is kept,
      because the controller's caller goes on with it.  Both have a weakest
      precondition calculus.
    - Database.v: an index with a unique key as a finite map.

    Data of the chain.
    - Name.v, Asset.v and AssetTheorems.v: name.cpp, symbol.hpp, asset.hpp/.cpp.
    - Merkle.v: merkle.cpp and incremental_merkle.hpp.
    - Config.v and ChainConfig.v: config.hpp, chain_config.hpp/.cpp.
    - Transaction.v: transaction.hpp/.cpp and action.hpp.
    - ChainDatabase.v: the chainbase objects of accounts, tables, sequences,
      generated transactions and global properties.

    Resources and permissions.
    - ResourceLimits.v: resource_limits.cpp.
    - Authority.v, AuthorityChecker.v, AuthorizationManager.v: authority.hpp,
      authority_checker.hpp, authorization_manager.cpp.

    Blocks.
    - BlockHeaderState.v: block_header.cpp, block_header_state.cpp, and the
      header part of start_block, finalize_block and sign_block.
    - ForkDatabase.v and ForkFacts.v: fork_database.cpp; ForkStorage.v: the file
      that it writes when the node stops and reads when it starts.
    - BlockLog.v: block_log.cpp, the irreversible blocks in a file.  Bytes.v:
      integers in files.
    - SnapshotStream.v: snapshot.cpp, the file of a binary snapshot.
      TableSnapshot.v, PermissionSnapshot.v and ChainSnapshot.v: what the
      controller and its managers write to a snapshot, and the node that is
      started from one.  SnapshotExample.v: a small node and serializations of all its
      rows.
    - Controller.v: controller.cpp: the head, the pending block, undo sessions,
      reversible and irreversible blocks, push_block, push_confirmation,
      apply_block, commit_block, abort_block and maybe_switch_forks.
      ControllerTheorems.v, ForkSwitch.v and SwitchOutcome.v are its theorems.
    - BlockExecution.v: the rest of start_block (the onblock transaction, the
      expiry of records, the permissions of the producers), the loop of
      apply_block over the receipts, finalize_block and the block summaries.
      BlockTheorems.v: its theorems; ChainExample.v: a small chain on which
      they are applied.
    - Genesis.v: initialize_fork_db, create_native_account and
      initialize_database, with their theorems.

    Transactions.
    - TransactionContext.v: transaction_context.cpp: limits, timer, bill.
    - IteratorCache.v, ApplyContext.v, TableCalls.v: the tables of contracts
      (apply_context.cpp); ContractTables.v and TableTheorems.v: their theorems.
    - EosioContract.v: eosio_contract.cpp, the native actions;
      NativeActions.v: their theorems.
    - ActionExecution.v: exec_one, exec, dispatch_action, the interface that
      vm_wasm gives to contracts, inline and deferred actions, receipts.
      ExecutionTheorems.v and ContractCalls.v: their theorems.
    - PushTransaction.v: push_transaction, push_scheduled_transaction and
      apply_onerror of controller.cpp, with the receipts of block.hpp and
      transaction_metadata.hpp.  PushTheorems.v: their theorems.

    Contracts.
    - Token.v: contracts/eosio.token with the asset class of eosiolib.

    ** Interfaces between the components

    Components meet in type classes: [header_rules] is what the fork database
    needs of header states, and BlockHeaderState.v discharges it
    (ForkDatabase.chain_header_rules); [multi_index] is what it needs of the
    container; [block_execution] is what the controller needs of the execution
    of a block, and BlockTheorems.real_execution implements it; [schedules]
    is what the interface of contracts sees of the pending block; [native_codec], [trx_codec] and [secondary_keys]
    are the serialization that the handlers and the interface of contracts use;
    [log_codec] and [state_codec] are that of the files, [row_codec],
    [table_codec] and [chain_codec] that of the rows of a snapshot; [type_names]
    and [index_order] are the names of its sections and the order of its rows.

    ** What the theorems show

    - Permissions: the checker accepts exactly what the weights grant, and a
      transaction that passes is authorized; the permission tree stays a tree.
    - Blocks: an accepted header is linked, later, in turn and signed; what is
      produced is accepted; the irreversible block follows the two-thirds rule
      and does not move back; the indices of the fork database agree through
      any history.
    - Storage: the block log is a list of blocks through appends, restarts and
      lost indices; a repair keeps exactly the blocks before the damage; the
      fork database comes back from its file with the same states and head.
    - Snapshots: the reader finds exactly the sections and rows that the writer
      completed; a node that is started from the snapshot of another one has
      the same state, up to internal ids.
    - Controller: whatever is pushed, the database is the effect of the chain
      of the head and can be undone block by block; a fork switch ends with the
      new head, or puts the old fork back unchanged.
    - Blocks of transactions: a transaction is all or nothing, no input
      transaction is executed twice in any chain of blocks, a scheduled one is
      retired with one receipt, and the producers control their permissions.
      The database of a new chain satisfies the invariants that the other
      theorems start from.
    - Execution: every transaction ends; receipts are complete and numbered
      without gaps; every notified account runs once; inline actions and
      deferred transactions are authorized.
    - Tables: any sequence of calls keeps the tables well formed, is never
      undefined, bills exactly the RAM of what is stored, and does not touch
      tables of other accounts.
    - Resources: the accumulators are exact or throw, elastic limits stay in
      range, and what is reported as available can be spent.
    - Data: round trips of assets, types of their values, equivalence of the
      incremental with the batch Merkle root.
    - Token: balances add up to the supply through any sequence of actions.

    ** Bounds and fuel

    Loops that are not structural take a number of steps and the theorems show
    that the number given is enough.  The loop over notified accounts gets one
    step per account and one more, since an account is notified once.  Nested
    inline actions get 2^16 steps, since the depth of the configuration is a
    16-bit number.  The search of the fork database gets one step per block.
    [prune] calls itself for a lower block only, and once (prune_depth = 2).
    Symbol names have at most 7 letters and amounts at most 20 digits.

    ** Assumptions

    The sources use the submodules fc and chainbase, which are not part of the
    repository.  Hashing, serialization, signature recovery and compression are
    parameters, with the laws that a theorem needs as hypotheses.  A chainbase
    index is a finite map; an undo session is the contents to return to.  Times
    are integers.  Clock readings and the timer signal are arguments.  The
    program of a contract is a parameter: a finite tree of calls whose branches
    depend on their results.  Floating-point keys are ordered bit patterns; the
    interface refuses NaNs before it gets here.  FC_RETHROW and its relatives
    keep the class of the exception.

    ** Not modelled

    - The irreversible read mode, replay, signals to plugins: I/O.
    - Variant snapshots and the result of the integrity hash: fc's variants and
      hashes.
    - The backup that a repair of the block log makes of its directory, and the
      file that keeps what the repair leaves out.
    - Traces and console output: they do not influence the state.
    - Parts of the contract interface: crypto, memory, printing, permission
      queries, get_resource_limits, read_transaction.
    - The execution of irreversible blocks without undo sessions during a
      replay, and the public wrappers of the controller that only forward.
    - The empty action_object that initialize_database creates.
    - apply_eosio_setcode_evm and jit_account_deactivate: not registered, or
      only dropping a cache of compiled code.
    - The virtual machines, the WebAssembly tool chain, the plugins, programs
      and tests. *)

From Stdlib Require Export ZArith Lia ZifyNat ZifyBool Ascii String.
From stdpp Require Export base tactics sorting gmap strings numbers list.

#[global] Open Scope Z_scope.

(** ** Machine integers

    A [w]-bit unsigned value is a [Z] in [[0, 2^w)]; [wrap w] is the value
    after the arithmetic of the C++ type has wrapped around.  [swrap w] is the
    two's complement reading used for [int32_t] and [int64_t]. *)

Definition wrap (w z : Z) : Z := z `mod` 2 ^ w.
Definition swrap (w z : Z) : Z := (z + 2 ^ (w - 1)) `mod` 2 ^ w - 2 ^ (w - 1).

Abbreviation u8 := (wrap 8).
Abbreviation u16 := (wrap 16).
Abbreviation u32 := (wrap 32).
Abbreviation u64 := (wrap 64).
Abbreviation u128 := (wrap 128).
Abbreviation i32 := (swrap 32).
Abbreviation i64 := (swrap 64).

Definition is_unsigned (w z : Z) : Prop := 0 <= z < 2 ^ w.
Definition is_signed (w z : Z) : Prop := - 2 ^ (w - 1) <= z < 2 ^ (w - 1).

Definition uint32_max : Z := 2 ^ 32 - 1.
Definition uint64_max : Z := 2 ^ 64 - 1.
Definition int64_max : Z := 2 ^ 63 - 1.
Definition int64_min : Z := - 2 ^ 63.

(** ** Errors

    A C++ function that may throw returns a [result]: its value, or the
    exception it throws.  The monad is stdpp's ([x ← e; k], [e;; k]). *)

Inductive result (E A : Type) : Type :=
  | Ok (a : A)
  | Throw (e : E).
Arguments Ok {_ _} _.
Arguments Throw {_ _} _.

#[global] Instance result_ret {E} : MRet (result E) := λ A a, Ok a.
#[global] Instance result_bind {E} : MBind (result E) := λ A B f r,
  match r with Ok a => f a | Throw e => Throw e end.
#[global] Instance result_fmap {E} : FMap (result E) := λ A B f r,
  match r with Ok a => Ok (f a) | Throw e => Throw e end.

Definition of_option {E A} (e : E) (o : option A) : result E A :=
  match o with Some a => Ok a | None => Throw e end.

Definition is_ok {E A} (r : result E A) : bool :=
  match r with Ok _ => true | Throw _ => false end.

(** A range-based [for] whose body may throw. *)
Fixpoint foldM {E A S} (f : S → A → result E S) (s : S) (l : list A) : result E S :=
  match l with
  | [] => Ok s
  | a :: l => s' ← f s a; foldM f s' l
  end.

Section result_lemmas.
Context {E : Type}.

Lemma bind_Ok {A B} (r : result E A) (f : A → result E B) b :
  (r ≫= f) = Ok b ↔ ∃ a, r = Ok a ∧ f a = Ok b.
Proof. destruct r; cbn; naive_solver. Qed.

Lemma bind_Throw {A B} (r : result E A) (f : A → result E B) e :
  (r ≫= f) = Throw e ↔ r = Throw e ∨ ∃ a, r = Ok a ∧ f a = Throw e.
Proof. destruct r; cbn; naive_solver. Qed.

Lemma of_option_Ok {A} (e : E) (o : option A) a : of_option e o = Ok a ↔ o = Some a.
Proof. destruct o; cbn; naive_solver. Qed.

Lemma is_ok_true {A} (r : result E A) : is_ok r = true ↔ ∃ a, r = Ok a.
Proof. destruct r; cbn; naive_solver. Qed.

Lemma foldM_app {A S} (f : S → A → result E S) s l1 l2 :
  foldM f s (l1 ++ l2) = (foldM f s l1 ≫= λ s', foldM f s' l2).
Proof. revert s; induction l1 as [|a l IH]; intros s; cbn; [done|]. destruct (f s a); cbn; auto. Qed.

(** An invariant of the body of a loop is an invariant of the loop. *)
Lemma foldM_invariant {A S} (P : S → Prop) (f : S → A → result E S) l s s' :
  (∀ t a t', a ∈ l → P t → f t a = Ok t' → P t') →
  P s → foldM f s l = Ok s' → P s'.
Proof.
  revert s; induction l as [|a l IH]; intros s Hf Hs; cbn.
  - intros [= <-]. done.
  - rewrite bind_Ok. intros (t & Ht & Hl). eapply IH; [|eapply Hf; eauto using list_elem_of_here|done].
    intros; eapply Hf; eauto using list_elem_of_further.
Qed.
End result_lemmas.

(** Opens one successful bind or optional lookup of the hypotheses. *)
Ltac result_step :=
  match goal with
  | H : (_ ≫= _) = Ok _ |- _ => apply bind_Ok in H; destruct H as (? & ? & ?)
  | H : of_option _ _ = Ok _ |- _ => apply of_option_Ok in H
  | H : Ok _ = Ok _ |- _ => injection H as H; try subst
  | H : Throw _ = Ok _ |- _ => discriminate H
  | H : Ok _ = Throw _ |- _ => discriminate H
  | H : mret _ = Ok _ |- _ => unfold mret, result_ret in H
  end.

(** Turns the boolean tests of the code into propositions. *)
Ltac zbool :=
  repeat match goal with
  | H : (_ && _) = true |- _ => apply andb_true_iff in H; destruct H
  | H : (_ || _) = false |- _ => apply orb_false_iff in H; destruct H
  | H : (_ || _) = true |- _ => apply orb_true_iff in H
  | H : (_ && _) = false |- _ => apply andb_false_iff in H
  | H : negb _ = true |- _ => apply negb_true_iff in H
  | H : negb _ = false |- _ => apply negb_false_iff in H
  | H : (_ <=? _) = true |- _ => apply Z.leb_le in H
  | H : (_ <=? _) = false |- _ => apply Z.leb_gt in H
  | H : (_ <? _) = true |- _ => apply Z.ltb_lt in H
  | H : (_ <? _) = false |- _ => apply Z.ltb_ge in H
  | H : (_ =? _) = true |- _ => apply Z.eqb_eq in H
  | H : (_ =? _) = false |- _ => apply Z.eqb_neq in H
  | H : (_ >=? _) = _ |- _ => rewrite Z.geb_leb in H
  | H : (_ >? _) = _ |- _ => rewrite Z.gtb_ltb in H
  end.

(** [lia] with the quotients and remainders replaced by their equations. *)
Ltac div_lia := zify; Z.to_euclidean_division_equations; lia.

(** ** Lemmas on lists *)

Section lists.
(** If the defined images along a list are distinct, two members with the
    same image are equal. *)
Lemma NoDup_omap_inj {A B} (f : A → option B) (l : list A) (x y : A) (b : B) :
  NoDup (omap f l) → x ∈ l → y ∈ l → f x = Some b → f y = Some b → x = y.
Proof.
  induction l as [|a l IH]; [by intros _ ?%not_elem_of_nil|].
  intros Hl Hx Hy Hfx Hfy. cbn in Hl.
  assert (Hin : ∀ z, z ∈ l → f z = Some b → b ∈ omap f l)
    by (intros z ??; apply list_elem_of_omap; eauto).
  apply elem_of_cons in Hx as [->|Hx], Hy as [->|Hy]; try done.
  - rewrite Hfx in Hl. apply NoDup_cons in Hl as [Hn _]. destruct Hn; eauto.
  - rewrite Hfy in Hl. apply NoDup_cons in Hl as [Hn _]. destruct Hn; eauto.
  - apply IH; auto. destruct (f a); [by apply NoDup_cons in Hl as [_ ?]|done].
Qed.

Lemma filter_all {A} (P : A → Prop) `{∀ x, Decision (P x)} (l : list A) : Forall P l → filter P l = l.
Proof. induction 1; [done|]. rewrite filter_cons_True by done. congruence. Qed.

Lemma filter_none {A} (P : A → Prop) `{∀ x, Decision (P x)} (l : list A) :
  Forall (λ x, ¬ P x) l → filter P l = [].
Proof. induction 1; [done|]. by rewrite filter_cons_False. Qed.
End lists.

(** ** Lemmas on machine integers *)

Section integers.
Lemma wrap_range w z : 0 <= w → is_unsigned w (wrap w z).
Proof. intros. apply Z.mod_pos_bound. lia. Qed.

Lemma wrap_id w z : is_unsigned w z → wrap w z = z.
Proof. apply Z.mod_small. Qed.

Lemma wrap_wrap w z : wrap w (wrap w z) = wrap w z.
Proof. apply Zmod_mod. Qed.

Lemma wrap_add_l w a b : wrap w (wrap w a + b) = wrap w (a + b).
Proof. apply Zplus_mod_idemp_l. Qed.

Lemma lor_range w a b : 0 <= w → is_unsigned w a → is_unsigned w b → is_unsigned w (Z.lor a b).
Proof.
  intros Hw Ha Hb. split; [apply Z.lor_nonneg; split; [apply Ha|apply Hb]|].
  rewrite <- (wrap_id w a Ha), <- (wrap_id w b Hb). unfold wrap.
  rewrite <- !Z.land_ones, <- Z.land_lor_distr_l, Z.land_ones by lia. apply Z.mod_pos_bound. lia.
Qed.

Lemma swrap_id w z : is_signed w z → 0 < w → swrap w z = z.
Proof.
  unfold swrap, is_signed. intros ? ?. rewrite Z.mod_small; [lia|].
  replace (2 ^ w) with (2 * 2 ^ (w - 1)); [lia|].
  rewrite <- Z.pow_succ_r by lia. f_equal; lia.
Qed.

Lemma swrap_range w z : 0 < w → is_signed w (swrap w z).
Proof.
  intros. unfold swrap, is_signed.
  assert (Hw : 2 ^ w = 2 * 2 ^ (w - 1)) by (rewrite <- Z.pow_succ_r by lia; f_equal; lia).
  pose proof (Z.mod_pos_bound (z + 2 ^ (w - 1)) (2 ^ w)). lia.
Qed.
End integers.

Create HintDb ints.
#[export] Hint Resolve wrap_range swrap_range : ints.
#[export] Hint Rewrite wrap_wrap : ints.
