(* ===== verification/Exceptions.v ===== *)
(** * Exceptions (exceptions.hpp, exceptions.cpp)

    The exception classes the chain library throws, their numeric codes and
    their inheritance, and the switch [EOS_THROW] goes through in this code
    base: the macro calls [vm_api_throw_exception] with the enumerator of the
    class, and [fc_throw_exception] maps the enumerator back to a C++ throw. *)

From S2P Require Import Prelude.

(** The classes: those of fc and of the standard library that this code
    throws or that its switch names, then every [FC_DECLARE_EXCEPTION] and
    [FC_DECLARE_DERIVED_EXCEPTION] of exceptions.hpp in its order. *)
Inductive exception : Set :=
  (* std *)
  | std_out_of_range
  | std_logic_error
  (* fc *)
  | fc_exception
  | fc_timeout_exception
  | fc_file_not_found_exception
  | fc_parse_error_exception
  | fc_invalid_arg_exception
  | fc_key_not_found_exception
  | fc_bad_cast_exception
  | fc_out_of_range_exception
  | fc_invalid_operation_exception
  | fc_unknown_host_exception
  | fc_canceled_exception
  | fc_assert_exception
  | fc_eof_exception
  | fc_null_optional
  | fc_udt_exception
  | fc_aes_exception
  | fc_overflow_exception
  | fc_underflow_exception
  | fc_divide_by_zero_exception
  (* eosio::chain *)
  | chain_exception
  | chain_type_exception
  | name_type_exception
  | public_key_type_exception
  | private_key_type_exception
  | authority_type_exception
  | action_type_exception
  | transaction_type_exception
  | abi_type_exception
  | block_id_type_exception
  | transaction_id_type_exception
  | packed_transaction_type_exception
  | asset_type_exception
  | chain_id_type_exception
  | fixed_key_type_exception
  | symbol_type_exception
  | fork_database_exception
  | fork_db_block_not_found
  | block_validate_exception
  | unlinkable_block_exception
  | block_tx_output_exception
  | block_concurrency_exception
  | block_lock_exception
  | block_resource_exhausted
  | block_too_old_exception
  | block_from_the_future
  | wrong_signing_key
  | wrong_producer
  | transaction_exception
  | tx_decompression_error
  | tx_no_action
  | tx_no_auths
  | cfa_irrelevant_auth
  | expired_tx_exception
  | tx_exp_too_far_exception
  | invalid_ref_block_exception
  | tx_duplicate
  | deferred_tx_duplicate
  | cfa_inside_generated_tx
  | tx_not_found
  | too_many_tx_at_once
  | tx_too_big
  | unknown_transaction_compression
  | action_validate_exception
  | account_name_exists_exception
  | invalid_action_args_exception
  | eosio_assert_message_exception
  | eosio_assert_code_exception
  | action_not_found_exception
  | action_data_and_struct_mismatch
  | unaccessible_api
  | abort_called
  | inline_action_too_big
  | database_exception
  | permission_query_exception
  | account_query_exception
  | contract_table_query_exception
  | contract_query_exception
  | guard_exception
  | database_guard_exception
  | reversible_guard_exception
  | wasm_exception
  | page_memory_error
  | wasm_execution_error
  | wasm_serialization_error
  | overlapping_memory_error
  | binaryen_exception
  | resource_exhausted_exception
  | ram_usage_exceeded
  | tx_net_usage_exceeded
  | block_net_usage_exceeded
  | tx_cpu_usage_exceeded
  | block_cpu_usage_exceeded
  | deadline_exception
  | greylist_net_usage_exceeded
  | greylist_cpu_usage_exceeded
  | leeway_deadline_exception
  | authorization_exception
  | tx_duplicate_sig
  | tx_irrelevant_sig
  | unsatisfied_authorization
  | missing_auth_exception
  | irrelevant_auth_exception
  | insufficient_delay_exception
  | invalid_permission
  | unlinkable_min_permission_action
  | invalid_parent_permission
  | misc_exception
  | rate_limiting_state_inconsistent
  | unknown_block_exception
  | unknown_transaction_exception
  | fixed_reversible_db_exception
  | extract_genesis_state_exception
  | subjective_block_production_exception
  | multiple_voter_info
  | unsupported_feature
  | node_management_success
  | plugin_exception
  | missing_chain_api_plugin_exception
  | missing_wallet_api_plugin_exception
  | missing_history_api_plugin_exception
  | missing_net_api_plugin_exception
  | missing_chain_plugin_exception
  | plugin_config_exception
  | wallet_exception
  | wallet_exist_exception
  | wallet_nonexistent_exception
  | wallet_locked_exception
  | wallet_missing_pub_key_exception
  | wallet_invalid_password_exception
  | wallet_not_available_exception
  | wallet_unlocked_exception
  | key_exist_exception
  | key_nonexistent_exception
  | unsupported_key_type_exception
  | invalid_lock_timeout_exception
  | secure_enclave_exception
  | whitelist_blacklist_exception
  | actor_whitelist_exception
  | actor_blacklist_exception
  | contract_whitelist_exception
  | contract_blacklist_exception
  | action_blacklist_exception
  | key_blacklist_exception
  | controller_emit_signal_exception
  | checkpoint_exception
  | abi_exception
  | abi_not_found_exception
  | invalid_ricardian_clause_exception
  | invalid_ricardian_action_exception
  | invalid_type_inside_abi
  | duplicate_abi_type_def_exception
  | duplicate_abi_struct_def_exception
  | duplicate_abi_action_def_exception
  | duplicate_abi_table_def_exception
  | duplicate_abi_err_msg_def_exception
  | abi_serialization_deadline_exception
  | abi_recursion_depth_exception
  | abi_circular_def_exception
  | unpack_exception
  | pack_exception
  | duplicate_abi_variant_def_exception
  | unsupported_abi_version_exception
  | contract_exception
  | invalid_table_payer
  | table_access_violation
  | invalid_table_iterator
  | table_not_in_cache
  | table_operation_not_permitted
  | invalid_contract_vm_type
  | invalid_contract_vm_version
  | set_exact_code
  | wast_file_not_found
  | abi_file_not_found
  | producer_exception
  | producer_priv_key_not_found
  | missing_pending_block_state
  | producer_double_confirm
  | producer_schedule_exception
  | producer_not_in_schedule
  | snapshot_directory_not_found_exception
  | snapshot_exists_exception
  | reversible_blocks_exception
  | invalid_reversible_blocks_dir
  | reversible_blocks_backup_dir_exist
  | gap_in_reversible_blocks_db
  | block_log_exception
  | block_log_unsupported_version
  | block_log_append_fail
  | block_log_not_found
  | block_log_backup_dir_exist
  | http_exception
  | invalid_http_client_root_cert
  | invalid_http_response
  | resolved_to_multiple_ports
  | fail_to_resolve_host
  | http_request_fail
  | invalid_http_request
  | resource_limit_exception
  | mongo_db_exception
  | mongo_db_insert_fail
  | mongo_db_update_fail
  | contract_api_exception
  | crypto_api_exception
  | db_api_exception
  | arithmetic_exception
  | snapshot_exception
  | snapshot_validation_exception
  | abi_generation_exception
  (* thrown by fc, not an enumerator of the switch *)
  | fc_unhandled_exception
  (* std::ios_base::failure *)
  | std_ios_failure.

(** A number for each class, which stands for its enumerator. *)
Definition exception_tag (e : exception) : Z :=
  match e with
  | std_out_of_range => 0
  | std_logic_error => 1
  | fc_exception => 2
  | fc_timeout_exception => 3
  | fc_file_not_found_exception => 4
  | fc_parse_error_exception => 5
  | fc_invalid_arg_exception => 6
  | fc_key_not_found_exception => 7
  | fc_bad_cast_exception => 8
  | fc_out_of_range_exception => 9
  | fc_invalid_operation_exception => 10
  | fc_unknown_host_exception => 11
  | fc_canceled_exception => 12
  | fc_assert_exception => 13
  | fc_eof_exception => 14
  | fc_null_optional => 15
  | fc_udt_exception => 16
  | fc_aes_exception => 17
  | fc_overflow_exception => 18
  | fc_underflow_exception => 19
  | fc_divide_by_zero_exception => 20
  | chain_exception => 21
  | chain_type_exception => 22
  | name_type_exception => 23
  | public_key_type_exception => 24
  | private_key_type_exception => 25
  | authority_type_exception => 26
  | action_type_exception => 27
  | transaction_type_exception => 28
  | abi_type_exception => 29
  | block_id_type_exception => 30
  | transaction_id_type_exception => 31
  | packed_transaction_type_exception => 32
  | asset_type_exception => 33
  | chain_id_type_exception => 34
  | fixed_key_type_exception => 35
  | symbol_type_exception => 36
  | fork_database_exception => 37
  | fork_db_block_not_found => 38
  | block_validate_exception => 39
  | unlinkable_block_exception => 40
  | block_tx_output_exception => 41
  | block_concurrency_exception => 42
  | block_lock_exception => 43
  | block_resource_exhausted => 44
  | block_too_old_exception => 45
  | block_from_the_future => 46
  | wrong_signing_key => 47
  | wrong_producer => 48
  | transaction_exception => 49
  | tx_decompression_error => 50
  | tx_no_action => 51
  | tx_no_auths => 52
  | cfa_irrelevant_auth => 53
  | expired_tx_exception => 54
  | tx_exp_too_far_exception => 55
  | invalid_ref_block_exception => 56
  | tx_duplicate => 57
  | deferred_tx_duplicate => 58
  | cfa_inside_generated_tx => 59
  | tx_not_found => 60
  | too_many_tx_at_once => 61
  | tx_too_big => 62
  | unknown_transaction_compression => 63
  | action_validate_exception => 64
  | account_name_exists_exception => 65
  | invalid_action_args_exception => 66
  | eosio_assert_message_exception => 67
  | eosio_assert_code_exception => 68
  | action_not_found_exception => 69
  | action_data_and_struct_mismatch => 70
  | unaccessible_api => 71
  | abort_called => 72
  | inline_action_too_big => 73
  | database_exception => 74
  | permission_query_exception => 75
  | account_query_exception => 76
  | contract_table_query_exception => 77
  | contract_query_exception => 78
  | guard_exception => 79
  | database_guard_exception => 80
  | reversible_guard_exception => 81
  | wasm_exception => 82
  | page_memory_error => 83
  | wasm_execution_error => 84
  | wasm_serialization_error => 85
  | overlapping_memory_error => 86
  | binaryen_exception => 87
  | resource_exhausted_exception => 88
  | ram_usage_exceeded => 89
  | tx_net_usage_exceeded => 90
  | block_net_usage_exceeded => 91
  | tx_cpu_usage_exceeded => 92
  | block_cpu_usage_exceeded => 93
  | deadline_exception => 94
  | greylist_net_usage_exceeded => 95
  | greylist_cpu_usage_exceeded => 96
  | leeway_deadline_exception => 97
  | authorization_exception => 98
  | tx_duplicate_sig => 99
  | tx_irrelevant_sig => 100
  | unsatisfied_authorization => 101
  | missing_auth_exception => 102
  | irrelevant_auth_exception => 103
  | insufficient_delay_exception => 104
  | invalid_permission => 105
  | unlinkable_min_permission_action => 106
  | invalid_parent_permission => 107
  | misc_exception => 108
  | rate_limiting_state_inconsistent => 109
  | unknown_block_exception => 110
  | unknown_transaction_exception => 111
  | fixed_reversible_db_exception => 112
  | extract_genesis_state_exception => 113
  | subjective_block_production_exception => 114
  | multiple_voter_info => 115
  | unsupported_feature => 116
  | node_management_success => 117
  | plugin_exception => 118
  | missing_chain_api_plugin_exception => 119
  | missing_wallet_api_plugin_exception => 120
  | missing_history_api_plugin_exception => 121
  | missing_net_api_plugin_exception => 122
  | missing_chain_plugin_exception => 123
  | plugin_config_exception => 124
  | wallet_exception => 125
  | wallet_exist_exception => 126
  | wallet_nonexistent_exception => 127
  | wallet_locked_exception => 128
  | wallet_missing_pub_key_exception => 129
  | wallet_invalid_password_exception => 130
  | wallet_not_available_exception => 131
  | wallet_unlocked_exception => 132
  | key_exist_exception => 133
  | key_nonexistent_exception => 134
  | unsupported_key_type_exception => 135
  | invalid_lock_timeout_exception => 136
  | secure_enclave_exception => 137
  | whitelist_blacklist_exception => 138
  | actor_whitelist_exception => 139
  | actor_blacklist_exception => 140
  | contract_whitelist_exception => 141
  | contract_blacklist_exception => 142
  | action_blacklist_exception => 143
  | key_blacklist_exception => 144
  | controller_emit_signal_exception => 145
  | checkpoint_exception => 146
  | abi_exception => 147
  | abi_not_found_exception => 148
  | invalid_ricardian_clause_exception => 149
  | invalid_ricardian_action_exception => 150
  | invalid_type_inside_abi => 151
  | duplicate_abi_type_def_exception => 152
  | duplicate_abi_struct_def_exception => 153
  | duplicate_abi_action_def_exception => 154
  | duplicate_abi_table_def_exception => 155
  | duplicate_abi_err_msg_def_exception => 156
  | abi_serialization_deadline_exception => 157
  | abi_recursion_depth_exception => 158
  | abi_circular_def_exception => 159
  | unpack_exception => 160
  | pack_exception => 161
  | duplicate_abi_variant_def_exception => 162
  | unsupported_abi_version_exception => 163
  | contract_exception => 164
  | invalid_table_payer => 165
  | table_access_violation => 166
  | invalid_table_iterator => 167
  | table_not_in_cache => 168
  | table_operation_not_permitted => 169
  | invalid_contract_vm_type => 170
  | invalid_contract_vm_version => 171
  | set_exact_code => 172
  | wast_file_not_found => 173
  | abi_file_not_found => 174
  | producer_exception => 175
  | producer_priv_key_not_found => 176
  | missing_pending_block_state => 177
  | producer_double_confirm => 178
  | producer_schedule_exception => 179
  | producer_not_in_schedule => 180
  | snapshot_directory_not_found_exception => 181
  | snapshot_exists_exception => 182
  | reversible_blocks_exception => 183
  | invalid_reversible_blocks_dir => 184
  | reversible_blocks_backup_dir_exist => 185
  | gap_in_reversible_blocks_db => 186
  | block_log_exception => 187
  | block_log_unsupported_version => 188
  | block_log_append_fail => 189
  | block_log_not_found => 190
  | block_log_backup_dir_exist => 191
  | http_exception => 192
  | invalid_http_client_root_cert => 193
  | invalid_http_response => 194
  | resolved_to_multiple_ports => 195
  | fail_to_resolve_host => 196
  | http_request_fail => 197
  | invalid_http_request => 198
  | resource_limit_exception => 199
  | mongo_db_exception => 200
  | mongo_db_insert_fail => 201
  | mongo_db_update_fail => 202
  | contract_api_exception => 203
  | crypto_api_exception => 204
  | db_api_exception => 205
  | arithmetic_exception => 206
  | snapshot_exception => 207
  | snapshot_validation_exception => 208
  | abi_generation_exception => 209
  | fc_unhandled_exception => 210
  | std_ios_failure => 211
  end.

(** The code of a class of eosio::chain (third argument of the declaration). *)
Definition chain_code (e : exception) : option Z :=
  match e with
  | chain_exception => Some 3000000
  | chain_type_exception => Some 3010000
  | name_type_exception => Some 3010001
  | public_key_type_exception => Some 3010002
  | private_key_type_exception => Some 3010003
  | authority_type_exception => Some 3010004
  | action_type_exception => Some 3010005
  | transaction_type_exception => Some 3010006
  | abi_type_exception => Some 3010007
  | block_id_type_exception => Some 3010008
  | transaction_id_type_exception => Some 3010009
  | packed_transaction_type_exception => Some 3010010
  | asset_type_exception => Some 3010011
  | chain_id_type_exception => Some 3010012
  | fixed_key_type_exception => Some 3010013
  | symbol_type_exception => Some 3010014
  | fork_database_exception => Some 3020000
  | fork_db_block_not_found => Some 3020001
  | block_validate_exception => Some 3030000
  | unlinkable_block_exception => Some 3030001
  | block_tx_output_exception => Some 3030002
  | block_concurrency_exception => Some 3030003
  | block_lock_exception => Some 3030004
  | block_resource_exhausted => Some 3030005
  | block_too_old_exception => Some 3030006
  | block_from_the_future => Some 3030007
  | wrong_signing_key => Some 3030008
  | wrong_producer => Some 3030009
  | transaction_exception => Some 3040000
  | tx_decompression_error => Some 3040001
  | tx_no_action => Some 3040002
  | tx_no_auths => Some 3040003
  | cfa_irrelevant_auth => Some 3040004
  | expired_tx_exception => Some 3040005
  | tx_exp_too_far_exception => Some 3040006
  | invalid_ref_block_exception => Some 3040007
  | tx_duplicate => Some 3040008
  | deferred_tx_duplicate => Some 3040009
  | cfa_inside_generated_tx => Some 3040010
  | tx_not_found => Some 3040011
  | too_many_tx_at_once => Some 3040012
  | tx_too_big => Some 3040013
  | unknown_transaction_compression => Some 3040014
  | action_validate_exception => Some 3050000
  | account_name_exists_exception => Some 3050001
  | invalid_action_args_exception => Some 3050002
  | eosio_assert_message_exception => Some 3050003
  | eosio_assert_code_exception => Some 3050004
  | action_not_found_exception => Some 3050005
  | action_data_and_struct_mismatch => Some 3050006
  | unaccessible_api => Some 3050007
  | abort_called => Some 3050008
  | inline_action_too_big => Some 3050009
  | database_exception => Some 3060000
  | permission_query_exception => Some 3060001
  | account_query_exception => Some 3060002
  | contract_table_query_exception => Some 3060003
  | contract_query_exception => Some 3060004
  | guard_exception => Some 3060100
  | database_guard_exception => Some 3060101
  | reversible_guard_exception => Some 3060102
  | wasm_exception => Some 3070000
  | page_memory_error => Some 3070001
  | wasm_execution_error => Some 3070002
  | wasm_serialization_error => Some 3070003
  | overlapping_memory_error => Some 3070004
  | binaryen_exception => Some 3070005
  | resource_exhausted_exception => Some 3080000
  | ram_usage_exceeded => Some 3080001
  | tx_net_usage_exceeded => Some 3080002
  | block_net_usage_exceeded => Some 3080003
  | tx_cpu_usage_exceeded => Some 3080004
  | block_cpu_usage_exceeded => Some 3080005
  | deadline_exception => Some 3080006
  | greylist_net_usage_exceeded => Some 3080007
  | greylist_cpu_usage_exceeded => Some 3080008
  | leeway_deadline_exception => Some 3081001
  | authorization_exception => Some 3090000
  | tx_duplicate_sig => Some 3090001
  | tx_irrelevant_sig => Some 3090002
  | unsatisfied_authorization => Some 3090003
  | missing_auth_exception => Some 3090004
  | irrelevant_auth_exception => Some 3090005
  | insufficient_delay_exception => Some 3090006
  | invalid_permission => Some 3090007
  | unlinkable_min_permission_action => Some 3090008
  | invalid_parent_permission => Some 3090009
  | misc_exception => Some 3100000
  | rate_limiting_state_inconsistent => Some 3100001
  | unknown_block_exception => Some 3100002
  | unknown_transaction_exception => Some 3100003
  | fixed_reversible_db_exception => Some 3100004
  | extract_genesis_state_exception => Some 3100005
  | subjective_block_production_exception => Some 3100006
  | multiple_voter_info => Some 3100007
  | unsupported_feature => Some 3100008
  | node_management_success => Some 3100009
  | plugin_exception => Some 3110000
  | missing_chain_api_plugin_exception => Some 3110001
  | missing_wallet_api_plugin_exception => Some 3110002
  | missing_history_api_plugin_exception => Some 3110003
  | missing_net_api_plugin_exception => Some 3110004
  | missing_chain_plugin_exception => Some 3110005
  | plugin_config_exception => Some 3110006
  | wallet_exception => Some 3120000
  | wallet_exist_exception => Some 3120001
  | wallet_nonexistent_exception => Some 3120002
  | wallet_locked_exception => Some 3120003
  | wallet_missing_pub_key_exception => Some 3120004
  | wallet_invalid_password_exception => Some 3120005
  | wallet_not_available_exception => Some 3120006
  | wallet_unlocked_exception => Some 3120007
  | key_exist_exception => Some 3120008
  | key_nonexistent_exception => Some 3120009
  | unsupported_key_type_exception => Some 3120010
  | invalid_lock_timeout_exception => Some 3120011
  | secure_enclave_exception => Some 3120012
  | whitelist_blacklist_exception => Some 3130000
  | actor_whitelist_exception => Some 3130001
  | actor_blacklist_exception => Some 3130002
  | contract_whitelist_exception => Some 3130003
  | contract_blacklist_exception => Some 3130004
  | action_blacklist_exception => Some 3130005
  | key_blacklist_exception => Some 3130006
  | controller_emit_signal_exception => Some 3140000
  | checkpoint_exception => Some 3140001
  | abi_exception => Some 3015000
  | abi_not_found_exception => Some 3015001
  | invalid_ricardian_clause_exception => Some 3015002
  | invalid_ricardian_action_exception => Some 3015003
  | invalid_type_inside_abi => Some 3015004
  | duplicate_abi_type_def_exception => Some 3015005
  | duplicate_abi_struct_def_exception => Some 3015006
  | duplicate_abi_action_def_exception => Some 3015007
  | duplicate_abi_table_def_exception => Some 3015008
  | duplicate_abi_err_msg_def_exception => Some 3015009
  | abi_serialization_deadline_exception => Some 3015010
  | abi_recursion_depth_exception => Some 3015011
  | abi_circular_def_exception => Some 3015012
  | unpack_exception => Some 3015013
  | pack_exception => Some 3015014
  | duplicate_abi_variant_def_exception => Some 3015015
  | unsupported_abi_version_exception => Some 3015016
  | contract_exception => Some 3160000
  | invalid_table_payer => Some 3160001
  | table_access_violation => Some 3160002
  | invalid_table_iterator => Some 3160003
  | table_not_in_cache => Some 3160004
  | table_operation_not_permitted => Some 3160005
  | invalid_contract_vm_type => Some 3160006
  | invalid_contract_vm_version => Some 3160007
  | set_exact_code => Some 3160008
  | wast_file_not_found => Some 3160009
  | abi_file_not_found => Some 3160010
  | producer_exception => Some 3170000
  | producer_priv_key_not_found => Some 3170001
  | missing_pending_block_state => Some 3170002
  | producer_double_confirm => Some 3170003
  | producer_schedule_exception => Some 3170004
  | producer_not_in_schedule => Some 3170006
  | snapshot_directory_not_found_exception => Some 3170007
  | snapshot_exists_exception => Some 3170008
  | reversible_blocks_exception => Some 3180000
  | invalid_reversible_blocks_dir => Some 3180001
  | reversible_blocks_backup_dir_exist => Some 3180002
  | gap_in_reversible_blocks_db => Some 3180003
  | block_log_exception => Some 3190000
  | block_log_unsupported_version => Some 3190001
  | block_log_append_fail => Some 3190002
  | block_log_not_found => Some 3190003
  | block_log_backup_dir_exist => Some 3190004
  | http_exception => Some 3200000
  | invalid_http_client_root_cert => Some 3200001
  | invalid_http_response => Some 3200002
  | resolved_to_multiple_ports => Some 3200003
  | fail_to_resolve_host => Some 3200004
  | http_request_fail => Some 3200005
  | invalid_http_request => Some 3200006
  | resource_limit_exception => Some 3210000
  | mongo_db_exception => Some 3220000
  | mongo_db_insert_fail => Some 3220001
  | mongo_db_update_fail => Some 3220002
  | contract_api_exception => Some 3230000
  | crypto_api_exception => Some 3230001
  | db_api_exception => Some 3230002
  | arithmetic_exception => Some 3230003
  | snapshot_exception => Some 3240000
  | snapshot_validation_exception => Some 3240001
  | abi_generation_exception => Some 999999
  | _ => None
  end.

(** The class a class is derived from: the second argument of
    [FC_DECLARE_DERIVED_EXCEPTION], and [fc::exception] for the classes of
    [FC_DECLARE_EXCEPTION]. *)
Definition base_class (e : exception) : option exception :=
  match e with
  | chain_type_exception => Some chain_exception
  | name_type_exception => Some chain_type_exception
  | public_key_type_exception => Some chain_type_exception
  | private_key_type_exception => Some chain_type_exception
  | authority_type_exception => Some chain_type_exception
  | action_type_exception => Some chain_type_exception
  | transaction_type_exception => Some chain_type_exception
  | abi_type_exception => Some chain_type_exception
  | block_id_type_exception => Some chain_type_exception
  | transaction_id_type_exception => Some chain_type_exception
  | packed_transaction_type_exception => Some chain_type_exception
  | asset_type_exception => Some chain_type_exception
  | chain_id_type_exception => Some chain_type_exception
  | fixed_key_type_exception => Some chain_type_exception
  | symbol_type_exception => Some chain_type_exception
  | fork_database_exception => Some chain_exception
  | fork_db_block_not_found => Some fork_database_exception
  | block_validate_exception => Some chain_exception
  | unlinkable_block_exception => Some block_validate_exception
  | block_tx_output_exception => Some block_validate_exception
  | block_concurrency_exception => Some block_validate_exception
  | block_lock_exception => Some block_validate_exception
  | block_resource_exhausted => Some block_validate_exception
  | block_too_old_exception => Some block_validate_exception
  | block_from_the_future => Some block_validate_exception
  | wrong_signing_key => Some block_validate_exception
  | wrong_producer => Some block_validate_exception
  | transaction_exception => Some chain_exception
  | tx_decompression_error => Some transaction_exception
  | tx_no_action => Some transaction_exception
  | tx_no_auths => Some transaction_exception
  | cfa_irrelevant_auth => Some transaction_exception
  | expired_tx_exception => Some transaction_exception
  | tx_exp_too_far_exception => Some transaction_exception
  | invalid_ref_block_exception => Some transaction_exception
  | tx_duplicate => Some transaction_exception
  | deferred_tx_duplicate => Some transaction_exception
  | cfa_inside_generated_tx => Some transaction_exception
  | tx_not_found => Some transaction_exception
  | too_many_tx_at_once => Some transaction_exception
  | tx_too_big => Some transaction_exception
  | unknown_transaction_compression => Some transaction_exception
  | action_validate_exception => Some chain_exception
  | account_name_exists_exception => Some action_validate_exception
  | invalid_action_args_exception => Some action_validate_exception
  | eosio_assert_message_exception => Some action_validate_exception
  | eosio_assert_code_exception => Some action_validate_exception
  | action_not_found_exception => Some action_validate_exception
  | action_data_and_struct_mismatch => Some action_validate_exception
  | unaccessible_api => Some action_validate_exception
  | abort_called => Some action_validate_exception
  | inline_action_too_big => Some action_validate_exception
  | database_exception => Some chain_exception
  | permission_query_exception => Some database_exception
  | account_query_exception => Some database_exception
  | contract_table_query_exception => Some database_exception
  | contract_query_exception => Some database_exception
  | guard_exception => Some database_exception
  | database_guard_exception => Some guard_exception
  | reversible_guard_exception => Some guard_exception
  | wasm_exception => Some chain_exception
  | page_memory_error => Some wasm_exception
  | wasm_execution_error => Some wasm_exception
  | wasm_serialization_error => Some wasm_exception
  | overlapping_memory_error => Some wasm_exception
  | binaryen_exception => Some wasm_exception
  | resource_exhausted_exception => Some chain_exception
  | ram_usage_exceeded => Some resource_exhausted_exception
  | tx_net_usage_exceeded => Some resource_exhausted_exception
  | block_net_usage_exceeded => Some resource_exhausted_exception
  | tx_cpu_usage_exceeded => Some resource_exhausted_exception
  | block_cpu_usage_exceeded => Some resource_exhausted_exception
  | deadline_exception => Some resource_exhausted_exception
  | greylist_net_usage_exceeded => Some resource_exhausted_exception
  | greylist_cpu_usage_exceeded => Some resource_exhausted_exception
  | leeway_deadline_exception => Some deadline_exception
  | authorization_exception => Some chain_exception
  | tx_duplicate_sig => Some authorization_exception
  | tx_irrelevant_sig => Some authorization_exception
  | unsatisfied_authorization => Some authorization_exception
  | missing_auth_exception => Some authorization_exception
  | irrelevant_auth_exception => Some authorization_exception
  | insufficient_delay_exception => Some authorization_exception
  | invalid_permission => Some authorization_exception
  | unlinkable_min_permission_action => Some authorization_exception
  | invalid_parent_permission => Some authorization_exception
  | misc_exception => Some chain_exception
  | rate_limiting_state_inconsistent => Some misc_exception
  | unknown_block_exception => Some misc_exception
  | unknown_transaction_exception => Some misc_exception
  | fixed_reversible_db_exception => Some misc_exception
  | extract_genesis_state_exception => Some misc_exception
  | subjective_block_production_exception => Some misc_exception
  | multiple_voter_info => Some misc_exception
  | unsupported_feature => Some misc_exception
  | node_management_success => Some misc_exception
  | plugin_exception => Some chain_exception
  | missing_chain_api_plugin_exception => Some plugin_exception
  | missing_wallet_api_plugin_exception => Some plugin_exception
  | missing_history_api_plugin_exception => Some plugin_exception
  | missing_net_api_plugin_exception => Some plugin_exception
  | missing_chain_plugin_exception => Some plugin_exception
  | plugin_config_exception => Some plugin_exception
  | wallet_exception => Some chain_exception
  | wallet_exist_exception => Some wallet_exception
  | wallet_nonexistent_exception => Some wallet_exception
  | wallet_locked_exception => Some wallet_exception
  | wallet_missing_pub_key_exception => Some wallet_exception
  | wallet_invalid_password_exception => Some wallet_exception
  | wallet_not_available_exception => Some wallet_exception
  | wallet_unlocked_exception => Some wallet_exception
  | key_exist_exception => Some wallet_exception
  | key_nonexistent_exception => Some wallet_exception
  | unsupported_key_type_exception => Some wallet_exception
  | invalid_lock_timeout_exception => Some wallet_exception
  | secure_enclave_exception => Some wallet_exception
  | whitelist_blacklist_exception => Some chain_exception
  | actor_whitelist_exception => Some whitelist_blacklist_exception
  | actor_blacklist_exception => Some whitelist_blacklist_exception
  | contract_whitelist_exception => Some whitelist_blacklist_exception
  | contract_blacklist_exception => Some whitelist_blacklist_exception
  | action_blacklist_exception => Some whitelist_blacklist_exception
  | key_blacklist_exception => Some whitelist_blacklist_exception
  | controller_emit_signal_exception => Some chain_exception
  | checkpoint_exception => Some controller_emit_signal_exception
  | abi_exception => Some chain_exception
  | abi_not_found_exception => Some abi_exception
  | invalid_ricardian_clause_exception => Some abi_exception
  | invalid_ricardian_action_exception => Some abi_exception
  | invalid_type_inside_abi => Some abi_exception
  | duplicate_abi_type_def_exception => Some abi_exception
  | duplicate_abi_struct_def_exception => Some abi_exception
  | duplicate_abi_action_def_exception => Some abi_exception
  | duplicate_abi_table_def_exception => Some abi_exception
  | duplicate_abi_err_msg_def_exception => Some abi_exception
  | abi_serialization_deadline_exception => Some abi_exception
  | abi_recursion_depth_exception => Some abi_exception
  | abi_circular_def_exception => Some abi_exception
  | unpack_exception => Some abi_exception
  | pack_exception => Some abi_exception
  | duplicate_abi_variant_def_exception => Some abi_exception
  | unsupported_abi_version_exception => Some abi_exception
  | contract_exception => Some chain_exception
  | invalid_table_payer => Some contract_exception
  | table_access_violation => Some contract_exception
  | invalid_table_iterator => Some contract_exception
  | table_not_in_cache => Some contract_exception
  | table_operation_not_permitted => Some contract_exception
  | invalid_contract_vm_type => Some contract_exception
  | invalid_contract_vm_version => Some contract_exception
  | set_exact_code => Some contract_exception
  | wast_file_not_found => Some contract_exception
  | abi_file_not_found => Some contract_exception
  | producer_exception => Some chain_exception
  | producer_priv_key_not_found => Some producer_exception
  | missing_pending_block_state => Some producer_exception
  | producer_double_confirm => Some producer_exception
  | producer_schedule_exception => Some producer_exception
  | producer_not_in_schedule => Some producer_exception
  | snapshot_directory_not_found_exception => Some producer_exception
  | snapshot_exists_exception => Some producer_exception
  | reversible_blocks_exception => Some chain_exception
  | invalid_reversible_blocks_dir => Some reversible_blocks_exception
  | reversible_blocks_backup_dir_exist => Some reversible_blocks_exception
  | gap_in_reversible_blocks_db => Some reversible_blocks_exception
  | block_log_exception => Some chain_exception
  | block_log_unsupported_version => Some block_log_exception
  | block_log_append_fail => Some block_log_exception
  | block_log_not_found => Some block_log_exception
  | block_log_backup_dir_exist => Some block_log_exception
  | http_exception => Some chain_exception
  | invalid_http_client_root_cert => Some http_exception
  | invalid_http_response => Some http_exception
  | resolved_to_multiple_ports => Some http_exception
  | fail_to_resolve_host => Some http_exception
  | http_request_fail => Some http_exception
  | invalid_http_request => Some http_exception
  | resource_limit_exception => Some chain_exception
  | mongo_db_exception => Some chain_exception
  | mongo_db_insert_fail => Some mongo_db_exception
  | mongo_db_update_fail => Some mongo_db_exception
  | contract_api_exception => Some chain_exception
  | crypto_api_exception => Some contract_api_exception
  | db_api_exception => Some contract_api_exception
  | arithmetic_exception => Some contract_api_exception
  | snapshot_exception => Some chain_exception
  | snapshot_validation_exception => Some snapshot_exception
  | std_out_of_range => Some std_logic_error
  | std_logic_error | std_ios_failure | fc_exception => None
  | _ => Some fc_exception
  end.

(** [fc_throw_exception] of exceptions.cpp: the class that is thrown for the
    enumerator of [e].  A class the switch does not name falls to [default]
    and is thrown as a plain [fc::exception]. *)
Definition fc_throw_exception (e : exception) : exception :=
  match e with
  | fc_exception => fc_exception
  | fc_timeout_exception => fc_timeout_exception
  | fc_file_not_found_exception => fc_file_not_found_exception
  | fc_parse_error_exception => fc_parse_error_exception
  | fc_invalid_arg_exception => fc_invalid_arg_exception
  | fc_key_not_found_exception => fc_key_not_found_exception
  | fc_bad_cast_exception => fc_bad_cast_exception
  | fc_out_of_range_exception => fc_out_of_range_exception
  | fc_invalid_operation_exception => fc_invalid_operation_exception
  | fc_unknown_host_exception => fc_unknown_host_exception
  | fc_canceled_exception => fc_canceled_exception
  | fc_assert_exception => fc_assert_exception
  | fc_eof_exception => fc_eof_exception
  | fc_null_optional => fc_null_optional
  | fc_udt_exception => fc_udt_exception
  | fc_aes_exception => fc_aes_exception
  | fc_overflow_exception => fc_overflow_exception
  | fc_underflow_exception => fc_underflow_exception
  | fc_divide_by_zero_exception => fc_divide_by_zero_exception
  | chain_type_exception => chain_type_exception
  | name_type_exception => name_type_exception
  | public_key_type_exception => public_key_type_exception
  | private_key_type_exception => private_key_type_exception
  | authority_type_exception => authority_type_exception
  | action_type_exception => action_type_exception
  | transaction_type_exception => transaction_type_exception
  | abi_type_exception => abi_type_exception
  | block_id_type_exception => block_id_type_exception
  | transaction_id_type_exception => transaction_id_type_exception
  | packed_transaction_type_exception => packed_transaction_type_exception
  | asset_type_exception => asset_type_exception
  | chain_id_type_exception => chain_id_type_exception
  | fixed_key_type_exception => fixed_key_type_exception
  | symbol_type_exception => symbol_type_exception
  | fork_database_exception => fork_database_exception
  | fork_db_block_not_found => fork_db_block_not_found
  | block_validate_exception => block_validate_exception
  | unlinkable_block_exception => unlinkable_block_exception
  | block_tx_output_exception => block_tx_output_exception
  | block_concurrency_exception => block_concurrency_exception
  | block_lock_exception => block_lock_exception
  | block_resource_exhausted => block_resource_exhausted
  | block_too_old_exception => block_too_old_exception
  | block_from_the_future => block_from_the_future
  | wrong_signing_key => wrong_signing_key
  | wrong_producer => wrong_producer
  | transaction_exception => transaction_exception
  | tx_decompression_error => tx_decompression_error
  | tx_no_action => tx_no_action
  | tx_no_auths => tx_no_auths
  | cfa_irrelevant_auth => cfa_irrelevant_auth
  | expired_tx_exception => expired_tx_exception
  | tx_exp_too_far_exception => tx_exp_too_far_exception
  | invalid_ref_block_exception => invalid_ref_block_exception
  | tx_duplicate => tx_duplicate
  | deferred_tx_duplicate => deferred_tx_duplicate
  | cfa_inside_generated_tx => cfa_inside_generated_tx
  | tx_not_found => tx_not_found
  | too_many_tx_at_once => too_many_tx_at_once
  | tx_too_big => tx_too_big
  | unknown_transaction_compression => unknown_transaction_compression
  | action_validate_exception => action_validate_exception
  | account_name_exists_exception => account_name_exists_exception
  | invalid_action_args_exception => invalid_action_args_exception
  | eosio_assert_message_exception => eosio_assert_message_exception
  | eosio_assert_code_exception => eosio_assert_code_exception
  | action_not_found_exception => action_not_found_exception
  | action_data_and_struct_mismatch => action_data_and_struct_mismatch
  | unaccessible_api => unaccessible_api
  | abort_called => abort_called
  | inline_action_too_big => inline_action_too_big
  | database_exception => database_exception
  | permission_query_exception => permission_query_exception
  | account_query_exception => account_query_exception
  | contract_table_query_exception => contract_table_query_exception
  | contract_query_exception => contract_query_exception
  | guard_exception => guard_exception
  | database_guard_exception => database_guard_exception
  | reversible_guard_exception => reversible_guard_exception
  | wasm_exception => wasm_exception
  | page_memory_error => page_memory_error
  | wasm_execution_error => wasm_execution_error
  | wasm_serialization_error => wasm_serialization_error
  | overlapping_memory_error => overlapping_memory_error
  | binaryen_exception => binaryen_exception
  | resource_exhausted_exception => resource_exhausted_exception
  | ram_usage_exceeded => ram_usage_exceeded
  | tx_net_usage_exceeded => tx_net_usage_exceeded
  | block_net_usage_exceeded => block_net_usage_exceeded
  | tx_cpu_usage_exceeded => tx_cpu_usage_exceeded
  | block_cpu_usage_exceeded => block_cpu_usage_exceeded
  | deadline_exception => deadline_exception
  | greylist_net_usage_exceeded => greylist_net_usage_exceeded
  | greylist_cpu_usage_exceeded => greylist_cpu_usage_exceeded
  | leeway_deadline_exception => leeway_deadline_exception
  | authorization_exception => authorization_exception
  | tx_duplicate_sig => tx_duplicate_sig
  | tx_irrelevant_sig => tx_irrelevant_sig
  | unsatisfied_authorization => unsatisfied_authorization
  | missing_auth_exception => missing_auth_exception
  | irrelevant_auth_exception => irrelevant_auth_exception
  | insufficient_delay_exception => insufficient_delay_exception
  | invalid_permission => invalid_permission
  | unlinkable_min_permission_action => unlinkable_min_permission_action
  | invalid_parent_permission => invalid_parent_permission
  | misc_exception => misc_exception
  | rate_limiting_state_inconsistent => rate_limiting_state_inconsistent
  | unknown_block_exception => unknown_block_exception
  | unknown_transaction_exception => unknown_transaction_exception
  | fixed_reversible_db_exception => fixed_reversible_db_exception
  | extract_genesis_state_exception => extract_genesis_state_exception
  | subjective_block_production_exception => subjective_block_production_exception
  | multiple_voter_info => multiple_voter_info
  | unsupported_feature => unsupported_feature
  | node_management_success => node_management_success
  | plugin_exception => plugin_exception
  | missing_chain_api_plugin_exception => missing_chain_api_plugin_exception
  | missing_wallet_api_plugin_exception => missing_wallet_api_plugin_exception
  | missing_history_api_plugin_exception => missing_history_api_plugin_exception
  | missing_net_api_plugin_exception => missing_net_api_plugin_exception
  | missing_chain_plugin_exception => missing_chain_plugin_exception
  | plugin_config_exception => plugin_config_exception
  | wallet_exception => wallet_exception
  | wallet_exist_exception => wallet_exist_exception
  | wallet_nonexistent_exception => wallet_nonexistent_exception
  | wallet_locked_exception => wallet_locked_exception
  | wallet_missing_pub_key_exception => wallet_missing_pub_key_exception
  | wallet_invalid_password_exception => wallet_invalid_password_exception
  | wallet_not_available_exception => wallet_not_available_exception
  | wallet_unlocked_exception => wallet_unlocked_exception
  | key_exist_exception => key_exist_exception
  | key_nonexistent_exception => key_nonexistent_exception
  | unsupported_key_type_exception => unsupported_key_type_exception
  | invalid_lock_timeout_exception => invalid_lock_timeout_exception
  | secure_enclave_exception => secure_enclave_exception
  | whitelist_blacklist_exception => whitelist_blacklist_exception
  | actor_whitelist_exception => actor_whitelist_exception
  | actor_blacklist_exception => actor_blacklist_exception
  | contract_whitelist_exception => contract_whitelist_exception
  | contract_blacklist_exception => contract_blacklist_exception
  | action_blacklist_exception => action_blacklist_exception
  | key_blacklist_exception => key_blacklist_exception
  | controller_emit_signal_exception => controller_emit_signal_exception
  | checkpoint_exception => checkpoint_exception
  | abi_exception => abi_exception
  | abi_not_found_exception => abi_not_found_exception
  | invalid_ricardian_clause_exception => invalid_ricardian_clause_exception
  | invalid_ricardian_action_exception => invalid_ricardian_action_exception
  | invalid_type_inside_abi => invalid_type_inside_abi
  | duplicate_abi_type_def_exception => duplicate_abi_type_def_exception
  | duplicate_abi_struct_def_exception => duplicate_abi_struct_def_exception
  | duplicate_abi_action_def_exception => duplicate_abi_action_def_exception
  | duplicate_abi_table_def_exception => duplicate_abi_table_def_exception
  | duplicate_abi_err_msg_def_exception => duplicate_abi_err_msg_def_exception
  | abi_serialization_deadline_exception => abi_serialization_deadline_exception
  | abi_recursion_depth_exception => abi_recursion_depth_exception
  | abi_circular_def_exception => abi_circular_def_exception
  | unpack_exception => unpack_exception
  | pack_exception => pack_exception
  | duplicate_abi_variant_def_exception => duplicate_abi_variant_def_exception
  | unsupported_abi_version_exception => unsupported_abi_version_exception
  | contract_exception => contract_exception
  | invalid_table_payer => invalid_table_payer
  | table_access_violation => table_access_violation
  | invalid_table_iterator => invalid_table_iterator
  | table_not_in_cache => table_not_in_cache
  | table_operation_not_permitted => table_operation_not_permitted
  | invalid_contract_vm_type => invalid_contract_vm_type
  | invalid_contract_vm_version => invalid_contract_vm_version
  | set_exact_code => set_exact_code
  | wast_file_not_found => wast_file_not_found
  | abi_file_not_found => abi_file_not_found
  | producer_exception => producer_exception
  | producer_priv_key_not_found => producer_priv_key_not_found
  | missing_pending_block_state => missing_pending_block_state
  | producer_double_confirm => producer_double_confirm
  | producer_schedule_exception => producer_schedule_exception
  | producer_not_in_schedule => producer_not_in_schedule
  | reversible_blocks_exception => reversible_blocks_exception
  | invalid_reversible_blocks_dir => invalid_reversible_blocks_dir
  | reversible_blocks_backup_dir_exist => reversible_blocks_backup_dir_exist
  | gap_in_reversible_blocks_db => gap_in_reversible_blocks_db
  | block_log_exception => block_log_exception
  | block_log_unsupported_version => block_log_unsupported_version
  | block_log_append_fail => block_log_append_fail
  | block_log_not_found => block_log_not_found
  | block_log_backup_dir_exist => block_log_backup_dir_exist
  | http_exception => http_exception
  | invalid_http_client_root_cert => invalid_http_client_root_cert
  | invalid_http_response => invalid_http_response
  | resolved_to_multiple_ports => resolved_to_multiple_ports
  | fail_to_resolve_host => fail_to_resolve_host
  | http_request_fail => http_request_fail
  | invalid_http_request => invalid_http_request
  | resource_limit_exception => resource_limit_exception
  | mongo_db_exception => mongo_db_exception
  | mongo_db_insert_fail => mongo_db_insert_fail
  | mongo_db_update_fail => mongo_db_update_fail
  | contract_api_exception => contract_api_exception
  | crypto_api_exception => crypto_api_exception
  | db_api_exception => db_api_exception
  | arithmetic_exception => arithmetic_exception
  | abi_generation_exception => abi_generation_exception
  | _ => fc_exception
  end.

(** Every class, in the order of its tag. *)
Definition exceptions : list exception :=
  [
    std_out_of_range; std_logic_error; fc_exception; fc_timeout_exception;
    fc_file_not_found_exception; fc_parse_error_exception; fc_invalid_arg_exception;
    fc_key_not_found_exception; fc_bad_cast_exception; fc_out_of_range_exception;
    fc_invalid_operation_exception; fc_unknown_host_exception; fc_canceled_exception;
    fc_assert_exception; fc_eof_exception; fc_null_optional; fc_udt_exception;
    fc_aes_exception; fc_overflow_exception; fc_underflow_exception;
    fc_divide_by_zero_exception; chain_exception; chain_type_exception;
    name_type_exception; public_key_type_exception; private_key_type_exception;
    authority_type_exception; action_type_exception; transaction_type_exception;
    abi_type_exception; block_id_type_exception; transaction_id_type_exception;
    packed_transaction_type_exception; asset_type_exception; chain_id_type_exception;
    fixed_key_type_exception; symbol_type_exception; fork_database_exception;
    fork_db_block_not_found; block_validate_exception; unlinkable_block_exception;
    block_tx_output_exception; block_concurrency_exception; block_lock_exception;
    block_resource_exhausted; block_too_old_exception; block_from_the_future;
    wrong_signing_key; wrong_producer; transaction_exception; tx_decompression_error;
    tx_no_action; tx_no_auths; cfa_irrelevant_auth; expired_tx_exception;
    tx_exp_too_far_exception; invalid_ref_block_exception; tx_duplicate;
    deferred_tx_duplicate; cfa_inside_generated_tx; tx_not_found; too_many_tx_at_once;
    tx_too_big; unknown_transaction_compression; action_validate_exception;
    account_name_exists_exception; invalid_action_args_exception;
    eosio_assert_message_exception; eosio_assert_code_exception;
    action_not_found_exception; action_data_and_struct_mismatch; unaccessible_api;
    abort_called; inline_action_too_big; database_exception;
    permission_query_exception; account_query_exception;
    contract_table_query_exception; contract_query_exception; guard_exception;
    database_guard_exception; reversible_guard_exception; wasm_exception;
    page_memory_error; wasm_execution_error; wasm_serialization_error;
    overlapping_memory_error; binaryen_exception; resource_exhausted_exception;
    ram_usage_exceeded; tx_net_usage_exceeded; block_net_usage_exceeded;
    tx_cpu_usage_exceeded; block_cpu_usage_exceeded; deadline_exception;
    greylist_net_usage_exceeded; greylist_cpu_usage_exceeded;
    leeway_deadline_exception; authorization_exception; tx_duplicate_sig;
    tx_irrelevant_sig; unsatisfied_authorization; missing_auth_exception;
    irrelevant_auth_exception; insufficient_delay_exception; invalid_permission;
    unlinkable_min_permission_action; invalid_parent_permission; misc_exception;
    rate_limiting_state_inconsistent; unknown_block_exception;
    unknown_transaction_exception; fixed_reversible_db_exception;
    extract_genesis_state_exception; subjective_block_production_exception;
    multiple_voter_info; unsupported_feature; node_management_success;
    plugin_exception; missing_chain_api_plugin_exception;
    missing_wallet_api_plugin_exception; missing_history_api_plugin_exception;
    missing_net_api_plugin_exception; missing_chain_plugin_exception;
    plugin_config_exception; wallet_exception; wallet_exist_exception;
    wallet_nonexistent_exception; wallet_locked_exception;
    wallet_missing_pub_key_exception; wallet_invalid_password_exception;
    wallet_not_available_exception; wallet_unlocked_exception; key_exist_exception;
    key_nonexistent_exception; unsupported_key_type_exception;
    invalid_lock_timeout_exception; secure_enclave_exception;
    whitelist_blacklist_exception; actor_whitelist_exception;
    actor_blacklist_exception; contract_whitelist_exception;
    contract_blacklist_exception; action_blacklist_exception; key_blacklist_exception;
    controller_emit_signal_exception; checkpoint_exception; abi_exception;
    abi_not_found_exception; invalid_ricardian_clause_exception;
    invalid_ricardian_action_exception; invalid_type_inside_abi;
    duplicate_abi_type_def_exception; duplicate_abi_struct_def_exception;
    duplicate_abi_action_def_exception; duplicate_abi_table_def_exception;
    duplicate_abi_err_msg_def_exception; abi_serialization_deadline_exception;
    abi_recursion_depth_exception; abi_circular_def_exception; unpack_exception;
    pack_exception; duplicate_abi_variant_def_exception;
    unsupported_abi_version_exception; contract_exception; invalid_table_payer;
    table_access_violation; invalid_table_iterator; table_not_in_cache;
    table_operation_not_permitted; invalid_contract_vm_type;
    invalid_contract_vm_version; set_exact_code; wast_file_not_found;
    abi_file_not_found; producer_exception; producer_priv_key_not_found;
    missing_pending_block_state; producer_double_confirm; producer_schedule_exception;
    producer_not_in_schedule; snapshot_directory_not_found_exception;
    snapshot_exists_exception; reversible_blocks_exception;
    invalid_reversible_blocks_dir; reversible_blocks_backup_dir_exist;
    gap_in_reversible_blocks_db; block_log_exception; block_log_unsupported_version;
    block_log_append_fail; block_log_not_found; block_log_backup_dir_exist;
    http_exception; invalid_http_client_root_cert; invalid_http_response;
    resolved_to_multiple_ports; fail_to_resolve_host; http_request_fail;
    invalid_http_request; resource_limit_exception; mongo_db_exception;
    mongo_db_insert_fail; mongo_db_update_fail; contract_api_exception;
    crypto_api_exception; db_api_exception; arithmetic_exception; snapshot_exception;
    snapshot_validation_exception; abi_generation_exception; fc_unhandled_exception; std_ios_failure].

(** [catch (const b&)] catches [e]: [e] is [b] or is derived from it.  The
    deepest class is four derivations below [fc::exception]. *)
Fixpoint derives_from_fuel (fuel : nat) (e b : exception) : bool :=
  (exception_tag e =? exception_tag b) ||
  match fuel, base_class e with
  | S fuel, Some e' => derives_from_fuel fuel e' b
  | _, _ => false
  end.
Definition derives_from (e b : exception) : bool := derives_from_fuel 4 e b.

Abbreviation res := (result exception).

(** [EOS_ASSERT] of this code base: the macro throws through the switch. *)
Definition EOS_THROW {A} (e : exception) : res A := Throw (fc_throw_exception e).
Definition EOS_ASSERT (c : bool) (e : exception) : res unit :=
  if c then Ok tt else EOS_THROW e.

(** ** Decidable equality *)

Lemma exceptions_tag e : exceptions !! Z.to_nat (exception_tag e) = Some e.
Proof. destruct e; reflexivity. Qed.

Lemma exceptions_complete e : e ∈ exceptions.
Proof. eapply list_elem_of_lookup_2, exceptions_tag. Qed.

#[global] Instance exception_tag_inj : Inj (=) (=) exception_tag.
Proof. intros e1 e2 H. apply (inj Some). by rewrite <- !exceptions_tag, H. Qed.

#[global] Instance exception_eq_dec : EqDecision exception.
Proof.
  refine (λ e1 e2, cast_if (decide (exception_tag e1 = exception_tag e2))); congruence || by apply (inj exception_tag).
Defined.

Lemma EOS_ASSERT_Ok c e u : EOS_ASSERT c e = Ok u ↔ c = true.
Proof. destruct c, u; cbn; naive_solver. Qed.

Lemma EOS_ASSERT_pass {A} c e (k : unit → res A) : c = true → (EOS_ASSERT c e ≫= k) = k tt.
Proof. by intros ->. Qed.

(** Passes an assertion of the goal whose condition [lia] proves. *)
Ltac pass_assert :=
  match goal with
  | |- context [EOS_ASSERT ?c ?e ≫= ?k] => rewrite (EOS_ASSERT_pass c e k) by lia
  end.

Lemma EOS_ASSERT_Throw c e e' : EOS_ASSERT c e = Throw e' ↔ c = false ∧ e' = fc_throw_exception e.
Proof. destruct c; cbn; unfold EOS_THROW; naive_solver. Qed.

(** Splits a failed computation into the places it can have failed at. *)
Ltac throw_cases :=
  repeat match goal with
  | H : (_ ≫= _) = Throw _ |- _ => apply bind_Throw in H as [H|(? & ? & H)]
  | H : EOS_ASSERT _ _ = Throw _ |- _ => apply EOS_ASSERT_Throw in H as [? ->]
  | H : mret _ = Throw _ |- _ => discriminate H
  | H : Ok _ = Throw _ |- _ => discriminate H
  end.

(** Opens every successful bind, assertion and lookup of the hypotheses; the
    development's step for code that returns a [res]. *)
Ltac simplify_res :=
  repeat first
    [ result_step
    | match goal with
      | H : EOS_ASSERT _ _ = Ok _ |- _ => apply EOS_ASSERT_Ok in H
      | H : EOS_THROW _ = Ok _ |- _ => discriminate H
      end ].

(** ** Properties *)

(** The classes the switch of [fc_throw_exception] does not name. *)
Definition undispatched : list exception :=
  [chain_exception; snapshot_directory_not_found_exception; snapshot_exists_exception;
   snapshot_exception; snapshot_validation_exception; std_out_of_range; std_logic_error;
   fc_unhandled_exception; std_ios_failure].

(** Throwing a class through the switch throws that very class, except for
    the classes the switch does not name (all the snapshot exceptions are among
    them), which are thrown as a plain [fc::exception]. *)
Theorem throw_dispatch e :
  fc_throw_exception e = if bool_decide (e ∈ undispatched) then fc_exception else e.
Proof. destruct e; vm_compute; reflexivity. Qed.

(** What is thrown through the switch is always a [fc::exception]. *)
Lemma thrown_fc e : derives_from (fc_throw_exception e) fc_exception = true.
Proof. destruct e; reflexivity. Qed.

Lemma chain_codes_NoDup : NoDup (omap chain_code exceptions).
Proof. apply (bool_decide_unpack _). vm_compute. exact I. Qed.

(** A code identifies its class: no two classes declared by exceptions.hpp
    share a code, so the code recorded in a trace determines what was thrown. *)
Theorem chain_code_injective e1 e2 c :
  chain_code e1 = Some c → chain_code e2 = Some c → e1 = e2.
Proof.
  intros H1 H2. eapply NoDup_omap_inj; eauto using chain_codes_NoDup, exceptions_complete.
Qed.

Lemma chain_code_injective_witness :
  chain_code deadline_exception = Some 3080006 ∧ deadline_exception = deadline_exception.
Proof. split; [reflexivity|]. apply (chain_code_injective _ _ 3080006); reflexivity. Defined.
