(* ===== verification/Name.v ===== *)
(** * Names (name.hpp, name.cpp)

    A name is a [uint64_t] that packs up to thirteen characters of a 32-letter
    alphabet: twelve chunks of five bits from the top, then one of four.  The
    file models the encoder [string_to_name], the decoder
    [name::operator string] and the validating setter [name::set], and proves
    that the decoder and the setter are inverse bijections. *)

From S2P Require Import Prelude Exceptions.

Definition NUL : ascii := ascii_of_N 0.
Definition chr (c : ascii) : Z := Z.of_N (N_of_ascii c).

(** [str[i]] of a NUL-terminated string whose characters are [s]. *)
Definition char_at (s : list ascii) (i : nat) : ascii := nth i s NUL.

(** The characters of [s] up to its first NUL: what a [const char*] denotes. *)
Fixpoint c_str (s : list ascii) : list ascii :=
  match s with
  | [] => []
  | c :: s => if bool_decide (c = NUL) then [] else c :: c_str s
  end.

Definition char_to_symbol (c : ascii) : Z :=
  if (97 <=? chr c) && (chr c <=? 122) then (chr c - 97) + 6
  else if (49 <=? chr c) && (chr c <=? 53) then (chr c - 49) + 1
  else 0.

(** The loop of [string_to_name] from index [i] with the accumulator [name];
    it runs at most twelve times, which is the fuel it is given. *)
Fixpoint string_to_name_loop (fuel : nat) (s : list ascii) (i : nat) (name : Z) : Z * nat :=
  match fuel with
  | O => (name, i)
  | S fuel =>
      if negb (bool_decide (char_at s i = NUL)) && (i <? 12)%nat then
        string_to_name_loop fuel s (S i)
          (Z.lor name (Z.shiftl (Z.land (char_to_symbol (char_at s i)) 0x1f)
                                (64 - 5 * (Z.of_nat i + 1))))
      else (name, i)
  end.

Definition string_to_name (s : list ascii) : Z :=
  let '(name, i) := string_to_name_loop 12 s 0 0 in
  if (i =? 12)%nat then Z.lor name (Z.land (char_to_symbol (char_at s 12)) 0x0F)
  else name.

(** The [N(X)] macro. *)
Definition N_ (s : string) : Z := string_to_name (String.list_ascii_of_string s).

Definition charmap : list ascii :=
  String.list_ascii_of_string ".12345abcdefghijklmnopqrstuvwxyz".
Definition charmap_at (d : Z) : ascii := nth (Z.to_nat d) charmap NUL.
Definition dot : ascii := charmap_at 0.

(** The loop of [name::operator string], [n] iterations from index [i]. *)
Fixpoint name_chars (n : nat) (i : nat) (tmp : Z) (str : list ascii) : list ascii :=
  match n with
  | O => str
  | S n =>
      let c := charmap_at (Z.land tmp (if (i =? 0)%nat then 0x0f else 0x1f)) in
      name_chars n (S i) (Z.shiftr tmp (if (i =? 0)%nat then 4 else 5)) (<[(12 - i)%nat := c]> str)
  end.

(** [boost::algorithm::trim_right_if] with the predicate [p]. *)
Fixpoint trim_right_if (p : ascii → bool) (s : list ascii) : list ascii :=
  match s with
  | [] => []
  | c :: s =>
      match trim_right_if p s with
      | [] => if p c then [] else [c]
      | s' => c :: s'
      end
  end.

Definition name_to_string (value : Z) : list ascii :=
  trim_right_if (λ c, bool_decide (c = dot)) (name_chars 13 0 value (replicate 13 dot)).

Definition name_set (s : list ascii) : res Z :=
  let len := Nat.min (length (c_str s)) 14 in
  EOS_ASSERT (len <=? 13)%nat name_type_exception;;
  let value := string_to_name s in
  EOS_ASSERT (bool_decide (name_to_string value = c_str s)) name_type_exception;;
  mret value.

Definition name_empty (value : Z) : bool := 0 =? value.

(** ** The encoder as a function of the thirteen symbols *)

Definition chunk_shift (i : nat) : Z := 64 - 5 * (Z.of_nat i + 1).

Fixpoint pack_symbols (n i : nat) (f : nat → Z) (name : Z) : Z :=
  match n with
  | O => Z.lor name (Z.land (f i) 0x0F)
  | S n => pack_symbols n (S i) f (Z.lor name (Z.shiftl (Z.land (f i) 0x1f) (chunk_shift i)))
  end.

Lemma char_to_symbol_NUL : char_to_symbol NUL = 0.
Proof. reflexivity. Qed.
Lemma char_to_symbol_dot : char_to_symbol dot = 0.
Proof. reflexivity. Qed.

Lemma pack_symbols_zero n i f name :
  (∀ j, (i <= j <= n + i)%nat → f j = 0) → pack_symbols n i f name = name.
Proof.
  revert i name; induction n as [|n IH]; intros i name Hf; cbn.
  - rewrite Hf by lia. apply Z.lor_0_r.
  - rewrite Hf by lia. rewrite Z.land_0_l, Z.shiftl_0_l, Z.lor_0_r.
    apply IH. intros; apply Hf; lia.
Qed.

Lemma char_at_overflow s i : (length s <= i)%nat → char_at s i = NUL.
Proof. apply nth_overflow. Qed.

Definition no_nul (s : list ascii) : Prop := Forall (λ c, c ≠ NUL) s.

Lemma char_at_no_nul s i : no_nul s → char_at s i = NUL → (length s <= i)%nat.
Proof.
  intros Hs Hi. destruct (decide (length s <= i)%nat) as [|Hlt]; [done|exfalso].
  eapply (Forall_forall (λ c, c ≠ NUL) s); [done| |exact Hi].
  apply list_elem_of_In, nth_In. lia.
Qed.

Lemma string_to_name_loop_pack fuel s i name :
  no_nul s → (fuel + i = 12)%nat →
  (let '(name', j) := string_to_name_loop fuel s i name in
   if (j =? 12)%nat then Z.lor name' (Z.land (char_to_symbol (char_at s 12)) 0x0F) else name')
  = pack_symbols fuel i (λ j, char_to_symbol (char_at s j)) name.
Proof.
  intros Hs. revert i name; induction fuel as [|fuel IH]; intros i name Hi; cbn -[char_at Nat.ltb Nat.eqb].
  - replace i with 12%nat by lia. done.
  - case_bool_decide as Hc; cbn -[char_at Nat.ltb Nat.eqb].
    + apply char_at_no_nul in Hc; [|done].
      rewrite (proj2 (Nat.eqb_neq i 12)) by lia.
      rewrite char_at_overflow, char_to_symbol_NUL, Z.land_0_l, Z.shiftl_0_l, Z.lor_0_r by done.
      symmetry. apply pack_symbols_zero. intros j ?. by rewrite char_at_overflow by lia.
    + rewrite (proj2 (Nat.ltb_lt i 12)) by lia. apply IH. lia.
Qed.

Lemma string_to_name_pack s :
  no_nul s → string_to_name s = pack_symbols 12 0 (λ j, char_to_symbol (char_at s j)) 0.
Proof. intros. by apply string_to_name_loop_pack. Qed.

(** ** The decoder as the list of the thirteen chunks *)

Definition chunk (v : Z) (i : nat) : Z :=
  if (i =? 12)%nat then Z.land v 0x0f else Z.land (Z.shiftr v (chunk_shift i)) 0x1f.

Lemma name_chars_chunks v :
  name_chars 13 0 v (replicate 13 dot) = map (λ i, charmap_at (chunk v i)) (seq 0 13).
Proof.
  cbn -[Z.land Z.shiftr charmap_at chunk].
  rewrite !Z.shiftr_shiftr by lia. reflexivity.
Qed.

Lemma land_ones_bound a n : 0 <= n → 0 <= Z.land a (Z.ones n) < 2 ^ n.
Proof. intros. rewrite Z.land_ones by done. apply Z.mod_pos_bound. lia. Qed.

Lemma chunk_bound v i : 0 <= chunk v i < 32.
Proof.
  unfold chunk. case_match.
  - pose proof (land_ones_bound v 4 ltac:(lia)). change (Z.ones 4) with 15 in *. lia.
  - apply (land_ones_bound _ 5). lia.
Qed.

Lemma charmap_symbol d : 0 <= d < 32 →
  char_to_symbol (charmap_at d) = d ∧ charmap_at d ≠ NUL.
Proof.
  intros Hd.
  assert (H : Forall (λ n, char_to_symbol (charmap_at (Z.of_nat n)) = Z.of_nat n ∧
                           charmap_at (Z.of_nat n) ≠ NUL) (seq 0 32)).
  { apply (bool_decide_unpack _). vm_compute. exact I. }
  rewrite Forall_forall in H. specialize (H (Z.to_nat d)). rewrite Z2Nat.id in H by lia.
  apply H. apply elem_of_seq. lia.
Qed.

Lemma no_nul_chunks v l : no_nul (map (λ i, charmap_at (chunk v i)) l).
Proof.
  apply Forall_map, Forall_true. intros i. apply charmap_symbol, chunk_bound.
Qed.

(** What trimming the right end keeps. *)
Lemma trim_right_if_spec p s :
  ∃ t, s = trim_right_if p s ++ t ∧ Forall (λ c, p c = true) t.
Proof.
  induction s as [|c s (t & Heq & Ht)]; [by exists []|]. cbn.
  destruct (trim_right_if p s) as [|c' s'] eqn:E; [|exists t; by rewrite Heq at 1].
  destruct (p c) eqn:Hp; [|exists t; by rewrite Heq at 1].
  exists (c :: s). split; [done|]. constructor; [done|]. by rewrite Heq.
Qed.

Lemma trim_symbol s i :
  char_to_symbol (char_at (trim_right_if (λ c, bool_decide (c = dot)) s) i)
  = char_to_symbol (char_at s i).
Proof.
  destruct (trim_right_if_spec (λ c, bool_decide (c = dot)) s) as (t & Heq & Ht).
  rewrite Heq at 2. unfold char_at at 2.
  set (s' := trim_right_if _ s) in *.
  destruct (decide (i < length s')%nat) as [Hi|Hi].
  { by rewrite app_nth1. }
  rewrite char_at_overflow, app_nth2 by lia. rewrite char_to_symbol_NUL. symmetry.
  destruct (nth_in_or_default (i - length s') t NUL) as [Hin| ->]; [|done].
  apply list_elem_of_In in Hin. rewrite Forall_forall in Ht.
  specialize (Ht _ Hin). apply bool_decide_eq_true in Ht. by rewrite Ht.
Qed.

Lemma no_nul_name_to_string v : no_nul (name_to_string v).
Proof.
  unfold name_to_string. rewrite name_chars_chunks.
  set (p := λ c, bool_decide (c = dot)).
  destruct (trim_right_if_spec p (map (λ i, charmap_at (chunk v i)) (seq 0 13))) as (t & Heq & _).
  pose proof (no_nul_chunks v (seq 0 13)) as Hn. rewrite Heq in Hn. by apply Forall_app in Hn as [? _].
Qed.

(** The symbols of the decoded string are the chunks of the value. *)
Lemma name_to_string_symbol v i :
  (i < 13)%nat → char_to_symbol (char_at (name_to_string v) i) = chunk v i.
Proof.
  intros Hi. unfold name_to_string. rewrite trim_symbol, name_chars_chunks.
  unfold char_at.
  rewrite (nth_indep _ NUL (charmap_at (chunk v 0))) by (by rewrite length_map, length_seq).
  rewrite (map_nth (λ i, charmap_at (chunk v i))), seq_nth by done.
  apply charmap_symbol, chunk_bound.
Qed.

(** One more chunk below the bits already packed. *)
Lemma pack_chunk v k :
  0 <= k →
  Z.lor (Z.shiftl (Z.shiftr v (k + 5)) (k + 5)) (Z.shiftl (Z.land (Z.shiftr v k) 0x1f) k)
  = Z.shiftl (Z.shiftr v k) k.
Proof.
  intros Hk. change 0x1f with (Z.ones 5). apply Z.bits_inj'; intros n Hn.
  rewrite Z.lor_spec, !Z.shiftl_spec by lia.
  destruct (Z.lt_ge_cases n k) as [Hlt|Hge].
  { by rewrite !(Z.testbit_neg_r _ (n - _)) by lia. }
  rewrite Z.land_spec, !(Z.shiftr_spec v k) by lia.
  destruct (Z.lt_ge_cases n (k + 5)) as [Hlt'|Hge'].
  - rewrite (Z.testbit_neg_r _ (n - (k + 5))), Z.ones_spec_low, andb_true_r by lia. f_equal; lia.
  - rewrite Z.ones_spec_high, andb_false_r, orb_false_r by lia.
    rewrite Z.shiftr_spec by lia. f_equal; lia.
Qed.

Lemma pack_symbols_chunks n i f v :
  (n + i = 12)%nat → (∀ j, (j < 13)%nat → f j = chunk v j) →
  pack_symbols n i f (Z.shiftl (Z.shiftr v (chunk_shift i + 5)) (chunk_shift i + 5)) = v.
Proof.
  revert i; induction n as [|n IH]; intros i Hi Hf; cbn -[chunk Z.shiftl Z.shiftr].
  - replace i with 12%nat in * by lia. rewrite Hf by lia.
    change (chunk_shift 12 + 5) with 4. change (chunk v 12) with (Z.land v (Z.ones 4)).
    change 15 with (Z.ones 4). apply Z.bits_inj'; intros m Hm.
    rewrite Z.lor_spec, !Z.land_spec, Z.shiftl_spec by lia.
    destruct (Z.lt_ge_cases m 4).
    + rewrite Z.ones_spec_low, (Z.testbit_neg_r _ (m - 4)) by lia. by rewrite !andb_true_r.
    + rewrite Z.ones_spec_high, !andb_false_r, orb_false_r, Z.shiftr_spec by lia. f_equal; lia.
  - assert (Hsh : chunk_shift i = chunk_shift (S i) + 5) by (unfold chunk_shift; lia).
    rewrite Hf by lia.
    replace (chunk v i) with (Z.land (Z.shiftr v (chunk_shift i)) 0x1f)
      by (unfold chunk; by rewrite (proj2 (Nat.eqb_neq i 12)) by lia).
    rewrite <- Z.land_assoc. change (Z.land 31 31) with 31.
    rewrite pack_chunk by (unfold chunk_shift; lia).
    rewrite Hsh at 1 2. apply IH; [lia|done].
Qed.

(** ** Properties *)

Lemma string_to_name_to_string v : is_unsigned 64 v → string_to_name (name_to_string v) = v.
Proof.
  intros Hv. rewrite string_to_name_pack by apply no_nul_name_to_string.
  replace 0 with (Z.shiftl (Z.shiftr v (chunk_shift 0 + 5)) (chunk_shift 0 + 5)) at 1.
  - apply pack_symbols_chunks; [done|]. intros. by apply name_to_string_symbol.
  - change (chunk_shift 0 + 5) with 64. rewrite Z.shiftr_div_pow2, Z.div_small by (apply Hv || lia). done.
Qed.

Lemma c_str_no_nul s : no_nul s → c_str s = s.
Proof.
  induction 1 as [|c s Hc _ IH]; cbn; [done|]. by rewrite bool_decide_eq_false_2, IH.
Qed.

Lemma name_to_string_length v : (length (name_to_string v) <= 13)%nat.
Proof.
  unfold name_to_string. rewrite name_chars_chunks.
  set (p := λ c, bool_decide (c = dot)). set (l := map _ _).
  destruct (trim_right_if_spec p l) as (t & Heq & _).
  apply (f_equal length) in Heq. rewrite length_app in Heq.
  assert (length l = 13%nat) by done. lia.
Qed.

(** Encoding the text of any 64-bit name gives the name back. *)
Theorem name_roundtrip v : is_unsigned 64 v → string_to_name (name_to_string v) = v.
Proof. apply string_to_name_to_string. Qed.

Lemma name_roundtrip_witness :
  is_unsigned 64 6138663577826885632 ∧
  string_to_name (name_to_string 6138663577826885632) = 6138663577826885632.
Proof. split; [by vm_compute|apply name_roundtrip; by vm_compute]. Defined.

(** The values that pack thirteen symbols are 64-bit values. *)
Lemma pack_symbols_bound n i f name :
  (n + i = 12)%nat → 0 <= name < 2 ^ 64 → 0 <= pack_symbols n i f name < 2 ^ 64.
Proof.
  revert i name; induction n as [|n IH]; intros i name Hi Hname; cbn -[Z.pow].
  - apply (lor_range 64); [lia|done|]. pose proof (land_ones_bound (f i) 4 ltac:(lia)).
    change (Z.ones 4) with 15 in *. unfold is_unsigned. lia.
  - apply IH; [lia|]. apply (lor_range 64); [lia|done|].
    pose proof (land_ones_bound (f i) 5 ltac:(lia)) as Hb. change (Z.ones 5) with 31 in *.
    rewrite Z.shiftl_mul_pow2 by (unfold chunk_shift; lia).
    assert (Hp : 2 ^ 64 = 2 ^ 5 * 2 ^ 59) by done.
    assert (2 ^ chunk_shift i <= 2 ^ 59) by (apply Z.pow_le_mono_r; unfold chunk_shift; lia).
    assert (0 < 2 ^ chunk_shift i) by (apply Z.pow_pos_nonneg; unfold chunk_shift; lia).
    unfold is_unsigned. nia.
Qed.

(** [name::set] accepts exactly the texts that the decoder prints: on a
    NUL-free text it succeeds with [v] if and only if [v] is a 64-bit value
    whose text is [s]; otherwise it throws [name_type_exception]. *)
Theorem name_set_spec s v :
  no_nul s →
  (name_set s = Ok v ↔ is_unsigned 64 v ∧ name_to_string v = s) ∧
  (is_ok (name_set s) = false → name_set s = Throw name_type_exception).
Proof.
  intros Hs. unfold name_set. rewrite (c_str_no_nul s Hs).
  assert (Hb : is_unsigned 64 (string_to_name s)).
  { rewrite string_to_name_pack by done. by apply pack_symbols_bound. }
  split; [split|].
  - intros H. simplify_res. case_bool_decide; simplify_res; done.
  - intros [Hv <-]. rewrite string_to_name_to_string by done.
    pose proof (name_to_string_length v).
    rewrite Nat.min_l by lia. rewrite (proj2 (Nat.leb_le _ _)) by done.
    cbn -[name_to_string]. by rewrite bool_decide_eq_true_2.
  - destruct (_ <=? 13)%nat; cbn; [|done]. by case_bool_decide.
Qed.

Lemma name_set_spec_witness :
  no_nul (String.list_ascii_of_string "eosio.token") ∧
  name_set (String.list_ascii_of_string "eosio.token") = Ok 6138663591592764928.
Proof.
  assert (H : no_nul (String.list_ascii_of_string "eosio.token"))
    by (apply (bool_decide_unpack _); vm_compute; exact I).
  split; [exact H|]. apply (name_set_spec _ 6138663591592764928 H).
  split; vm_compute; [split; congruence|reflexivity].
Defined.
