(* ===== verification/Merkle.v ===== *)
(** * Merkle trees (merkle.hpp, merkle.cpp, incremental_merkle.hpp)

    The batch root [merkle] and the incremental tree that keeps only the
    active nodes.  The hash of a pair of digests is a parameter.  The main
    theorem is that appending digests one by one gives the root the batch
    routine computes, for every list the node counter can count, and that no
    append reads past the end of the active nodes. *)

From S2P Require Import Prelude.

(** [fc::sha256]: the four 64-bit words of [_hash]. *)
Record digest_type : Set := Digest { _hash0 : Z; _hash1 : Z; _hash2 : Z; _hash3 : Z }.

(** The value-initialised digest [digest_type()]. *)
Definition digest_zero : digest_type := Digest 0 0 0 0.

#[export] Instance digest_eq_dec : EqDecision digest_type.
Proof. solve_decision. Defined.
#[export] Instance digest_inhabited : Inhabited digest_type := populate digest_zero.
#[export] Instance digest_countable : Countable digest_type.
Proof.
  apply (inj_countable' (λ d, (_hash0 d, _hash1 d, _hash2 d, _hash3 d))
                        (λ '(a, b, c, d), Digest a b c d)).
  by intros [].
Defined.

Definition make_canonical_left (val : digest_type) : digest_type :=
  Digest (Z.land (_hash0 val) 0xFFFFFFFFFFFFFF7F) (_hash1 val) (_hash2 val) (_hash3 val).
Definition make_canonical_right (val : digest_type) : digest_type :=
  Digest (Z.lor (_hash0 val) 0x80) (_hash1 val) (_hash2 val) (_hash3 val).
Definition is_canonical_left (val : digest_type) : bool := Z.land (_hash0 val) 0x80 =? 0.
Definition is_canonical_right (val : digest_type) : bool := negb (Z.land (_hash0 val) 0x80 =? 0).
Definition make_canonical_pair (l r : digest_type) : digest_type * digest_type :=
  (make_canonical_left l, make_canonical_right r).

(** ** Depth arithmetic on [uint64_t] *)

Definition next_power_of_2 (value : Z) : Z :=
  let value := u64 (value - 1) in
  let value := Z.lor value (Z.shiftr value 1) in
  let value := Z.lor value (Z.shiftr value 2) in
  let value := Z.lor value (Z.shiftr value 4) in
  let value := Z.lor value (Z.shiftr value 8) in
  let value := Z.lor value (Z.shiftr value 16) in
  let value := Z.lor value (Z.shiftr value 32) in
  u64 (value + 1).

Definition clz_power_2 (value : Z) : Z :=
  let lz := 64 in
  let lz := if negb (value =? 0) then lz - 1 else lz in
  let lz := if negb (Z.land value 0x00000000FFFFFFFF =? 0) then lz - 32 else lz in
  let lz := if negb (Z.land value 0x0000FFFF0000FFFF =? 0) then lz - 16 else lz in
  let lz := if negb (Z.land value 0x00FF00FF00FF00FF =? 0) then lz - 8 else lz in
  let lz := if negb (Z.land value 0x0F0F0F0F0F0F0F0F =? 0) then lz - 4 else lz in
  let lz := if negb (Z.land value 0x3333333333333333 =? 0) then lz - 2 else lz in
  let lz := if negb (Z.land value 0x5555555555555555 =? 0) then lz - 1 else lz in
  lz.

Definition calcluate_max_depth (node_count : Z) : Z :=
  if node_count =? 0 then 0
  else clz_power_2 (next_power_of_2 node_count) + 1.

(** ** The trees *)

(** [incremental_merkle_impl]: its node counter and its active nodes. *)
Record incremental_merkle : Set := IncrementalMerkle {
  _node_count : Z;
  _active_nodes : list digest_type }.

Definition incremental_merkle_empty : incremental_merkle := IncrementalMerkle 0 [].

Section trees.
(** [DigestType::hash] of a packed pair of digests. *)
Variable hash : digest_type * digest_type → digest_type.

(** The [while] loop of [append]; the depth decreases by one per iteration.
    Reading [*active_iter] at the end of the container has no defined result:
    the loop then gives [None]. *)
Fixpoint append_loop (current_depth : nat) (index : Z) (partial : bool) (top : digest_type)
    (active_iter updated_active_nodes : list digest_type)
    : option (digest_type * list digest_type) :=
  match current_depth with
  | O => Some (top, updated_active_nodes)
  | S current_depth =>
      if Z.land index 0x1 =? 0 then
        let updated_active_nodes :=
          if partial then updated_active_nodes else updated_active_nodes ++ [top] in
        append_loop current_depth (Z.shiftr index 1) true
          (hash (make_canonical_pair top top)) active_iter updated_active_nodes
      else
        match active_iter with
        | [] => None
        | left_value :: active_iter =>
            let updated_active_nodes :=
              if partial then updated_active_nodes ++ [left_value] else updated_active_nodes in
            append_loop current_depth (Z.shiftr index 1) partial
              (hash (make_canonical_pair left_value top)) active_iter updated_active_nodes
        end
  end.

Definition append (t : incremental_merkle) (digest : digest_type)
    : option (digest_type * incremental_merkle) :=
  let max_depth := calcluate_max_depth (u64 (_node_count t + 1)) in
  '(top, updated_active_nodes) ←
     append_loop (Z.to_nat (max_depth - 1)) (_node_count t) false digest (_active_nodes t) [];
  let active_nodes := updated_active_nodes ++ [top] in
  back ← last active_nodes;
  Some (back, IncrementalMerkle (u64 (_node_count t + 1)) active_nodes).

(** [get_root]; [back()] of an empty container has no defined result. *)
Definition get_root (t : incremental_merkle) : option digest_type :=
  if 0 <? _node_count t then last (_active_nodes t) else Some digest_zero.

(** The [for] loop of [merkle] over [i], which overwrites [ids] in place. *)
Fixpoint merkle_round (n i : nat) (ids : list digest_type) : list digest_type :=
  match n with
  | O => ids
  | S n =>
      merkle_round n (S i)
        (<[i := hash (make_canonical_pair (ids !!! (2 * i)%nat) (ids !!! (2 * i + 1)%nat))]> ids)
  end.

(** One iteration of the [while] loop of [merkle]. *)
Definition merkle_step (ids : list digest_type) : list digest_type :=
  let ids :=
    if negb (length ids mod 2 =? 0)%nat then
      match last ids with Some d => ids ++ [d] | None => ids end
    else ids in
  let half := (length ids / 2)%nat in
  take half (merkle_round half 0 ids).

Fixpoint merkle_loop (fuel : nat) (ids : list digest_type) : option (list digest_type) :=
  if (1 <? length ids)%nat then
    match fuel with
    | O => None
    | S fuel => merkle_loop fuel (merkle_step ids)
    end
  else Some ids.

(** The size at least halves, so its value bounds the number of rounds. *)
Definition merkle (ids : list digest_type) : option digest_type :=
  if (0 =? length ids)%nat then Some digest_zero
  else ids' ← merkle_loop (length ids) ids; head ids'.

(** Appending a list of digests in order. *)
Fixpoint append_all (t : incremental_merkle) (ids : list digest_type) : option incremental_merkle :=
  match ids with
  | [] => Some t
  | d :: ids => '(_, t) ← append t d; append_all t ids
  end.

(** ** Levels of the tree *)

Local Abbreviation node l r := (hash (make_canonical_pair l r)).

(** The nodes one level up of which both children are realised. *)
Fixpoint pairs (l : list digest_type) : list digest_type :=
  match l with
  | a :: b :: l => node a b :: pairs l
  | _ => []
  end.

(** All nodes one level up, an odd last node being paired with itself. *)
Fixpoint level (l : list digest_type) : list digest_type :=
  match l with
  | a :: b :: l => node a b :: level l
  | [a] => [node a a]
  | [] => []
  end.

(** The left children that the appends to come still need. *)
Fixpoint actives (d : nat) (l : list digest_type) : list digest_type :=
  match d with
  | O => []
  | S d => (if Nat.odd (length l) then match last l with Some x => [x] | None => [] end else []) ++ actives d (pairs l)
  end.

(** Induction on lists two elements at a time. *)
Lemma list_pair_ind (P : list digest_type → Prop) :
  P [] → (∀ a, P [a]) → (∀ a b l, P l → P (a :: b :: l)) → ∀ l, P l.
Proof.
  intros H0 H1 H2 l. enough (H : P l ∧ ∀ a, P (a :: l)) by apply H.
  induction l as [|a l [IH IH']]; auto.
Qed.

Lemma length_level l : length (level l) = ((length l + 1) / 2)%nat.
Proof.
  induction l as [| |a b l IH] using list_pair_ind; [done|done|].
  cbn -[Nat.div]. rewrite IH.
  div_lia.
Qed.

Lemma length_pairs l : length (pairs l) = (length l / 2)%nat.
Proof.
  induction l as [| |a b l IH] using list_pair_ind; [done|done|].
  cbn -[Nat.div]. rewrite IH.
  div_lia.
Qed.

Lemma last_snoc' (l : list digest_type) x : last (l ++ [x]) = Some x.
Proof. apply last_snoc. Qed.

Lemma pairs_snoc_even l x : Nat.odd (length l) = false → pairs (l ++ [x]) = pairs l.
Proof. induction l as [| |a b l IH] using list_pair_ind; cbn; [done|done|]. intros; by rewrite IH. Qed.

Lemma level_snoc_even l x :
  Nat.odd (length l) = false → level (l ++ [x]) = pairs l ++ [node x x].
Proof. induction l as [| |a b l IH] using list_pair_ind; cbn; [done|done|]. intros; by rewrite IH. Qed.

Lemma snoc_odd l :
  Nat.odd (length l) = true →
  ∃ y, last l = Some y ∧ (∀ x, pairs (l ++ [x]) = pairs l ++ [node y x]) ∧
       (∀ x, level (l ++ [x]) = pairs l ++ [node y x]).
Proof.
  induction l as [|a|a b l IH] using list_pair_ind; [done|by exists a|].
  intros Hodd. destruct (IH Hodd) as (y & Hy & Hp & Hl). exists y.
  split; [by rewrite !last_cons, Hy|]. cbn. split; intros x; by rewrite ?Hp, ?Hl.
Qed.

Lemma level_even l : Nat.odd (length l) = false → level l = pairs l.
Proof. induction l as [| |a b l IH] using list_pair_ind; cbn; [done|done|]. intros; by rewrite IH. Qed.

(** ** The append loop *)

Lemma index_odd (l : list digest_type) : (Z.land (Z.of_nat (length l)) 0x1 =? 0) = negb (Nat.odd (length l)).
Proof.
  change 0x1 with (Z.ones 1). rewrite Z.land_ones by lia. change (2 ^ 1) with 2.
  destruct (Nat.odd (length l)) eqn:Hodd; cbn [negb].
  - apply Nat.odd_spec in Hodd as [k Hk]. apply Z.eqb_neq. div_lia.
  - rewrite <- Nat.negb_even in Hodd. apply negb_false_iff, Nat.even_spec in Hodd as [k Hk].
    apply Z.eqb_eq. div_lia.
Qed.

Lemma index_half l : Z.shiftr (Z.of_nat (length l)) 1 = Z.of_nat (length (pairs l)).
Proof.
  rewrite length_pairs, Z.shiftr_div_pow2 by lia. by rewrite Nat2Z.inj_div.
Qed.

(** The loop from a level at which [l] are the realised nodes before the
    append and [top] is the node over the new leaf. *)
Lemma append_loop_spec d l (partial : bool) top extra upd :
  append_loop d (Z.of_nat (length l)) partial top (actives d l ++ extra) upd =
  (λ root, (root, upd ++ actives d (if partial then l else l ++ [top]))) <$>
  last (Nat.iter d level (l ++ [top])).
Proof.
  revert l partial top upd; induction d as [|d IH]; intros l partial top upd.
  { cbn. by rewrite last_snoc, app_nil_r. }
  rewrite Nat.iter_succ_r. cbn [append_loop actives].
  rewrite index_odd, index_half.
  destruct (Nat.odd (length l)) eqn:Hodd; cbn [negb].
  - destruct (snoc_odd l Hodd) as (y & Hy & Hp & Hl). rewrite Hy. cbn [app].
    rewrite IH, Hl. f_equal. destruct partial; cbn [actives].
    + by rewrite Hodd, Hy, <- app_assoc.
    + rewrite length_app. cbn [length]. rewrite Nat.add_1_r, Nat.odd_succ, <- Nat.negb_odd, Hodd.
      cbn [negb app]. by rewrite Hp.
  - cbn [app]. rewrite IH, level_snoc_even by done. f_equal. destruct partial; cbn [actives].
    + by rewrite Hodd.
    + rewrite length_app. cbn [length]. rewrite Nat.add_1_r, Nat.odd_succ, <- Nat.negb_odd, Hodd.
      cbn [negb]. rewrite last_snoc, pairs_snoc_even by done.
      by rewrite <- app_assoc.
Qed.

(** ** Depths *)

(** [w] has a bit exactly where [v] has one at most [k - 1] places higher. *)
Definition smeared (k v w : Z) : Prop :=
  0 <= w ∧ ∀ i, 0 <= i → Z.testbit w i = true ↔ ∃ j, i <= j < i + k ∧ Z.testbit v j = true.

Lemma smeared_1 v : 0 <= v → smeared 1 v v.
Proof.
  intros Hv. split; [done|]. intros i Hi. split; [exists i; split; [lia|done]|].
  intros (j & Hj & Hb). by replace i with j by lia.
Qed.

Lemma smeared_double k v w :
  0 < k → smeared k v w → smeared (k + k) v (Z.lor w (Z.shiftr w k)).
Proof.
  intros Hk [Hw H]. split; [by rewrite Z.lor_nonneg, Z.shiftr_nonneg|].
  intros i Hi. rewrite Z.lor_spec, Z.shiftr_spec by lia.
  rewrite orb_true_iff, (H i Hi), (H (i + k) ltac:(lia)). split.
  - intros [(j & Hj & Hb)|(j & Hj & Hb)]; exists j; split; (lia || done).
  - intros (j & Hj & Hb). destruct (Z.lt_ge_cases j (i + k)); [left|right];
      exists j; split; (lia || done).
Qed.

Lemma smeared_64 v w : 0 < v < 2 ^ 64 → smeared 64 v w → w = Z.ones (Z.log2 v + 1).
Proof.
  intros Hv [Hw H]. apply Z.bits_inj'; intros i Hi.
  pose proof (Z.log2_nonneg v).
  assert (Hlog : Z.log2 v < 64) by (apply Z.log2_lt_pow2; lia).
  apply eq_true_iff_eq. rewrite (H i Hi), Z.testbit_ones_nonneg, Z.ltb_lt by lia. split.
  - intros (j & Hj & Hb). destruct (Z.lt_ge_cases (Z.log2 v) j); [|lia].
    rewrite Z.bits_above_log2 in Hb by lia. done.
  - intros Hlt. exists (Z.log2 v). split; [lia|]. apply Z.bit_log2. lia.
Qed.

Lemma next_power_of_2_spec n :
  1 <= n < 2 ^ 64 → next_power_of_2 n = u64 (2 ^ Z.log2_up n).
Proof.
  intros Hn. destruct (decide (n = 1)) as [->|Hn1]; [done|].
  unfold next_power_of_2. rewrite (wrap_id 64 (n - 1)) by (unfold is_unsigned; lia).
  cbv zeta. f_equal.
  match goal with |- ?w + 1 = _ => rewrite (smeared_64 (n - 1) w) end; [|lia|].
  2: { apply (smeared_double 32); [lia|]. apply (smeared_double 16); [lia|].
       apply (smeared_double 8); [lia|]. apply (smeared_double 4); [lia|].
       apply (smeared_double 2); [lia|]. apply (smeared_double 1); [lia|].
       apply smeared_1. lia. }
  rewrite Z.log2_up_eqn by lia. rewrite Z.ones_equiv.
  replace (Z.pred n) with (n - 1) by lia. unfold Z.succ. lia.
Qed.

Lemma clz_power_2_spec m : 0 <= m < 64 → clz_power_2 (2 ^ m) = m.
Proof.
  intros Hm.
  assert (Hall : forallb (λ k, clz_power_2 (2 ^ Z.of_nat k) =? Z.of_nat k) (seq 0 64) = true)
    by (vm_compute; reflexivity).
  rewrite forallb_forall in Hall. specialize (Hall (Z.to_nat m)).
  rewrite Z2Nat.id in Hall by lia. apply Z.eqb_eq, Hall, in_seq. lia.
Qed.

Lemma calcluate_max_depth_spec n :
  1 <= n < 2 ^ 64 → calcluate_max_depth n = Z.log2_up n + 1.
Proof.
  intros Hn. unfold calcluate_max_depth. rewrite (proj2 (Z.eqb_neq n 0)) by lia.
  rewrite next_power_of_2_spec by done. f_equal.
  pose proof (Z.log2_up_nonneg n).
  assert (Z.log2_up n <= 64) by (apply Z.log2_up_le_pow2; lia).
  destruct (decide (Z.log2_up n = 64)) as [->|]; [done|].
  rewrite wrap_id.
  - apply clz_power_2_spec. lia.
  - split; [lia|]. apply Z.pow_lt_mono_r; lia.
Qed.

(** ** The batch loop *)

(** The in-place loop leaves the paired nodes in front: after [i] iterations
    the first [i] places hold them and the rest is as it was. *)
Lemma merkle_round_spec n i ids :
  length ids = (2 * (n + i))%nat →
  take (n + i) (merkle_round n i ids) = take i ids ++ pairs (drop (2 * i) ids).
Proof.
  revert i ids; induction n as [|n IH]; intros i ids Hlen.
  - cbn [merkle_round Nat.add]. rewrite (drop_ge ids) by lia. cbn. by rewrite app_nil_r.
  - cbn [merkle_round]. set (v := node _ _).
    replace (S n + i)%nat with (n + S i)%nat by lia.
    rewrite IH by (rewrite length_insert; lia).
    rewrite (drop_insert_lt _ (2 * S i) i) by lia.
    destruct (lookup_lt_is_Some_2 ids (2 * i)) as [a Ha]; [lia|].
    destruct (lookup_lt_is_Some_2 ids (2 * i + 1)) as [b Hb]; [lia|].
    rewrite (drop_S ids a (2 * i)), (drop_S ids b (S (2 * i)))
      by (done || by rewrite <- Hb; f_equal; lia).
    cbn [pairs]. subst v.
    rewrite (list_lookup_total_correct _ _ _ Ha), (list_lookup_total_correct _ _ _ Hb).
    rewrite (take_S_r _ i (node a b)) by (apply list_lookup_insert_eq; lia).
    rewrite take_insert_ge by lia. rewrite <- app_assoc. cbn [app].
    replace (2 * S i)%nat with (S (S (2 * i))) by lia. done.
Qed.

Lemma level_dup_last l y :
  Nat.odd (length l) = true → last l = Some y → level (l ++ [y]) = level l.
Proof.
  induction l as [|a|a b l IH] using list_pair_ind; [done|by intros _ [= ->]|].
  rewrite !last_cons. intros Hodd Hlast. cbn. rewrite IH; [done|done|].
  destruct (last l) eqn:Hl; [done|]. apply last_None in Hl. by subst.
Qed.

Lemma merkle_step_level ids : merkle_step ids = level ids.
Proof.
  unfold merkle_step.
  assert (Heven : ∀ l, Nat.odd (length l) = false →
            take (length l / 2) (merkle_round (length l / 2) 0 l) = level l).
  { intros l Hl. rewrite level_even by done.
    rewrite <- Nat.negb_even in Hl. apply negb_false_iff, Nat.even_spec in Hl as [k Hk].
    assert (length l / 2 = k)%nat as -> by div_lia.
    pose proof (merkle_round_spec k 0 l) as H. rewrite Nat.add_0_r in H. by rewrite H by lia. }
  destruct (Nat.odd (length ids)) eqn:Hodd.
  - pose proof Hodd as Ho. apply Nat.odd_spec in Ho as [k Hk].
    rewrite (proj2 (Nat.eqb_neq _ 0)) by div_lia. cbn [negb].
    destruct (snoc_odd ids Hodd) as (y & Hy & _ & Hl). rewrite Hy.
    rewrite Heven by (rewrite length_app, Nat.add_1_r, Nat.odd_succ, <- Nat.negb_odd, Hodd; done).
    apply level_dup_last; done.
  - rewrite <- Nat.negb_even in Hodd. apply negb_false_iff, Nat.even_spec in Hodd as Ho.
    destruct Ho as [k Hk]. rewrite (proj2 (Nat.eqb_eq _ 0)) by div_lia. cbn [negb]. apply Heven.
    by rewrite <- Nat.negb_even, Hodd.
Qed.

(** ** Agreement of the two constructions *)

Lemma iter_level_length d l :
  (0 < length l <= 2 ^ d)%nat → length (Nat.iter d level l) = 1%nat.
Proof.
  revert l; induction d as [|d IH]; intros l Hl; [cbn in *; lia|].
  rewrite Nat.iter_succ_r. apply IH. rewrite length_level.
  rewrite Nat.pow_succ_r' in Hl. set (p := (2 ^ d)%nat) in *. div_lia.
Qed.

(** With enough fuel the batch loop ends, and its result is the level reached
    after any sufficient number of rounds. *)
Lemma merkle_loop_spec fuel d l :
  (0 < length l <= fuel)%nat → (length l <= 2 ^ d)%nat → (1 < length l → 2 ^ (pred d) < length l)%nat →
  (length l = 1 → d = 0)%nat →
  merkle_loop fuel l = Some (Nat.iter d level l).
Proof.
  revert d l; induction fuel as [|fuel IH]; intros d l Hl Hd Hd' H1; [lia|].
  cbn [merkle_loop]. destruct (Nat.ltb_spec 1 (length l)) as [Hlt|Hge].
  - destruct d as [|d]; [cbn in Hd; lia|]. rewrite Nat.iter_succ_r, merkle_step_level.
    specialize (Hd' Hlt). rewrite Nat.pow_succ_r' in Hd. cbn [pred] in Hd'.
    apply IH; rewrite length_level; [div_lia|div_lia| |].
    + intros Hlt'. destruct d as [|d]; cbn [pred]; [cbn in Hd; lia|].
      rewrite Nat.pow_succ_r' in Hd'. set (p := (2 ^ d)%nat) in *. div_lia.
    + intros Heq. destruct d as [|d]; [done|]. rewrite Nat.pow_succ_r' in Hd'.
      pose proof (Nat.pow_nonzero 2 d ltac:(done)). set (p := (2 ^ d)%nat) in *. div_lia.
  - rewrite H1 by lia. done.
Qed.

(** The number of levels above [n] leaves. *)
Definition height (n : nat) : nat := Z.to_nat (Z.log2_up (Z.of_nat n)).

Lemma height_spec n :
  (0 < n)%nat → (n <= 2 ^ height n)%nat ∧ ((1 < n)%nat → (2 ^ pred (height n) < n)%nat) ∧
  (n = 1 → height n = 0)%nat.
Proof.
  intros Hn. unfold height.
  assert (Hpow : ∀ k, Z.of_nat (2 ^ k) = 2 ^ Z.of_nat k) by (intros; apply Nat2Z.inj_pow).
  pose proof (Z.log2_up_nonneg (Z.of_nat n)) as Hnn. split; [|split].
  - apply Nat2Z.inj_le. rewrite Hpow, Z2Nat.id by done.
    destruct (decide (n = 1%nat)) as [->|]; [cbn; lia|]. apply Z.log2_up_spec. lia.
  - intros Hn1. apply Nat2Z.inj_lt. rewrite Hpow.
    destruct (Z.log2_up_spec (Z.of_nat n) ltac:(lia)) as [Hlo _].
    assert (0 < Z.log2_up (Z.of_nat n)) by (apply Z.log2_up_pos; lia).
    replace (Z.of_nat (pred (Z.to_nat (Z.log2_up (Z.of_nat n)))))
      with (Z.pred (Z.log2_up (Z.of_nat n))) by lia. done.
  - by intros ->.
Qed.

Lemma merkle_root l :
  l ≠ [] → merkle l = last (Nat.iter (height (length l)) level l).
Proof.
  intros Hl. assert (Hpos : (0 < length l)%nat) by (destruct l; [done|cbn; lia]).
  destruct (height_spec _ Hpos) as (H1 & H2 & H3).
  unfold merkle. rewrite (proj2 (Nat.eqb_neq 0 (length l))) by lia.
  rewrite (merkle_loop_spec _ (height (length l))) by (done || lia). cbn.
  pose proof (iter_level_length (height (length l)) l ltac:(lia)) as Hlen.
  destruct (Nat.iter _ level l) as [|x [|]]; done.
Qed.

Lemma actives_snoc d l :
  actives (S d) l = actives d l ++ (let l' := Nat.iter d pairs l in
    if Nat.odd (length l') then match last l' with Some x => [x] | None => [] end else []).
Proof.
  revert l; induction d as [|d IH]; intros l; [cbn; by rewrite app_nil_r|].
  rewrite Nat.iter_succ_r. change (actives (S (S d)) l) with
    ((if Nat.odd (length l) then match last l with Some x => [x] | None => [] end else [])
     ++ actives (S d) (pairs l)).
  rewrite IH. cbn [actives]. by rewrite app_assoc.
Qed.

(** Below a power of two of leaves every level is realised. *)
Lemma iter_pairs_full d l :
  length l = (2 ^ d)%nat → Nat.iter d pairs l = Nat.iter d level l.
Proof.
  revert l; induction d as [|d IH]; intros l Hl; [done|].
  rewrite !Nat.iter_succ_r. rewrite Nat.pow_succ_r' in Hl.
  rewrite <- level_even.
  - apply IH. rewrite length_level, Hl. set (p := (2 ^ d)%nat) in *. div_lia.
  - rewrite Hl, Nat.odd_mul. done.
Qed.

(** The state of a tree that holds the leaves [l]. *)
Definition holds (t : incremental_merkle) (l : list digest_type) : Prop :=
  _node_count t = Z.of_nat (length l) ∧
  ∃ extra, _active_nodes t = actives (height (S (length l))) l ++ extra.

Lemma height_S n :
  (0 < n)%nat → height (S n) = height n ∨ (height (S n) = S (height n) ∧ n = (2 ^ height n)%nat).
Proof.
  intros Hn. unfold height. rewrite Nat2Z.inj_succ.
  destruct (Z.log2_up_succ_or (Z.of_nat n)) as [Heq|Heq]; rewrite Heq; [right|by left].
  pose proof (Z.log2_up_nonneg (Z.of_nat n)). split; [lia|].
  apply Nat2Z.inj. rewrite Nat2Z.inj_pow, Z2Nat.id by done.
  apply Z.log2_up_eq_succ_is_pow2 in Heq as (b & Hb). rewrite Hb.
  destruct (Z.lt_ge_cases b 0) as [Hneg|]; [rewrite Z.pow_neg_r in Hb by done; lia|].
  by rewrite Z.log2_up_pow2.
Qed.

Lemma append_spec t l d :
  holds t l → Z.of_nat (S (length l)) < 2 ^ 64 →
  ∃ root t', append t d = Some (root, t') ∧ holds t' (l ++ [d]) ∧
    get_root t' = Some root ∧ merkle (l ++ [d]) = Some root.
Proof.
  intros [Hcount (extra & Hact)] Hlen.
  unfold append. rewrite Hcount, Hact, wrap_id by (unfold is_unsigned; lia).
  replace (Z.of_nat (length l) + 1) with (Z.of_nat (S (length l))) by lia.
  rewrite calcluate_max_depth_spec by lia. rewrite Z.add_simpl_r.
  fold (height (S (length l))). rewrite append_loop_spec.
  assert (Hsn : length (l ++ [d]) = S (length l)) by (rewrite length_app; cbn; lia).
  destruct (height_spec (S (length l)) ltac:(lia)) as (Hh & _ & _).
  set (h := height (S (length l))) in *.
  assert (Hroot : merkle (l ++ [d]) = last (Nat.iter h level (l ++ [d]))).
  { rewrite merkle_root, Hsn by (by destruct l). done. }
  pose proof (iter_level_length h (l ++ [d]) ltac:(lia)) as H1.
  destruct (Nat.iter h level (l ++ [d])) as [|root [|]] eqn:Hit; [done| |done].
  cbn -[actives]. rewrite last_snoc. cbn -[actives]. eexists root, _. split; [done|].
  split; [|split; [|done]].
  - split; cbn -[actives]; [lia|]. rewrite Hsn.
    destruct (height_S (S (length l)) ltac:(lia)) as [->|[-> Hp]]; fold h; [by eexists|].
    rewrite actives_snoc. cbv zeta. rewrite iter_pairs_full by (rewrite Hsn; exact Hp).
    rewrite Hit. cbn -[actives]. exists []. by rewrite app_nil_r.
  - unfold get_root. cbn -[actives]. rewrite (proj2 (Z.ltb_lt _ _)) by lia. by rewrite last_snoc.
Qed.

Lemma append_all_spec ids t l :
  holds t l → Z.of_nat (length l + length ids) < 2 ^ 64 →
  ∃ t', append_all t ids = Some t' ∧ holds t' (l ++ ids) ∧
    (ids ≠ [] → get_root t' = merkle (l ++ ids)).
Proof.
  revert t l; induction ids as [|d ids IH]; intros t l Ht Hlen.
  { exists t. by rewrite app_nil_r. }
  cbn [append_all length] in *.
  destruct (append_spec t l d Ht ltac:(lia)) as (root & t' & -> & Ht' & Hr & Hm).
  destruct (IH t' (l ++ [d]) Ht') as (t'' & Heq & Hh & Hroot).
  { rewrite length_app. cbn. lia. }
  exists t''. cbn. rewrite <- app_assoc in Hh, Hroot. cbn in Hh, Hroot.
  split; [done|]. split; [done|]. intros _.
  destruct ids; [|by apply Hroot]. cbn in Heq. injection Heq as <-. congruence.
Qed.

(** C26: the incremental tree computes the batch root: appending any list of
    digests, at most as many as the node counter counts, to the empty tree
    never reads a missing active node and leaves [get_root] equal to [merkle]
    of the whole list. *)
Theorem incremental_merkle_correct ids :
  Z.of_nat (length ids) < 2 ^ 64 →
  ∃ t, append_all incremental_merkle_empty ids = Some t ∧
    _node_count t = Z.of_nat (length ids) ∧
    get_root t = merkle ids ∧ ∃ root, merkle ids = Some root.
Proof.
  intros Hlen. destruct ids as [|d ids]; [by exists incremental_merkle_empty; eauto|].
  destruct (append_all_spec (d :: ids) incremental_merkle_empty []) as (t & Ht & [Hc _] & Hr).
  { split; [done|]. by exists []. }
  { done. }
  exists t. split; [done|]. split; [done|]. split; [by apply Hr|].
  rewrite merkle_root by done. destruct (height_spec (length (d :: ids)) ltac:(cbn; lia)) as [Hh _].
  pose proof (iter_level_length (height (length (d :: ids))) (d :: ids) ltac:(cbn in *; lia)) as H1.
  destruct (Nat.iter _ level _) as [|x [|]]; [done|by exists x|done].
Qed.

(** The pair that is hashed tells the sides of its members. *)
Lemma canonical_sides l r :
  is_canonical_left (make_canonical_pair l r).1 = true ∧
  is_canonical_right (make_canonical_pair l r).2 = true.
Proof.
  unfold is_canonical_left, is_canonical_right. cbn.
  rewrite <- Z.land_assoc. change (Z.land _ 0x80) with 0 at 1. rewrite Z.land_0_r. split; [done|].
  rewrite Z.land_lor_distr_l, Z.land_diag. apply negb_true_iff, Z.eqb_neq.
  intros [_ H]%Z.lor_eq_0_iff. done.
Qed.
End trees.

(** A concrete hash for evaluation: it adds the words of its arguments. *)
Definition sum_hash (p : digest_type * digest_type) : digest_type :=
  let '(l, r) := p in
  Digest (u64 (3 * _hash0 l + 5 * _hash0 r + 1)) (_hash1 l) (_hash2 r) (_hash3 l).

Lemma incremental_merkle_correct_witness :
  let ids := map (λ k, Digest k k k k) [1; 2; 3; 4; 5; 6; 7] in
  ∃ t, append_all sum_hash incremental_merkle_empty ids = Some t ∧
    _node_count t = 7 ∧ get_root t = merkle sum_hash ids ∧
    ∃ root, merkle sum_hash ids = Some root.
Proof. apply (incremental_merkle_correct sum_hash (map (λ k, Digest k k k k) [1; 2; 3; 4; 5; 6; 7])). reflexivity. Defined.
