(* ===== verification/Config.v ===== *)
(** * Chain constants (config.hpp)

    The compile-time constants of [eosio::chain::config] that the modelled
    components read, and the percentage helpers. *)

From S2P Require Import Prelude Exceptions Name.

Module config.

Definition system_account_name : Z := N_ "eosio".
Definition null_account_name : Z := N_ "eosio.null".
Definition producers_account_name : Z := N_ "eosio.prods".
Definition majority_producers_permission_name : Z := N_ "prod.major".
Definition minority_producers_permission_name : Z := N_ "prod.minor".
Definition single_producers_permission_name : Z := N_ "prod.single".
Definition eosio_any_name : Z := N_ "eosio.any".
Definition eosio_code_name : Z := N_ "eosio.code".
Definition active_name : Z := N_ "active".
Definition owner_name : Z := N_ "owner".

Definition block_interval_ms : Z := 500.
Definition block_interval_us : Z := block_interval_ms * 1000.
Definition block_timestamp_epoch : Z := 946684800000.
Definition percent_100 : Z := 10000.
Definition percent_1 : Z := 100.

Definition account_cpu_usage_average_window_ms : Z := 24 * 60 * 60 * 1000.
Definition account_net_usage_average_window_ms : Z := 24 * 60 * 60 * 1000.
Definition block_cpu_usage_average_window_ms : Z := 60 * 1000.
Definition block_size_average_window_ms : Z := 60 * 1000.
Definition rate_limiting_precision : Z := 1000 * 1000.

Definition default_max_block_net_usage : Z := 1024 * 1024.
Definition default_target_block_net_usage_pct : Z := 10 * percent_1.
Definition default_max_transaction_net_usage : Z := default_max_block_net_usage / 2.
Definition default_base_per_transaction_net_usage : Z := 12.
Definition default_net_usage_leeway : Z := 500.
Definition default_context_free_discount_net_usage_num : Z := 20.
Definition default_context_free_discount_net_usage_den : Z := 100.
Definition transaction_id_net_usage : Z := 32.
Definition default_max_block_cpu_usage : Z := 200000.
Definition default_target_block_cpu_usage_pct : Z := 10 * percent_1.
Definition default_max_transaction_cpu_usage : Z := 3 * default_max_block_cpu_usage / 4.
Definition default_min_transaction_cpu_usage : Z := 100.
Definition default_max_trx_lifetime : Z := 60 * 60.
Definition default_deferred_trx_expiration_window : Z := 10 * 60.
Definition default_max_trx_delay : Z := 45 * 24 * 3600.
Definition default_max_inline_action_size : Z := 4 * 1024.
Definition default_max_inline_action_depth : Z := 4.
Definition default_max_auth_depth : Z := 6.
Definition min_net_usage_delta_between_base_and_max_for_trx : Z := 10 * 1024.
Definition fixed_net_overhead_of_packed_trx : Z := 16.
Definition fixed_overhead_shared_vector_ram_bytes : Z := 16.
Definition overhead_per_row_per_index_ram_bytes : Z := 32.
Definition overhead_per_account_ram_bytes : Z := 2 * 1024.
Definition setcode_ram_bytes_multiplier : Z := 10.

Definition producer_repetitions : Z := 12.
Definition max_producers : Z := 125.
Definition maximum_tracked_dpos_confirmations : Z := 1024.
Definition irreversible_threshold_percent : Z := 70 * percent_1.
Definition billable_alignment : Z := 16.

(** [billable_size_v<T>] from [billable_size<T>::value]. *)
Definition billable_size_v (value : Z) : Z :=
  ((value + billable_alignment - 1) / billable_alignment) * billable_alignment.

End config.

(** [EOS_PERCENT]: the product is a [uint64_t]. *)
Definition EOS_PERCENT (value percentage : Z) : Z :=
  u64 (value * percentage) / config.percent_100.
