(* ===== verification/Database.v ===== *)
(** * Database indices

    An index of the chain database that has a unique key is a finite map from
    keys to objects.  [get] throws [std::out_of_range] on an unknown key and
    [create] throws [std::logic_error] on a key that is taken, as chainbase
    documents them.  A throw ends the enclosing undo session, so an operation
    that throws has no final database.

    The second half sums a quantity over an index, which is how the totals
    kept beside an index are specified. *)

From S2P Require Import Prelude Exceptions.

Section index.
Context {K A : Type} `{Countable K}.

Definition db_get (m : gmap K A) (k : K) : res A := of_option std_out_of_range (m !! k).

Definition db_create (m : gmap K A) (k : K) (a : A) : res (gmap K A) :=
  match m !! k with
  | Some _ => Throw std_logic_error
  | None => Ok (<[k := a]> m)
  end.

Lemma db_get_Ok m k a : db_get m k = Ok a ↔ m !! k = Some a.
Proof. apply of_option_Ok. Qed.

Lemma db_create_Ok m k a m' : db_create m k a = Ok m' ↔ m !! k = None ∧ m' = <[k := a]> m.
Proof. unfold db_create. destruct (m !! k); naive_solver. Qed.
End index.

(** ** Sums over an index *)

Section map_sum.
Context {K A : Type} `{Countable K}.
Implicit Types (m : gmap K A) (f g : K → A → Z).

Definition map_sum f m : Z := map_fold (λ k a acc, f k a + acc) 0 m.

Lemma map_sum_empty f : map_sum f ∅ = 0.
Proof. apply map_fold_empty. Qed.

Lemma map_sum_insert_fresh f m k a :
  m !! k = None → map_sum f (<[k := a]> m) = f k a + map_sum f m.
Proof. intros Hk. unfold map_sum. rewrite map_fold_insert_L; [done|intros; lia|done]. Qed.

Lemma map_sum_delete f m k a : m !! k = Some a → map_sum f (delete k m) = map_sum f m - f k a.
Proof.
  intros Hk. rewrite <- (insert_delete_id m k a Hk) at 2.
  rewrite map_sum_insert_fresh by apply lookup_delete_eq. lia.
Qed.

Lemma map_sum_insert f m k a b :
  m !! k = Some a → map_sum f (<[k := b]> m) = map_sum f m - f k a + f k b.
Proof.
  intros Hk. rewrite <- insert_delete_eq.
  rewrite map_sum_insert_fresh, (map_sum_delete f m k a Hk) by apply lookup_delete_eq. lia.
Qed.

Lemma map_sum_mono f g m :
  (∀ k a, m !! k = Some a → f k a <= g k a) → map_sum f m <= map_sum g m.
Proof.
  induction m as [|k a m Hk IH] using map_ind; intros Hfg; [by rewrite !map_sum_empty|].
  rewrite !map_sum_insert_fresh by done.
  assert (f k a <= g k a) by apply Hfg, lookup_insert_eq.
  enough (map_sum f m <= map_sum g m) by lia. apply IH.
  intros k' a' Hk'. apply Hfg. rewrite lookup_insert_ne; congruence.
Qed.

Lemma map_sum_nonneg f m : (∀ k a, m !! k = Some a → 0 <= f k a) → 0 <= map_sum f m.
Proof.
  intros Hf. assert (Hz : map_sum (λ _ _, 0) m = 0).
  { clear Hf. induction m as [|k a m Hk IH] using map_ind; [apply map_sum_empty|].
    rewrite map_sum_insert_fresh, IH by done. done. }
  rewrite <- Hz. by apply map_sum_mono.
Qed.

Lemma map_sum_lookup_le f m k a : (∀ k a, 0 <= f k a) → m !! k = Some a → f k a <= map_sum f m.
Proof.
  intros Hf Hk. pose proof (map_sum_nonneg f (delete k m) (λ _ _ _, Hf _ _)) as H0.
  rewrite (map_sum_delete f m k a Hk) in H0. lia.
Qed.

Lemma map_sum_ext f g m : (∀ k a, m !! k = Some a → f k a = g k a) → map_sum f m = map_sum g m.
Proof.
  intros Hfg. apply Z.le_antisymm; apply map_sum_mono; intros k a Hk; rewrite (Hfg k a Hk); lia.
Qed.

Lemma map_sum_zero f m : (∀ k a, m !! k = Some a → f k a = 0) → map_sum f m = 0.
Proof.
  intros Hf. rewrite (map_sum_ext f (λ _ _, 0)) by done. clear Hf.
  induction m as [|k a m Hk IH] using map_ind; [apply map_sum_empty|].
  by rewrite map_sum_insert_fresh, IH.
Qed.
End map_sum.
