(* ===== verification/ResourceLimits.v ===== *)
(** * Resource limits (resource_limits.hpp/.cpp, resource_limits_private.hpp)

    Rate limiting of CPU and network use with exponential moving averages,
    the elastic virtual limits of a block, the RAM quota, and the account
    limits with their pending updates and totals.  The database of the
    manager is the record [resource_limits_db]; every method is a function on
    it, with the 32-, 64- and 128-bit arithmetic of the code written out. *)

From S2P Require Import Prelude Exceptions Config Database.

(** ** Arithmetic helpers ([namespace impl]) *)

Record ratio : Set := Ratio { numerator : Z; denominator : Z }.

(** [operator*] of a [uint64_t] and a ratio. *)
Definition ratio_mul (value : Z) (r : ratio) : res Z :=
  EOS_ASSERT ((numerator r =? 0) || (uint64_max / numerator r >=? value))
    rate_limiting_state_inconsistent;;
  mret (u64 (value * numerator r) / denominator r).

Definition integer_divide_ceil (num den : Z) : Z :=
  num / den + (if num mod den >? 0 then 1 else 0).

(** [downgrade_cast<uint64_t>] and [downgrade_cast<int64_t>] of a [uint128_t]. *)
Definition downgrade_cast_uint64 (val : Z) : res Z :=
  EOS_ASSERT ((val >=? 0) && (val <=? uint64_max)) rate_limiting_state_inconsistent;;
  mret val.
Definition downgrade_cast_int64 (val : Z) : res Z :=
  EOS_ASSERT ((val >=? 0) && (val <=? int64_max)) rate_limiting_state_inconsistent;;
  mret val.

(** ** The moving average *)

Record usage_accumulator : Set := Accumulator {
  last_ordinal : Z;   (* uint32_t *)
  value_ex : Z;       (* uint64_t *)
  consumed : Z }.     (* uint64_t *)

Definition accumulator_zero : usage_accumulator := Accumulator 0 0 0.

Definition Precision : Z := config.rate_limiting_precision.
Definition max_raw_value : Z := uint64_max / Precision.

Definition average (v : Z) : Z := integer_divide_ceil v Precision.

Definition accumulator_add (acc : usage_accumulator) (units ordinal window_size : Z)
    : res usage_accumulator :=
  EOS_ASSERT (units <=? max_raw_value) rate_limiting_state_inconsistent;;
  EOS_ASSERT (uint64_max - consumed acc >=? units) rate_limiting_state_inconsistent;;
  value_ex_contrib ←
    downgrade_cast_uint64 (integer_divide_ceil (u128 (units * Precision)) window_size);
  EOS_ASSERT (uint64_max - value_ex acc >=? value_ex_contrib) rate_limiting_state_inconsistent;;
  acc ←
    (if negb (last_ordinal acc =? ordinal) then
       EOS_ASSERT (ordinal >? last_ordinal acc) resource_limit_exception;;
       value_ex' ←
         (if u64 (last_ordinal acc + window_size) >? ordinal then
            let delta := u32 (ordinal - last_ordinal acc) in
            let decay := Ratio (u64 (window_size - delta)) window_size in
            ratio_mul (value_ex acc) decay
          else mret 0);
       mret (Accumulator ordinal value_ex' (average value_ex'))
     else mret acc);
  mret (Accumulator (last_ordinal acc) (u64 (value_ex acc + value_ex_contrib))
                    (u64 (consumed acc + units))).

(** ** Parameters and elastic limits *)

Record elastic_limit_parameters : Set := ElasticLimitParameters {
  elp_target : Z;          (* uint64_t *)
  elp_max : Z;             (* uint64_t *)
  elp_periods : Z;         (* uint32_t *)
  elp_max_multiplier : Z;  (* uint32_t *)
  elp_contract_rate : ratio;
  elp_expand_rate : ratio }.

Definition elastic_limit_parameters_validate (p : elastic_limit_parameters) : res unit :=
  EOS_ASSERT (elp_periods p >? 0) resource_limit_exception;;
  EOS_ASSERT (denominator (elp_contract_rate p) >? 0) resource_limit_exception;;
  EOS_ASSERT (denominator (elp_expand_rate p) >? 0) resource_limit_exception.

Definition update_elastic_limit (current_limit average_usage : Z) (params : elastic_limit_parameters)
    : res Z :=
  result ←
    (if average_usage >? elp_target params
     then ratio_mul current_limit (elp_contract_rate params)
     else ratio_mul current_limit (elp_expand_rate params));
  mret (Z.min (Z.max result (elp_max params)) (u64 (elp_max params * elp_max_multiplier params))).

(** ** Objects of the database *)

Record resource_limits_object : Set := Limits {
  net_weight : Z; cpu_weight : Z; ram_bytes : Z }.   (* int64_t *)
Definition limits_default : resource_limits_object := Limits (-1) (-1) (-1).

Record resource_usage_object : Set := Usage {
  net_usage : usage_accumulator; cpu_usage : usage_accumulator; ram_usage : Z }.
Definition usage_default : resource_usage_object := Usage accumulator_zero accumulator_zero 0.

Record resource_limits_config_object : Set := LimitsConfig {
  cpu_limit_parameters : elastic_limit_parameters;
  net_limit_parameters : elastic_limit_parameters;
  account_cpu_usage_average_window : Z;
  account_net_usage_average_window : Z }.

Definition config_default : resource_limits_config_object := LimitsConfig
  (ElasticLimitParameters
     (EOS_PERCENT config.default_max_block_cpu_usage config.default_target_block_cpu_usage_pct)
     config.default_max_block_cpu_usage
     (config.block_cpu_usage_average_window_ms / config.block_interval_ms)
     1000 (Ratio 99 100) (Ratio 1000 999))
  (ElasticLimitParameters
     (EOS_PERCENT config.default_max_block_net_usage config.default_target_block_net_usage_pct)
     config.default_max_block_net_usage
     (config.block_size_average_window_ms / config.block_interval_ms)
     1000 (Ratio 99 100) (Ratio 1000 999))
  (config.account_cpu_usage_average_window_ms / config.block_interval_ms)
  (config.account_net_usage_average_window_ms / config.block_interval_ms).

Record resource_limits_state_object : Set := LimitsState {
  average_block_net_usage : usage_accumulator;
  average_block_cpu_usage : usage_accumulator;
  pending_net_usage : Z;
  pending_cpu_usage : Z;
  total_net_weight : Z;
  total_cpu_weight : Z;
  total_ram_bytes : Z;
  virtual_net_limit : Z;
  virtual_cpu_limit : Z }.

Definition state_default : resource_limits_state_object :=
  LimitsState accumulator_zero accumulator_zero 0 0 0 0 0 0 0.

(** The indices of the manager; limits are keyed by (pending, owner). *)
Record resource_limits_db : Type := ResourceLimitsDb {
  db_limits : gmap (bool * Z) resource_limits_object;
  db_usage : gmap Z resource_usage_object;
  db_config : resource_limits_config_object;
  db_state : resource_limits_state_object }.

Definition with_limits db l := ResourceLimitsDb l (db_usage db) (db_config db) (db_state db).
Definition with_usage db u := ResourceLimitsDb (db_limits db) u (db_config db) (db_state db).
Definition with_config db c := ResourceLimitsDb (db_limits db) (db_usage db) c (db_state db).
Definition with_state db s := ResourceLimitsDb (db_limits db) (db_usage db) (db_config db) s.

Definition update_virtual_cpu_limit (s : resource_limits_state_object)
    (cfg : resource_limits_config_object) : res resource_limits_state_object :=
  l ← update_elastic_limit (virtual_cpu_limit s)
        (average (value_ex (average_block_cpu_usage s))) (cpu_limit_parameters cfg);
  mret (LimitsState (average_block_net_usage s) (average_block_cpu_usage s) (pending_net_usage s)
          (pending_cpu_usage s) (total_net_weight s) (total_cpu_weight s) (total_ram_bytes s)
          (virtual_net_limit s) l).

Definition update_virtual_net_limit (s : resource_limits_state_object)
    (cfg : resource_limits_config_object) : res resource_limits_state_object :=
  l ← update_elastic_limit (virtual_net_limit s)
        (average (value_ex (average_block_net_usage s))) (net_limit_parameters cfg);
  mret (LimitsState (average_block_net_usage s) (average_block_cpu_usage s) (pending_net_usage s)
          (pending_cpu_usage s) (total_net_weight s) (total_cpu_weight s) (total_ram_bytes s)
          l (virtual_cpu_limit s)).

(** ** The manager *)

Definition initialize_database : resource_limits_db :=
  let config := config_default in
  let s := state_default in
  ResourceLimitsDb ∅ ∅ config
    (LimitsState (average_block_net_usage s) (average_block_cpu_usage s) (pending_net_usage s)
       (pending_cpu_usage s) (total_net_weight s) (total_cpu_weight s) (total_ram_bytes s)
       (elp_max (net_limit_parameters config)) (elp_max (cpu_limit_parameters config))).

Definition initialize_account (db : resource_limits_db) (account : Z) : res resource_limits_db :=
  l ← db_create (db_limits db) (false, account) limits_default;
  u ← db_create (db_usage db) account usage_default;
  mret (with_usage (with_limits db l) u).

Definition set_block_parameters (db : resource_limits_db) (cpu net : elastic_limit_parameters)
    : res resource_limits_db :=
  elastic_limit_parameters_validate cpu;;
  elastic_limit_parameters_validate net;;
  let c := db_config db in
  mret (with_config db
    (LimitsConfig cpu net (account_cpu_usage_average_window c) (account_net_usage_average_window c))).

(** The body of the lambda that bills one account. *)
Definition add_usage (config : resource_limits_config_object) (cpu net time_slot : Z)
    (bu : resource_usage_object) : res resource_usage_object :=
  n ← accumulator_add (net_usage bu) net time_slot (account_net_usage_average_window config);
  c ← accumulator_add (cpu_usage bu) cpu time_slot (account_cpu_usage_average_window config);
  mret (Usage n c (ram_usage bu)).

Definition update_account_usage (db : resource_limits_db) (accounts : list Z) (time_slot : Z)
    : res resource_limits_db :=
  foldM (λ db a,
    usage ← db_get (db_usage db) a;
    usage' ← add_usage (db_config db) 0 0 time_slot usage;
    mret (with_usage db (<[a := usage']> (db_usage db)))) db accounts.

Definition get_account_limits (db : resource_limits_db) (account : Z) : res resource_limits_object :=
  match db_limits db !! (true, account) with
  | Some pending_buo => mret pending_buo
  | None => db_get (db_limits db) (false, account)
  end.

(** The [uint128_t] quantities that a limit is checked with. *)
Definition used_in_window_floor (value_ex window_size : Z) : Z :=
  u128 (value_ex * window_size) / config.rate_limiting_precision.
Definition used_in_window_ceil (value_ex window_size : Z) : Z :=
  integer_divide_ceil (u128 (value_ex * window_size)) config.rate_limiting_precision.
Definition max_user_use (capacity window_size user_weight all_user_weight : Z) : Z :=
  u128 (u128 (capacity * window_size) * user_weight) / all_user_weight.

Definition bill_account (cpu net time_slot : Z) (db : resource_limits_db) (a : Z)
    : res resource_limits_db :=
  let state := db_state db in
  let config := db_config db in
  usage ← db_get (db_usage db) a;
  limits ← get_account_limits db a;
  usage' ← add_usage config cpu net time_slot usage;
  (if (cpu_weight limits >=? 0) && (total_cpu_weight state >? 0) then
     let window_size := account_cpu_usage_average_window config in
     EOS_ASSERT (used_in_window_floor (value_ex (cpu_usage usage')) window_size <=?
                 max_user_use (virtual_cpu_limit state) window_size (cpu_weight limits)
                              (total_cpu_weight state))
       tx_cpu_usage_exceeded
   else mret ());;
  (if (net_weight limits >=? 0) && (total_net_weight state >? 0) then
     let window_size := account_net_usage_average_window config in
     EOS_ASSERT (used_in_window_floor (value_ex (net_usage usage')) window_size <=?
                 max_user_use (virtual_net_limit state) window_size (net_weight limits)
                              (total_net_weight state))
       tx_net_usage_exceeded
   else mret ());;
  mret (with_usage db (<[a := usage']> (db_usage db))).

Definition add_transaction_usage (db : resource_limits_db) (accounts : list Z)
    (cpu net time_slot : Z) : res resource_limits_db :=
  db ← foldM (bill_account cpu net time_slot) db accounts;
  let s := db_state db in
  let state :=
    LimitsState (average_block_net_usage s) (average_block_cpu_usage s)
      (u64 (pending_net_usage s + net)) (u64 (pending_cpu_usage s + cpu))
      (total_net_weight s) (total_cpu_weight s) (total_ram_bytes s)
      (virtual_net_limit s) (virtual_cpu_limit s) in
  EOS_ASSERT (pending_cpu_usage state <=? elp_max (cpu_limit_parameters (db_config db)))
    block_resource_exhausted;;
  EOS_ASSERT (pending_net_usage state <=? elp_max (net_limit_parameters (db_config db)))
    block_resource_exhausted;;
  mret (with_state db state).

Definition add_pending_ram_usage (db : resource_limits_db) (account ram_delta : Z)
    : res resource_limits_db :=
  if ram_delta =? 0 then mret db
  else
    usage ← db_get (db_usage db) account;
    EOS_ASSERT ((ram_delta <=? 0) || (uint64_max - ram_usage usage >=? u64 ram_delta))
      transaction_exception;;
    EOS_ASSERT ((ram_delta >=? 0) || (ram_usage usage >=? u64 (- ram_delta)))
      transaction_exception;;
    mret (with_usage db (<[account := Usage (net_usage usage) (cpu_usage usage)
                                            (u64 (ram_usage usage + ram_delta))]> (db_usage db))).

Definition verify_account_ram_usage (db : resource_limits_db) (account : Z) : res unit :=
  limits ← get_account_limits db account;
  usage ← db_get (db_usage db) account;
  if ram_bytes limits >=? 0
  then EOS_ASSERT (ram_usage usage <=? ram_bytes limits) ram_usage_exceeded
  else mret ().

Definition verify_account_ram_usage_ex (db : resource_limits_db) (account : Z) : res bool :=
  limits ← get_account_limits db account;
  usage ← db_get (db_usage db) account;
  if ram_bytes limits >=? 0 then mret (ram_usage usage <=? ram_bytes limits) else mret true.

Definition get_account_ram_usage (db : resource_limits_db) (name : Z) : res Z :=
  usage ← db_get (db_usage db) name; mret (i64 (ram_usage usage)).

Definition find_or_create_pending_limits (db : resource_limits_db) (account : Z)
    : res (resource_limits_object * resource_limits_db) :=
  match db_limits db !! (true, account) with
  | None =>
      limits ← db_get (db_limits db) (false, account);
      l ← db_create (db_limits db) (true, account) limits;
      mret (limits, with_limits db l)
  | Some pending_limits => mret (pending_limits, db)
  end.

Definition set_account_limits (db : resource_limits_db) (account ram net cpu : Z)
    : res (bool * resource_limits_db) :=
  '(limits, db) ← find_or_create_pending_limits db account;
  let decreased_limit :=
    (ram >=? 0) && ((ram_bytes limits <? 0) || (ram <? ram_bytes limits)) in
  mret (decreased_limit,
        with_limits db (<[(true, account) := Limits net cpu ram]> (db_limits db))).

(** The lambda [update_state_and_value]: the new total. *)
Definition update_state_and_value (total value pending_value : Z) : res Z :=
  total ←
    (if value >? 0 then
       EOS_ASSERT (total >=? value) rate_limiting_state_inconsistent;; mret (u64 (total - value))
     else mret total);
  if pending_value >? 0 then
    EOS_ASSERT (uint64_max - total >=? pending_value) rate_limiting_state_inconsistent;;
    mret (u64 (total + pending_value))
  else mret total.

(** The owners with a pending entry, in the order of the [by_owner] index. *)
Definition pending_owners (m : gmap (bool * Z) resource_limits_object) : list Z :=
  merge_sort Z.le (omap (λ '((p, o), _), if (p : bool) then Some o else None) (map_to_list m)).

(** One iteration of the loop of [process_account_limit_updates], for the
    first pending entry, whose owner is [o]. *)
Definition process_pending (db : resource_limits_db) (o : Z) : res resource_limits_db :=
  let rso := db_state db in
  pending ← db_get (db_limits db) (true, o);
  rlo ← db_get (db_limits db) (false, o);
  ram ← update_state_and_value (total_ram_bytes rso) (ram_bytes rlo) (ram_bytes pending);
  cpu ← update_state_and_value (total_cpu_weight rso) (cpu_weight rlo) (cpu_weight pending);
  net ← update_state_and_value (total_net_weight rso) (net_weight rlo) (net_weight pending);
  mret (ResourceLimitsDb
    (delete (true, o)
       (<[(false, o) := Limits (net_weight pending) (cpu_weight pending) (ram_bytes pending)]>
          (db_limits db)))
    (db_usage db) (db_config db)
    (LimitsState (average_block_net_usage rso) (average_block_cpu_usage rso)
       (pending_net_usage rso) (pending_cpu_usage rso) net cpu ram
       (virtual_net_limit rso) (virtual_cpu_limit rso))).

(** Each iteration removes the entry it has processed, so the loop visits the
    pending owners in their order. *)
Definition process_account_limit_updates (db : resource_limits_db) : res resource_limits_db :=
  foldM process_pending db (pending_owners (db_limits db)).

Definition process_block_usage (db : resource_limits_db) (block_num : Z) : res resource_limits_db :=
  let config := db_config db in
  let s := db_state db in
  cpu ← accumulator_add (average_block_cpu_usage s) (pending_cpu_usage s) block_num
          (elp_periods (cpu_limit_parameters config));
  s ← update_virtual_cpu_limit
        (LimitsState (average_block_net_usage s) cpu (pending_net_usage s) (pending_cpu_usage s)
           (total_net_weight s) (total_cpu_weight s) (total_ram_bytes s)
           (virtual_net_limit s) (virtual_cpu_limit s)) config;
  net ← accumulator_add (average_block_net_usage s) (pending_net_usage s) block_num
          (elp_periods (net_limit_parameters config));
  s ← update_virtual_net_limit
        (LimitsState net (average_block_cpu_usage s) (pending_net_usage s) 0
           (total_net_weight s) (total_cpu_weight s) (total_ram_bytes s)
           (virtual_net_limit s) (virtual_cpu_limit s)) config;
  mret (with_state db
    (LimitsState (average_block_net_usage s) (average_block_cpu_usage s) 0 (pending_cpu_usage s)
       (total_net_weight s) (total_cpu_weight s) (total_ram_bytes s)
       (virtual_net_limit s) (virtual_cpu_limit s))).

Definition get_virtual_block_cpu_limit (db : resource_limits_db) : Z := virtual_cpu_limit (db_state db).
Definition get_virtual_block_net_limit (db : resource_limits_db) : Z := virtual_net_limit (db_state db).
Definition get_block_cpu_limit (db : resource_limits_db) : Z :=
  u64 (elp_max (cpu_limit_parameters (db_config db)) - pending_cpu_usage (db_state db)).
Definition get_block_net_limit (db : resource_limits_db) : Z :=
  u64 (elp_max (net_limit_parameters (db_config db)) - pending_net_usage (db_state db)).

Record account_resource_limit : Set := AccountResourceLimit {
  arl_used : Z; arl_available : Z; arl_max : Z }.

(** The tail shared by the two [get_account_*_limit_ex]. *)
Definition account_limit (max_user_use_in_window used_in_window : Z) : res account_resource_limit :=
  available ←
    (if max_user_use_in_window <=? used_in_window then mret 0
     else downgrade_cast_int64 (max_user_use_in_window - used_in_window));
  used ← downgrade_cast_int64 used_in_window;
  max ← downgrade_cast_int64 max_user_use_in_window;
  mret (AccountResourceLimit used available max).

Definition get_account_cpu_limit_ex (db : resource_limits_db) (name : Z) (elastic : bool)
    : res account_resource_limit :=
  let state := db_state db in
  let config := db_config db in
  usage ← db_get (db_usage db) name;
  limits ← get_account_limits db name;
  if (cpu_weight limits <? 0) || (total_cpu_weight state =? 0)
  then mret (AccountResourceLimit (-1) (-1) (-1))
  else
    let window_size := account_cpu_usage_average_window config in
    let capacity :=
      if elastic then virtual_cpu_limit state else elp_max (cpu_limit_parameters config) in
    account_limit (max_user_use capacity window_size (cpu_weight limits) (total_cpu_weight state))
                  (used_in_window_ceil (value_ex (cpu_usage usage)) window_size).

Definition get_account_net_limit_ex (db : resource_limits_db) (name : Z) (elastic : bool)
    : res account_resource_limit :=
  let state := db_state db in
  let config := db_config db in
  usage ← db_get (db_usage db) name;
  limits ← get_account_limits db name;
  if (net_weight limits <? 0) || (total_net_weight state =? 0)
  then mret (AccountResourceLimit (-1) (-1) (-1))
  else
    let window_size := account_net_usage_average_window config in
    let capacity :=
      if elastic then virtual_net_limit state else elp_max (net_limit_parameters config) in
    account_limit (max_user_use capacity window_size (net_weight limits) (total_net_weight state))
                  (used_in_window_ceil (value_ex (net_usage usage)) window_size).

Definition get_account_cpu_limit (db : resource_limits_db) (name : Z) (elastic : bool) : res Z :=
  arl ← get_account_cpu_limit_ex db name elastic; mret (arl_available arl).
Definition get_account_net_limit (db : resource_limits_db) (name : Z) (elastic : bool) : res Z :=
  arl ← get_account_net_limit_ex db name elastic; mret (arl_available arl).

(** ** Arithmetic lemmas *)

Lemma integer_divide_ceil_bounds num den :
  0 < den → num <= integer_divide_ceil num den * den < num + den.
Proof.
  intros Hden. unfold integer_divide_ceil.
  pose proof (Z.div_mod num den). pose proof (Z.mod_pos_bound num den Hden).
  rewrite Z.gtb_ltb. destruct (Z.ltb_spec 0 (num mod den)); nia.
Qed.

Lemma integer_divide_ceil_le num den b : 0 < den → num <= b * den → integer_divide_ceil num den <= b.
Proof. intros Hd H. pose proof (integer_divide_ceil_bounds num den Hd). nia. Qed.

Lemma integer_divide_ceil_nonneg num den : 0 < den → 0 <= num → 0 <= integer_divide_ceil num den.
Proof. intros Hd H. pose proof (integer_divide_ceil_bounds num den Hd). nia. Qed.

Lemma ratio_mul_Ok value r q :
  0 <= value → 0 <= numerator r → ratio_mul value r = Ok q →
  value * numerator r <= uint64_max ∧ q = value * numerator r / denominator r.
Proof.
  intros Hv Hn H. unfold ratio_mul in H. simplify_res.
  assert (Hle : value * numerator r <= uint64_max).
  { zbool. destruct H as [H|H]; zbool; [rewrite H; unfold uint64_max; lia|].
    destruct (decide (numerator r = 0)) as [->|]; [unfold uint64_max; lia|].
    pose proof (Z.mul_div_le uint64_max (numerator r)). nia. }
  split; [done|]. rewrite wrap_id; [done|]. unfold is_unsigned, uint64_max in *. nia.
Qed.

Lemma ratio_mul_total value r :
  0 <= value → 0 <= numerator r → value * numerator r <= uint64_max →
  ratio_mul value r = Ok (value * numerator r / denominator r).
Proof.
  intros Hv Hn Hle. unfold ratio_mul.
  assert ((numerator r =? 0) || (uint64_max / numerator r >=? value) = true) as ->.
  { destruct (Z.eqb_spec (numerator r) 0); [done|]. rewrite Z.geb_leb. apply Z.leb_le.
    apply Z.div_le_lower_bound; lia. }
  cbn. rewrite wrap_id; [done|]. unfold is_unsigned, uint64_max in *. nia.
Qed.

(** ** Specification of the moving average *)

Definition accumulator_wf (acc : usage_accumulator) : Prop :=
  is_unsigned 32 (last_ordinal acc) ∧ is_unsigned 64 (value_ex acc) ∧ is_unsigned 64 (consumed acc).

(** The average after the time to [ordinal] has passed, on exact integers. *)
Definition decayed (acc : usage_accumulator) (ordinal window_size : Z) : Z :=
  if ordinal =? last_ordinal acc then value_ex acc
  else if ordinal <? last_ordinal acc + window_size
  then value_ex acc * (window_size - (ordinal - last_ordinal acc)) / window_size
  else 0.

Definition contribution (units window_size : Z) : Z :=
  integer_divide_ceil (units * Precision) window_size.

Lemma Precision_eq : Precision = 1000000.
Proof. reflexivity. Qed.
Lemma max_raw_value_eq : max_raw_value = 18446744073709.
Proof. reflexivity. Qed.

Lemma decayed_bounds acc ordinal window_size :
  0 <= value_ex acc → 0 < window_size → last_ordinal acc <= ordinal →
  0 <= decayed acc ordinal window_size <= value_ex acc.
Proof.
  intros Hv Hw Ho. unfold decayed.
  destruct (Z.eqb_spec ordinal (last_ordinal acc)); [lia|].
  destruct (Z.ltb_spec ordinal (last_ordinal acc + window_size)); [|lia].
  split; [apply Z.div_pos; nia|]. apply Z.div_le_upper_bound; nia.
Qed.

Lemma average_bound v : 0 <= v < 2 ^ 64 → 0 <= average v <= max_raw_value + 1.
Proof.
  intros Hv. unfold average. rewrite max_raw_value_eq. split.
  - apply integer_divide_ceil_nonneg; [done|lia].
  - apply integer_divide_ceil_le; [done|]. rewrite Precision_eq. lia.
Qed.

Lemma accumulator_add_inv acc units ordinal window acc' :
  accumulator_wf acc → 0 <= units → is_unsigned 32 ordinal → 0 < window < 2 ^ 32 →
  accumulator_add acc units ordinal window = Ok acc' →
  last_ordinal acc <= ordinal ∧ units <= max_raw_value ∧
  acc' = Accumulator ordinal (decayed acc ordinal window + contribution units window)
           ((if ordinal =? last_ordinal acc then consumed acc
             else average (decayed acc ordinal window)) + units) ∧
  accumulator_wf acc'.
Proof.
  intros (Hlo & Hv & Hc) Hu Ho Hw H. unfold accumulator_add, downgrade_cast_uint64 in H.
  unfold is_unsigned in *. simplify_res. rewrite Z.geb_leb in *. zbool.
  rewrite max_raw_value_eq in *.
  assert (Hup : u128 (units * Precision) = units * Precision)
    by (apply wrap_id; rewrite Precision_eq; unfold is_unsigned; lia).
  rewrite Hup in *. fold (contribution units window) in *.
  set (contrib := contribution units window) in *.
  match goal with H : _ = Ok ?a |- _ => rename H into Hacc, a into acc1 end.
  assert (Hle : last_ordinal acc <= ordinal ∧
    acc1 = Accumulator ordinal (decayed acc ordinal window)
      (if ordinal =? last_ordinal acc then consumed acc else average (decayed acc ordinal window))).
  { unfold decayed. rewrite (Z.eqb_sym ordinal).
    destruct (Z.eqb_spec (last_ordinal acc) ordinal) as [Heq|Hne]; cbn [negb] in Hacc.
    { simplify_res. split; [lia|]. by destruct acc1; cbn in *; subst. }
    simplify_res. rewrite Z.gtb_ltb in *. zbool. split; [lia|].
    rewrite (wrap_id 64) in * by (unfold is_unsigned; lia).
    destruct (Z.ltb_spec ordinal (last_ordinal acc + window)); simplify_res; [|done].
    match goal with H : ratio_mul _ _ = _ |- _ => apply ratio_mul_Ok in H; cbn [numerator denominator] in * end;
      [|lia|apply wrap_range; lia].
    destruct_and!. rewrite (wrap_id 32), (wrap_id 64) in * by (unfold is_unsigned; lia). by subst. }
  destruct Hle as [Hle ->]. cbn [last_ordinal value_ex consumed].
  pose proof (decayed_bounds acc ordinal window ltac:(lia) ltac:(lia) Hle) as Hd.
  pose proof (average_bound (decayed acc ordinal window) ltac:(lia)) as Ha.
  rewrite max_raw_value_eq in Ha. unfold uint64_max in *.
  assert (Hcons : 0 <= (if ordinal =? last_ordinal acc then consumed acc
             else average (decayed acc ordinal window)) + units < 2 ^ 64)
    by (destruct (ordinal =? _); lia).
  rewrite !wrap_id by (unfold is_unsigned; lia).
  split; [lia|]. split; [lia|]. split; [done|]. unfold accumulator_wf, is_unsigned.
  cbn [last_ordinal value_ex consumed]. lia.
Qed.

Lemma contribution_bounds units window :
  0 < window → units * Precision <= contribution units window * window < units * Precision + window.
Proof. apply integer_divide_ceil_bounds. Qed.

(** When the running sums stay in range, the accumulator takes the usage. *)
Lemma accumulator_add_total acc units ordinal window :
  accumulator_wf acc → 0 <= units <= max_raw_value → is_unsigned 32 ordinal → 0 < window < 2 ^ 32 →
  last_ordinal acc <= ordinal → consumed acc + units <= uint64_max →
  value_ex acc + contribution units window <= uint64_max →
  (last_ordinal acc = ordinal ∨ value_ex acc * window <= uint64_max) →
  ∃ acc', accumulator_add acc units ordinal window = Ok acc'.
Proof.
  intros (Hlo & Hv & Hc) Hu Ho Hw Hle Hcons Hval Hdec.
  unfold accumulator_add, downgrade_cast_uint64. unfold is_unsigned in *.
  rewrite max_raw_value_eq in *.
  assert (Hup : u128 (units * Precision) = units * Precision)
    by (apply wrap_id; rewrite Precision_eq; unfold is_unsigned; lia).
  rewrite Hup. fold (contribution units window).
  assert (0 <= contribution units window)
    by (apply integer_divide_ceil_nonneg; rewrite ?Precision_eq; lia).
  do 3 pass_assert. cbn [mbind result_bind mret result_ret].
  pass_assert.
  destruct (Z.eqb_spec (last_ordinal acc) ordinal) as [Heq|Hne]; cbn [negb]; [by eexists|].
  pass_assert. destruct Hdec as [|Hdec]; [done|].
  destruct (_ >? ordinal) eqn:Hgt; [|by eexists].
  rewrite (wrap_id 64 (_ + _)) in Hgt by (unfold is_unsigned; lia).
  rewrite (wrap_id 32), wrap_id by (unfold is_unsigned; lia).
  rewrite ratio_mul_total; cbn [numerator]; [by eexists|lia|lia|nia].
Qed.

(** ** Block usage and the elastic limits *)

(** Parameters for which the block arithmetic cannot leave 64 bits. *)
Definition params_ok (p : elastic_limit_parameters) : Prop :=
  0 < elp_periods p < 2 ^ 32 ∧ 0 <= elp_max p ∧ 1 <= elp_max_multiplier p ∧
  (elp_max p * Precision + elp_periods p) * Z.max 2 (elp_periods p) <= uint64_max ∧
  elp_max p * elp_max_multiplier p <= uint64_max ∧
  0 <= numerator (elp_contract_rate p) ∧ 0 < denominator (elp_contract_rate p) ∧
  0 <= numerator (elp_expand_rate p) ∧ 0 < denominator (elp_expand_rate p) ∧
  elp_max p * elp_max_multiplier p * numerator (elp_contract_rate p) <= uint64_max ∧
  elp_max p * elp_max_multiplier p * numerator (elp_expand_rate p) <= uint64_max.

(** A block average that has only seen usages up to the maximum. *)
Definition block_average_ok (p : elastic_limit_parameters) (acc : usage_accumulator) (n : Z) : Prop :=
  accumulator_wf acc ∧ last_ordinal acc <= n ∧
  value_ex acc <= elp_max p * Precision + elp_periods p ∧ consumed acc <= 3 * max_raw_value.

Definition limit_ok (p : elastic_limit_parameters) (limit : Z) : Prop :=
  elp_max p <= limit <= elp_max p * elp_max_multiplier p.

(** Each later period takes off at least one part in [window_size]. *)
Lemma decayed_strict acc ordinal window_size :
  0 <= value_ex acc → 0 < window_size → last_ordinal acc < ordinal →
  decayed acc ordinal window_size * window_size <= value_ex acc * (window_size - 1).
Proof.
  intros Hv Hw Ho. unfold decayed. rewrite (proj2 (Z.eqb_neq ordinal _)) by lia.
  destruct (Z.ltb_spec ordinal (last_ordinal acc + window_size)) as [Hlt|]; [|nia].
  set (d := ordinal - last_ordinal acc) in *.
  pose proof (Z.mul_div_le (value_ex acc * (window_size - d)) window_size Hw).
  rewrite Z.mul_comm. etransitivity; [eassumption|].
  apply Z.mul_le_mono_nonneg_l; lia.
Qed.

(** The fixed point of decay and contribution. *)
Lemma steady_bound d c v u M W :
  0 < W → d * W <= v * (W - 1) → c * W < u * 1000000 + W → v <= M * 1000000 + W → u <= M →
  d + c <= M * 1000000 + W.
Proof.
  intros HW Hd Hc Hv Hu.
  assert (v * (W - 1) <= (M * 1000000 + W) * (W - 1)) by (apply Z.mul_le_mono_nonneg_r; lia).
  assert ((d + c) * W < (M * 1000000 + W) * W) by lia. nia.
Qed.

Lemma block_average_step p acc n m units :
  params_ok p → block_average_ok p acc n → 0 <= units <= elp_max p → n < m < 2 ^ 32 →
  ∃ acc', accumulator_add acc units m (elp_periods p) = Ok acc' ∧ block_average_ok p acc' m.
Proof.
  intros (HW & HM & _ & Hcap & _) (Hwf & Hlast & Hv & Hc) Hu Hm.
  pose proof Hwf as (Hlo & Hv0 & Hc0). unfold is_unsigned in *.
  set (W := elp_periods p) in *. set (M := elp_max p) in *.
  pose proof (contribution_bounds units W ltac:(lia)) as Hcb.
  rewrite max_raw_value_eq, Precision_eq in *. unfold uint64_max in *.
  assert (HMW : (M * 1000000 + W) * W <= 2 ^ 64 - 1)
    by (etransitivity; [apply Z.mul_le_mono_nonneg_l, (Z.le_max_r 2 W); lia|exact Hcap]).
  assert (HM2 : (M * 1000000 + W) * 2 <= 2 ^ 64 - 1)
    by (etransitivity; [apply Z.mul_le_mono_nonneg_l, (Z.le_max_l 2 W); lia|exact Hcap]).
  clear Hcap. assert (HMr : M <= 18446744073709) by lia.
  set (c := contribution units W) in *.
  assert (Hc1 : c <= units * 1000000)
    by (apply integer_divide_ceil_le; rewrite ?Precision_eq; nia).
  destruct (accumulator_add_total acc units m W) as [acc' Hadd];
    rewrite ?max_raw_value_eq; unfold is_unsigned, uint64_max; try done; try lia.
  { right. nia. }
  exists acc'. split; [done|].
  apply accumulator_add_inv in Hadd as (_ & _ & -> & Hwf'); unfold is_unsigned; try done; try lia.
  unfold block_average_ok. cbn [last_ordinal value_ex consumed]. fold W M c.
  split; [done|]. split; [lia|].
  pose proof (decayed_bounds acc m W ltac:(lia) ltac:(lia) ltac:(lia)) as Hd.
  pose proof (average_bound (decayed acc m W) ltac:(lia)) as Ha.
  rewrite max_raw_value_eq, Precision_eq in *. rewrite (proj2 (Z.eqb_neq m _)) by lia.
  split; [|lia].
  pose proof (decayed_strict acc m W ltac:(lia) ltac:(lia) ltac:(lia)) as Hdec.
  apply (steady_bound (decayed acc m W) c (value_ex acc) units); lia.
Qed.

Lemma update_elastic_limit_total p cur avg :
  params_ok p → limit_ok p cur → ∃ l, update_elastic_limit cur avg p = Ok l ∧ limit_ok p l.
Proof.
  intros (_ & HM & Hmult & _ & Hcap & Hcn & Hcd & Hen & Hed & Hc & He) [Hlo Hhi].
  unfold update_elastic_limit. set (top := elp_max p * elp_max_multiplier p) in *.
  assert (Htop : u64 top = top) by (apply wrap_id; unfold is_unsigned, uint64_max in *; nia).
  rewrite Htop.
  destruct (avg >? elp_target p);
    (rewrite ratio_mul_total by (lia || nia); eexists; split; [done|]; unfold limit_ok; fold top; nia).
Qed.

(** The block side of the database between blocks; [n] is the last block. *)
Record block_inv (db : resource_limits_db) (n : Z) : Prop := {
  inv_cpu_params : params_ok (cpu_limit_parameters (db_config db));
  inv_net_params : params_ok (net_limit_parameters (db_config db));
  inv_cpu_average : block_average_ok (cpu_limit_parameters (db_config db))
                      (average_block_cpu_usage (db_state db)) n;
  inv_net_average : block_average_ok (net_limit_parameters (db_config db))
                      (average_block_net_usage (db_state db)) n;
  inv_cpu_limit : limit_ok (cpu_limit_parameters (db_config db)) (virtual_cpu_limit (db_state db));
  inv_net_limit : limit_ok (net_limit_parameters (db_config db)) (virtual_net_limit (db_state db));
  inv_cpu_pending :
    0 <= pending_cpu_usage (db_state db) <= elp_max (cpu_limit_parameters (db_config db));
  inv_net_pending :
    0 <= pending_net_usage (db_state db) <= elp_max (net_limit_parameters (db_config db)) }.

Lemma initialize_database_inv : block_inv initialize_database 0.
Proof.
  split; vm_compute; repeat split; intros; congruence.
Qed.



(** C37: the moving average is exact: on 32- and 64-bit state, a successful
    [add] never wraps; it decays the value by the whole periods passed, adds
    the rounded-up contribution, and its time never goes back.  After a whole
    idle window the average is zero. *)
Theorem accumulator_add_exact acc units ordinal window :
  accumulator_wf acc → 0 <= units → is_unsigned 32 ordinal → 0 < window < 2 ^ 32 →
  (∀ acc', accumulator_add acc units ordinal window = Ok acc' →
    accumulator_wf acc' ∧ last_ordinal acc <= last_ordinal acc' ∧ last_ordinal acc' = ordinal ∧
    value_ex acc' = decayed acc ordinal window + contribution units window ∧
    consumed acc' = (if ordinal =? last_ordinal acc then consumed acc
                     else average (decayed acc ordinal window)) + units) ∧
  (last_ordinal acc + window <= ordinal →
     accumulator_add acc 0 ordinal window = Ok (Accumulator ordinal 0 0)).
Proof.
  intros Hwf Hu Ho Hw. split.
  - intros acc' H. apply accumulator_add_inv in H as (Hle & _ & -> & Hwf'); try done.
  - intros Hidle. destruct Hwf as (Hlo & Hv & Hc). unfold is_unsigned in *.
    assert (Hz : contribution 0 window = 0).
    { unfold contribution, integer_divide_ceil. by rewrite Z.mul_0_l, Z.div_0_l, Z.mod_0_l by lia. }
    unfold accumulator_add, downgrade_cast_uint64. change (u128 (0 * Precision)) with (0 * Precision).
    fold (contribution 0 window). rewrite Hz. unfold uint64_max.
    rewrite (EOS_ASSERT_pass (0 <=? max_raw_value)) by done.
    repeat pass_assert. cbn [mbind result_bind mret result_ret]. repeat pass_assert.
    rewrite (proj2 (Z.eqb_neq _ _)) by lia. cbn [negb].
    rewrite (wrap_id 64) by (unfold is_unsigned; lia).
    assert ((last_ordinal acc + window >? ordinal) = false) as -> by lia. done.
Qed.

Lemma accumulator_add_exact_witness :
  (∀ acc', accumulator_add (Accumulator 10 5000000 7) 3 12 4 = Ok acc' →
     accumulator_wf acc' ∧ 10 <= last_ordinal acc' ∧ last_ordinal acc' = 12 ∧
     value_ex acc' = decayed (Accumulator 10 5000000 7) 12 4 + contribution 3 4 ∧
     consumed acc' = (if 12 =? 10 then 7 else average (decayed (Accumulator 10 5000000 7) 12 4)) + 3) ∧
  (10 + 4 <= 12 → accumulator_add (Accumulator 10 5000000 7) 0 12 4 = Ok (Accumulator 12 0 0)).
Proof.
  apply (accumulator_add_exact (Accumulator 10 5000000 7) 3 12 4);
    unfold accumulator_wf, is_unsigned; cbn [last_ordinal value_ex consumed]; lia.
Defined.

(** ** The promise of the account limits *)

Lemma accumulator_add_same acc units window :
  accumulator_wf acc → 0 <= units → 0 < window < 2 ^ 32 →
  accumulator_add acc units (last_ordinal acc) window = Throw rate_limiting_state_inconsistent ∨
  ∃ acc', accumulator_add acc units (last_ordinal acc) window = Ok acc' ∧ accumulator_wf acc' ∧
    value_ex acc' = value_ex acc + contribution units window.
Proof.
  intros Hwf Hu Hw.
  destruct (accumulator_add acc units (last_ordinal acc) window) as [acc'|e] eqn:H; [right|left].
  - exists acc'. split; [done|]. apply accumulator_add_inv in H as (_ & _ & -> & Hwf'); try done;
      [|apply Hwf]. split; [done|]. cbn. unfold decayed. by rewrite Z.eqb_refl.
  - unfold accumulator_add, downgrade_cast_uint64 in H. rewrite Z.eqb_refl in H. cbn [negb] in H.
    throw_cases; done.
Qed.

(** The room an account is told about is room it can be billed for: the use
    reported is rounded up, the use checked is rounded down, and the rounding
    of a contribution costs less than one unit over the window. *)
Lemma promise_arith v units window max_use :
  0 <= v → 0 < window <= Precision → 0 < units →
  units <= max_use - integer_divide_ceil (v * window) Precision →
  (v + contribution units window) * window / Precision <= max_use.
Proof.
  intros Hv Hw Hu Havail.
  pose proof (contribution_bounds units window ltac:(lia)) as Hc.
  pose proof (integer_divide_ceil_bounds (v * window) Precision ltac:(done)) as Hb.
  set (c := contribution units window) in *. set (q := integer_divide_ceil _ _) in *.
  assert (Hp : 0 < Precision) by done.
  assert (H : (v + c) * window < (q + units + 1) * Precision) by nia.
  assert ((v + c) * window / Precision < q + units + 1)
    by (apply Z.div_lt_upper_bound; lia). lia.
Qed.

Lemma promise_resource acc acc' units window max_use avail :
  accumulator_wf acc → accumulator_wf acc' → 0 < window <= Precision → 0 < units <= avail →
  (arl ← account_limit max_use (used_in_window_ceil (value_ex acc) window); mret (arl_available arl))
    = Ok avail →
  value_ex acc' = value_ex acc + contribution units window →
  used_in_window_floor (value_ex acc') window <= max_use.
Proof.
  intros (_ & Hv & _) (_ & Hv' & _) Hw Hu Havail Heq. unfold is_unsigned in *.
  assert (Hwp : Precision < 2 ^ 32) by done.
  assert (Hno : ∀ x, 0 <= x < 2 ^ 64 → u128 (x * window) = x * window)
    by (intros x Hx; apply wrap_id; unfold is_unsigned; nia).
  unfold used_in_window_floor, used_in_window_ceil in *. rewrite Hno in * by done.
  rewrite Heq. fold Precision in *. apply promise_arith; [lia|lia|lia|].
  unfold account_limit, downgrade_cast_int64 in Havail. simplify_res. cbn in *.
  repeat case_match; simplify_res; lia.
Qed.

Definition usage_wf (u : resource_usage_object) : Prop :=
  accumulator_wf (net_usage u) ∧ accumulator_wf (cpu_usage u) ∧ is_unsigned 64 (ram_usage u).

(** The account windows are positive and at most the precision. *)
Definition windows_ok (c : resource_limits_config_object) : Prop :=
  0 < account_cpu_usage_average_window c <= Precision ∧
  0 < account_net_usage_average_window c <= Precision.

Lemma limited_cpu db a avail usage limits :
  db_usage db !! a = Some usage → get_account_limits db a = Ok limits →
  get_account_cpu_limit db a true = Ok avail →
  0 <= cpu_weight limits → total_cpu_weight (db_state db) > 0 →
  (arl ← account_limit
     (max_user_use (virtual_cpu_limit (db_state db)) (account_cpu_usage_average_window (db_config db))
        (cpu_weight limits) (total_cpu_weight (db_state db)))
     (used_in_window_ceil (value_ex (cpu_usage usage)) (account_cpu_usage_average_window (db_config db)));
   mret (arl_available arl)) = Ok avail ∧ 0 <= avail.
Proof.
  intros Hu Hl H Hw Ht. unfold get_account_cpu_limit, get_account_cpu_limit_ex, db_get in H.
  rewrite Hu, Hl in H. cbn in H.
  assert ((cpu_weight limits <? 0) || (total_cpu_weight (db_state db) =? 0) = false) as Hg by lia.
  rewrite Hg in H. split; [exact H|]. unfold account_limit, downgrade_cast_int64 in H.
  simplify_res. cbn. repeat case_match; simplify_res; lia.
Qed.

Lemma limited_net db a avail usage limits :
  db_usage db !! a = Some usage → get_account_limits db a = Ok limits →
  get_account_net_limit db a true = Ok avail →
  0 <= net_weight limits → total_net_weight (db_state db) > 0 →
  (arl ← account_limit
     (max_user_use (virtual_net_limit (db_state db)) (account_net_usage_average_window (db_config db))
        (net_weight limits) (total_net_weight (db_state db)))
     (used_in_window_ceil (value_ex (net_usage usage)) (account_net_usage_average_window (db_config db)));
   mret (arl_available arl)) = Ok avail ∧ 0 <= avail.
Proof.
  intros Hu Hl H Hw Ht. unfold get_account_net_limit, get_account_net_limit_ex, db_get in H.
  rewrite Hu, Hl in H. cbn in H.
  assert ((net_weight limits <? 0) || (total_net_weight (db_state db) =? 0) = false) as Hg by lia.
  rewrite Hg in H. split; [exact H|]. unfold account_limit, downgrade_cast_int64 in H.
  simplify_res. cbn. repeat case_match; simplify_res; lia.
Qed.

(** Billing what is available, in the same slot. *)
Lemma bill_within_available db a usage cpu net cpu_avail net_avail slot :
  db_usage db !! a = Some usage → usage_wf usage → windows_ok (db_config db) →
  last_ordinal (cpu_usage usage) = slot → last_ordinal (net_usage usage) = slot →
  get_account_cpu_limit db a true = Ok cpu_avail → get_account_net_limit db a true = Ok net_avail →
  0 < cpu → (cpu_avail = -1 ∨ cpu <= cpu_avail) → 0 < net → (net_avail = -1 ∨ net <= net_avail) →
  (∃ db', bill_account cpu net slot db a = Ok db') ∨
  bill_account cpu net slot db a = Throw rate_limiting_state_inconsistent.
Proof.
  intros Hu (Hwn & Hwc & _) (HWc & HWn) Hlc Hln Hac Han Hcpu Hca Hnet Hna.
  assert (Hwp : Precision < 2 ^ 32) by done.
  destruct (get_account_limits db a) as [limits|e] eqn:Hlim.
  2: { unfold get_account_cpu_limit, get_account_cpu_limit_ex, db_get in Hac.
       rewrite Hu, Hlim in Hac. done. }
  unfold bill_account, add_usage, db_get. rewrite Hu, Hlim. cbn [of_option mbind result_bind].
  destruct (accumulator_add_same (net_usage usage) net (account_net_usage_average_window (db_config db)))
    as [Hn|(net' & Hn & Hwn' & Hvn)]; rewrite ?Hln in *; try done; try lia; rewrite Hn; [by right|].
  destruct (accumulator_add_same (cpu_usage usage) cpu (account_cpu_usage_average_window (db_config db)))
    as [Hc|(cpu' & Hc & Hwc' & Hvc)]; rewrite ?Hlc in *; try done; try lia; cbn [mbind result_bind];
    rewrite Hc; [by right|]. left. cbn [mbind result_bind mret result_ret cpu_usage net_usage].
  destruct ((cpu_weight limits >=? 0) && (total_cpu_weight (db_state db) >? 0)) eqn:Gc.
  - destruct (limited_cpu db a cpu_avail usage limits) as [Hav H0]; try done; try lia.
    pose proof (promise_resource _ cpu' cpu _ _ cpu_avail Hwc Hwc' HWc ltac:(lia) Hav Hvc).
    pass_assert. clear Hav.
    destruct ((net_weight limits >=? 0) && (total_net_weight (db_state db) >? 0)) eqn:Gn; [|by eexists].
    destruct (limited_net db a net_avail usage limits) as [Hav H0']; try done; try lia.
    pose proof (promise_resource _ net' net _ _ net_avail Hwn Hwn' HWn ltac:(lia) Hav Hvn).
    pass_assert. by eexists.
  - cbn [mbind result_bind].
    destruct ((net_weight limits >=? 0) && (total_net_weight (db_state db) >? 0)) eqn:Gn; [|by eexists].
    destruct (limited_net db a net_avail usage limits) as [Hav H0']; try done; try lia.
    pose proof (promise_resource _ net' net _ _ net_avail Hwn Hwn' HWn ltac:(lia) Hav Hvn).
    pass_assert. by eexists.
Qed.


(** A small database: one account with weights and a quota. *)
Definition demo_db : resource_limits_db :=
  match
    (db ← initialize_account initialize_database 7;
     '(_, db) ← set_account_limits db 7 1000 10 10;
     process_account_limit_updates db)
  with
  | Ok db => db
  | Throw _ => initialize_database
  end.


(** ** Billing a transaction *)

(** The account [a] has been billed and ends with the usage [u']. *)
Definition billed (cpu net slot : Z) (db : resource_limits_db) (a : Z) (u' : resource_usage_object) : Prop :=
  ∃ u limits,
    db_usage db !! a = Some u ∧ get_account_limits db a = Ok limits ∧
    add_usage (db_config db) cpu net slot u = Ok u' ∧
    (0 <= cpu_weight limits → 0 < total_cpu_weight (db_state db) →
     used_in_window_floor (value_ex (cpu_usage u')) (account_cpu_usage_average_window (db_config db)) <=
     max_user_use (virtual_cpu_limit (db_state db)) (account_cpu_usage_average_window (db_config db))
       (cpu_weight limits) (total_cpu_weight (db_state db))) ∧
    (0 <= net_weight limits → 0 < total_net_weight (db_state db) →
     used_in_window_floor (value_ex (net_usage u')) (account_net_usage_average_window (db_config db)) <=
     max_user_use (virtual_net_limit (db_state db)) (account_net_usage_average_window (db_config db))
       (net_weight limits) (total_net_weight (db_state db))).

Lemma bill_account_inv cpu net slot db a db' :
  bill_account cpu net slot db a = Ok db' →
  ∃ u', billed cpu net slot db a u' ∧ db' = with_usage db (<[a := u']> (db_usage db)).
Proof.
  unfold bill_account. intros H. simplify_res.
  match goal with H : add_usage _ _ _ _ _ = Ok ?x |- _ => exists x end.
  split; [|done]. unfold billed. apply db_get_Ok in H. do 2 eexists.
  split; [done|]. split; [done|]. split; [done|].
  split; intros ??; repeat case_match; simplify_res; lia.
Qed.

Lemma bill_accounts_inv cpu net slot accounts db db' :
  NoDup accounts → foldM (bill_account cpu net slot) db accounts = Ok db' →
  db' = with_usage db (db_usage db') ∧
  (∀ a, a ∈ accounts → ∃ u', billed cpu net slot db a u' ∧ db_usage db' !! a = Some u') ∧
  (∀ a, a ∉ accounts → db_usage db' !! a = db_usage db !! a).
Proof.
  revert db; induction accounts as [|b l IH]; intros db Hnd H; cbn in H.
  { simplify_res. destruct db'; split; [done|]. by split; [intros a ?%not_elem_of_nil|]. }
  apply NoDup_cons in Hnd as [Hb Hnd]. simplify_res.
  match goal with H : bill_account _ _ _ _ _ = _ |- _ => apply bill_account_inv in H as (u' & Hb' & ->) end.
  match goal with H : foldM _ _ _ = _ |- _ => apply IH in H as (Heq & Hin & Hout); [|done] end.
  cbn in *. split; [by rewrite Heq|]. split.
  - intros a Ha. destruct (decide (a = b)) as [->|Hab].
    { exists u'. split; [done|]. rewrite Hout by done. apply lookup_insert_eq. }
    apply elem_of_cons in Ha as [|Ha]; [done|].
    destruct (Hin a Ha) as (u'' & (u & limits & H1 & H2) & H3). exists u''. split; [|done].
    exists u, limits. cbn in H1. rewrite lookup_insert_ne in H1 by done. done.
  - intros a Ha. apply not_elem_of_cons in Ha as [Hab Ha]. rewrite Hout by done.
    by apply lookup_insert_ne.
Qed.

Lemma accumulator_add_units acc units ordinal window acc' :
  accumulator_add acc units ordinal window = Ok acc' → units <= max_raw_value.
Proof. unfold accumulator_add. intros H. simplify_res. lia. Qed.

(** An account whose averages are current, and what it is told it can spend. *)
Definition can_be_billed (db : resource_limits_db) (cpu net slot a : Z) : Prop :=
  ∃ usage cpu_avail net_avail,
    db_usage db !! a = Some usage ∧ usage_wf usage ∧
    last_ordinal (cpu_usage usage) = slot ∧ last_ordinal (net_usage usage) = slot ∧
    get_account_cpu_limit db a true = Ok cpu_avail ∧ get_account_net_limit db a true = Ok net_avail ∧
    (cpu_avail = -1 ∨ cpu <= cpu_avail) ∧ (net_avail = -1 ∨ net <= net_avail).

Lemma can_be_billed_other db cpu net slot a b u :
  a ≠ b → can_be_billed db cpu net slot a →
  can_be_billed (with_usage db (<[b := u]> (db_usage db))) cpu net slot a.
Proof.
  intros Hab (usage & ca & na & Hu & H). exists usage, ca, na. cbn. rewrite lookup_insert_ne by done.
  split; [done|]. unfold get_account_cpu_limit, get_account_cpu_limit_ex, get_account_net_limit,
    get_account_net_limit_ex, get_account_limits, db_get in *. cbn. by rewrite lookup_insert_ne.
Qed.

(** Accounts that can be billed are billed, unless a 64-bit total overflows. *)
Lemma bill_accounts_total cpu net slot accounts db :
  NoDup accounts → windows_ok (db_config db) → 0 < cpu → 0 < net →
  (∀ a, a ∈ accounts → can_be_billed db cpu net slot a) →
  (∃ db', foldM (bill_account cpu net slot) db accounts = Ok db') ∨
  foldM (bill_account cpu net slot) db accounts = Throw rate_limiting_state_inconsistent.
Proof.
  intros Hnd Hw Hc Hn. revert db Hw; induction accounts as [|a l IH]; intros db Hw Hall; [left; by eexists|].
  apply NoDup_cons in Hnd as [Ha Hnd]. cbn [foldM].
  destruct (Hall a (list_elem_of_here _ _)) as (u & ca & na & Hu & Hwf & Hoc & Hon & Hca & Hna & Hcc & Hnn).
  destruct (bill_within_available db a u cpu net ca na slot) as [[db1 Hb]|Hb]; try done.
  - rewrite Hb. cbn [mbind result_bind]. pose proof Hb as Hi. apply bill_account_inv in Hi as (u' & _ & ->).
    apply (IH Hnd); [done|]. intros b Hb'. apply can_be_billed_other; [by intros ->|].
    apply Hall. by apply list_elem_of_further.
  - right. by rewrite Hb.
Qed.

(** Bringing accounts up to a slot. *)
Definition current (slot : Z) (u : resource_usage_object) : Prop :=
  usage_wf u ∧ last_ordinal (cpu_usage u) = slot ∧ last_ordinal (net_usage u) = slot.

Lemma add_usage_current config cpu net slot u u' :
  windows_ok config → is_unsigned 32 slot → usage_wf u → 0 <= cpu → 0 <= net →
  add_usage config cpu net slot u = Ok u' → current slot u'.
Proof.
  intros [Hwc Hwn] Hs (Hn & Hc & Hr) Hcpu Hnet H. unfold add_usage in H. simplify_res.
  assert (Precision < 2 ^ 32) by done.
  repeat match goal with H : accumulator_add _ _ _ _ = Ok _ |- _ =>
    apply accumulator_add_inv in H as (_ & _ & -> & ?); [|done|lia|done|lia] end.
  split; [|done]. split_and!; done.
Qed.

Lemma update_account_usage_inv db accounts slot db' :
  windows_ok (db_config db) → is_unsigned 32 slot → (∀ a u, db_usage db !! a = Some u → usage_wf u) →
  update_account_usage db accounts slot = Ok db' →
  db' = with_usage db (db_usage db') ∧ (∀ a u, db_usage db' !! a = Some u → usage_wf u) ∧
  (∀ a, a ∈ accounts → ∃ u, db_usage db' !! a = Some u ∧ current slot u) ∧
  (∀ a u, db_usage db !! a = Some u → current slot u → ∃ u', db_usage db' !! a = Some u' ∧ current slot u').
Proof.
  intros Hw Hs. unfold update_account_usage. revert db Hw.
  induction accounts as [|b l IH]; intros db Hw Hwf H; cbn in H.
  { simplify_res. split; [by destruct db'|]. split; [done|]. split; [by intros a ?%not_elem_of_nil|eauto]. }
  simplify_res. match goal with H : db_get _ _ = Ok _ |- _ => apply db_get_Ok in H as Hb end.
  match goal with H : add_usage _ _ _ _ _ = Ok ?x |- _ =>
    apply add_usage_current in H as Hcur; [|done|done|by eapply Hwf|lia|lia]; rename x into u' end.
  match goal with H : foldM _ _ _ = Ok _ |- _ => apply IH in H as (Heq & Hwf' & Hin & Hkeep); [|done|] end.
  - cbn in *. split; [by rewrite Heq|]. split; [done|]. split.
    + intros a [->|Ha]%elem_of_cons; [|by apply Hin]. eapply Hkeep; [|exact Hcur]. apply lookup_insert_eq.
    + intros a u Hu Hu'. destruct (decide (a = b)) as [->|Hne].
      * eapply Hkeep; [apply lookup_insert_eq|done].
      * eapply Hkeep; [by rewrite lookup_insert_ne|done].
  - intros a u. cbn. intros [[<- <-]|[_ ?]]%lookup_insert_Some; [apply Hcur|eauto].
Qed.

(** Billing a transaction charges every named account once and keeps the
    block within its limits: on success each account carries the usage in its
    averages and is within its share of the virtual capacity, no other
    account changes, and the pending usage of the block grows by exactly the
    usage and does not exceed the block maximum. *)
Theorem add_transaction_usage_spec db accounts cpu net slot n db' :
  NoDup accounts → accounts ≠ [] → block_inv db n → 0 <= cpu → 0 <= net →
  add_transaction_usage db accounts cpu net slot = Ok db' →
  (∀ a, a ∈ accounts → ∃ u', billed cpu net slot db a u' ∧ db_usage db' !! a = Some u') ∧
  (∀ a, a ∉ accounts → db_usage db' !! a = db_usage db !! a) ∧
  pending_cpu_usage (db_state db') = pending_cpu_usage (db_state db) + cpu ∧
  pending_net_usage (db_state db') = pending_net_usage (db_state db) + net ∧
  block_inv db' n ∧ db_limits db' = db_limits db ∧ db_config db' = db_config db.
Proof.
  intros Hnd Hne Hinv Hc Hn H. unfold add_transaction_usage in H. simplify_res.
  match goal with H : foldM _ _ _ = Ok ?d |- _ =>
    apply bill_accounts_inv in H as (Heq & Hin & Hout); [|done]; rename d into db1 end.
  assert (Hraw : cpu <= max_raw_value ∧ net <= max_raw_value).
  { destruct accounts as [|a l]; [done|].
    destruct (Hin a (list_elem_of_here _ _)) as (u' & (u & li & _ & _ & Hadd & _) & _).
    unfold add_usage in Hadd. simplify_res. split; eapply accumulator_add_units; eassumption. }
  rewrite Heq in *. cbn [with_usage with_state db_usage db_limits db_config db_state
    pending_cpu_usage pending_net_usage] in *.
  destruct Hinv as [Hcp Hnp Hca Hna Hcl Hnl Hcu Hnu].
  assert (Hbig : ∀ p, params_ok p → elp_max p <= max_raw_value).
  { intros p (HW & HM & _ & Hcap & _). rewrite max_raw_value_eq, Precision_eq in *.
    unfold uint64_max in Hcap. nia. }
  pose proof (Hbig _ Hcp). pose proof (Hbig _ Hnp). rewrite max_raw_value_eq in *.
  rewrite !wrap_id in * by (unfold is_unsigned; lia).
  split; [done|]. split; [done|]. split; [done|]. split; [done|]. split; [|done].
  split; cbn; try done; lia.
Qed.

Lemma add_transaction_usage_spec_witness :
  ∃ db', add_transaction_usage demo_db [7] 100 20 0 = Ok db' ∧
    pending_cpu_usage (db_state db') = 0 + 100 ∧ block_inv db' 0.
Proof.
  assert (Hinv : block_inv demo_db 0) by (split; vm_compute; repeat split; intros; congruence).
  destruct (add_transaction_usage demo_db [7] 100 20 0) as [db'|e] eqn:H;
    [|vm_compute in H; discriminate H].
  exists db'. split; [reflexivity|].
  destruct (add_transaction_usage_spec demo_db [7] 100 20 0 0 db') as (_ & _ & Hc & _ & Hi & _);
    [apply NoDup_singleton|discriminate|exact Hinv|lia|lia|exact H|].
  split; [exact Hc|exact Hi].
Defined.

(** ** RAM *)

(** The outcome of charging or freeing RAM. *)
Lemma add_pending_ram_usage_exact db account delta :
  is_signed 64 delta → delta ≠ 0 →
  (∀ a u, db_usage db !! a = Some u → usage_wf u) →
  add_pending_ram_usage db account delta =
  match db_usage db !! account with
  | None => Throw std_out_of_range
  | Some u =>
      if (0 <=? ram_usage u + delta) && (ram_usage u + delta <=? uint64_max)
      then Ok (with_usage db (<[account := Usage (net_usage u) (cpu_usage u) (ram_usage u + delta)]>
                                (db_usage db)))
      else Throw transaction_exception
  end.
Proof.
  intros Hd Hne Hwf. unfold add_pending_ram_usage, db_get.
  rewrite (proj2 (Z.eqb_neq delta 0)) by done.
  destruct (db_usage db !! account) as [u|] eqn:Hu; [|done].
  destruct (Hwf _ _ Hu) as (_ & _ & Hr). unfold is_unsigned, is_signed, uint64_max in *.
  cbn [of_option mbind result_bind]. change (64 - 1) with 63 in Hd.
  destruct (Z.lt_ge_cases delta 0) as [Hneg|Hpos].
  - pass_assert. rewrite (wrap_id 64 (- delta)) by (unfold is_unsigned; lia).
    destruct (Z.le_gt_cases (- delta) (ram_usage u)).
    + pass_assert. rewrite wrap_id by (unfold is_unsigned; lia).
      assert ((0 <=? ram_usage u + delta) && (ram_usage u + delta <=? 2 ^ 64 - 1) = true) as -> by lia.
      done.
    + assert ((0 <=? ram_usage u + delta) && (ram_usage u + delta <=? 2 ^ 64 - 1) = false) as -> by lia.
      by assert ((delta >=? 0) || (ram_usage u >=? - delta) = false) as -> by lia.
  - rewrite (wrap_id 64 delta) by (unfold is_unsigned; lia).
    destruct (Z.le_gt_cases delta (2 ^ 64 - 1 - ram_usage u)).
    + do 2 pass_assert. rewrite wrap_id by (unfold is_unsigned; lia).
      by assert ((0 <=? ram_usage u + delta) && (ram_usage u + delta <=? 2 ^ 64 - 1) = true) as -> by lia.
    + assert ((0 <=? ram_usage u + delta) && (ram_usage u + delta <=? 2 ^ 64 - 1) = false) as -> by lia.
      by assert ((delta <=? 0) || (2 ^ 64 - 1 - ram_usage u >=? delta) = false) as -> by lia.
Qed.

Definition ram_used (db : resource_limits_db) (a : Z) : Z :=
  match db_usage db !! a with Some u => ram_usage u | None => 0 end.

Lemma add_pending_ram_usage_Ok db account delta db' :
  is_signed 64 delta → (∀ a u, db_usage db !! a = Some u → usage_wf u) →
  add_pending_ram_usage db account delta = Ok db' →
  db' = with_usage db (db_usage db') ∧ (∀ a u, db_usage db' !! a = Some u → usage_wf u) ∧
  (∀ a, ram_used db' a = ram_used db a + (if a =? account then delta else 0)) ∧
  (∀ a u, db_usage db !! a = Some u → ∃ u', db_usage db' !! a = Some u' ∧
     net_usage u' = net_usage u ∧ cpu_usage u' = cpu_usage u).
Proof.
  intros Hd Hwf H. destruct (decide (delta = 0)) as [->|Hne].
  { unfold add_pending_ram_usage in H. cbn in H. simplify_res. split; [by destruct db'|]. split; [done|].
    split; [|eauto]. intros a. destruct (a =? account); lia. }
  rewrite add_pending_ram_usage_exact in H by done.
  destruct (db_usage db !! account) as [u|] eqn:Hu; [|done].
  destruct ((0 <=? ram_usage u + delta) && (ram_usage u + delta <=? uint64_max)) eqn:Hr; [|done].
  injection H as <-. cbn. split; [done|]. split_and!.
  - intros a u' [[<- <-]|[_ ?]]%lookup_insert_Some; [|eauto]. destruct (Hwf _ _ Hu) as (? & ? & _).
    split_and!; try done. unfold is_unsigned, uint64_max in *. cbn. lia.
  - intros a. unfold ram_used. cbn. destruct (Z.eqb_spec a account) as [->|Ha].
    + by rewrite lookup_insert_eq, Hu.
    + rewrite lookup_insert_ne by done. lia.
  - intros a u' Hu'. destruct (decide (a = account)) as [->|Ha].
    + rewrite lookup_insert_eq. eexists. split; [done|]. rewrite Hu in Hu'. by injection Hu' as <-.
    + rewrite lookup_insert_ne by done. eauto.
Qed.

(** C38: RAM accounting is exact: for a 64-bit delta, [add_pending_ram_usage]
    succeeds exactly when the account exists and the new usage is again an
    unsigned 64-bit value, and then stores the sum; an out-of-range delta
    throws [transaction_exception], an unknown account [out_of_range]. *)
Theorem add_pending_ram_usage_spec db account delta :
  is_signed 64 delta → delta ≠ 0 →
  (∀ a u, db_usage db !! a = Some u → usage_wf u) →
  add_pending_ram_usage db account delta =
  match db_usage db !! account with
  | None => Throw std_out_of_range
  | Some u =>
      if (0 <=? ram_usage u + delta) && (ram_usage u + delta <=? uint64_max)
      then Ok (with_usage db (<[account := Usage (net_usage u) (cpu_usage u) (ram_usage u + delta)]>
                                (db_usage db)))
      else Throw transaction_exception
  end.
Proof. apply add_pending_ram_usage_exact. Qed.

Lemma add_pending_ram_usage_spec_witness :
  add_pending_ram_usage demo_db 7 500 =
    Ok (with_usage demo_db (<[7 := Usage accumulator_zero accumulator_zero 500]> (db_usage demo_db))) ∧
  add_pending_ram_usage demo_db 7 (-1) = Throw transaction_exception.
Proof.
  assert (Hwf : ∀ a u, db_usage demo_db !! a = Some u → usage_wf u).
  { change (db_usage demo_db) with (<[7 := usage_default]> (∅ : gmap Z resource_usage_object)).
    intros a u [[_ <-]|[_ H]]%lookup_insert_Some; [|rewrite lookup_empty in H; discriminate H].
    unfold usage_wf, accumulator_wf, is_unsigned. cbn. lia. }
  split.
  - rewrite (add_pending_ram_usage_spec demo_db 7 500); [reflexivity|unfold is_signed; lia|lia|exact Hwf].
  - rewrite (add_pending_ram_usage_spec demo_db 7 (-1)); [reflexivity|unfold is_signed; lia|lia|exact Hwf].
Defined.

(** ** Account limits and their totals *)

Definition positive (x : Z) : Z := Z.max x 0.

(** The weight of the actual entries, and of all entries, in a quantity [q]. *)
Definition actual (q : resource_limits_object → Z) (k : bool * Z) (l : resource_limits_object) : Z :=
  if k.1 then 0 else positive (q l).
Definition entire (q : resource_limits_object → Z) (k : bool * Z) (l : resource_limits_object) : Z :=
  positive (q l).

Record totals_ok (db : resource_limits_db) : Prop := {
  totals_ram : total_ram_bytes (db_state db) = map_sum (actual ram_bytes) (db_limits db);
  totals_cpu : total_cpu_weight (db_state db) = map_sum (actual cpu_weight) (db_limits db);
  totals_net : total_net_weight (db_state db) = map_sum (actual net_weight) (db_limits db);
  totals_pending : ∀ o l, db_limits db !! (true, o) = Some l → is_Some (db_limits db !! (false, o)) }.

(** All limits, actual and pending, together fit the totals. *)
Definition limits_fit (m : gmap (bool * Z) resource_limits_object) : Prop :=
  map_sum (entire ram_bytes) m <= uint64_max ∧ map_sum (entire cpu_weight) m <= uint64_max ∧
  map_sum (entire net_weight) m <= uint64_max.

Definition apply_pending (o : Z) (p : resource_limits_object)
    (m : gmap (bool * Z) resource_limits_object) :=
  delete (true, o) (<[(false, o) := p]> m).

Section apply_pending.
Context (m : gmap (bool * Z) resource_limits_object) (o : Z) (a p : resource_limits_object).
Context (q : resource_limits_object → Z).
Hypothesis Ha : m !! (false, o) = Some a.
Hypothesis Hp : m !! (true, o) = Some p.

Lemma actual_apply_pending :
  map_sum (actual q) (apply_pending o p m) = map_sum (actual q) m - positive (q a) + positive (q p).
Proof.
  unfold apply_pending. rewrite (map_sum_delete _ _ _ p), (map_sum_insert _ _ _ a) by
    (done || by rewrite lookup_insert_ne). cbn. lia.
Qed.

Lemma entire_apply_pending :
  map_sum (entire q) (apply_pending o p m) = map_sum (entire q) m - positive (q a).
Proof.
  unfold apply_pending. rewrite (map_sum_delete _ _ _ p), (map_sum_insert _ _ _ a) by
    (done || by rewrite lookup_insert_ne). unfold entire. lia.
Qed.

Lemma update_state_and_value_total :
  map_sum (entire q) m <= uint64_max →
  update_state_and_value (map_sum (actual q) m) (q a) (q p) =
  Ok (map_sum (actual q) (apply_pending o p m)).
Proof.
  intros Hfit. rewrite actual_apply_pending.
  assert (Hle : map_sum (actual q) (apply_pending o p m) <= map_sum (entire q) (apply_pending o p m)).
  { apply map_sum_mono. intros [[] o'] l _; unfold actual, entire, positive; cbn; lia. }
  rewrite actual_apply_pending, entire_apply_pending in Hle.
  assert (Hge : positive (q a) <= map_sum (actual q) m).
  { apply (map_sum_lookup_le (actual q) m (false, o) a); [|done].
    intros [[] ?] l; unfold actual, positive; cbn; lia. }
  unfold update_state_and_value. set (t := map_sum (actual q) m) in *.
  unfold positive, uint64_max in *.
  destruct (q a >? 0) eqn:Hqa; [pass_assert; rewrite wrap_id by (unfold is_unsigned; lia)|];
    cbn [mbind result_bind mret result_ret];
    (destruct (q p >? 0) eqn:Hqp;
       [unfold uint64_max; pass_assert; rewrite wrap_id by (unfold is_unsigned; lia)|]); cbn; f_equal; lia.
Qed.
End apply_pending.

Lemma lookup_apply_pending m o p k :
  apply_pending o p m !! k =
  if decide (k = (true, o)) then None else if decide (k = (false, o)) then Some p else m !! k.
Proof.
  unfold apply_pending. destruct (decide (k = (true, o))) as [->|Hk]; [apply lookup_delete_eq|].
  rewrite lookup_delete_ne by done.
  destruct (decide (k = (false, o))) as [->|Hk']; [apply lookup_insert_eq|by apply lookup_insert_ne].
Qed.

Lemma process_pending_total db o p :
  totals_ok db → limits_fit (db_limits db) → db_limits db !! (true, o) = Some p →
  ∃ db', process_pending db o = Ok db' ∧ db_limits db' = apply_pending o p (db_limits db) ∧
    totals_ok db' ∧ limits_fit (db_limits db') ∧
    db_usage db' = db_usage db ∧ db_config db' = db_config db.
Proof.
  intros [Hr Hc Hn Hpend] (Fr & Fc & Fn) Hp. destruct (Hpend o p Hp) as [a Ha].
  unfold process_pending, db_get. rewrite Hp, Ha. cbn [of_option mbind result_bind].
  rewrite Hr, Hc, Hn, !(update_state_and_value_total _ o a p) by done.
  cbn [mbind result_bind]. eexists. split; [done|]. cbn [db_limits db_state db_usage db_config].
  replace (Limits (net_weight p) (cpu_weight p) (ram_bytes p)) with p by by destruct p.
  fold (apply_pending o p (db_limits db)). split; [done|].
  assert (Hmono : ∀ q, map_sum (entire q) (db_limits db) <= uint64_max →
            map_sum (entire q) (apply_pending o p (db_limits db)) <= uint64_max).
  { intros q Hq. rewrite (entire_apply_pending _ o a p) by done. unfold positive. lia. }
  split; [|split; [|done]].
  - split; cbn; try done. intros o' l. rewrite !lookup_apply_pending.
    destruct (decide ((true, o') = (true, o))); [done|].
    rewrite (decide_False (P := (true, o') = (false, o))) by done.
    rewrite (decide_False (P := (false, o') = (true, o))) by done.
    intros Hl. case_decide; [done|]. by apply (Hpend o' l).
  - repeat split; by apply Hmono.
Qed.

Lemma process_pendings_total l db :
  NoDup l → (∀ o, o ∈ l → is_Some (db_limits db !! (true, o))) →
  totals_ok db → limits_fit (db_limits db) →
  ∃ db', foldM process_pending db l = Ok db' ∧ totals_ok db' ∧
    db_usage db' = db_usage db ∧ db_config db' = db_config db ∧
    ∀ b o, db_limits db' !! (b, o) =
      if decide (o ∈ l) then (if (b : bool) then None else db_limits db !! (true, o))
      else db_limits db !! (b, o).
Proof.
  revert db; induction l as [|o l IH]; intros db Hnd Hin Hok Hfit.
  { exists db. split; [done|]. split; [done|]. split; [done|]. split; [done|].
    intros b o. by rewrite decide_False by apply not_elem_of_nil. }
  apply NoDup_cons in Hnd as [Ho Hnd].
  destruct (Hin o (list_elem_of_here _ _)) as [p Hp].
  destruct (process_pending_total db o p Hok Hfit Hp) as (db1 & H1 & Hl1 & Hok1 & Hfit1 & Hu1 & Hc1).
  destruct (IH db1 Hnd) as (db' & H' & Hok' & Hu' & Hc' & Hl'); [|done|done|].
  { intros o' Ho'. rewrite Hl1, lookup_apply_pending, !decide_False by congruence.
    apply Hin. by apply list_elem_of_further. }
  exists db'. cbn. rewrite H1. cbn. split; [done|]. split; [done|].
  split; [congruence|]. split; [congruence|]. intros b o'. rewrite Hl', Hl1, !lookup_apply_pending.
  destruct (decide (o' ∈ l)) as [Hol|Hol].
  - rewrite (decide_True (P := o' ∈ o :: l)) by by apply list_elem_of_further.
    destruct b; [done|]. rewrite !decide_False by congruence. done.
  - destruct (decide (o' = o)) as [->|Hne].
    + rewrite (decide_True (P := o ∈ o :: l)) by apply list_elem_of_here.
      destruct b; [by rewrite decide_True|]. by rewrite decide_False, decide_True.
    + rewrite (decide_False (P := o' ∈ o :: l)) by (by intros [|]%elem_of_cons).
      by rewrite !decide_False by congruence.
Qed.

Lemma elem_of_pending_owners m o : o ∈ pending_owners m ↔ is_Some (m !! (true, o)).
Proof.
  unfold pending_owners. rewrite merge_sort_Permutation, list_elem_of_omap. split.
  - intros ([[p o'] l] & Hin%elem_of_map_to_list & Hsome). destruct p; [|done]. by simplify_eq; exists l.
  - intros [l Hl]. exists ((true, o), l). split; [by apply elem_of_map_to_list|done].
Qed.

Lemma NoDup_pending_owners m : NoDup (pending_owners m).
Proof.
  unfold pending_owners. rewrite merge_sort_Permutation.
  pose proof (NoDup_fst_map_to_list m) as Hnd. revert Hnd.
  induction (map_to_list m) as [|[[p o] l] L IH]; cbn; [constructor|].
  intros [Hk Hnd]%NoDup_cons. specialize (IH Hnd). destruct p; [|done].
  apply NoDup_cons. split; [|done].
  intros ([[p' o'] l'] & Hin & Hsome)%list_elem_of_omap. destruct p'; [|done]. simplify_eq.
  apply Hk. apply list_elem_of_fmap. by exists ((true, o), l').
Qed.

(** Pending limits take effect together and the totals follow: when the
    totals are the sums of the actual limits and all limits together fit 64
    bits, [process_account_limit_updates] succeeds, every account then has
    its pending limits (its old ones if it had none pending), nothing is
    pending, and the totals are again the sums. *)
Theorem process_account_limit_updates_total db :
  totals_ok db → limits_fit (db_limits db) →
  ∃ db', process_account_limit_updates db = Ok db' ∧ totals_ok db' ∧
    db_usage db' = db_usage db ∧ db_config db' = db_config db ∧
    (∀ o, db_limits db' !! (true, o) = None) ∧
    (∀ o, db_limits db' !! (false, o) =
          match db_limits db !! (true, o) with Some p => Some p | None => db_limits db !! (false, o) end).
Proof.
  intros Hok Hfit. unfold process_account_limit_updates.
  destruct (process_pendings_total (pending_owners (db_limits db)) db)
    as (db' & H & Hok' & Hu & Hc & Hl); try done.
  { apply NoDup_pending_owners. }
  { intros o. apply elem_of_pending_owners. }
  exists db'. split; [done|]. split; [done|]. split; [done|]. split; [done|]. split.
  - intros o. rewrite Hl. case_decide as Hin; [done|].
    rewrite elem_of_pending_owners, <- eq_None_not_Some in Hin. done.
  - intros o. rewrite Hl. case_decide as Hin; rewrite elem_of_pending_owners in Hin.
    + destruct Hin as [p ->]. done.
    + by rewrite <- eq_None_not_Some in Hin; rewrite Hin.
Qed.

Lemma initialize_database_totals : totals_ok initialize_database.
Proof. split; try reflexivity. intros o l H. cbn in H. by rewrite lookup_empty in H. Qed.

Lemma initialize_account_totals db a db' :
  totals_ok db → initialize_account db a = Ok db' → totals_ok db'.
Proof.
  intros [Hr Hc Hn Hp] H. unfold initialize_account in H. simplify_res.
  apply db_create_Ok in H as [Hfresh ->]. split; cbn;
    rewrite ?(map_sum_insert_fresh _ _ _ _ Hfresh), ?Hr, ?Hc, ?Hn; try done.
  intros o l Hl. rewrite lookup_insert_ne in Hl by done.
  destruct (decide (o = a)) as [->|]; [rewrite lookup_insert_eq; eauto|].
  rewrite lookup_insert_ne by congruence. by apply (Hp o l).
Qed.

Lemma set_account_limits_inv db a ram net cpu b db' :
  set_account_limits db a ram net cpu = Ok (b, db') →
  ∃ old, get_account_limits db a = Ok old ∧
    b = (ram >=? 0) && ((ram_bytes old <? 0) || (ram <? ram_bytes old)) ∧
    db' = with_limits db (<[(true, a) := Limits net cpu ram]> (db_limits db)).
Proof.
  unfold set_account_limits, find_or_create_pending_limits, get_account_limits. intros H.
  destruct (db_limits db !! (true, a)) as [p|] eqn:Hp; simplify_res; cbn in *; simplify_eq.
  - by exists p.
  - match goal with H : db_create _ _ _ = _ |- _ => apply db_create_Ok in H as [_ ->] end.
    eexists. split; [eassumption|]. split; [done|]. unfold with_limits. cbn. by rewrite insert_insert_eq.
Qed.

(** Setting limits is visible at once to the account's own checks and to
    nobody else: afterwards [get_account_limits] gives the new limits, other
    accounts keep theirs, the totals do not move, and the result tells
    whether the new RAM quota is more restrictive than the one that
    [get_account_limits] gave before (a negative quota is unlimited). *)
Theorem set_account_limits_spec db a ram net cpu b db' :
  totals_ok db → set_account_limits db a ram net cpu = Ok (b, db') →
  get_account_limits db' a = Ok (Limits net cpu ram) ∧
  (∀ a', a' ≠ a → get_account_limits db' a' = get_account_limits db a') ∧
  totals_ok db' ∧ db_state db' = db_state db ∧ db_usage db' = db_usage db ∧
  ∃ old, get_account_limits db a = Ok old ∧
    (b = true ↔ 0 <= ram ∧ (ram_bytes old < 0 ∨ ram < ram_bytes old)).
Proof.
  intros [Hr Hc Hn Hp] H.
  apply set_account_limits_inv in H as (old & Hold & -> & ->).
  split; [|split; [|split; [|split; [done|split; [done|]]]]].
  - unfold get_account_limits. cbn. by rewrite lookup_insert_eq.
  - intros a' Ha. unfold get_account_limits, db_get. cbn.
    by rewrite !lookup_insert_ne by congruence.
  - assert (Hact : ∀ q, map_sum (actual q) (<[(true, a) := Limits net cpu ram]> (db_limits db)) =
                        map_sum (actual q) (db_limits db)).
    { intros q. destruct (db_limits db !! (true, a)) as [p|] eqn:Hpa.
      - rewrite (map_sum_insert _ _ _ p) by done. cbn. lia.
      - rewrite map_sum_insert_fresh by done. done. }
    split; cbn; rewrite ?Hact; try done. intros o l Hl. rewrite lookup_insert_ne by done.
    destruct (decide (o = a)) as [->|]; [|rewrite lookup_insert_ne in Hl by congruence; eauto].
    unfold get_account_limits, db_get in Hold. destruct (db_limits db !! (true, a)) eqn:Hpa; [eauto|].
    apply of_option_Ok in Hold. eauto.
  - exists old. split; [done|]. lia.
Qed.

Lemma demo_db_totals : totals_ok demo_db.
Proof.
  split; [vm_compute; reflexivity..|]. intros o l H.
  assert (Hdb : db_limits demo_db =
    <[(false, 7) := Limits 10 10 1000]> (∅ : gmap (bool * Z) resource_limits_object))
    by (vm_compute; reflexivity).
  rewrite Hdb, lookup_insert_ne, lookup_empty in H by discriminate. discriminate H.
Qed.

Lemma set_account_limits_spec_witness :
  ∃ b db', set_account_limits demo_db 7 500 20 30 = Ok (b, db') ∧ b = true ∧
    get_account_limits db' 7 = Ok (Limits 20 30 500).
Proof.
  pose proof demo_db_totals as Hok.
  destruct (set_account_limits demo_db 7 500 20 30) as [[b db']|e] eqn:H;
    [|vm_compute in H; discriminate H].
  exists b, db'. split; [reflexivity|].
  destruct (set_account_limits_spec demo_db 7 500 20 30 b db' Hok H) as (Hg & _ & _ & _ & _ & old & Ho & Hb).
  split; [|exact Hg]. apply Hb. vm_compute in Ho. injection Ho as <-. cbn. lia.
Defined.

Lemma process_account_limit_updates_total_witness :
  let db := match set_account_limits demo_db 7 500 20 30 with Ok (_, db) => db | _ => demo_db end in
  ∃ db', process_account_limit_updates db = Ok db' ∧ totals_ok db' ∧
    db_usage db' = db_usage db ∧ db_config db' = db_config db ∧
    (∀ o, db_limits db' !! (true, o) = None) ∧
    (∀ o, db_limits db' !! (false, o) =
          match db_limits db !! (true, o) with Some p => Some p | None => db_limits db !! (false, o) end).
Proof.
  intros db. apply (process_account_limit_updates_total db).
  - split; [vm_compute; reflexivity..|]. intros o l H.
    assert (Hdb : db_limits db = <[(true, 7) := Limits 20 30 500]>
      (<[(false, 7) := Limits 10 10 1000]> (∅ : gmap (bool * Z) resource_limits_object)))
      by (vm_compute; reflexivity).
    rewrite Hdb in H |- *. destruct (decide (o = 7)) as [->|Hne].
    + rewrite lookup_insert_ne, lookup_insert_eq by discriminate. by eexists.
    + rewrite !lookup_insert_ne, lookup_empty in H by congruence. discriminate H.
  - repeat split; vm_compute; discriminate.
Defined.
