(* ===== verification/Authority.v ===== *)
(** * Authorities (action.hpp: permission_level; authority.hpp)

    Weighted multi-factor authorities over keys, permission levels and waits,
    their billable size and the validation that every stored authority has
    passed.  The type of public keys, its order and its packed size belong to
    the crypto library and are parameters. *)

From S2P Require Import Prelude Exceptions Config.

Record permission_level : Set := PermissionLevel { actor : Z; permission : Z }.

#[export] Instance permission_level_eq_dec : EqDecision permission_level.
Proof. solve_decision. Defined.
#[export] Instance permission_level_countable : Countable permission_level.
Proof.
  apply (inj_countable' (λ p, (actor p, permission p)) (λ '(a, p), PermissionLevel a p)).
  by intros [].
Defined.

(** [operator<] and [operator>=]: lexicographic. *)
Definition permission_level_lt (l r : permission_level) : bool :=
  (actor l <? actor r) || ((actor l =? actor r) && (permission l <? permission r)).
Definition permission_level_ge (l r : permission_level) : bool := negb (permission_level_lt l r).

Record permission_level_weight : Set := PermissionLevelWeight {
  plw_permission : permission_level; plw_weight : Z }.   (* weight: uint16_t *)
Record wait_weight : Set := WaitWeight { wait_sec : Z; ww_weight : Z }.

Definition billable_permission_level_weight : Z := config.billable_size_v 24.
Definition billable_key_weight : Z := config.billable_size_v 8.
Definition billable_wait_weight : Z := config.billable_size_v 16.
Definition billable_shared_authority : Z :=
  config.billable_size_v (3 * config.fixed_overhead_shared_vector_ram_bytes + 4).

Section authority.
Context {K : Type} `{EqDecision K}.

Record key_weight : Type := KeyWeight { kw_key : K; kw_weight : Z }.

(** [authority] and [shared_authority] hold the same data. *)
Record authority : Type := Authority {
  threshold : Z;
  keys : list key_weight;
  accounts : list permission_level_weight;
  waits : list wait_weight }.

(** The constructor from a key and a delay. *)
Definition authority_of_key (k : K) (delay_sec : Z) : authority :=
  if delay_sec >? 0
  then Authority 2 [KeyWeight k 1] [] [WaitWeight delay_sec 1]
  else Authority 1 [KeyWeight k 1] [] [].

#[export] Instance key_weight_eq_dec : EqDecision key_weight.
Proof. solve_decision. Defined.
#[export] Instance permission_level_weight_eq_dec : EqDecision permission_level_weight.
Proof. solve_decision. Defined.
#[export] Instance wait_weight_eq_dec : EqDecision wait_weight.
Proof. solve_decision. Defined.
#[export] Instance authority_eq_dec : EqDecision authority.
Proof. solve_decision. Defined.

(** [fc::raw::pack_size] of a key and [operator<] on keys. *)
Variable pack_size : K → Z.
Variable key_lt : K → K → bool.

Definition get_billable_size (a : authority) : Z :=
  let accounts_size := Z.of_nat (length (accounts a)) * billable_permission_level_weight in
  let waits_size := Z.of_nat (length (waits a)) * billable_wait_weight in
  let keys_size :=
    foldl (λ s k, u64 (u64 (s + billable_key_weight) + pack_size (kw_key k))) 0 (keys a) in
  u64 (u64 (u64 accounts_size + u64 waits_size) + keys_size).

(** The loop that [validate] runs over the keys, the accounts and the waits:
    [out_of_order] is the test against the previous element, [None] is the
    early [return false]. *)
Fixpoint validate_loop {A B} (out_of_order : B → B → bool) (key : A → B) (weight : A → Z)
    (prev : option B) (total_weight : Z) (l : list A) : option Z :=
  match l with
  | [] => Some total_weight
  | a :: l =>
      if match prev with Some p => out_of_order p (key a) | None => false end then None
      else validate_loop out_of_order key weight (Some (key a)) (u32 (total_weight + weight a)) l
  end.

Definition validate (auth : authority) : bool :=
  if Z.of_nat (length (keys auth) + length (accounts auth) + length (waits auth)) >? 2 ^ 16
  then false
  else if threshold auth =? 0 then false
  else
    match
      total_weight ← validate_loop (λ p k, negb (key_lt p k)) kw_key kw_weight None 0 (keys auth);
      total_weight ←
        validate_loop permission_level_ge plw_permission plw_weight None total_weight (accounts auth);
      if match waits auth with w :: _ => wait_sec w =? 0 | [] => false end then None
      else validate_loop (λ p w, p >=? w) wait_sec ww_weight None total_weight (waits auth)
    with
    | Some total_weight => total_weight >=? threshold auth
    | None => false
    end.

(** ** Specification of validation *)

Definition sum_Z (l : list Z) : Z := foldr Z.add 0 l.

(** The sum of all weights of an authority, on exact integers. *)
Definition weight_sum (a : authority) : Z :=
  sum_Z (map kw_weight (keys a)) + sum_Z (map plw_weight (accounts a)) + sum_Z (map ww_weight (waits a)).

Definition weights_16bit (a : authority) : Prop :=
  Forall (λ k, is_unsigned 16 (kw_weight k)) (keys a) ∧
  Forall (λ p, is_unsigned 16 (plw_weight p)) (accounts a) ∧
  Forall (λ w, is_unsigned 16 (ww_weight w)) (waits a).

Lemma sum_Z_bound l : Forall (is_unsigned 16) l → 0 <= sum_Z l <= Z.of_nat (length l) * 65535.
Proof.
  induction 1 as [|x l Hx _ IH]; cbn [sum_Z foldr length]; [lia|].
  fold (sum_Z l). unfold is_unsigned in Hx. lia.
Qed.

(** Whether each element is in order with the next. *)
Fixpoint in_order {B} (bad : B → B → bool) (prev : option B) (l : list B) : bool :=
  match l with
  | [] => true
  | b :: l =>
      negb (match prev with Some p => bad p b | None => false end) && in_order bad (Some b) l
  end.

Lemma in_order_Sorted {B} (bad : B → B → bool) (R : B → B → Prop) l :
  (∀ x y, bad x y = false ↔ R x y) → in_order bad None l = true ↔ Sorted R l.
Proof.
  intros HR. destruct l as [|b l]; cbn; [split; [constructor|done]|].
  revert b; induction l as [|c l IH]; intros b; cbn.
  { split; [repeat constructor|done]. }
  rewrite andb_true_iff, negb_true_iff, HR, IH. split.
  - intros [Hbc Hs]. constructor; [done|by constructor].
  - intros Hs. inversion Hs as [|?? Hs' Hhd]; subst. inversion Hhd; subst. done.
Qed.

(** The loop returns the exact sum on a list in order, when it fits. *)
Lemma validate_loop_eq {A B} (bad : B → B → bool) (key : A → B) (weight : A → Z) prev total l :
  0 <= total → Forall (λ a, 0 <= weight a) l → total + sum_Z (map weight l) < 2 ^ 32 →
  validate_loop bad key weight prev total l =
  if in_order bad prev (map key l) then Some (total + sum_Z (map weight l)) else None.
Proof.
  intros Ht Hl. revert prev total Ht; induction Hl as [|a l Ha Hl IH]; intros prev total Ht Hsum;
    cbn [validate_loop map in_order sum_Z foldr] in *; [by rewrite Z.add_0_r|].
  fold (sum_Z (map weight l)) in *.
  assert (0 <= sum_Z (map weight l)).
  { clear -Hl. induction Hl; cbn [map sum_Z foldr]; [lia|]. fold (sum_Z (map weight l)). lia. }
  destruct (match prev with Some p => bad p (key a) | None => false end); cbn [negb andb]; [done|].
  rewrite wrap_id by (unfold is_unsigned; lia). rewrite IH by lia. by rewrite Z.add_assoc.
Qed.

(** [validate] accepts exactly the authorities it documents: at most
    2^16 factors, a positive threshold, keys, permission levels and waits in
    strictly increasing order, no zero wait, and weights that can reach the
    threshold; the 32-bit sum of the 16-bit weights never wraps. *)
Theorem validate_spec auth :
  weights_16bit auth → is_unsigned 32 (threshold auth) →
  validate auth = true ↔
  Z.of_nat (length (keys auth) + length (accounts auth) + length (waits auth)) <= 2 ^ 16 ∧
  0 < threshold auth <= weight_sum auth ∧
  Sorted (λ x y, key_lt x y = true) (map kw_key (keys auth)) ∧
  Sorted (λ x y, permission_level_lt x y = true) (map plw_permission (accounts auth)) ∧
  Sorted Z.lt (map wait_sec (waits auth)) ∧
  (∀ w, head (waits auth) = Some w → wait_sec w ≠ 0).
Proof.
  intros (Hk & Ha & Hw) Hth. unfold validate, is_unsigned in Hth |- *.
  rewrite Z.gtb_ltb. destruct (Z.ltb_spec (2 ^ 16) (Z.of_nat (length (keys auth) + length (accounts auth)
    + length (waits auth)))) as [Hlen|Hlen]; [split; [done|lia]|].
  destruct (Z.eqb_spec (threshold auth) 0) as [Hz|Hz]; [split; [done|lia]|].
  pose proof (sum_Z_bound _ (proj2 (Forall_map _ _ _) Hk)) as Bk.
  pose proof (sum_Z_bound _ (proj2 (Forall_map _ _ _) Ha)) as Ba.
  pose proof (sum_Z_bound _ (proj2 (Forall_map _ _ _) Hw)) as Bw.
  rewrite length_map in Bk, Ba, Bw. unfold weight_sum.
  assert (Hnn : ∀ A (f : A → Z) l, Forall (λ a, is_unsigned 16 (f a)) l → Forall (λ a, 0 <= f a) l)
    by (intros A f l Hl; apply (Forall_impl _ _ _ Hl); intros a Hx; apply Hx).
  rewrite validate_loop_eq by (auto || lia).
  rewrite <- (in_order_Sorted (λ p k, negb (key_lt p k))) by (intros; apply negb_false_iff).
  destruct (in_order _ _ (map kw_key _)); cbn [mbind option_bind]; [|split; [done|intros; by destruct_and!]].
  rewrite validate_loop_eq by (auto || lia).
  rewrite <- (in_order_Sorted permission_level_ge) by (intros; apply negb_false_iff).
  destruct (in_order _ _ (map plw_permission _)); cbn [mbind option_bind]; [|split; [done|intros; by destruct_and!]].
  rewrite validate_loop_eq by (auto || lia).
  rewrite <- (in_order_Sorted (λ p w, p >=? w)) by (intros; lia).
  destruct (in_order _ _ (map wait_sec _)).
  - destruct (waits auth) as [|w ws] eqn:Hws; cbn [head].
    + split; [|lia]. intros H. repeat split; try done; lia.
    + destruct (Z.eqb_spec (wait_sec w) 0) as [Hw0|Hw0].
      * split; [done|]. intros (_ & _ & _ & _ & _ & H). by destruct (H w).
      * split; [|lia]. intros H. repeat split; try done; try lia. by intros ? [= <-].
  - split; [by repeat case_match|intros; by destruct_and!].
Qed.
End authority.

Arguments key_weight : clear implicits.
Arguments authority : clear implicits.

Lemma validate_spec_witness :
  let auth := Authority 2 [KeyWeight 5 1; KeyWeight 9 1] [] [WaitWeight 60 1] in
  weights_16bit auth ∧ validate Z.ltb auth = true.
Proof.
  intros auth.
  assert (H : weights_16bit auth)
    by (unfold weights_16bit, auth, is_unsigned; repeat split; cbn; repeat constructor; cbn; lia).
  split; [exact H|]. apply (validate_spec Z.ltb auth H); [unfold is_unsigned; cbn; lia|].
  split; [cbn; lia|]. split; [unfold auth, weight_sum; cbn; lia|].
  split; [repeat constructor|]. split; [repeat constructor|]. split; [repeat constructor|].
  intros w [= <-]. cbn. lia.
Defined.
