(* ===== verification/AuthorityChecker.v ===== *)
(** * The authority checker (authority_checker.hpp)

    Decides whether provided keys, permission levels and a delay satisfy an
    authority, descending through the permission levels an authority names up
    to a depth limit, with a cache of permission levels already decided and
    markers for the keys that were needed.  The descent is recursion on the
    remaining depth, so the model needs no further fuel.

    [granted] specifies the meaning of the check as the least relation closed
    under "enough weight of granted factors".  The theorems show that the
    checker only accepts what is granted, that it accepts everything granted
    when the permission graph is acyclic and shallower than the limit, and
    what it does to the key markers. *)

From S2P Require Import Prelude Exceptions Config Authority.

(** [meta_permission], in the order of the variant's types. *)
Inductive meta_permission (K : Type) : Type :=
| MPermission (p : permission_level_weight)
| MKey (k : key_weight K)
| MWait (w : wait_weight).
Arguments MPermission {K}.
Arguments MKey {K}.
Arguments MWait {K}.

Inductive permission_cache_status : Set :=
| being_evaluated
| permission_unsatisfied
| permission_satisfied.

#[export] Instance permission_cache_status_eq_dec : EqDecision permission_cache_status.
Proof. solve_decision. Defined.

Abbreviation permission_cache_type := (gmap permission_level permission_cache_status).

Definition permission_status_in_cache (permissions : permission_cache_type) (level : permission_level)
    : option permission_cache_status :=
  match permissions !! level with
  | Some status => Some status
  | None => permissions !! PermissionLevel (actor level) 0
  end.

Section checker.
Context {K : Type} `{EqDecision K}.

Definition get_weight (m : meta_permission K) : Z :=
  match m with
  | MPermission p => plw_weight p
  | MKey k => kw_weight k
  | MWait w => ww_weight w
  end.

Definition which (m : meta_permission K) : Z :=
  match m with MPermission _ => 0 | MKey _ => 1 | MWait _ => 2 end.

(** [meta_permission_comparator]: [lhs] comes before [rhs]. *)
Definition meta_permission_before (lhs rhs : meta_permission K) : bool :=
  (get_weight lhs >? get_weight rhs) ||
  ((get_weight lhs =? get_weight rhs) && (which lhs >? which rhs)).

(** Insertion into the [flat_multiset], after the equivalent elements. *)
Fixpoint meta_insert (x : meta_permission K) (l : list (meta_permission K)) : list (meta_permission K) :=
  match l with
  | [] => [x]
  | y :: l => if meta_permission_before x y then x :: y :: l else y :: meta_insert x l
  end.

(** The factors of an authority in the order they are inserted, and in the
    order they are visited. *)
Definition factors (auth : authority K) : list (meta_permission K) :=
  map MWait (waits auth) ++ map MKey (keys auth) ++ map MPermission (accounts auth).
Definition meta_permissions (auth : authority K) : list (meta_permission K) :=
  foldl (λ l x, meta_insert x l) [] (factors auth).

(** [permission_to_authority] and the members set by the constructor. *)
Variable permission_to_authority : permission_level → res (authority K).
Variable provided_keys : list K.
Variable provided_permissions : list permission_level.

(** The mutable parts: [_used_keys] and the permission cache. *)
Definition outcome (A : Type) : Type := res (A * list bool * permission_cache_type).

Definition visit_wait (provided_delay : Z) (w : wait_weight) (total_weight : Z) : Z :=
  if provided_delay >=? wait_sec w * 1000000 then u32 (total_weight + ww_weight w) else total_weight.

Definition visit_key (k : key_weight K) (total_weight : Z) (used : list bool) : Z * list bool :=
  match list_find (λ k', k' = kw_key k) provided_keys with
  | Some (i, _) => (u32 (total_weight + kw_weight k), <[i := true]> used)
  | None => (total_weight, used)
  end.

(** [descend] is [checker.satisfied] one level deeper, [None] when the depth
    limit is reached. *)
Definition visit_permission (descend : option (authority K → list bool → permission_cache_type → outcome bool))
    (p : permission_level_weight) (total_weight : Z) (used : list bool) (cache : permission_cache_type)
    : outcome Z :=
  match permission_status_in_cache cache (plw_permission p) with
  | None =>
      match descend with
      | None => mret (total_weight, used, cache)
      | Some satisfied =>
          match permission_to_authority (plw_permission p) with
          | Throw e =>
              if derives_from e permission_query_exception then mret (total_weight, used, cache)
              else Throw e
          | Ok auth =>
              '(r, used, cache) ← satisfied auth used (<[plw_permission p := being_evaluated]> cache);
              if (r : bool)
              then mret (u32 (total_weight + plw_weight p), used,
                         <[plw_permission p := permission_satisfied]> cache)
              else mret (total_weight, used, <[plw_permission p := permission_unsatisfied]> cache)
          end
      end
  | Some permission_satisfied => mret (u32 (total_weight + plw_weight p), used, cache)
  | Some _ => mret (total_weight, used, cache)
  end.

Definition visit (provided_delay : Z) descend (m : meta_permission K) (total_weight : Z)
    (used : list bool) (cache : permission_cache_type) : outcome Z :=
  match m with
  | MWait w => mret (visit_wait provided_delay w total_weight, used, cache)
  | MKey k => mret (visit_key k total_weight used, cache)
  | MPermission p => visit_permission descend p total_weight used cache
  end.

(** The loop of [satisfied]; [saved] are the markers the [KeyReverter] puts
    back when the loop ends without enough weight. *)
Fixpoint tally (provided_delay : Z) descend (threshold : Z) (saved : list bool)
    (permissions : list (meta_permission K)) (total_weight : Z) (used : list bool)
    (cache : permission_cache_type) : outcome bool :=
  match permissions with
  | [] => mret (false, saved, cache)
  | m :: permissions =>
      '(total_weight, used, cache) ← visit provided_delay descend m total_weight used cache;
      if total_weight >=? threshold then mret (true, used, cache)
      else tally provided_delay descend threshold saved permissions total_weight used cache
  end.

(** [satisfied] with [remaining = recursion_depth_limit - depth]. *)
Fixpoint satisfied_at (provided_delay : Z) (remaining : nat) (auth : authority K) (used : list bool)
    (cache : permission_cache_type) : outcome bool :=
  tally provided_delay
    (match remaining with O => None | S remaining => Some (satisfied_at provided_delay remaining) end)
    (threshold auth) used (meta_permissions auth) 0 used cache.

Definition initialize_permission_cache : permission_cache_type :=
  foldl (λ c p, match c !! p with Some _ => c | None => <[p := permission_satisfied]> c end)
    ∅ provided_permissions.

(** The two public [satisfied], without a cache of the caller. *)
Definition satisfied_authority (recursion_depth_limit : nat) (provided_delay : Z) (auth : authority K)
    (used : list bool) : res (bool * list bool) :=
  '(b, used, _) ← satisfied_at provided_delay recursion_depth_limit auth used initialize_permission_cache;
  mret (b, used).

Definition satisfied_permission (recursion_depth_limit : nat) (provided_delay : Z)
    (p : permission_level) (used : list bool) : res (bool * list bool) :=
  '(total_weight, used, _) ←
    visit_permission
      (match recursion_depth_limit with O => None | S n => Some (satisfied_at provided_delay n) end)
      (PermissionLevelWeight p 1) 0 used initialize_permission_cache;
  mret (total_weight >? 0, used).

Definition all_keys_used (used : list bool) : bool := forallb id used.

(** [filter_data_by_marker] on the provided keys. *)
Definition keys_marked (marker : bool) (used : list bool) : list K :=
  omap (λ '(m, k), if Bool.eqb m marker then Some k else None) (zip used provided_keys).
Definition used_keys (used : list bool) : list K := keys_marked true used.
Definition unused_keys (used : list bool) : list K := keys_marked false used.

(** ** Meaning of the check *)

Section meaning.
Variable provided_delay : Z.

Definition provided (p : permission_level) : Prop :=
  p ∈ provided_permissions ∨ PermissionLevel (actor p) 0 ∈ provided_permissions.

Definition sum_weights (fs : list (meta_permission K)) : Z := sum_Z (map get_weight fs).

(** A permission level is granted when it is provided, or when granted
    factors of its authority together reach the threshold. *)
Inductive granted : permission_level → Prop :=
| granted_provided p : provided p → granted p
| granted_authority p auth fs :
    permission_to_authority p = Ok auth →
    fs ⊆+ factors auth →
    threshold auth <= sum_weights fs →
    (∀ q, MPermission q ∈ fs → granted (plw_permission q)) →
    (∀ k, MKey k ∈ fs → kw_key k ∈ provided_keys) →
    (∀ w, MWait w ∈ fs → wait_sec w * 1000000 <= provided_delay) →
    granted p.

Definition factor_granted (m : meta_permission K) : Prop :=
  match m with
  | MPermission p => granted (plw_permission p)
  | MKey k => kw_key k ∈ provided_keys
  | MWait w => wait_sec w * 1000000 <= provided_delay
  end.

Definition authority_granted (auth : authority K) : Prop :=
  ∃ fs, fs ⊆+ factors auth ∧ threshold auth <= sum_weights fs ∧ (∀ f, f ∈ fs → factor_granted f).

Lemma granted_iff p :
  granted p ↔ provided p ∨ ∃ auth, permission_to_authority p = Ok auth ∧ authority_granted auth.
Proof.
  split.
  - intros [p' Hp|p' auth fs Hauth Hfs Hth Hq Hk Hw]; [by left|right].
    exists auth. split; [done|]. exists fs. split; [done|]. split; [done|].
    intros [q|k|w] Hf; cbn; auto.
  - intros [Hp|(auth & Hauth & fs & Hfs & Hth & Hok)]; [by apply granted_provided|].
    apply (granted_authority p auth fs); try done; intros x Hx; apply (Hok _ Hx).
Qed.

Lemma meta_insert_Permutation x l : meta_insert x l ≡ₚ x :: l.
Proof.
  induction l as [|y l IH]; cbn; [done|]. destruct (meta_permission_before x y); [done|].
  rewrite IH. apply Permutation_swap.
Qed.

Lemma meta_permissions_Permutation auth : meta_permissions auth ≡ₚ factors auth.
Proof.
  unfold meta_permissions.
  assert (H : ∀ fs l, foldl (λ l x, meta_insert x l) l fs ≡ₚ fs ++ l).
  { intros fs. induction fs as [|f fs IH]; intros l; cbn; [done|].
    rewrite IH, meta_insert_Permutation. by rewrite Permutation_middle. }
  rewrite H, app_nil_r. done.
Qed.

Lemma sum_weights_app l1 l2 : sum_weights (l1 ++ l2) = sum_weights l1 + sum_weights l2.
Proof.
  unfold sum_weights. induction l1 as [|x l IH]; cbn [app map sum_Z foldr]; [done|].
  unfold sum_Z in IH. rewrite IH. unfold sum_Z. lia.
Qed.

#[local] Instance sum_weights_Permutation : Proper ((≡ₚ) ==> (=)) sum_weights.
Proof.
  unfold sum_weights, sum_Z. intros l1 l2 H. induction H; cbn; try lia.
Qed.

Lemma weights_factors auth m : weights_16bit auth → m ∈ factors auth → is_unsigned 16 (get_weight m).
Proof.
  intros (Hk & Ha & Hw). unfold factors. rewrite !elem_of_app, !list_elem_of_fmap.
  rewrite Forall_forall in Hk. rewrite Forall_forall in Ha. rewrite Forall_forall in Hw.
  intros [(x & -> & Hx)|[(x & -> & Hx)|(x & -> & Hx)]]; cbn; auto.
Qed.

(** *** Soundness *)

(** What [permission_to_authority] promises: only named permissions have an
    authority, and weights are 16-bit values. *)
Hypothesis authority_named : ∀ p auth, permission_to_authority p = Ok auth → permission p ≠ 0.
Hypothesis authority_weights : ∀ p auth, permission_to_authority p = Ok auth → weights_16bit auth.

Definition cache_sound (cache : permission_cache_type) : Prop :=
  ∀ p, cache !! p = Some permission_satisfied →
    granted p ∧ (permission p = 0 → ∀ x, granted (PermissionLevel (actor p) x)).

Lemma status_sound cache p :
  cache_sound cache → permission_status_in_cache cache p = Some permission_satisfied → granted p.
Proof.
  intros Hs. unfold permission_status_in_cache. destruct (cache !! p) as [s|] eqn:Hp.
  - intros [= ->]. by apply Hs.
  - intros Hw. destruct (Hs _ Hw) as [_ H]. destruct p. by apply H.
Qed.

(** Markers only ever go from unused to used. *)
Definition marks_more (used used' : list bool) : Prop :=
  length used' = length used ∧ ∀ i, used !! i = Some true → used' !! i = Some true.

#[local] Instance marks_more_preorder : PreOrder marks_more.
Proof.
  split; [by split|]. intros u1 u2 u3 [H1 H1'] [H2 H2']. split; [congruence|auto].
Qed.

Lemma marks_more_insert used i : marks_more used (<[i := true]> used).
Proof.
  split; [apply length_insert|]. intros j Hj. destruct (decide (i = j)) as [->|].
  - apply list_lookup_insert_eq. by eapply lookup_lt_Some.
  - by rewrite list_lookup_insert_ne.
Qed.

(** What a sound descent does; used for every remaining depth. *)
Definition sound_descent (f : authority K → list bool → permission_cache_type → outcome bool) : Prop :=
  ∀ auth used cache b used' cache',
    weights_16bit auth → cache_sound cache → f auth used cache = Ok (b, used', cache') →
    cache_sound cache' ∧ marks_more used used' ∧ (b = true → authority_granted auth) ∧
    (b = false → used' = used).

Lemma cache_sound_insert cache p s :
  cache_sound cache → s ≠ permission_satisfied → cache_sound (<[p := s]> cache).
Proof.
  intros Hs Hne q [[-> ->]|[_ Hq]]%lookup_insert_Some; [done|auto].
Qed.

Lemma cache_sound_satisfied cache p auth :
  cache_sound cache → permission_to_authority p = Ok auth → authority_granted auth →
  cache_sound (<[p := permission_satisfied]> cache).
Proof.
  intros Hs Hp Hg q [[<- _]|[_ Hq]]%lookup_insert_Some; [|auto].
  split; [apply granted_iff; eauto|]. intros H0. by destruct (authority_named _ _ Hp).
Qed.

Lemma wrap32_le a b : 0 <= a → 0 <= b → u32 (a + b) <= a + b.
Proof. intros. apply Z.mod_le; lia. Qed.

(** One visit: the weight grows only by the weight of a granted factor. *)
Lemma visit_sound descend m total used cache total' used' cache' :
  (∀ f, descend = Some f → sound_descent f) →
  0 <= total → 0 <= get_weight m → cache_sound cache →
  visit provided_delay descend m total used cache = Ok (total', used', cache') →
  cache_sound cache' ∧ marks_more used used' ∧ 0 <= total' ∧
  (total' = total ∨ (factor_granted m ∧ total' <= total + get_weight m)).
Proof.
  intros Hf Ht Hw Hs H.
  assert (Hr : 0 <= u32 (total + get_weight m)) by (apply wrap_range; lia).
  pose proof (wrap32_le total (get_weight m) Ht Hw) as Hle.
  destruct m as [p|k|w]; cbn [visit get_weight factor_granted] in *.
  - unfold visit_permission in H.
    destruct (permission_status_in_cache cache (plw_permission p)) as [[]|] eqn:Hst;
      simplify_res; simplify_eq; try (split_and!; (done || by left)).
    + split; [done|]. split; [done|]. split; [done|]. right. split; [by eapply status_sound|done].
    + destruct descend as [f|]; simplify_res; simplify_eq; [|split_and!; (done || by left)].
      destruct (permission_to_authority (plw_permission p)) as [auth|e] eqn:Hp.
      * simplify_res. match goal with H : f _ _ _ = Ok ?x |- _ => destruct x as [[r u1] c1]; rename H into Hrec end.
        apply (Hf f) in Hrec as (Hs1 & Hm1 & Hg1 & _); [|done|by eapply authority_weights|by apply cache_sound_insert].
        destruct r; simplify_res; simplify_eq.
        -- split; [eapply cache_sound_satisfied; eauto|]. split; [done|]. split; [done|].
           right. split; [|done]. apply granted_iff. eauto.
        -- split; [by apply cache_sound_insert|]. split; [done|]. by split; [|left].
      * destruct (derives_from _ _); simplify_res; simplify_eq. split_and!; (done || by left).
  - unfold visit_key in H. destruct (list_find _ _) as [[i k']|] eqn:Hfind; simplify_res; simplify_eq.
    + apply list_find_Some in Hfind as (Hi & -> & _).
      split; [done|]. split; [apply marks_more_insert|]. split; [done|].
      right. split; [by eapply list_elem_of_lookup_2|done].
    + split_and!; (done || by left).
  - unfold visit_wait in H. simplify_res; simplify_eq.
    destruct (provided_delay >=? _) eqn:Hd; [|split_and!; (done || by left)].
    split; [done|]. split; [done|]. split; [done|]. right. split; [lia|done].
Qed.

Lemma tally_sound descend th saved ps pre fs total used cache b used' cache' :
  (∀ f, descend = Some f → sound_descent f) →
  (∀ m, m ∈ ps → 0 <= get_weight m) →
  fs ⊆+ pre → 0 <= total <= sum_weights fs → (∀ f, f ∈ fs → factor_granted f) →
  cache_sound cache → marks_more saved used →
  tally provided_delay descend th saved ps total used cache = Ok (b, used', cache') →
  cache_sound cache' ∧ marks_more saved used' ∧ (b = false → used' = saved) ∧
  (b = true → ∃ fs', fs' ⊆+ pre ++ ps ∧ th <= sum_weights fs' ∧ (∀ f, f ∈ fs' → factor_granted f)).
Proof.
  intros Hd. revert pre fs total used cache.
  induction ps as [|m ps IH]; intros pre fs total used cache Hw Hfs Ht Hg Hs Hm H; cbn [tally] in H.
  { simplify_res; simplify_eq. by split_and!. }
  simplify_res.
  match goal with H : visit _ _ _ _ _ _ = Ok ?x |- _ => destruct x as [[total1 used1] cache1]; rename H into Hv end.
  apply visit_sound in Hv as (Hs1 & Hm1 & Ht1 & Hcase); try done; [|lia|apply Hw, list_elem_of_here].
  assert (Hstep : ∃ fs1, fs1 ⊆+ pre ++ [m] ∧ total1 <= sum_weights fs1 ∧ ∀ f, f ∈ fs1 → factor_granted f).
  { destruct Hcase as [->|[Hgm Hle]].
    - exists fs. split_and!; [|lia|done]. by apply submseteq_inserts_r.
    - exists (fs ++ [m]). split_and!.
      + by apply submseteq_skips_r.
      + rewrite sum_weights_app. unfold sum_weights at 2. cbn. lia.
      + intros f [Hf|Hf]%elem_of_app; [auto|]. apply list_elem_of_singleton in Hf. by subst. }
  destruct Hstep as (fs1 & Hfs1 & Hle1 & Hg1).
  assert (Hm' : marks_more saved used1) by (etransitivity; eassumption).
  destruct (total1 >=? th) eqn:Hth; simplify_res; simplify_eq.
  - split_and!; try done. intros _. exists fs1. split_and!; [|lia|done].
    etransitivity; [exact Hfs1|]. apply submseteq_skips_l, submseteq_skip, submseteq_nil_l.
  - destruct (IH (pre ++ [m]) fs1 total1 used1 cache1) as (H1 & H2 & H3 & H4); try done; try lia.
    { intros m' Hm''. apply Hw. by apply list_elem_of_further. }
    rewrite <- app_assoc in H4. by split_and!.
Qed.

Lemma satisfied_at_sound remaining : sound_descent (satisfied_at provided_delay remaining).
Proof.
  induction remaining as [|n IH]; intros auth used cache b used' cache' Hw Hs H; cbn [satisfied_at] in H.
  all: eapply (tally_sound _ _ _ _ [] []) in H as (H1 & H2 & H3 & H4); try done.
  all: try (intros f [= <-]; exact IH).
  all: try (intros m Hm; rewrite meta_permissions_Permutation in Hm; by apply (weights_factors auth m Hw)).
  all: try (intros f Hf; by apply not_elem_of_nil in Hf).
  all: split_and!; try done; intros Hb; destruct (H4 Hb) as (fs & Hfs & Hth & Hg);
    exists fs; split_and!; try done; by rewrite <- meta_permissions_Permutation.
Qed.

Lemma initialize_permission_cache_lookup p :
  initialize_permission_cache !! p =
  if decide (p ∈ provided_permissions) then Some permission_satisfied else None.
Proof.
  unfold initialize_permission_cache.
  assert (H : ∀ ps (c : permission_cache_type), (∀ q s, c !! q = Some s → s = permission_satisfied) →
    foldl (λ c p, match c !! p with Some _ => c | None => <[p := permission_satisfied]> c end) c ps !! p =
    if decide (p ∈ ps) then Some permission_satisfied else c !! p).
  { induction ps as [|q ps IH]; intros c Hc; cbn [foldl].
    { by rewrite decide_False by apply not_elem_of_nil. }
    rewrite IH.
    2: { destruct (c !! q) as [s|] eqn:Hq; [done|].
         intros q' s' [[_ <-]|[_ Hq']]%lookup_insert_Some; [done|by eapply Hc]. }
    destruct (decide (p ∈ ps)) as [Hin|Hin].
    { by rewrite decide_True by by apply list_elem_of_further. }
    destruct (decide (p = q)) as [->|Hne].
    - rewrite (decide_True (P := q ∈ q :: ps)) by apply list_elem_of_here.
      destruct (c !! q) as [s|] eqn:Hq; [by rewrite Hq, (Hc q s Hq)|apply lookup_insert_eq].
    - rewrite (decide_False (P := p ∈ q :: ps)) by by intros [|]%elem_of_cons.
      destruct (c !! q); [done|]. apply lookup_insert_ne. congruence. }
  rewrite H; [done|]. intros q s Hq. by rewrite lookup_empty in Hq.
Qed.

Lemma initialize_permission_cache_sound : cache_sound initialize_permission_cache.
Proof.
  intros p. rewrite initialize_permission_cache_lookup. case_decide as Hin; [|done]. intros _.
  split; [by apply granted_provided; left|]. intros H0 x. apply granted_provided. right. cbn.
  destruct p as [a p']. cbn in *. by subst.
Qed.

(** *** Completeness on shallow acyclic permission graphs *)

Section complete.
Variable rank : permission_level → nat.
Hypothesis rank_decreases : ∀ p auth q,
  permission_to_authority p = Ok auth → q ∈ accounts auth → (rank (plw_permission q) < rank p)%nat.
Hypothesis missing_is_query : ∀ p e,
  permission_to_authority p = Throw e → derives_from e permission_query_exception = true.

Definition authority_ok (auth : authority K) : Prop :=
  weights_16bit auth ∧ 0 < threshold auth ∧ sum_weights (factors auth) < 2 ^ 32.
Hypothesis authority_valid : ∀ p auth, permission_to_authority p = Ok auth → authority_ok auth.

(** The cache while authorities of rank [f] and above are being evaluated. *)
Record cache_exact (f : nat) (cache : permission_cache_type) : Prop := {
  exact_sound : cache_sound cache;
  exact_unsatisfied : ∀ q, cache !! q = Some permission_unsatisfied → ¬ granted q ∧ permission q ≠ 0;
  exact_evaluated : ∀ q, cache !! q = Some being_evaluated → (f <= rank q)%nat ∧ permission q ≠ 0;
  exact_provided : ∀ q, q ∈ provided_permissions → cache !! q = Some permission_satisfied }.

Lemma status_exact f cache p :
  cache_exact f cache → (rank p < f)%nat →
  match permission_status_in_cache cache p with
  | Some permission_satisfied => granted p
  | Some permission_unsatisfied => ¬ granted p
  | Some being_evaluated => False
  | None => cache !! p = None ∧ ¬ provided p
  end.
Proof.
  intros [Hs Hu He Hp] Hr.
  destruct (permission_status_in_cache cache p) as [[]|] eqn:Hst.
  3: by eapply status_sound.
  all: revert Hst; unfold permission_status_in_cache; destruct (cache !! p) as [s|] eqn:Hcp; intros Hst; simplify_eq.
  - apply He in Hcp. lia.
  - by apply He in Hst as [_ []].
  - by apply Hu in Hcp as [].
  - by apply Hu in Hst as [_ []].
  - split; [done|]. intros [H|H]; apply Hp in H; congruence.
Qed.

Definition exact_descent (f : nat) (g : authority K → list bool → permission_cache_type → outcome bool) : Prop :=
  ∀ auth used cache,
    authority_ok auth → (∀ q, q ∈ accounts auth → (rank (plw_permission q) < f)%nat) →
    cache_exact f cache →
    ∃ b used' cache', g auth used cache = Ok (b, used', cache') ∧ cache_exact f cache' ∧
      (∀ q, cache' !! q = Some being_evaluated → cache !! q = Some being_evaluated) ∧
      (b = true ↔ authority_granted auth).

(** The cache entry of [p] while it is evaluated, and afterwards. *)
Lemma cache_exact_enter f cache p auth :
  cache_exact f cache → (rank p < f)%nat → cache !! p = None → ¬ provided p →
  permission_to_authority p = Ok auth →
  cache_exact (rank p) (<[p := being_evaluated]> cache).
Proof.
  intros [Hs Hu He Hp] Hr Hcp Hnp Hauth. split.
  - by apply cache_sound_insert.
  - intros q [[_ ?]|[_ Hq]]%lookup_insert_Some; [done|auto].
  - intros q [[<- _]|[_ Hq]]%lookup_insert_Some; [split; [lia|by eapply authority_named]|].
    apply He in Hq as []. split; [lia|done].
  - intros q Hq. rewrite lookup_insert_ne; [auto|]. intros ->. by apply Hnp; left.
Qed.

Lemma cache_exact_leave f cache cache' p auth (b : bool) :
  cache_exact f cache → ¬ provided p → permission_to_authority p = Ok auth →
  (b = true ↔ authority_granted auth) →
  cache_exact (rank p) cache' →
  (∀ q, cache' !! q = Some being_evaluated → <[p := being_evaluated]> cache !! q = Some being_evaluated) →
  cache_exact f (<[p := if b then permission_satisfied else permission_unsatisfied]> cache').
Proof.
  intros [_ _ He _] Hnp Hauth Hb [Hs' Hu' He' Hp'] Hkeep. split.
  - destruct b; [eapply cache_sound_satisfied; [done|done|by apply Hb]|by apply cache_sound_insert].
  - intros q [[<- H]|[_ Hq]]%lookup_insert_Some; [|auto]. destruct b; [done|].
    split; [|by eapply authority_named]. rewrite granted_iff. intros [|(auth' & Ha & Hg)]; [done|].
    assert (auth' = auth) as -> by congruence. by apply Hb in Hg.
  - intros q [[_ H]|[Hne Hq]]%lookup_insert_Some; [by destruct b|].
    apply Hkeep in Hq. rewrite lookup_insert_ne in Hq by done. auto.
  - intros q Hq. rewrite lookup_insert_ne; [auto|]. intros ->. by apply Hnp; left.
Qed.

(** One visit adds the weight of the factor exactly when it is granted. *)
Lemma visit_exact f n m total used cache :
  (f <= n)%nat →
  (∀ n' f', n = S n' → (f' <= n')%nat → exact_descent f' (satisfied_at provided_delay n')) →
  (∀ q, m = MPermission q → (rank (plw_permission q) < f)%nat) →
  0 <= total → 0 <= get_weight m → total + get_weight m < 2 ^ 32 → cache_exact f cache →
  ∃ total' used' cache',
    visit provided_delay
      (match n with O => None | S n => Some (satisfied_at provided_delay n) end)
      m total used cache = Ok (total', used', cache') ∧ cache_exact f cache' ∧
    (∀ q, cache' !! q = Some being_evaluated → cache !! q = Some being_evaluated) ∧
    ((factor_granted m ∧ total' = total + get_weight m) ∨ (¬ factor_granted m ∧ total' = total)).
Proof.
  intros Hfn IH Hrank Ht Hw Hfit Hc.
  assert (Hwrap : u32 (total + get_weight m) = total + get_weight m) by (apply wrap_id; unfold is_unsigned; lia).
  destruct m as [p|k|w]; cbn [visit get_weight factor_granted] in *.
  - specialize (Hrank p eq_refl). pose proof (status_exact f cache _ Hc Hrank) as Hst.
    unfold visit_permission. destruct (permission_status_in_cache cache _) as [[]|]; [done| | |].
    + do 3 eexists. split; [done|]. split; [done|]. split; [done|]. by right.
    + do 3 eexists. split; [done|]. split; [done|]. split; [done|]. by left.
    + destruct Hst as [Hcp Hnp]. destruct n as [|n']; [lia|].
      destruct (permission_to_authority (plw_permission p)) as [auth|e] eqn:Hp.
      * destruct (IH n' (rank (plw_permission p)) eq_refl ltac:(lia) auth used
          (<[plw_permission p := being_evaluated]> cache)) as (b & used' & cache' & Heq & Hc' & Hkeep & Hb).
        { by eapply authority_valid. }
        { intros q Hq. by eapply rank_decreases. }
        { by eapply cache_exact_enter. }
        pose proof (cache_exact_leave f cache cache' _ auth b Hc Hnp Hp Hb Hc' Hkeep) as Hleave.
        assert (Hg : granted (plw_permission p) ↔ b = true).
        { rewrite granted_iff, Hb. split; [|eauto]. intros [|(auth' & Ha & Hg)]; [done|].
          by assert (auth = auth') as -> by congruence. }
        assert (Hk : ∀ q s, s ≠ being_evaluated → <[plw_permission p := s]> cache' !! q = Some being_evaluated →
                  cache !! q = Some being_evaluated).
        { intros q s Hs [[_ ?]|[Hne Hq]]%lookup_insert_Some; [done|].
          apply Hkeep in Hq. by rewrite lookup_insert_ne in Hq. }
        rewrite Heq. cbn. destruct b; do 3 eexists; (split; [done|]); (split; [done|]);
          (split; [intros q; by apply Hk|]).
        -- left. split; [by apply Hg|done].
        -- right. split; [|done]. rewrite Hg. done.
      * rewrite (missing_is_query _ _ Hp). do 3 eexists. split; [done|]. split; [done|]. split; [done|].
        right. split; [|done]. rewrite granted_iff. intros [|(auth' & Ha & _)]; [done|congruence].
  - unfold visit_key. destruct (list_find _ _) as [[i k']|] eqn:Hfind; cbn.
    + apply list_find_Some in Hfind as (Hi & -> & _). do 3 eexists. split; [done|]. split; [done|].
      split; [done|]. left. split; [by eapply list_elem_of_lookup_2|done].
    + apply list_find_None in Hfind. do 3 eexists. split; [done|]. split; [done|]. split; [done|].
      right. split; [|done]. intros Hin. rewrite Forall_forall in Hfind. by eapply Hfind.
  - unfold visit_wait. cbn. destruct (provided_delay >=? _) eqn:Hd; do 3 eexists;
      (split; [done|]); (split; [done|]); (split; [done|]); [left|right]; split; (done || lia).
Qed.

Lemma sum_weights_submseteq l1 l2 :
  (∀ m, m ∈ l2 → 0 <= get_weight m) → l1 ⊆+ l2 → sum_weights l1 <= sum_weights l2.
Proof.
  intros Hw [k Hk]%submseteq_Permutation. rewrite Hk, sum_weights_app.
  assert (H : ∀ l, (∀ m, m ∈ l → 0 <= get_weight m) → 0 <= sum_weights l).
  { intros l. induction l as [|x l IH]; intros Hl; [done|].
    change (sum_weights (x :: l)) with (get_weight x + sum_weights l).
    specialize (Hl x (list_elem_of_here _ _)) as Hx.
    assert (0 <= sum_weights l) by (apply IH; intros m Hm; apply Hl; by apply list_elem_of_further). lia. }
  specialize (H k). enough (0 <= sum_weights k) by lia. apply H.
  intros m Hm. apply Hw. rewrite Hk. apply elem_of_app. by right.
Qed.

(** Granted factors come from the granted part of a split. *)
Lemma granted_submseteq fs yes no :
  fs ⊆+ yes ++ no → (∀ f, f ∈ fs → factor_granted f) → (∀ f, f ∈ no → ¬ factor_granted f) → fs ⊆+ yes.
Proof.
  intros Hfs Hg Hn. apply submseteq_app_r in Hfs as (k1 & k2 & Hp & H1 & H2).
  destruct k2 as [|x k2]; [by rewrite Hp, app_nil_r|]. exfalso.
  apply (Hn x).
  - apply (elem_of_submseteq _ _ _ (list_elem_of_here x k2) H2).
  - apply Hg. rewrite Hp. apply elem_of_app. right. apply list_elem_of_here.
Qed.

Lemma tally_exact f n auth saved ps yes no used cache :
  (f <= n)%nat →
  (∀ n' f', n = S n' → (f' <= n')%nat → exact_descent f' (satisfied_at provided_delay n')) →
  authority_ok auth → (∀ q, q ∈ accounts auth → (rank (plw_permission q) < f)%nat) →
  (yes ++ no) ++ ps ≡ₚ factors auth →
  (∀ m, m ∈ yes → factor_granted m) → (∀ m, m ∈ no → ¬ factor_granted m) →
  sum_weights yes < threshold auth → cache_exact f cache →
  ∃ b used' cache',
    tally provided_delay (match n with O => None | S n => Some (satisfied_at provided_delay n) end)
      (threshold auth) saved ps (sum_weights yes) used cache = Ok (b, used', cache') ∧
    cache_exact f cache' ∧
    (∀ q, cache' !! q = Some being_evaluated → cache !! q = Some being_evaluated) ∧
    (b = true ↔ authority_granted auth).
Proof.
  intros Hfn IH Hok Hrank. pose proof Hok as (Hw16 & Hth & Hfit).
  assert (Hw : ∀ m, m ∈ factors auth → 0 <= get_weight m)
    by (intros m Hm; apply (weights_factors auth m Hw16 Hm)).
  revert yes no used cache.
  induction ps as [|m ps IHps]; intros yes no used cache Hperm Hyes Hno Hlt Hc; cbn [tally].
  { rewrite app_nil_r in Hperm. do 3 eexists. split; [done|]. split; [done|]. split; [done|].
    split; [done|]. intros (fs & Hfs & Hge & Hg). exfalso. rewrite <- Hperm in Hfs.
    apply granted_submseteq in Hfs; [|done|done].
    apply sum_weights_submseteq in Hfs; [lia|].
    intros m Hm. apply Hw. rewrite <- Hperm, elem_of_app. by left. }
  assert (Hm : m ∈ factors auth) by (rewrite <- Hperm, elem_of_app; right; apply list_elem_of_here).
  assert (Hy0 : 0 <= sum_weights yes).
  { apply (sum_weights_submseteq [] yes); [|apply submseteq_nil_l].
    intros m' Hm'. apply Hw. rewrite <- Hperm, !elem_of_app. auto. }
  assert (Hsub : sum_weights (yes ++ [m]) <= sum_weights (factors auth)).
  { apply sum_weights_submseteq; [done|]. rewrite <- Hperm, <- app_assoc. apply submseteq_skips_l.
    apply submseteq_inserts_l, submseteq_skip, submseteq_nil_l. }
  rewrite sum_weights_app in Hsub. change (sum_weights [m]) with (get_weight m + 0) in Hsub.
  destruct (visit_exact f n m (sum_weights yes) used cache Hfn IH) as (t & u & c & Hv & Hc' & Hk & Hcase);
    [|done|by apply Hw|lia|done|].
  { intros q ->. apply Hrank. unfold factors in Hm. rewrite !elem_of_app, !list_elem_of_fmap in Hm.
    destruct Hm as [(?&?&?)|[(?&?&?)|(?&?&?)]]; by simplify_eq. }
  rewrite Hv. cbn [mbind result_bind].
  destruct Hcase as [[Hg ->]|[Hg ->]].
  - assert (Hyes' : ∀ x, x ∈ yes ++ [m] → factor_granted x).
    { intros x [Hx|Hx]%elem_of_app; [auto|]. apply list_elem_of_singleton in Hx. by subst. }
    assert (Hperm' : ((yes ++ [m]) ++ no) ++ ps ≡ₚ factors auth).
    { rewrite <- Hperm. rewrite <- !app_assoc. apply Permutation_app_head. cbn.
      by rewrite Permutation_middle. }
    assert (Heq : sum_weights yes + get_weight m = sum_weights (yes ++ [m]))
      by (rewrite sum_weights_app; unfold sum_weights at 3; cbn; lia).
    rewrite Heq. destruct (Z.ltb_spec (sum_weights (yes ++ [m])) (threshold auth)) as [Hl|Hl].
    + assert ((sum_weights (yes ++ [m]) >=? threshold auth) = false) as -> by lia.
      destruct (IHps (yes ++ [m]) no u c Hperm' Hyes' Hno Hl Hc') as (b & u' & c' & H1 & H2 & H3 & H4).
      do 3 eexists. split_and!; eauto.
    + assert ((sum_weights (yes ++ [m]) >=? threshold auth) = true) as -> by lia.
      do 3 eexists. split; [done|]. split; [done|]. split; [done|]. split; [|done]. intros _.
      exists (yes ++ [m]). split_and!; [|lia|done]. rewrite <- Hperm', <- app_assoc.
      apply submseteq_inserts_r. done.
  - assert ((sum_weights yes >=? threshold auth) = false) as -> by lia.
    destruct (IHps yes (no ++ [m]) u c) as (b & u' & c' & H1 & H2 & H3 & H4); try done.
    { rewrite <- Hperm. by rewrite <- !app_assoc. }
    { intros x [Hx|Hx]%elem_of_app; [auto|]. apply list_elem_of_singleton in Hx. by subst. }
    do 3 eexists. split_and!; eauto.
Qed.

Lemma satisfied_at_exact n : ∀ f, (f <= n)%nat → exact_descent f (satisfied_at provided_delay n).
Proof.
  induction n as [|n IH]; intros f Hf auth used cache Hok Hrank Hc.
  all: destruct (tally_exact f _ auth used (meta_permissions auth) [] [] used cache Hf)
         as (b & u & c & H1 & H2 & H3 & H4); try done.
  all: try (by intros n' f' [= <-] ?; apply IH).
  all: try (intros m Hm; by apply not_elem_of_nil in Hm).
  all: try (apply meta_permissions_Permutation).
  all: try (apply Hok).
  all: by exists b, u, c.
Qed.

Lemma initialize_permission_cache_exact f : cache_exact f initialize_permission_cache.
Proof.
  split; [apply initialize_permission_cache_sound|intros q; rewrite initialize_permission_cache_lookup..].
  - by case_decide.
  - by case_decide.
  - intros Hq. by rewrite decide_True.
Qed.

End complete.

Lemma satisfied_permission_sound limit p used b used' :
  satisfied_permission limit provided_delay p used = Ok (b, used') →
  (b = true → granted p) ∧ marks_more used used' ∧ (b = false → used' = used).
Proof.
  unfold satisfied_permission. intros H. simplify_res.
  match goal with H : visit_permission _ _ _ _ _ = Ok ?x |- _ => destruct x as [[t u] c]; rename H into Hv end.
  simplify_res; simplify_eq.
  assert (Hd : ∀ f, match limit with O => None | S n => Some (satisfied_at provided_delay n) end = Some f →
            sound_descent f).
  { intros f Hf. destruct limit; simplify_eq. apply satisfied_at_sound. }
  pose proof (visit_sound _ (MPermission (PermissionLevelWeight p 1)) 0 used _ t used' c Hd
    ltac:(lia) ltac:(cbn; lia) initialize_permission_cache_sound Hv) as (_ & Hm & _ & Hcase).
  cbn in Hcase. split; [|split; [done|]].
  - intros Hb. destruct Hcase as [->|[Hg _]]; [lia|done].
  - intros Hb. unfold visit_permission in Hv. cbn [plw_permission plw_weight] in Hv.
    destruct (permission_status_in_cache _ _) as [[]|]; simplify_res; simplify_eq; try done.
    destruct limit as [|n]; simplify_res; simplify_eq; [done|].
    destruct (permission_to_authority p) as [auth|e] eqn:Hp.
    + simplify_res. match goal with H : satisfied_at _ _ _ _ _ = Ok ?x |- _ => destruct x as [[r u1] c1]; rename H into Hrec end.
      apply satisfied_at_sound in Hrec as (_ & _ & _ & Hu);
        [|by eapply authority_weights|apply cache_sound_insert; [apply initialize_permission_cache_sound|done]].
      destruct r; simplify_res; simplify_eq. by apply Hu.
    + destruct (derives_from _ _); simplify_res; by simplify_eq.
Qed.

End meaning.

(** More delay grants more. *)
Lemma granted_delay_mono d d' p : d <= d' → granted d p → granted d' p.
Proof.
  intros Hd. induction 1 as [p Hp|p auth fs Ha Hfs Hth _ IH Hk Hw]; [by apply granted_provided|].
  apply (granted_authority d' p auth fs); try done. intros w Hin. specialize (Hw w Hin). lia.
Qed.
End checker.

(** ** Concrete permissions *)

(** A small permission database: key [k] is the number of the key. *)
Definition demo_authority (p : permission_level) : res (authority Z) :=
  if decide (p = PermissionLevel 1 10) then
    Ok (Authority 2 [] [PermissionLevelWeight (PermissionLevel 2 10) 1;
                        PermissionLevelWeight (PermissionLevel 3 10) 1] [])
  else if decide (p = PermissionLevel 2 10) then Ok (Authority 1 [KeyWeight 100 1] [] [])
  else if decide (p = PermissionLevel 3 10) then Ok (Authority 2 [KeyWeight 101 1] [] [WaitWeight 60 1])
  else Throw permission_query_exception.

Definition demo_rank (p : permission_level) : nat := if decide (p = PermissionLevel 1 10) then 1 else 0.

Lemma demo_named p auth : demo_authority p = Ok auth → permission p ≠ 0.
Proof. unfold demo_authority. intros H. repeat case_decide; subst; try discriminate H; cbn; lia. Qed.

Lemma demo_weights p auth : demo_authority p = Ok auth → weights_16bit auth.
Proof.
  unfold demo_authority. intros H. repeat case_decide; simplify_res;
    unfold weights_16bit, is_unsigned; cbn; split_and!; repeat constructor; cbn; lia.
Qed.



(** Permission 1 needs 2 or 3; 2 needs 4 and a key that is missing; 3 needs
    4; 4 needs the key 100. *)
Definition shared_authority_demo (p : permission_level) : res (authority Z) :=
  if decide (p = PermissionLevel 1 10) then
    Ok (Authority 1 [] [PermissionLevelWeight (PermissionLevel 2 10) 1;
                        PermissionLevelWeight (PermissionLevel 3 10) 1] [])
  else if decide (p = PermissionLevel 2 10) then
    Ok (Authority 2 [KeyWeight 101 1] [PermissionLevelWeight (PermissionLevel 4 10) 1] [])
  else if decide (p = PermissionLevel 3 10) then
    Ok (Authority 1 [] [PermissionLevelWeight (PermissionLevel 4 10) 1] [])
  else if decide (p = PermissionLevel 4 10) then Ok (Authority 1 [KeyWeight 100 1] [] [])
  else Throw permission_query_exception.

(** The key markers can miss a key that was needed.  The permission is
    satisfied with the key 100 and not without it, yet the key ends unmarked:
    the failed branch puts the markers back but leaves the permission it
    decided in the cache, and the next branch takes it from there. *)
Theorem cached_grant_loses_marker :
  ∃ used',
    satisfied_permission shared_authority_demo [100] [] 6 0 (PermissionLevel 1 10) [false] = Ok (true, used') ∧
    satisfied_permission shared_authority_demo [] [] 6 0 (PermissionLevel 1 10) [] = Ok (false, []) ∧
    unused_keys [100] used' = [100] ∧ all_keys_used used' = false.
Proof. exists [false]. vm_compute. auto. Qed.
