(* ===== verification/Transaction.v ===== *)
(** * Actions and transactions (action.hpp, transaction.hpp, transaction.cpp)

    Actions, transaction headers and transactions; the packed form with its
    optional compression and its cache of the unpacked transaction; and the
    recovery of the signing keys with its cache.  Serialisation
    ([fc::raw::pack] and [unpack]), zlib, SHA-256 and key recovery belong to
    other libraries and are parameters. *)

From S2P Require Import Prelude Exceptions Config Authority Merkle.

Abbreviation bytes := (list Z).

Record action : Set := Action {
  act_account : Z;
  act_name : Z;
  act_authorization : list permission_level;
  act_data : bytes }.

#[export] Instance action_eq_dec : EqDecision action.
Proof. solve_decision. Defined.

(** [action::data_as<T>] for a type with account [a], name [n] and unpacking [u]. *)
Definition data_as {T} (a n : Z) (u : bytes → res T) (act : action) : res T :=
  EOS_ASSERT (act_account act =? a) action_type_exception;;
  EOS_ASSERT (act_name act =? n) action_type_exception;;
  u (act_data act).

Record transaction_header : Set := TransactionHeader {
  expiration : Z;            (* seconds *)
  max_net_usage_words : Z;   (* uint32_t *)
  max_ram_usage : Z;         (* int32_t *)
  delay_sec : Z;             (* uint32_t *)
  ref_block_prefix : Z;      (* uint32_t *)
  ref_block_num : Z;         (* uint16_t *)
  max_cpu_usage_ms : Z }.    (* uint8_t *)

Record transaction : Set := Transaction {
  header : transaction_header;
  context_free_actions : list action;
  actions : list action;
  transaction_extensions : list (Z * bytes) }.

#[export] Instance transaction_header_eq_dec : EqDecision transaction_header.
Proof. solve_decision. Defined.
#[export] Instance transaction_eq_dec : EqDecision transaction.
Proof. solve_decision. Defined.

Definition get_ref_blocknum (h : transaction_header) (head_blocknum : Z) : Z :=
  u32 (u32 ((head_blocknum / 0xffff) * 0xffff) + head_blocknum mod 0xffff).

Definition transaction_header_validate (h : transaction_header) : res unit :=
  EOS_ASSERT (max_net_usage_words h <? uint32_max / 8) transaction_exception.

Definition total_actions (t : transaction) : Z :=
  u32 (Z.of_nat (length (context_free_actions t)) + Z.of_nat (length (actions t))).

Definition first_authorizor (t : transaction) : Z :=
  match concat (map act_authorization (actions t)) with
  | u :: _ => actor u
  | [] => 0
  end.

Section reference_block.
(** [fc::endian_reverse_u32]. *)
Variable endian_reverse_u32 : Z → Z.

Definition set_reference_block (h : transaction_header) (reference_block : digest_type) : transaction_header :=
  TransactionHeader (expiration h) (max_net_usage_words h) (max_ram_usage h) (delay_sec h)
    (u32 (_hash1 reference_block)) (u16 (endian_reverse_u32 (u32 (_hash0 reference_block))))
    (max_cpu_usage_ms h).

Definition verify_reference_block (h : transaction_header) (reference_block : digest_type) : bool :=
  (ref_block_num h =? u16 (endian_reverse_u32 (u32 (_hash0 reference_block)))) &&
  (ref_block_prefix h =? u32 (_hash1 reference_block)).
End reference_block.

(** ** Packed transactions *)

Record signed_transaction (S : Type) : Type := SignedTransaction {
  trx : transaction;
  signatures : list S;
  context_free_data : list bytes }.
Arguments SignedTransaction {S}.
Arguments trx {S}.
Arguments signatures {S}.
Arguments context_free_data {S}.

(** [compression]: 0 is [none], 1 is [zlib], the byte can hold other values.
    [unpacked_trx] is the mutable buffer of the unpacked transaction. *)
Record packed_transaction (S : Type) : Type := PackedTransaction {
  packed_signatures : list S;
  compression : Z;
  packed_context_free_data : bytes;
  packed_trx : bytes;
  unpacked_trx : option transaction }.
Arguments PackedTransaction {S}.
Arguments packed_signatures {S}.
Arguments compression {S}.
Arguments packed_context_free_data {S}.
Arguments packed_trx {S}.
Arguments unpacked_trx {S}.

Section packed.
Context {S : Type}.
(** [fc::raw::pack] and [unpack] of a transaction and of context-free data;
    zlib: what the decompressor writes, and whether it ends without error. *)
Variable pack_transaction : transaction → bytes.
Variable unpack_transaction : bytes → res transaction.
Variable raw_pack_cfd : list bytes → bytes.
Variable raw_unpack_cfd : bytes → res (list bytes).
Variable deflate : bytes → bytes.
Variable inflate : bytes → bytes * bool.
Variable pack_size_signatures : list S → Z.

Definition packed_empty : packed_transaction S := PackedTransaction [] 0 [] [] None.

Definition get_unprunable_size (p : packed_transaction S) : res Z :=
  let size := config.fixed_net_overhead_of_packed_trx in
  let size := u64 (size + Z.of_nat (length (packed_trx p))) in
  EOS_ASSERT (size <=? uint32_max) tx_too_big;;
  mret (u32 size).

Definition get_prunable_size (p : packed_transaction S) : res Z :=
  let size := pack_size_signatures (packed_signatures p) in
  let size := u64 (size + Z.of_nat (length (packed_context_free_data p))) in
  EOS_ASSERT (size <=? uint32_max) tx_too_big;;
  mret (u32 size).

Definition unpack_context_free_data (data : bytes) : res (list bytes) :=
  if (length data =? 0)%nat then mret [] else raw_unpack_cfd data.

(** The limit of [read_limiter<1*1024*1024>]. *)
Definition decompression_limit : Z := 1 * 1024 * 1024.

Definition zlib_decompress (data : bytes) : res bytes :=
  let '(out, finished) := inflate data in
  EOS_ASSERT (Z.of_nat (length out) <=? decompression_limit) tx_decompression_error;;
  if finished then mret out else Throw fc_unhandled_exception.

Definition zlib_decompress_context_free_data (data : bytes) : res (list bytes) :=
  if (length data =? 0)%nat then mret []
  else out ← zlib_decompress data; unpack_context_free_data out.

Definition zlib_decompress_transaction (data : bytes) : res transaction :=
  out ← zlib_decompress data; unpack_transaction out.

Definition pack_context_free_data (cfd : list bytes) : bytes :=
  if (length cfd =? 0)%nat then [] else raw_pack_cfd cfd.

Definition zlib_compress_context_free_data (cfd : list bytes) : bytes :=
  if (length cfd =? 0)%nat then [] else deflate (pack_context_free_data cfd).

Definition zlib_compress_transaction (t : transaction) : bytes := deflate (pack_transaction t).

Definition get_raw_transaction (p : packed_transaction S) : res bytes :=
  if compression p =? 0 then mret (packed_trx p)
  else if compression p =? 1 then zlib_decompress (packed_trx p)
  else EOS_THROW unknown_transaction_compression.

Definition get_context_free_data (p : packed_transaction S) : res (list bytes) :=
  if compression p =? 0 then unpack_context_free_data (packed_context_free_data p)
  else if compression p =? 1 then zlib_decompress_context_free_data (packed_context_free_data p)
  else EOS_THROW unknown_transaction_compression.

(** [local_unpack] fills the buffer, so the methods that call it return the
    packed transaction with the buffer filled. *)
Definition local_unpack (p : packed_transaction S) : res (transaction * packed_transaction S) :=
  match unpacked_trx p with
  | Some t => mret (t, p)
  | None =>
      t ← (if compression p =? 0 then unpack_transaction (packed_trx p)
           else if compression p =? 1 then zlib_decompress_transaction (packed_trx p)
           else EOS_THROW unknown_transaction_compression);
      mret (t, PackedTransaction (packed_signatures p) (compression p)
                 (packed_context_free_data p) (packed_trx p) (Some t))
  end.

Definition get_transaction (p : packed_transaction S) : res (transaction * packed_transaction S) :=
  local_unpack p.

Definition get_signed_transaction (p : packed_transaction S)
    : res (signed_transaction S * packed_transaction S) :=
  if compression p =? 0 then
    '(t, p) ← get_transaction p;
    cfd ← unpack_context_free_data (packed_context_free_data p);
    mret (SignedTransaction t (packed_signatures p) cfd, p)
  else if compression p =? 1 then
    '(t, p) ← get_transaction p;
    cfd ← zlib_decompress_context_free_data (packed_context_free_data p);
    mret (SignedTransaction t (packed_signatures p) cfd, p)
  else EOS_THROW unknown_transaction_compression.

Definition set_transaction (p : packed_transaction S) (t : transaction) (c : Z) : res (packed_transaction S) :=
  packed ← (if c =? 0 then mret (pack_transaction t)
            else if c =? 1 then mret (zlib_compress_transaction t)
            else EOS_THROW unknown_transaction_compression);
  mret (PackedTransaction (packed_signatures p) c [] packed (unpacked_trx p)).

Definition set_signed_transaction (p : packed_transaction S) (t : transaction) (cfd : list bytes) (c : Z)
    : res (packed_transaction S) :=
  '(packed, packed_cfd) ←
    (if c =? 0 then mret (pack_transaction t, pack_context_free_data cfd)
     else if c =? 1 then mret (zlib_compress_transaction t, zlib_compress_context_free_data cfd)
     else EOS_THROW unknown_transaction_compression);
  mret (PackedTransaction (packed_signatures p) c packed_cfd packed (unpacked_trx p)).

(** The constructor from a signed transaction. *)
Definition make_packed (t : signed_transaction S) (c : Z) : res (packed_transaction S) :=
  set_signed_transaction (PackedTransaction (signatures t) 0 [] [] None) (trx t) (context_free_data t) c.

(** *** Round trip *)

Hypothesis unpack_pack : ∀ t, unpack_transaction (pack_transaction t) = Ok t.
Hypothesis unpack_pack_cfd : ∀ cfd, raw_unpack_cfd (raw_pack_cfd cfd) = Ok cfd.
Hypothesis pack_cfd_nonempty : ∀ cfd, raw_pack_cfd cfd ≠ [].
Hypothesis inflate_deflate : ∀ b, inflate (deflate b) = (b, true).
Hypothesis deflate_nonempty : ∀ b, deflate b ≠ [].

Definition within_limit (b : bytes) : Prop := Z.of_nat (length b) <= decompression_limit.

Lemma zlib_roundtrip b : within_limit b → zlib_decompress (deflate b) = Ok b.
Proof. intros Hb. unfold zlib_decompress, within_limit in *. rewrite inflate_deflate. by pass_assert. Qed.

Lemma unpack_pack_context_free_data cfd : unpack_context_free_data (pack_context_free_data cfd) = Ok cfd.
Proof.
  unfold unpack_context_free_data, pack_context_free_data.
  destruct cfd as [|b cfd]; [done|]. cbn [length Nat.eqb].
  destruct (raw_pack_cfd (b :: cfd)) as [|x l] eqn:H; [by apply pack_cfd_nonempty in H|].
  cbn [length Nat.eqb]. by rewrite <- H.
Qed.

Lemma zlib_context_free_data cfd :
  within_limit (raw_pack_cfd cfd) →
  zlib_decompress_context_free_data (zlib_compress_context_free_data cfd) = Ok cfd.
Proof.
  intros Hb. unfold zlib_decompress_context_free_data, zlib_compress_context_free_data.
  destruct cfd as [|b cfd]; [done|]. cbn [length Nat.eqb].
  destruct (deflate (pack_context_free_data (b :: cfd))) as [|x l] eqn:H; [by apply deflate_nonempty in H|].
  cbn [length Nat.eqb]. rewrite <- H, zlib_roundtrip by done. apply unpack_pack_context_free_data.
Qed.

(** A signed transaction survives packing: with either compression, and
    with packed data within the decompression limit, unpacking a packed
    signed transaction gives it back, signatures and context-free data
    included; any other compression value is refused. *)
Theorem packed_roundtrip t c :
  within_limit (pack_transaction (trx t)) → within_limit (raw_pack_cfd (context_free_data t)) →
  (c = 0 ∨ c = 1 →
     ∃ p p', make_packed t c = Ok p ∧ get_signed_transaction p = Ok (t, p') ∧
             unpacked_trx p' = Some (trx t)) ∧
  (c ≠ 0 → c ≠ 1 → make_packed t c = Throw unknown_transaction_compression).
Proof.
  intros Ht Hc. split.
  - intros [-> | ->]; unfold make_packed, set_signed_transaction, get_signed_transaction, get_transaction, local_unpack; cbn.
    + do 2 eexists. split; [done|]. cbn. rewrite unpack_pack. cbn.
      rewrite unpack_pack_context_free_data. cbn. by destruct t.
    + do 2 eexists. split; [done|]. cbn. unfold zlib_decompress_transaction, zlib_compress_transaction.
      rewrite zlib_roundtrip by done. cbn. rewrite unpack_pack. cbn.
      rewrite zlib_context_free_data by done. cbn. by destruct t.
  - intros H0 H1. unfold make_packed, set_signed_transaction.
    by rewrite (proj2 (Z.eqb_neq c 0) H0), (proj2 (Z.eqb_neq c 1) H1).
Qed.

(** [set_transaction] does not clear the buffer of the unpacked
    transaction: once it is filled, setting another transaction is not seen
    by [get_transaction], which keeps returning the first one. *)
Theorem set_transaction_keeps_stale_buffer p t1 t2 p1 p2 :
  get_transaction p = Ok (t1, p1) → set_transaction p1 t2 0 = Ok p2 →
  packed_trx p2 = pack_transaction t2 ∧ get_transaction p2 = Ok (t1, p2).
Proof.
  unfold get_transaction, local_unpack, set_transaction. intros H1 H2.
  assert (Hb : unpacked_trx p1 = Some t1).
  { destruct (unpacked_trx p) as [t|] eqn:Hu; simplify_res; by simplify_eq. }
  cbn in H2. simplify_res. cbn. by rewrite Hb.
Qed.
End packed.

(** A serialisation for evaluation: a transaction is packed as one number. *)
#[export] Instance action_countable : Countable action.
Proof.
  apply (inj_countable' (λ a, (act_account a, act_name a, act_authorization a, act_data a))
    (λ '(a, n, u, d), Action a n u d)). by intros [].
Defined.
#[export] Instance transaction_header_countable : Countable transaction_header.
Proof.
  apply (inj_countable' (λ h, (expiration h, max_net_usage_words h, max_ram_usage h, delay_sec h,
      ref_block_prefix h, ref_block_num h, max_cpu_usage_ms h))
    (λ '(a, b, c, d, e, f, g), TransactionHeader a b c d e f g)). by intros [].
Defined.
#[export] Instance transaction_countable : Countable transaction.
Proof.
  apply (inj_countable' (λ t, (header t, context_free_actions t, actions t, transaction_extensions t))
    (λ '(h, c, a, e), Transaction h c a e)). by intros [].
Defined.

Definition encode_bytes {A} `{Countable A} (a : A) : bytes := [Zpos (encode a)].
Definition decode_bytes {A} `{Countable A} (b : bytes) : res A :=
  match b with
  | [Zpos p] => of_option fc_eof_exception (decode p)
  | _ => Throw fc_eof_exception
  end.
Definition stored_inflate (b : bytes) : bytes * bool :=
  match b with 0 :: b => (b, true) | _ => ([], false) end.

Lemma decode_encode_bytes {A} `{Countable A} (a : A) : decode_bytes (encode_bytes a) = Ok a.
Proof. unfold decode_bytes, encode_bytes. by rewrite decode_encode. Qed.

Definition demo_transaction : transaction :=
  Transaction (TransactionHeader 1000 10 0 0 7 8 0) [] [Action 5 6 [PermissionLevel 5 10] [1; 2]] [].

Lemma packed_roundtrip_witness :
  let t := SignedTransaction demo_transaction [77] [[1; 2; 3]] in
  ∃ p p', make_packed encode_bytes encode_bytes (cons 0) t 1 = Ok p ∧
    get_signed_transaction decode_bytes decode_bytes stored_inflate p = Ok (t, p') ∧
    unpacked_trx p' = Some demo_transaction.
Proof.
  intros t. apply (packed_roundtrip (S := Z) encode_bytes decode_bytes encode_bytes decode_bytes (cons 0) stored_inflate);
    [apply decode_encode_bytes|apply decode_encode_bytes|discriminate|reflexivity|discriminate| | |by right];
    unfold within_limit, decompression_limit; cbn; lia.
Defined.

Lemma set_transaction_keeps_stale_buffer_witness :
  let other := Transaction (TransactionHeader 2000 0 0 0 0 0 0) [] [] [] in
  ∃ p1 p2,
    get_transaction decode_bytes stored_inflate (PackedTransaction ([] : list Z) 0 [] (encode_bytes demo_transaction) None)
      = Ok (demo_transaction, p1) ∧
    set_transaction encode_bytes (cons 0) p1 other 0 = Ok p2 ∧
    packed_trx p2 = encode_bytes other ∧
    get_transaction decode_bytes stored_inflate p2 = Ok (demo_transaction, p2).
Proof.
  intros other. eexists _, _. split; [reflexivity|]. split; [reflexivity|].
  eapply (set_transaction_keeps_stale_buffer (S := Z) encode_bytes decode_bytes (cons 0) stored_inflate
    (PackedTransaction ([] : list Z) 0 [] (encode_bytes demo_transaction) None)); reflexivity.
Defined.

(** ** Signature keys *)

Section signature_keys.
Context {K Sig : Type} `{EqDecision K, EqDecision Sig}.
Variable pack_transaction : transaction → bytes.
Variable raw_pack_cfd : list bytes → bytes.
Variable pack_digest : digest_type → bytes.
Variable sha256 : bytes → digest_type.
(** [public_key(sig, digest)], and [operator<] on keys. *)
Variable recover : Sig → digest_type → res K.
Variable key_lt : K → K → bool.

Definition transaction_id (t : transaction) : digest_type := sha256 (pack_transaction t).

Definition sig_digest (chain_id : digest_type) (t : transaction) (cfd : list bytes) : digest_type :=
  sha256 (pack_digest chain_id ++ pack_transaction t ++
          pack_digest (if (length cfd =? 0)%nat then digest_zero else sha256 (raw_pack_cfd cfd))).

(** [flat_set::insert]: the set and whether the key is new. *)
Fixpoint flat_set_insert (k : K) (l : list K) : list K * bool :=
  match l with
  | [] => ([k], true)
  | x :: l' =>
      if key_lt x k then let '(r, b) := flat_set_insert k l' in (x :: r, b)
      else if key_lt k x then (k :: x :: l', true)
      else (x :: l', false)
  end.

Record cached_pub_key : Type := CachedPubKey {
  cached_trx_id : digest_type; cached_key : K; cached_sig : Sig }.

Definition recovery_cache_size : nat := 1000.

Definition cache_find (sig : Sig) (cache : list cached_pub_key) : option cached_pub_key :=
  snd <$> list_find (λ e, cached_sig e = sig) cache.

(** [emplace_back] fails when the signature is already in the unique index. *)
Definition cache_emplace_back (e : cached_pub_key) (cache : list cached_pub_key) : list cached_pub_key :=
  match cache_find (cached_sig e) cache with Some _ => cache | None => cache ++ [e] end.

Definition recover_cached (use_cache : bool) (id digest : digest_type) (sig : Sig)
    (cache : list cached_pub_key) : res (K * list cached_pub_key) :=
  if use_cache then
    match cache_find sig cache with
    | Some e =>
        if decide (cached_trx_id e = id) then mret (cached_key e, cache)
        else recov ← recover sig digest;
             mret (recov, cache_emplace_back (CachedPubKey id recov sig) cache)
    | None =>
        recov ← recover sig digest;
        mret (recov, cache_emplace_back (CachedPubKey id recov sig) cache)
    end
  else recov ← recover sig digest; mret (recov, cache).

(** The body of the loop over the signatures. *)
Definition collect_key (allow_duplicate_keys use_cache : bool) (id digest : digest_type)
    (st : list K * list cached_pub_key) (sig : Sig) : res (list K * list cached_pub_key) :=
  let '(recovered_pub_keys, cache) := st in
  '(recov, cache) ← recover_cached use_cache id digest sig cache;
  let '(recovered_pub_keys, successful_insertion) := flat_set_insert recov recovered_pub_keys in
  EOS_ASSERT (allow_duplicate_keys || successful_insertion) tx_duplicate_sig;;
  mret (recovered_pub_keys, cache).

Definition get_signature_keys (t : transaction) (sigs : list Sig) (chain_id : digest_type)
    (cfd : list bytes) (allow_duplicate_keys use_cache : bool) (cache : list cached_pub_key)
    : res (list K * list cached_pub_key) :=
  let digest := sig_digest chain_id t cfd in
  '(recovered_pub_keys, cache) ←
    foldM (collect_key allow_duplicate_keys use_cache (transaction_id t) digest) ([], cache) sigs;
  mret (recovered_pub_keys,
        if use_cache then drop (length cache - recovery_cache_size) cache else cache).

(** The cache only holds keys that this transaction's digest recovers. *)
Definition cache_coherent (t : transaction) (chain_id : digest_type) (cfd : list bytes)
    (cache : list cached_pub_key) : Prop :=
  ∀ e, e ∈ cache → cached_trx_id e = transaction_id t →
    recover (cached_sig e) (sig_digest chain_id t cfd) = Ok (cached_key e).

Lemma cache_find_Some sig cache e : cache_find sig cache = Some e → e ∈ cache ∧ cached_sig e = sig.
Proof.
  unfold cache_find. intros H. apply fmap_Some in H as ([i e'] & Hf & ->).
  apply list_find_Some in Hf as (Hi & Hs & _). split; [by eapply list_elem_of_lookup_2|done].
Qed.

Lemma recover_cached_coherent t chain_id cfd sig cache k cache' :
  cache_coherent t chain_id cfd cache →
  recover_cached true (transaction_id t) (sig_digest chain_id t cfd) sig cache = Ok (k, cache') →
  recover sig (sig_digest chain_id t cfd) = Ok k ∧ cache_coherent t chain_id cfd cache'.
Proof.
  intros Hc H. unfold recover_cached in H.
  assert (Hadd : ∀ k, recover sig (sig_digest chain_id t cfd) = Ok k →
    cache_coherent t chain_id cfd (cache_emplace_back (CachedPubKey (transaction_id t) k sig) cache)).
  { clear H. intros k' Hk. unfold cache_emplace_back. case_match; [done|].
    intros e [He|He]%elem_of_app; [by apply Hc|]. apply list_elem_of_singleton in He as ->. done. }
  destruct (cache_find sig cache) as [e|] eqn:Hf; [case_decide as Hid|]; simplify_res; simplify_eq; auto.
  apply cache_find_Some in Hf as [Hin <-]. auto.
Qed.

(** With a coherent cache the cache does not change the keys. *)
Lemma get_signature_keys_coherent t sigs chain_id cfd dup cache ks cache' :
  cache_coherent t chain_id cfd cache →
  get_signature_keys t sigs chain_id cfd dup true cache = Ok (ks, cache') →
  get_signature_keys t sigs chain_id cfd dup false cache = Ok (ks, cache) ∧
  cache_coherent t chain_id cfd cache' ∧ (length cache' <= recovery_cache_size)%nat.
Proof.
  intros Hc H. unfold get_signature_keys in H |- *. simplify_res.
  match goal with H : foldM _ _ _ = Ok ?x |- _ => destruct x as [ks1 cache1]; rename H into Hfold end.
  simplify_res. simplify_eq.
  enough (Hmain : ∀ acc0 cache0, cache_coherent t chain_id cfd cache0 →
    foldM (collect_key dup true (transaction_id t) (sig_digest chain_id t cfd)) (acc0, cache0) sigs
      = Ok (ks, cache1) →
    foldM (collect_key dup false (transaction_id t) (sig_digest chain_id t cfd)) (acc0, cache) sigs
      = Ok (ks, cache) ∧ cache_coherent t chain_id cfd cache1).
  { destruct (Hmain [] cache Hc Hfold) as [-> Hc1]. cbn. split; [done|]. split.
    - intros e He. apply Hc1.
      rewrite <- (take_drop (length cache1 - recovery_cache_size) cache1). apply elem_of_app. by right.
    - rewrite length_drop. unfold recovery_cache_size. lia. }
  clear Hfold Hc. revert ks cache1.
  induction sigs as [|sig sigs IH]; intros ks cache1 acc0 cache0 Hc H; cbn [foldM] in H |- *.
  { simplify_res. by simplify_eq. }
  simplify_res. match goal with H : collect_key _ _ _ _ _ _ = Ok _ |- _ => unfold collect_key in H end.
  simplify_res. match goal with H : recover_cached _ _ _ _ _ = Ok ?x |- _ => destruct x as [k c1]; rename H into Hrec end.
  apply recover_cached_coherent in Hrec as [Hk Hc1]; [|done].
  match goal with |- context [collect_key dup false ?i ?d ?st sig] =>
    let c := eval unfold collect_key, recover_cached in (collect_key dup false i d st sig) in
    change (collect_key dup false i d st sig) with c end.
  rewrite Hk. cbn [mbind result_bind mret result_ret].
  destruct (flat_set_insert k acc0) as [acc1 fresh]. simplify_res.
  rewrite EOS_ASSERT_pass by done. cbn [mbind result_bind mret result_ret]. by eapply IH.
Qed.

(** The recovery cache does not look at the context-free data.  After a
    signature has been recovered once for a transaction, the same signature
    is accepted for the same transaction with any other context-free data,
    although the digest that was signed covers that data. *)
Theorem recovery_cache_ignores_context_free_data t sig chain_id cfd1 cfd2 k dup :
  recover sig (sig_digest chain_id t cfd1) = Ok k →
  ∃ cache,
    get_signature_keys t [sig] chain_id cfd1 dup true [] = Ok ([k], cache) ∧
    get_signature_keys t [sig] chain_id cfd2 dup true cache = Ok ([k], cache).
Proof.
  intros Hk. exists [CachedPubKey (transaction_id t) k sig].
  unfold get_signature_keys. split; cbn -[sig_digest transaction_id].
  - rewrite Hk. cbn -[sig_digest transaction_id]. by rewrite orb_true_r.
  - rewrite decide_True by done. cbn -[sig_digest transaction_id]. rewrite decide_True by done.
    cbn. by rewrite orb_true_r.
Qed.
End signature_keys.

Lemma recovery_cache_ignores_context_free_data_witness :
  let recover (sig : Z) (d : digest_type) : res Z := Ok (sig + _hash0 d) in
  let sha256 (b : bytes) := Digest (foldr Z.add 0 b) 0 0 0 in
  let pack_digest (d : digest_type) : bytes := [_hash0 d] in
  let keys cfd cache := get_signature_keys encode_bytes (@concat Z) pack_digest sha256 recover Z.ltb
                    demo_transaction [7] digest_zero cfd false true cache in
  ∃ k cache, keys [[1]] [] = Ok ([k], cache) ∧ keys [[2]] cache = Ok ([k], cache) ∧
             keys [[2]] [] ≠ Ok ([k], cache).
Proof.
  intros recover sha256 pack_digest keys. eexists.
  destruct (recovery_cache_ignores_context_free_data encode_bytes (@concat Z) pack_digest sha256 recover Z.ltb
    demo_transaction 7 digest_zero [[1]] [[2]] _ false eq_refl) as (cache & H1 & H2).
  exists cache. split; [exact H1|]. split; [exact H2|]. vm_compute. intros H. discriminate H.
Defined.

(** ** The reference block *)

(** [get_ref_blocknum] ignores the reference: for every 32-bit head
    block number it returns that number, whatever [ref_block_num] says. *)
Theorem get_ref_blocknum_is_head h head_blocknum :
  is_unsigned 32 head_blocknum → get_ref_blocknum h head_blocknum = head_blocknum.
Proof.
  intros Hh. unfold get_ref_blocknum, is_unsigned in *.
  assert (Hq : 0 <= head_blocknum / 0xffff * 0xffff <= head_blocknum) by div_lia.
  pose proof (Z.div_mod head_blocknum 0xffff ltac:(lia)).
  rewrite (wrap_id 32 (_ * _)) by (unfold is_unsigned; lia).
  rewrite wrap_id by (unfold is_unsigned; lia). lia.
Qed.

Lemma get_ref_blocknum_is_head_witness :
  get_ref_blocknum (TransactionHeader 0 0 0 0 0 17 0) 123456 = 123456.
Proof. apply get_ref_blocknum_is_head. unfold is_unsigned. lia. Defined.

(** A header that was given a reference block verifies against that block. *)
Lemma set_verify_reference_block rev h b : verify_reference_block rev (set_reference_block rev h b) b = true.
Proof. unfold verify_reference_block, set_reference_block. cbn. by rewrite !Z.eqb_refl. Qed.
