(* ===== verification/Bytes.v ===== *)
(** * Bytes in files

    Integers as a little-endian machine stores them. *)

From S2P Require Import Prelude Exceptions Transaction.

(** The bytes of an integer of [n] bytes, least significant first. *)
Definition le_bytes (n : nat) (x : Z) : bytes := (λ i, x / 2 ^ (8 * Z.of_nat i) mod 256) <$> seq 0 n.
Definition le_value (l : bytes) : Z := foldr (λ b v, b + 256 * v) 0 l.

Abbreviation le32 := (le_bytes 4).
Abbreviation le64 := (le_bytes 8).

(** An integer at the front of what is left of a stream that throws. *)
Definition take_int (n : nat) (rest : bytes) : res (Z * bytes) :=
  if (n <=? length rest)%nat then Ok (le_value (take n rest), drop n rest) else Throw std_ios_failure.

Lemma le_bytes_length n x : length (le_bytes n x) = n.
Proof. unfold le_bytes. by rewrite length_fmap, length_seq. Qed.

Lemma le_bytes_S n x : le_bytes (S n) x = x mod 256 :: le_bytes n (x / 256).
Proof.
  unfold le_bytes. cbn [seq fmap list_fmap]. f_equal; [by rewrite Z.div_1_r|].
  rewrite <- fmap_S_seq, <- list_fmap_compose. apply list_fmap_ext. intros i k _. unfold compose.
  rewrite Z.div_div by lia. change 256 with (2 ^ 8) at 2. rewrite <- Z.pow_add_r by lia. do 3 f_equal. lia.
Qed.

Lemma le_value_bytes n x : 0 <= x < 2 ^ (8 * Z.of_nat n) → le_value (le_bytes n x) = x.
Proof.
  revert x. induction n as [|n IH]; intros x Hx; [cbn in *; lia|]. rewrite le_bytes_S. cbn [le_value foldr]. fold (le_value (le_bytes n (x / 256))).
  rewrite IH; [pose proof (Z.div_mod x 256); lia|].
  replace (8 * Z.of_nat (S n)) with (8 + 8 * Z.of_nat n) in Hx by lia. rewrite Z.pow_add_r in Hx by lia.
  change (2 ^ 8) with 256 in Hx. split; [apply Z.div_pos; lia|apply Z.div_lt_upper_bound; lia].
Qed.

Lemma take_int_le n x l : 0 <= x < 2 ^ (8 * Z.of_nat n) → take_int n (le_bytes n x ++ l) = Ok (x, l).
Proof.
  intros Hx. unfold take_int. rewrite length_app, le_bytes_length, (proj2 (Nat.leb_le n _)) by lia.
  rewrite take_app_length', drop_app_length' by (by rewrite le_bytes_length). by rewrite le_value_bytes.
Qed.
