(* ===== verification/ChainConfig.v ===== *)
(** * Chain configuration (chain_config.hpp, chain_config.cpp)

    The configuration voted by the producers and its validation. *)

From S2P Require Import Prelude Exceptions Config.

Record chain_config : Set := ChainConfig {
  max_block_net_usage : Z;                   (* uint64_t *)
  target_block_net_usage_pct : Z;            (* uint32_t from here on *)
  max_transaction_net_usage : Z;
  base_per_transaction_net_usage : Z;
  net_usage_leeway : Z;
  context_free_discount_net_usage_num : Z;
  context_free_discount_net_usage_den : Z;
  max_block_cpu_usage : Z;
  target_block_cpu_usage_pct : Z;
  max_transaction_cpu_usage : Z;
  min_transaction_cpu_usage : Z;
  max_transaction_lifetime : Z;
  deferred_trx_expiration_window : Z;
  max_transaction_delay : Z;
  max_inline_action_size : Z;
  max_inline_action_depth : Z;               (* uint16_t *)
  max_authority_depth : Z }.                 (* uint16_t *)

Definition chain_config_validate (c : chain_config) : res unit :=
  EOS_ASSERT (target_block_net_usage_pct c <=? config.percent_100) action_validate_exception;;
  EOS_ASSERT (target_block_net_usage_pct c >=? config.percent_1 / 10) action_validate_exception;;
  EOS_ASSERT (target_block_cpu_usage_pct c <=? config.percent_100) action_validate_exception;;
  EOS_ASSERT (target_block_cpu_usage_pct c >=? config.percent_1 / 10) action_validate_exception;;
  EOS_ASSERT (max_transaction_net_usage c <? max_block_net_usage c) action_validate_exception;;
  EOS_ASSERT (max_transaction_cpu_usage c <? max_block_cpu_usage c) action_validate_exception;;
  EOS_ASSERT (base_per_transaction_net_usage c <? max_transaction_net_usage c) action_validate_exception;;
  EOS_ASSERT (u32 (max_transaction_net_usage c - base_per_transaction_net_usage c) >=?
              config.min_net_usage_delta_between_base_and_max_for_trx) action_validate_exception;;
  EOS_ASSERT (context_free_discount_net_usage_den c >? 0) action_validate_exception;;
  EOS_ASSERT (context_free_discount_net_usage_num c <=? context_free_discount_net_usage_den c)
    action_validate_exception;;
  EOS_ASSERT (min_transaction_cpu_usage c <=? max_transaction_cpu_usage c) action_validate_exception;;
  EOS_ASSERT (max_transaction_cpu_usage c <? u32 (max_block_cpu_usage c - min_transaction_cpu_usage c))
    action_validate_exception;;
  EOS_ASSERT (1 <=? max_authority_depth c) action_validate_exception.

(** The widths of the fields. *)
Definition chain_config_wf (c : chain_config) : Prop :=
  is_unsigned 64 (max_block_net_usage c) ∧
  Forall (is_unsigned 32)
    [target_block_net_usage_pct c; max_transaction_net_usage c; base_per_transaction_net_usage c;
     net_usage_leeway c; context_free_discount_net_usage_num c; context_free_discount_net_usage_den c;
     max_block_cpu_usage c; target_block_cpu_usage_pct c; max_transaction_cpu_usage c;
     min_transaction_cpu_usage c; max_transaction_lifetime c; deferred_trx_expiration_window c;
     max_transaction_delay c; max_inline_action_size c] ∧
  is_unsigned 16 (max_inline_action_depth c) ∧ is_unsigned 16 (max_authority_depth c).

(** What validation is for, on exact integers. *)
Definition chain_config_sane (c : chain_config) : Prop :=
  10 <= target_block_net_usage_pct c <= 10000 ∧ 10 <= target_block_cpu_usage_pct c <= 10000 ∧
  base_per_transaction_net_usage c + 10240 <= max_transaction_net_usage c < max_block_net_usage c ∧
  min_transaction_cpu_usage c <= max_transaction_cpu_usage c ∧
  max_transaction_cpu_usage c + min_transaction_cpu_usage c < max_block_cpu_usage c ∧
  0 < context_free_discount_net_usage_den c ∧
  context_free_discount_net_usage_num c <= context_free_discount_net_usage_den c ∧
  1 <= max_authority_depth c.

(** A configuration is valid exactly when it is sane: the 32-bit differences
    in the checks never wrap, because the checks before them rule it out. *)
Lemma chain_config_validate_Ok c :
  chain_config_wf c → chain_config_validate c = Ok tt ↔ chain_config_sane c.
Proof.
  intros (_ & H32 & _ & Hd). rewrite !Forall_cons in H32. unfold is_unsigned in *. destruct_and!.
  assert (Hc : config.percent_100 = 10000 ∧ config.percent_1 / 10 = 10 ∧
    config.min_net_usage_delta_between_base_and_max_for_trx = 10240) by done.
  destruct Hc as (E1 & E2 & E3). unfold chain_config_validate, chain_config_sane. rewrite E1, E2, E3.
  split.
  - intros Hv. simplify_res. zbool. rewrite !wrap_id in * by (unfold is_unsigned; lia). lia.
  - intros Hs. rewrite !wrap_id by (unfold is_unsigned; lia). repeat pass_assert.
    apply EOS_ASSERT_Ok. lia.
Qed.

Lemma chain_config_validate_Throw c e :
  chain_config_validate c = Throw e → e = action_validate_exception.
Proof. unfold chain_config_validate. intros H. throw_cases; done. Qed.

(** [chain_config::validate] accepts exactly the configurations in
    which every ratio is well defined, a transaction of the maximum size fits
    into a block with room for another minimal one, and the base charge
    leaves room below the maximum; every other one is refused with
    [action_validate_exception]. *)
Theorem chain_config_validate_spec c :
  chain_config_wf c →
  (chain_config_validate c = Ok tt ∧ chain_config_sane c) ∨
  (chain_config_validate c = Throw action_validate_exception ∧ ¬ chain_config_sane c).
Proof.
  intros Hwf. rewrite <- chain_config_validate_Ok by done.
  destruct (chain_config_validate c) as [[]|e] eqn:H; [by left|right].
  split; [|done]. f_equal. by eapply chain_config_validate_Throw.
Qed.

(** The configuration of the default genesis state (genesis_state.hpp). *)
Definition default_chain_config : chain_config :=
  ChainConfig config.default_max_block_net_usage config.default_target_block_net_usage_pct
    config.default_max_transaction_net_usage config.default_base_per_transaction_net_usage
    config.default_net_usage_leeway config.default_context_free_discount_net_usage_num
    config.default_context_free_discount_net_usage_den config.default_max_block_cpu_usage
    config.default_target_block_cpu_usage_pct config.default_max_transaction_cpu_usage
    config.default_min_transaction_cpu_usage config.default_max_trx_lifetime
    config.default_deferred_trx_expiration_window config.default_max_trx_delay
    config.default_max_inline_action_size config.default_max_inline_action_depth
    config.default_max_auth_depth.

Lemma chain_config_validate_spec_witness :
  chain_config_validate default_chain_config = Ok tt ∧ chain_config_sane default_chain_config ∨
  chain_config_validate default_chain_config = Throw action_validate_exception ∧
    ¬ chain_config_sane default_chain_config.
Proof.
  apply (chain_config_validate_spec default_chain_config).
  split; [vm_compute; split; congruence|]. split; [|split; vm_compute; split; congruence].
  repeat (apply Forall_cons_2; [vm_compute; split; congruence|]). apply Forall_nil_2.
Defined.
