(* ===== verification/AuthorizationManager.v ===== *)
(** * The authorization manager (authorization_manager.cpp, permission_object.hpp,
      permission_link_object.hpp, contract_types.hpp)

    The permission tree of each account, the links from actions to permissions,
    and the check that a transaction's declared authorizations are relevant
    and satisfied.  The permission index is the list of its objects; lookups by
    id and by (owner, name) search it.  The unpacking of action data and of
    delayed transactions is a parameter, and so is the outcome of each call of
    [checktime]. *)

From S2P Require Import Prelude Exceptions Config Name Database Merkle Authority AuthorityChecker Transaction ChainConfig.

(** ** Native actions (contract_types.hpp) *)

Record updateauth (K : Type) : Type := UpdateAuth {
  ua_account : Z; ua_permission : Z; ua_parent : Z; ua_auth : authority K }.
Arguments UpdateAuth {K}.
Arguments ua_account {K}.
Arguments ua_permission {K}.
Arguments ua_parent {K}.
Arguments ua_auth {K}.
Record deleteauth : Set := DeleteAuth { da_account : Z; da_permission : Z }.
Record linkauth : Set := LinkAuth {
  la_account : Z; la_code : Z; la_type : Z; la_requirement : Z }.
Record unlinkauth : Set := UnlinkAuth { ul_account : Z; ul_code : Z; ul_type : Z }.
Record canceldelay : Set := CancelDelay { cd_canceling_auth : permission_level; cd_trx_id : digest_type }.

Definition updateauth_name : Z := N_ "updateauth".
Definition deleteauth_name : Z := N_ "deleteauth".
Definition linkauth_name : Z := N_ "linkauth".
Definition unlinkauth_name : Z := N_ "unlinkauth".
Definition canceldelay_name : Z := N_ "canceldelay".

(** The actions that cannot be linked to a minimum permission. *)
Definition unlinkable (act_name : Z) : bool :=
  (act_name =? updateauth_name) || (act_name =? deleteauth_name) || (act_name =? linkauth_name) ||
  (act_name =? unlinkauth_name) || (act_name =? canceldelay_name).

(** A delayed or deferred transaction (generated_transaction_object.hpp). *)
Record generated_transaction_object : Set := GeneratedTransaction {
  gto_trx_id : digest_type;
  gto_sender : Z;
  gto_sender_id : Z;      (* uint128_t *)
  gto_payer : Z;
  gto_delay_until : Z;    (* microseconds *)
  gto_expiration : Z;
  gto_published : Z;
  gto_packed_trx : bytes }.

Section manager.
Context {K : Type} `{EqDecision K}.

(** ** Permission objects *)

Record permission_object : Type := PermissionObject {
  po_id : Z;
  po_usage_id : Z;
  po_parent : Z;
  po_owner : Z;
  po_name : Z;
  po_last_updated : Z;
  po_auth : authority K }.

(** The indices of the manager: permissions, their usage, and the links
    keyed by (account, code, message type). *)
Record authorization_db : Type := AuthorizationDb {
  permissions : list permission_object;
  next_permission_id : Z;
  usages : gmap Z Z;
  next_usage_id : Z;
  links : gmap (Z * Z * Z) Z }.

Definition find_by_id (ps : list permission_object) (id : Z) : option permission_object :=
  snd <$> list_find (λ p, po_id p = id) ps.

Definition find_by_owner (ps : list permission_object) (owner name : Z) : option permission_object :=
  snd <$> list_find (λ p, po_owner p = owner ∧ po_name p = name) ps.

(** The walk of [permission_object::satisfies] up the tree from [parent]; a
    parent that does not exist has no defined result. *)
Fixpoint satisfies_walk (fuel : nat) (ps : list permission_object) (id : Z) (parent : permission_object)
    : option bool :=
  match fuel with
  | O => None
  | S fuel =>
      if id =? po_parent parent then Some true
      else if po_parent parent =? 0 then Some false
      else parent ← find_by_id ps (po_parent parent); satisfies_walk fuel ps id parent
  end.

Definition satisfies_opt (ps : list permission_object) (this other : permission_object) : option bool :=
  if negb (po_owner this =? po_owner other) then Some false
  else if (po_id this =? po_id other) || (po_id this =? po_parent other) then Some true
  else parent ← find_by_id ps (po_parent other); satisfies_walk (length ps) ps (po_id this) parent.

Definition satisfies (ps : list permission_object) (this other : permission_object) : bool :=
  default false (satisfies_opt ps this other).

(** ** Maintenance of permissions *)

(** The default-constructed permission with id 0. *)
Definition reserved_permission : permission_object :=
  PermissionObject 0 0 0 0 0 0 (Authority 0 [] [] []).

Definition initialize_database : authorization_db :=
  AuthorizationDb [reserved_permission] 1 ∅ 0 ∅.

Definition create_permission (db : authorization_db) (pending_block_time : Z) (account name parent : Z)
    (auth : authority K) (initial_creation_time : Z) : res (permission_object * authorization_db) :=
  let creation_time :=
    if initial_creation_time =? 0 then pending_block_time else initial_creation_time in
  let usage_id := next_usage_id db in
  let perm := PermissionObject (next_permission_id db) usage_id parent account name creation_time auth in
  match find_by_owner (permissions db) account name with
  | Some _ => Throw std_logic_error
  | None =>
      mret (perm, AuthorizationDb (permissions db ++ [perm]) (next_permission_id db + 1)
                    (<[usage_id := creation_time]> (usages db)) (usage_id + 1) (links db))
  end.

Definition modify_permission (db : authorization_db) (pending_block_time : Z) (p : permission_object)
    (auth : authority K) : authorization_db :=
  AuthorizationDb
    (map (λ po, if po_id po =? po_id p
                then PermissionObject (po_id po) (po_usage_id po) (po_parent po) (po_owner po) (po_name po)
                       pending_block_time auth
                else po) (permissions db))
    (next_permission_id db) (usages db) (next_usage_id db) (links db).

Definition remove_permission (db : authorization_db) (p : permission_object) : res authorization_db :=
  EOS_ASSERT (negb (existsb (λ q, po_parent q =? po_id p) (permissions db))) action_validate_exception;;
  _ ← db_get (usages db) (po_usage_id p);
  mret (AuthorizationDb (filter (λ q, po_id q ≠ po_id p) (permissions db)) (next_permission_id db)
          (delete (po_usage_id p) (usages db)) (next_usage_id db) (links db)).

Definition update_permission_usage (db : authorization_db) (pending_block_time : Z) (p : permission_object)
    : res authorization_db :=
  _ ← db_get (usages db) (po_usage_id p);
  mret (AuthorizationDb (permissions db) (next_permission_id db)
          (<[po_usage_id p := pending_block_time]> (usages db)) (next_usage_id db) (links db)).

Definition get_permission_last_used (db : authorization_db) (p : permission_object) : res Z :=
  db_get (usages db) (po_usage_id p).

(** ** Lookups *)

Definition level_named (level : permission_level) : bool :=
  negb (actor level =? 0) && negb (permission level =? 0).

Definition find_permission (db : authorization_db) (level : permission_level) : res (option permission_object) :=
  EOS_ASSERT (level_named level) invalid_permission;;
  mret (find_by_owner (permissions db) (actor level) (permission level)).

(** A missing object is an [out_of_range] that the handler turns into a
    [permission_query_exception]; chain exceptions pass through it. *)
Definition get_permission (db : authorization_db) (level : permission_level) : res permission_object :=
  EOS_ASSERT (level_named level) invalid_permission;;
  of_option permission_query_exception (find_by_owner (permissions db) (actor level) (permission level)).

Definition lookup_linked_permission (db : authorization_db) (authorizer_account scope act_name : Z) : option Z :=
  match links db !! (authorizer_account, scope, act_name) with
  | Some required_permission => Some required_permission
  | None => links db !! (authorizer_account, scope, 0)
  end.

Definition lookup_minimum_permission (db : authorization_db) (authorizer_account scope act_name : Z)
    : res (option Z) :=
  (if scope =? config.system_account_name
   then EOS_ASSERT (negb (unlinkable act_name)) unlinkable_min_permission_action
   else mret ());;
  match lookup_linked_permission db authorizer_account scope act_name with
  | None => mret (Some config.active_name)
  | Some linked_permission =>
      if linked_permission =? config.eosio_any_name then mret None else mret (Some linked_permission)
  end.

(** ** Native actions declare exactly one relevant authorization *)

(** [auths.size() == 1] and the one authorization. *)
Definition single_auth (auths : list permission_level) : res permission_level :=
  match auths with
  | [auth] => mret auth
  | _ => EOS_THROW irrelevant_auth_exception
  end.

(** [get_permission(auth).satisfies(min_permission)]. *)
Definition check_relevant (db : authorization_db) (auth : permission_level) (min_permission : permission_object)
    : res unit :=
  p ← get_permission db auth;
  EOS_ASSERT (satisfies (permissions db) p min_permission) irrelevant_auth_exception.

Definition check_updateauth_authorization (db : authorization_db) (update : updateauth K)
    (auths : list permission_level) : res unit :=
  auth ← single_auth auths;
  EOS_ASSERT (actor auth =? ua_account update) irrelevant_auth_exception;;
  found ← find_permission db (PermissionLevel (ua_account update) (ua_permission update));
  min_permission ←
    match found with
    | Some p => mret p
    | None => get_permission db (PermissionLevel (ua_account update) (ua_parent update))
    end;
  check_relevant db auth min_permission.

Definition check_deleteauth_authorization (db : authorization_db) (del : deleteauth)
    (auths : list permission_level) : res unit :=
  auth ← single_auth auths;
  EOS_ASSERT (actor auth =? da_account del) irrelevant_auth_exception;;
  min_permission ← get_permission db (PermissionLevel (da_account del) (da_permission del));
  check_relevant db auth min_permission.

Definition check_linkauth_authorization (db : authorization_db) (link : linkauth)
    (auths : list permission_level) : res unit :=
  auth ← single_auth auths;
  EOS_ASSERT (actor auth =? la_account link) irrelevant_auth_exception;;
  EOS_ASSERT (negb (la_type link =? updateauth_name)) action_validate_exception;;
  EOS_ASSERT (negb (la_type link =? deleteauth_name)) action_validate_exception;;
  EOS_ASSERT (negb (la_type link =? linkauth_name)) action_validate_exception;;
  EOS_ASSERT (negb (la_type link =? unlinkauth_name)) action_validate_exception;;
  EOS_ASSERT (negb (la_type link =? canceldelay_name)) action_validate_exception;;
  linked_permission_name ← lookup_minimum_permission db (la_account link) (la_code link) (la_type link);
  match linked_permission_name with
  | None => mret ()
  | Some n =>
      p ← get_permission db auth;
      min_permission ← get_permission db (PermissionLevel (la_account link) n);
      EOS_ASSERT (satisfies (permissions db) p min_permission) irrelevant_auth_exception
  end.

Definition check_unlinkauth_authorization (db : authorization_db) (unlink : unlinkauth)
    (auths : list permission_level) : res unit :=
  auth ← single_auth auths;
  EOS_ASSERT (actor auth =? ul_account unlink) irrelevant_auth_exception;;
  match lookup_linked_permission db (ul_account unlink) (ul_code unlink) (ul_type unlink) with
  | None => EOS_THROW transaction_exception
  | Some n =>
      if n =? config.eosio_any_name then mret ()
      else
        p ← get_permission db auth;
        min_permission ← get_permission db (PermissionLevel (ul_account unlink) n);
        EOS_ASSERT (satisfies (permissions db) p min_permission) irrelevant_auth_exception
  end.

(** ** The permission tree *)

Lemma find_by_id_Some ps i p : find_by_id ps i = Some p → p ∈ ps ∧ po_id p = i.
Proof.
  unfold find_by_id. intros H. apply fmap_Some in H as ([n q] & Hf & ->).
  apply list_find_Some in Hf as (Hn & Hq & _). split; [by eapply list_elem_of_lookup_2|done].
Qed.

Lemma find_by_owner_Some ps o n p :
  find_by_owner ps o n = Some p → p ∈ ps ∧ po_owner p = o ∧ po_name p = n.
Proof.
  unfold find_by_owner. intros H. apply fmap_Some in H as ([i q] & Hf & ->).
  apply list_find_Some in Hf as (Hn & Hq & _). split; [by eapply list_elem_of_lookup_2|done].
Qed.

Lemma find_by_owner_None ps o n p :
  find_by_owner ps o n = None → p ∈ ps → ¬ (po_owner p = o ∧ po_name p = n).
Proof.
  unfold find_by_owner. intros H Hp. apply fmap_None, list_find_None in H.
  rewrite Forall_forall in H. by apply H.
Qed.

(** Ids are unique; the reserved permission is there; every other permission
    has an older parent in the index that is reserved or of the same owner;
    an owner and a name determine a permission. *)
Record tree_wf (ps : list permission_object) (next : Z) : Prop := {
  tree_ids : NoDup (map po_id ps);
  tree_names : NoDup (map (λ p, (po_owner p, po_name p)) ps);
  tree_root : ∃ r, r ∈ ps ∧ po_id r = 0 ∧ po_parent r = 0;
  tree_parents : ∀ p, p ∈ ps → po_id p ≠ 0 →
    0 <= po_parent p < po_id p ∧
    ∃ q, q ∈ ps ∧ po_id q = po_parent p ∧ (po_id q = 0 ∨ po_owner q = po_owner p);
  tree_next : ∀ p, p ∈ ps → 0 <= po_id p < next }.

Lemma find_by_id_elem ps next p : tree_wf ps next → p ∈ ps → find_by_id ps (po_id p) = Some p.
Proof.
  intros Hwf Hp. destruct (find_by_id ps (po_id p)) as [q|] eqn:Hq.
  - apply find_by_id_Some in Hq as [Hq Hid]. f_equal.
    eapply (NoDup_omap_inj (λ p, Some (po_id p)) ps q p); [|done|done|by rewrite Hid|done].
    pose proof (tree_ids _ _ Hwf) as Hnd. revert Hnd. clear.
    induction ps as [|x l IH]; cbn; [done|]. intros [Hx Hl]%NoDup_cons. apply NoDup_cons. split; [|auto].
    intros Hin. apply Hx. apply list_elem_of_omap in Hin as (y & Hy & [= Heq]).
    apply list_elem_of_fmap. by exists y.
  - unfold find_by_id in Hq. apply fmap_None, list_find_None in Hq.
    rewrite Forall_forall in Hq. by destruct (Hq p Hp).
Qed.

Lemma find_parent ps next p :
  tree_wf ps next → p ∈ ps → ∃ q, find_by_id ps (po_parent p) = Some q ∧ q ∈ ps ∧ po_id q = po_parent p.
Proof.
  intros Hwf Hp. destruct (decide (po_id p = 0)) as [H0|H0].
  - destruct (tree_root _ _ Hwf) as (r & Hr & Hr0 & Hrp).
    assert (p = r) as ->.
    { pose proof (find_by_id_elem _ _ _ Hwf Hp). pose proof (find_by_id_elem _ _ _ Hwf Hr). congruence. }
    exists r. rewrite Hrp, <- Hr0. split; [by eapply find_by_id_elem|]. split; [done|lia].
  - destruct (tree_parents _ _ Hwf p Hp H0) as (_ & q & Hq & Hid & _).
    exists q. rewrite <- Hid. split; [by eapply find_by_id_elem|done].
Qed.

(** [i] is the id of [p] or of one of its ancestors. *)
Inductive ancestor (ps : list permission_object) (i : Z) : permission_object → Prop :=
| ancestor_self p : po_id p = i → ancestor ps i p
| ancestor_parent p q :
    po_id p ≠ 0 → find_by_id ps (po_parent p) = Some q → ancestor ps i q → ancestor ps i p.

Lemma ancestor_inv ps i p :
  ancestor ps i p ↔
  po_id p = i ∨ (po_id p ≠ 0 ∧ ∃ q, find_by_id ps (po_parent p) = Some q ∧ ancestor ps i q).
Proof.
  split.
  - intros [p' H|p' q Hne Hq Ha]; [by left|right; eauto].
  - intros [H|(Hne & q & Hq & Ha)]; [by apply ancestor_self|by eapply ancestor_parent].
Qed.

(** The permissions older than [p]. *)
Definition older (ps : list permission_object) (p : permission_object) : nat :=
  length (filter (λ q, po_id q < po_id p) ps).

Lemma older_parent ps p q : q ∈ ps → po_id q < po_id p → (older ps q < older ps p)%nat.
Proof.
  unfold older. intros Hq Hlt. induction ps as [|x l IH]; [by apply not_elem_of_nil in Hq|].
  assert (Hmono : ∀ l, Nat.le (length (filter (λ y, po_id y < po_id q) l)) (length (filter (λ y, po_id y < po_id p) l))).
  { clear -Hlt. induction l as [|y l IH]; [done|]. rewrite !filter_cons.
    repeat case_decide; cbn; lia. }
  rewrite !filter_cons. apply elem_of_cons in Hq as [->|Hq].
  - rewrite (decide_False (P := po_id x < po_id x)), decide_True by lia. cbn.
    specialize (Hmono l). lia.
  - specialize (IH Hq). repeat case_decide; cbn; lia.
Qed.

Lemma older_bound ps p : p ∈ ps → (older ps p < length ps)%nat.
Proof.
  unfold older. induction ps as [|x l IH]; intros Hp; [by apply not_elem_of_nil in Hp|].
  rewrite filter_cons. apply elem_of_cons in Hp as [->|Hp].
  - rewrite decide_False by lia. cbn. apply Nat.lt_succ_r, length_filter.
  - specialize (IH Hp). case_decide; cbn; lia.
Qed.

Lemma satisfies_walk_spec fuel ps next i p :
  tree_wf ps next → i ≠ 0 → p ∈ ps → (older ps p < fuel)%nat →
  ∃ b, satisfies_walk fuel ps i p = Some b ∧
    (b = true ↔ ∃ q, find_by_id ps (po_parent p) = Some q ∧ ancestor ps i q).
Proof.
  intros Hwf Hi. revert p; induction fuel as [|fuel IH]; intros p Hp Hf; [lia|]. cbn [satisfies_walk].
  destruct (find_parent _ _ _ Hwf Hp) as (q & Hfind & Hq & Hid).
  destruct (Z.eqb_spec i (po_parent p)) as [->|Hne].
  { exists true. split; [done|]. split; [|done]. intros _. exists q. split; [done|]. by apply ancestor_self. }
  destruct (Z.eqb_spec (po_parent p) 0) as [H0|H0].
  { exists false. split; [done|]. split; [done|]. intros (q' & Hq' & Ha). simplify_eq.
    apply ancestor_inv in Ha as [Ha|[Ha _]]; congruence. }
  rewrite Hfind. cbn [mbind option_bind].
  assert (Hlt : po_id q < po_id p).
  { destruct (decide (po_id p = 0)) as [Hz|Hz].
    - destruct (tree_root _ _ Hwf) as (r & Hr & Hr0 & Hrp). exfalso. apply H0.
      pose proof (find_by_id_elem _ _ _ Hwf Hp). pose proof (find_by_id_elem _ _ _ Hwf Hr).
      assert (p = r) by congruence. by subst.
    - destruct (tree_parents _ _ Hwf p Hp Hz) as [? _]. lia. }
  destruct (IH q Hq) as (b & Hb & Hiff); [pose proof (older_parent ps p q Hq Hlt); lia|].
  exists b. split; [done|]. rewrite Hiff. split.
  - intros (q' & Hq' & Ha). exists q. split; [done|]. apply (ancestor_parent _ _ _ q'); [congruence|done|done].
  - intros (q' & Hq' & Ha). simplify_eq. apply ancestor_inv in Ha as [Ha|(_ & Ha)]; [congruence|done].
Qed.

(** [satisfies] decides the permission hierarchy: on a well-formed tree
    the walk ends at existing objects, and a permission satisfies another
    exactly when both have the same owner and it is the other permission or
    one of its ancestors. *)
Theorem satisfies_spec ps next this other :
  tree_wf ps next → this ∈ ps → other ∈ ps → po_id this ≠ 0 → po_id other ≠ 0 →
  ∃ b, satisfies_opt ps this other = Some b ∧
    (b = true ↔ po_owner this = po_owner other ∧ ancestor ps (po_id this) other).
Proof.
  intros Hwf Ht Ho Hi Hi'. unfold satisfies_opt.
  destruct (Z.eqb_spec (po_owner this) (po_owner other)) as [Hown|Hown]; cbn [negb];
    [|exists false; split; [done|]; split; [done|]; by intros []].
  destruct (find_parent _ _ _ Hwf Ho) as (q & Hfind & Hq & Hid).
  destruct (Z.eqb_spec (po_id this) (po_id other)) as [Heq|Hne]; cbn [orb].
  { exists true. split; [done|]. split; [|done]. intros _. split; [done|]. by apply ancestor_self. }
  destruct (Z.eqb_spec (po_id this) (po_parent other)) as [Hpar|Hpar].
  { exists true. split; [done|]. split; [|done]. intros _. split; [done|].
    apply (ancestor_parent _ _ _ q); [done|done|]. apply ancestor_self. congruence. }
  rewrite Hfind. cbn [mbind option_bind].
  destruct (satisfies_walk_spec (length ps) ps next (po_id this) q) as (b & Hb & Hiff); try done.
  { by apply older_bound. }
  exists b. split; [done|]. rewrite Hiff, (ancestor_inv ps _ other). split.
  - intros (q' & Hq' & Ha). split; [done|]. right. split; [done|]. exists q. split; [done|].
    destruct (decide (po_id q = 0)) as [H0|H0]; [|by apply (ancestor_parent _ _ _ q')].
    destruct (tree_root _ _ Hwf) as (r & Hr & Hr0 & Hrp).
    assert (q = r) as -> by (pose proof (find_by_id_elem _ _ _ Hwf Hq); pose proof (find_by_id_elem _ _ _ Hwf Hr); congruence).
    rewrite Hrp, <- Hr0, (find_by_id_elem _ _ _ Hwf Hr) in Hq'. by simplify_eq.
  - intros (_ & [Ha|(_ & q' & Hq' & Ha)]); [congruence|]. simplify_eq.
    apply ancestor_inv in Ha as [Ha|(_ & Ha)]; [congruence|done].
Qed.

Definition db_wf (db : authorization_db) : Prop := tree_wf (permissions db) (next_permission_id db).

(** A parent for a new permission of [owner]: the reserved permission, or an
    existing permission of the same owner. *)
Definition valid_parent (db : authorization_db) (owner parent : Z) : Prop :=
  parent = 0 ∨ ∃ q, q ∈ permissions db ∧ po_id q = parent ∧ po_owner q = owner.

Lemma initialize_database_wf : db_wf initialize_database.
Proof.
  split; cbn.
  - apply NoDup_singleton.
  - apply NoDup_singleton.
  - exists reserved_permission. split; [apply list_elem_of_here|done].
  - intros p ->%list_elem_of_singleton. done.
  - intros p ->%list_elem_of_singleton. cbn. lia.
Qed.

Lemma create_permission_wf db time account name parent auth t p db' :
  db_wf db → valid_parent db account parent →
  create_permission db time account name parent auth t = Ok (p, db') → db_wf db'.
Proof.
  intros Hwf Hpar H. unfold create_permission in H.
  destruct (find_by_owner (permissions db) account name) eqn:Hfind; simplify_res; simplify_eq.
  pose proof Hwf as [Hids Hnames (r & Hr & Hr0 & Hrp) Hparents Hnext].
  assert (Hroot : 0 <= 0 < next_permission_id db) by (specialize (Hnext r Hr); lia).
  split; cbn [permissions next_permission_id].
  - rewrite map_app. cbn. apply NoDup_app. split; [done|]. split; [|apply NoDup_singleton].
    intros i Hi ->%list_elem_of_singleton. apply list_elem_of_fmap in Hi as (q & Heq & Hq).
    specialize (Hnext q Hq). lia.
  - rewrite map_app. cbn. apply NoDup_app. split; [done|]. split; [|apply NoDup_singleton].
    intros x Hx ->%list_elem_of_singleton. apply list_elem_of_fmap in Hx as (q & Heq & Hq).
    apply (find_by_owner_None _ _ _ q Hfind Hq). by simplify_eq.
  - exists r. split; [apply elem_of_app; by left|done].
  - intros q [Hq|Hq]%elem_of_app Hne.
    + destruct (Hparents q Hq Hne) as (Hlt & q' & Hq' & Hrest). split; [done|].
      exists q'. split; [apply elem_of_app; by left|done].
    + apply list_elem_of_singleton in Hq as ->. cbn in *. destruct Hpar as [->|(q' & Hq' & Hid & Hown)].
      * split; [lia|]. exists r. split; [apply elem_of_app; by left|]. split; [done|by left].
      * specialize (Hnext q' Hq'). split; [lia|]. exists q'. split; [apply elem_of_app; by left|].
        split; [done|by right].
  - intros q [Hq|Hq]%elem_of_app.
    + specialize (Hnext q Hq). lia.
    + apply list_elem_of_singleton in Hq as ->. cbn. lia.
Qed.

Lemma modify_permission_wf db time p auth : db_wf db → db_wf (modify_permission db time p auth).
Proof.
  intros [Hids Hnames (r & Hr & Hr0 & Hrp) Hparents Hnext].
  unfold modify_permission.
  set (upd := λ po, if po_id po =? po_id p then _ else po).
  assert (Hupd : ∀ q, po_id (upd q) = po_id q ∧ po_parent (upd q) = po_parent q ∧
            po_owner (upd q) = po_owner q ∧ po_name (upd q) = po_name q)
    by (intros q; unfold upd; by destruct (po_id q =? po_id p)).
  assert (Hin : ∀ q, q ∈ permissions db → upd q ∈ map upd (permissions db))
    by (intros q Hq; apply list_elem_of_fmap; by exists q).
  split; cbn [permissions next_permission_id].
  - rewrite map_map. erewrite map_ext; [exact Hids|]. intros q. apply Hupd.
  - rewrite map_map. erewrite map_ext; [exact Hnames|].
    intros q. cbn. destruct (Hupd q) as (_ & _ & -> & ->). done.
  - exists (upd r). split; [by apply Hin|]. destruct (Hupd r) as (-> & -> & _). done.
  - intros q' (q & -> & Hq)%list_elem_of_fmap. destruct (Hupd q) as (-> & -> & -> & _). intros Hne.
    destruct (Hparents q Hq Hne) as (Hlt & q' & Hq' & Hid & Hown). split; [done|].
    exists (upd q'). split; [by apply Hin|]. by destruct (Hupd q') as (-> & _ & -> & _).
  - intros q' (q & -> & Hq)%list_elem_of_fmap. destruct (Hupd q) as (-> & _). by apply Hnext.
Qed.

Lemma remove_permission_wf db p db' :
  db_wf db → po_id p ≠ 0 → remove_permission db p = Ok db' →
  db_wf db' ∧ (∀ q, q ∈ permissions db' ↔ q ∈ permissions db ∧ po_id q ≠ po_id p).
Proof.
  intros Hwf Hp0 H. pose proof Hwf as [Hids Hnames (r & Hr & Hr0 & Hrp) Hparents Hnext].
  unfold remove_permission in H. simplify_res. zbool.
  assert (Hleaf : ∀ q, q ∈ permissions db → po_parent q ≠ po_id p).
  { intros q Hq Heq. apply not_true_iff_false in H. apply H, existsb_exists.
    exists q. split; [by apply list_elem_of_In|lia]. }
  assert (Hin : ∀ q, q ∈ filter (λ q, po_id q ≠ po_id p) (permissions db) ↔
            q ∈ permissions db ∧ po_id q ≠ po_id p)
    by (intros q; rewrite list_elem_of_filter; tauto).
  split; [|exact Hin]. split; cbn [permissions next_permission_id].
  - eapply sublist_NoDup; [exact Hids|]. apply fmap_sublist, sublist_filter.
  - eapply sublist_NoDup; [exact Hnames|]. apply fmap_sublist, sublist_filter.
  - exists r. split; [apply Hin; split; [done|congruence]|done].
  - intros q [Hq Hqp]%Hin Hne. destruct (Hparents q Hq Hne) as (Hlt & q' & Hq' & Hid & Hown).
    split; [done|]. exists q'. split; [|done]. apply Hin. split; [done|].
    rewrite Hid. by apply Hleaf.
  - intros q [Hq _]%Hin. by apply Hnext.
Qed.

(** A history of the permission index from the initial database. *)
Inductive permission_history : authorization_db → Prop :=
| history_init : permission_history initialize_database
| history_create db time account name parent auth t p db' :
    permission_history db → valid_parent db account parent →
    create_permission db time account name parent auth t = Ok (p, db') → permission_history db'
| history_modify db time p auth :
    permission_history db → permission_history (modify_permission db time p auth)
| history_remove db p db' :
    permission_history db → po_id p ≠ 0 → remove_permission db p = Ok db' → permission_history db'.


(** The delayed transactions of the controller, by transaction id, and how
    one is unpacked. *)
Variable generated_transactions : gmap digest_type generated_transaction_object.
Variable unpack_transaction : bytes → res transaction.

Definition check_canceldelay_authorization (db : authorization_db) (cancel : canceldelay)
    (auths : list permission_level) : res Z :=
  auth ← single_auth auths;
  p ← get_permission db auth;
  min_permission ← get_permission db (cd_canceling_auth cancel);
  EOS_ASSERT (satisfies (permissions db) p min_permission) irrelevant_auth_exception;;
  match generated_transactions !! cd_trx_id cancel with
  | None => EOS_THROW tx_not_found
  | Some itr =>
      EOS_ASSERT (gto_sender itr =? 0) tx_not_found;;
      t ← unpack_transaction (gto_packed_trx itr);
      let found :=
        existsb (λ act, existsb (λ a, bool_decide (a = cd_canceling_auth cancel)) (act_authorization act))
          (actions t) in
      EOS_ASSERT found action_validate_exception;;
      mret (gto_delay_until itr - gto_published itr)
  end.

(** ** The check of a transaction *)

Variable unpack_updateauth : bytes → res (updateauth K).
Variable unpack_deleteauth : bytes → res deleteauth.
Variable unpack_linkauth : bytes → res linkauth.
Variable unpack_unlinkauth : bytes → res unlinkauth.
Variable unpack_canceldelay : bytes → res canceldelay.
(** The outcome of the [n]-th call of [checktime]: it throws once the
    deadline has passed. *)
Variable checktime : nat → res unit.
Variable cfg : chain_config.

Definition microseconds_maximum : Z := 0x7fffffffffffffff.

(** [act.data_as<T>()] for a native action [T]. *)
Definition native {T} (n : Z) (u : bytes → res T) (act : action) : res T :=
  data_as config.system_account_name n u act.

(** The part of the loop body before the declared authorizations: whether
    the action is a special case, and its delay. *)
Definition check_native_action (db : authorization_db) (effective_provided_delay : Z) (act : action)
    : res (bool * Z) :=
  let delay := effective_provided_delay in
  if act_account act =? config.system_account_name then
    if act_name act =? updateauth_name then
      u ← native updateauth_name unpack_updateauth act;
      check_updateauth_authorization db u (act_authorization act);; mret (true, delay)
    else if act_name act =? deleteauth_name then
      d ← native deleteauth_name unpack_deleteauth act;
      check_deleteauth_authorization db d (act_authorization act);; mret (true, delay)
    else if act_name act =? linkauth_name then
      l ← native linkauth_name unpack_linkauth act;
      check_linkauth_authorization db l (act_authorization act);; mret (true, delay)
    else if act_name act =? unlinkauth_name then
      u ← native unlinkauth_name unpack_unlinkauth act;
      check_unlinkauth_authorization db u (act_authorization act);; mret (true, delay)
    else if act_name act =? canceldelay_name then
      c ← native canceldelay_name unpack_canceldelay act;
      d ← check_canceldelay_authorization db c (act_authorization act);
      mret (true, Z.max delay d)
    else mret (false, delay)
  else mret (false, delay).

(** The [checktime] counter and [permissions_to_satisfy]. *)
Definition pending_checks : Type := nat * gmap permission_level Z.

(** The body of the loop over the declared authorizations of [act]. *)
Definition check_declared (db : authorization_db) (act : action) (special_case : bool) (delay : Z)
    (st : pending_checks) (declared_auth : permission_level) : res pending_checks :=
  let '(calls, permissions_to_satisfy) := st in
  checktime calls;;
  (if special_case then mret ()
   else
     min_permission_name ← lookup_minimum_permission db (actor declared_auth) (act_account act) (act_name act);
     match min_permission_name with
     | None => mret ()
     | Some n =>
         min_permission ← get_permission db (PermissionLevel (actor declared_auth) n);
         check_relevant db declared_auth min_permission
     end);;
  mret (S calls,
        match permissions_to_satisfy !! declared_auth with
        | None => <[declared_auth := delay]> permissions_to_satisfy
        | Some d => if d >? delay then <[declared_auth := delay]> permissions_to_satisfy
                    else permissions_to_satisfy
        end).

Definition check_action (db : authorization_db) (effective_provided_delay : Z) (st : pending_checks) (act : action)
    : res pending_checks :=
  '(special_case, delay) ← check_native_action db effective_provided_delay act;
  foldM (check_declared db act special_case delay) st (act_authorization act).

(** [permissions_to_satisfy] is traversed in ascending order. *)
Definition level_le (x y : permission_level * Z) : Prop := permission_level_lt y.1 x.1 = false.
#[local] Instance level_le_dec : RelDecision level_le := λ x y, decide (_ = _).

Definition permission_to_authority (db : authorization_db) (p : permission_level) : res (authority K) :=
  p ← get_permission db p; mret (po_auth p).

(** The body of the loop over [permissions_to_satisfy], with the number of
    [checktime] calls and the key markers of the checker. *)
Definition satisfy_declared (db : authorization_db) (provided_keys : list K)
    (provided_permissions : list permission_level) (st : nat * list bool) (p : permission_level * Z)
    : res (nat * list bool) :=
  let '(calls, used) := st in
  checktime calls;;
  '(ok, used) ← satisfied_permission (permission_to_authority db) provided_keys provided_permissions
                  (Z.to_nat (max_authority_depth cfg)) p.2 p.1 used;
  EOS_ASSERT ok unsatisfied_authorization;;
  mret (S calls, used).

Definition effective_delay (provided_delay : Z) : Z :=
  if provided_delay >=? max_transaction_delay cfg * 1000000 then microseconds_maximum else provided_delay.

Definition check_authorization (db : authorization_db) (acts : list action) (provided_keys : list K)
    (provided_permissions : list permission_level) (provided_delay : Z) (allow_unused_keys : bool) : res unit :=
  '(calls, permissions_to_satisfy) ←
    foldM (check_action db (effective_delay provided_delay)) (0%nat, ∅) acts;
  '(_, used) ←
    foldM (satisfy_declared db provided_keys provided_permissions)
      (calls, replicate (length provided_keys) false)
      (merge_sort level_le (map_to_list permissions_to_satisfy));
  if allow_unused_keys then mret () else EOS_ASSERT (all_keys_used used) tx_irrelevant_sig.

(** The overload for one permission. *)
Definition check_permission_authorization (db : authorization_db) (level : permission_level)
    (provided_keys : list K) (provided_permissions : list permission_level) (provided_delay : Z)
    (allow_unused_keys : bool) : res unit :=
  '(ok, used) ← satisfied_permission (permission_to_authority db) provided_keys provided_permissions
    (Z.to_nat (max_authority_depth cfg)) (effective_delay provided_delay)
    level (replicate (length provided_keys) false);
  EOS_ASSERT ok unsatisfied_authorization;;
  if allow_unused_keys then mret () else EOS_ASSERT (all_keys_used used) tx_irrelevant_sig.

Definition get_required_keys (db : authorization_db) (t : transaction) (candidate_keys : list K)
    (provided_delay : Z) : res (list K) :=
  used ← foldM (λ used declared_auth,
      '(ok, used) ← satisfied_permission (permission_to_authority db) candidate_keys []
                      (Z.to_nat (max_authority_depth cfg)) provided_delay declared_auth used;
      EOS_ASSERT ok unsatisfied_authorization;;
      mret used)
    (replicate (length candidate_keys) false) (concat (map act_authorization (actions t)));
  mret (used_keys candidate_keys used).

(** ** Soundness of the transaction check *)

(** A level is recorded with a delay of at most [delay]. *)
Definition covers (m : gmap permission_level Z) (level : permission_level) (delay : Z) : Prop :=
  ∃ d, m !! level = Some d ∧ d <= delay.

Definition relevant (db : authorization_db) (act : action) (level : permission_level) : Prop :=
  ∃ min, lookup_minimum_permission db (actor level) (act_account act) (act_name act) = Ok min ∧
    match min with
    | None => True
    | Some n => ∃ p q, get_permission db level = Ok p ∧
        get_permission db (PermissionLevel (actor level) n) = Ok q ∧
        satisfies (permissions db) p q = true
    end.

Lemma check_declared_inv db act special delay calls m level calls' m' :
  check_declared db act special delay (calls, m) level = Ok (calls', m') →
  (special = false → relevant db act level) ∧ covers m' level delay ∧
  (∀ l d, covers m l d → covers m' l d).
Proof.
  unfold check_declared. intros H. simplify_res. simplify_eq. split; [|split].
  - intros ->. simplify_res. unfold relevant. eexists. split; [eassumption|].
    case_match; [|done]. simplify_res. unfold check_relevant in *. simplify_res. eauto 10.
  - unfold covers. destruct (m !! level) as [d0|] eqn:Hl; [destruct (d0 >? delay) eqn:Hgt|];
      rewrite ?lookup_insert_eq, ?Hl; eexists; (split; [done|lia]).
  - intros l d (d0 & Hd0 & Hle). unfold covers.
    destruct (decide (l = level)) as [->|Hne].
    + rewrite Hd0. destruct (d0 >? delay) eqn:Hgt; [|by eauto].
      rewrite lookup_insert_eq. eexists. split; [done|lia].
    + destruct (m !! level) as [d1|]; [destruct (d1 >? delay)|]; rewrite ?lookup_insert_ne by done; eauto.
Qed.

Lemma check_declareds_inv db act special delay levels calls m calls' m' :
  foldM (check_declared db act special delay) (calls, m) levels = Ok (calls', m') →
  (∀ level, level ∈ levels → (special = false → relevant db act level) ∧ covers m' level delay) ∧
  (∀ l d, covers m l d → covers m' l d).
Proof.
  revert calls m; induction levels as [|level levels IH]; intros calls m H; cbn [foldM] in H.
  { simplify_res. simplify_eq. split; [|done]. intros l Hl. by apply not_elem_of_nil in Hl. }
  simplify_res. match goal with H : check_declared _ _ _ _ _ _ = Ok ?x |- _ => destruct x as [c1 m1]; rename H into H1 end.
  apply check_declared_inv in H1 as (Hrel & Hcov & Hmono).
  match goal with H : foldM _ _ _ = _ |- _ => apply IH in H as (Hall & Hmono') end.
  split; [|auto]. intros l [->|Hl]%elem_of_cons; auto.
Qed.

Lemma check_actions_inv db delay acts calls m calls' m' :
  foldM (check_action db delay) (calls, m) acts = Ok (calls', m') →
  (∀ act, act ∈ acts → ∃ special d, check_native_action db delay act = Ok (special, d) ∧
     ∀ level, level ∈ act_authorization act →
       (special = false → relevant db act level) ∧ covers m' level d) ∧
  (∀ l d, covers m l d → covers m' l d).
Proof.
  revert calls m; induction acts as [|act acts IH]; intros calls m H; cbn [foldM] in H.
  { simplify_res. simplify_eq. split; [|done]. intros l Hl. by apply not_elem_of_nil in Hl. }
  simplify_res. match goal with H : check_action _ _ _ _ = Ok ?x |- _ => destruct x as [c1 m1]; rename H into H1 end.
  unfold check_action in H1. simplify_res.
  match goal with H : check_native_action _ _ _ = Ok ?x |- _ => destruct x as [special d]; rename H into Hn end.
  match goal with H : foldM (check_declared _ _ _ _) _ _ = _ |- _ =>
    apply check_declareds_inv in H as (Hall1 & Hmono1) end.
  match goal with H : foldM (check_action _ _) _ _ = _ |- _ => apply IH in H as (Hall & Hmono) end.
  split; [|auto]. intros a [->|Ha]%elem_of_cons; [|auto].
  exists special, d. split; [done|]. intros level Hl. destruct (Hall1 level Hl). auto.
Qed.

Lemma permission_to_authority_named db p auth :
  permission_to_authority db p = Ok auth → permission p ≠ 0.
Proof.
  unfold permission_to_authority, get_permission. intros H. simplify_res.
  unfold level_named in *. zbool. lia.
Qed.

(** Every stored authority has 16-bit weights. *)
Definition authorities_wf (db : authorization_db) : Prop :=
  ∀ p, p ∈ permissions db → weights_16bit (po_auth p).

Lemma permission_to_authority_weights db p auth :
  authorities_wf db → permission_to_authority db p = Ok auth → weights_16bit auth.
Proof.
  unfold permission_to_authority, get_permission. intros Hwf H. simplify_res.
  match goal with H : find_by_owner _ _ _ = Some _ |- _ => apply find_by_owner_Some in H as [Hin _] end.
  by apply Hwf.
Qed.

Lemma satisfy_declareds_inv db keys perms ps calls used calls' used' :
  authorities_wf db →
  foldM (satisfy_declared db keys perms) (calls, used) ps = Ok (calls', used') →
  ∀ level d, (level, d) ∈ ps → granted (permission_to_authority db) keys perms d level.
Proof.
  intros Hwf. revert calls used; induction ps as [|[l d] ps IH]; intros calls used H; cbn [foldM] in H.
  { intros level d Hin. by apply not_elem_of_nil in Hin. }
  simplify_res. match goal with H : satisfy_declared _ _ _ _ _ = Ok ?x |- _ => destruct x as [c1 u1]; rename H into H1 end.
  unfold satisfy_declared in H1. simplify_res.
  match goal with H : satisfied_permission _ _ _ _ _ _ _ = Ok ?x |- _ => destruct x as [ok u2]; rename H into Hs end.
  simplify_res. apply satisfied_permission_sound in Hs as (Hg & _);
    [|by apply permission_to_authority_named|intros p auth; by apply permission_to_authority_weights].
  intros level d' [[= -> ->]|Hin]%elem_of_cons; [by apply Hg|]. by eapply IH.
Qed.

(** An action is authorized: every authorization it declares is granted by the
    provided keys, permissions and the delay of the action, and, unless the
    action is one of the native permission actions with checks of their own, the
    declared permission is at least the minimum permission the account has
    linked to the action (its active permission by default). *)
Definition action_authorized (db : authorization_db) (provided_keys : list K)
    (provided_permissions : list permission_level) (provided_delay : Z) (act : action) : Prop :=
  ∃ special d,
    check_native_action db (effective_delay provided_delay) act = Ok (special, d) ∧
    ∀ level, level ∈ act_authorization act →
      granted (permission_to_authority db) provided_keys provided_permissions d level ∧
      (special = false → relevant db act level).

Lemma check_authorization_authorized db acts provided_keys provided_permissions provided_delay unused :
  authorities_wf db →
  check_authorization db acts provided_keys provided_permissions provided_delay unused = Ok tt →
  ∀ act, act ∈ acts → action_authorized db provided_keys provided_permissions provided_delay act.
Proof.
  intros Hwf H. unfold check_authorization in H. simplify_res.
  match goal with H : foldM (check_action _ _) _ _ = Ok ?x |- _ => destruct x as [calls m]; rename H into H1 end.
  simplify_res.
  match goal with H : foldM (satisfy_declared _ _ _) _ _ = Ok ?x |- _ => destruct x as [calls' used]; rename H into H2 end.
  apply check_actions_inv in H1 as [Hacts _].
  pose proof (satisfy_declareds_inv _ _ _ _ _ _ _ _ Hwf H2) as Hgr.
  intros act Hact. destruct (Hacts act Hact) as (special & d & Hn & Hl).
  exists special, d. split; [done|]. intros level Hlevel. destruct (Hl level Hlevel) as [Hrel (d0 & Hd0 & Hle)].
  split; [|done]. apply (granted_delay_mono _ _ _ d0); [done|]. apply Hgr.
  rewrite merge_sort_Permutation. by apply elem_of_map_to_list.
Qed.

End manager.

(** ** A concrete account *)

Definition demo_key_authority (k : Z) : authority Z := Authority 1 [KeyWeight k 1] [] [].

Definition demo_create (db : authorization_db) (account name parent key : Z) : authorization_db :=
  match create_permission db 1000 account name parent (demo_key_authority key) 0 with
  | Ok (_, db) => db
  | Throw _ => db
  end.

Definition demo_db1 : authorization_db := demo_create initialize_database 5 config.owner_name 0 99.
Definition demo_auth_db : authorization_db := demo_create demo_db1 5 config.active_name 1 100.

Definition demo_owner : permission_object :=
  PermissionObject 1 0 0 5 config.owner_name 1000 (demo_key_authority 99).
Definition demo_active : permission_object :=
  PermissionObject 2 1 1 5 config.active_name 1000 (demo_key_authority 100).

Lemma demo_step1 :
  create_permission initialize_database 1000 5 config.owner_name 0 (demo_key_authority 99) 0
    = Ok (demo_owner, demo_db1).
Proof. reflexivity. Qed.
Lemma demo_step2 :
  create_permission demo_db1 1000 5 config.active_name 1 (demo_key_authority 100) 0
    = Ok (demo_active, demo_auth_db).
Proof. reflexivity. Qed.
Lemma demo_parent1 : valid_parent (K := Z) initialize_database 5 0.
Proof. by left. Qed.
Lemma demo_parent2 : valid_parent demo_db1 5 1.
Proof. right. exists demo_owner. split; [|done]. apply list_elem_of_further, list_elem_of_here. Qed.

Lemma demo_auth_db_wf : db_wf demo_auth_db.
Proof.
  eapply create_permission_wf; [|apply demo_parent2|apply demo_step2].
  eapply create_permission_wf; [|apply demo_parent1|apply demo_step1]. apply initialize_database_wf.
Qed.

Lemma satisfies_spec_witness :
  satisfies_opt (permissions demo_auth_db) demo_owner demo_active = Some true ∧
  ancestor (permissions demo_auth_db) 1 demo_active.
Proof.
  split; [reflexivity|].
  destruct (satisfies_spec (permissions demo_auth_db) (next_permission_id demo_auth_db) demo_owner demo_active)
    as (b & Hb & Hiff).
  - exact demo_auth_db_wf.
  - apply list_elem_of_further, list_elem_of_here.
  - apply list_elem_of_further, list_elem_of_further, list_elem_of_here.
  - discriminate.
  - discriminate.
  - vm_compute in Hb. injection Hb as <-. apply Hiff. reflexivity.
Defined.


Definition demo_action : action := Action 9 8 [PermissionLevel 5 config.active_name] [].

Lemma demo_authorities_wf : authorities_wf demo_auth_db.
Proof.
  intros p Hp. change (permissions demo_auth_db) with [reserved_permission; demo_owner; demo_active] in Hp.
  rewrite !elem_of_cons in Hp. destruct Hp as [->|[->|[->|Hp]]];
    [unfold weights_16bit, is_unsigned; cbn; split_and!; repeat constructor; cbn; lia..|].
  by apply not_elem_of_nil in Hp.
Qed.

