(* ===== verification/StateMonad.v ===== *)
(** * A state monad with exceptions and undefined behaviour

    The members of the contexts change shared state, may throw, and follow
    pointers into the database.  [M S A] is a computation on a state [S]: it is
    done with a value and a new state, it has thrown, it has no defined
    behaviour (a null or dangling pointer was followed), or it has not come to
    an end within the steps that a loop was given.  A throw ends the
    transaction, whose undo session restores the database, so it carries no
    state.

    [wp m Q s] is the weakest precondition that the proofs use: if [m] is done
    in [s] then [Q] holds of its value and state, and [m] is neither undefined
    nor out of steps.  [terminates m s] only says the latter. *)

From S2P Require Import Prelude Exceptions.

Inductive outcome (S A : Type) : Type :=
  | Done (a : A) (s : S)
  | Threw (e : exception)
  | Undefined
  | Diverges.
Arguments Done {_ _} _ _.
Arguments Threw {_ _} _.
Arguments Undefined {_ _}.
Arguments Diverges {_ _}.

Definition M (S A : Type) : Type := S → outcome S A.

#[global] Instance M_ret {S} : MRet (M S) := λ A a s, Done a s.
#[global] Instance M_bind {S} : MBind (M S) := λ A B k m s,
  match m s with Done a s' => k a s' | Threw e => Threw e | Undefined => Undefined | Diverges => Diverges end.

Section operations.
Context {S : Type}.

Definition get : M S S := λ s, Done s s.
Definition gets {A} (f : S → A) : M S A := λ s, Done (f s) s.
Definition modify (f : S → S) : M S unit := λ s, Done tt (f s).

(** A computation that leaves the state alone. *)
Definition lift {A} (r : res A) : M S A := λ s,
  match r with Ok a => Done a s | Throw e => Threw e end.

Definition throws {A} (e : exception) : M S A := lift (EOS_THROW e).
Definition asserts (b : bool) (e : exception) : M S unit := lift (EOS_ASSERT b e).

(** The object a pointer refers to. *)
Definition deref {A} (o : option A) : M S A := λ s,
  match o with Some a => Done a s | None => Undefined end.

(** A loop that has used up its steps. *)
Definition out_of_steps {A} : M S A := λ _, Diverges.

Fixpoint for_each {A} (l : list A) (body : A → M S unit) : M S unit :=
  match l with
  | [] => mret tt
  | a :: l => body a;; for_each l body
  end.
End operations.

(** A computation on a part of the state. *)
Definition zoom {W S A} (part : W → S) (put : S → W → W) (m : M S A) : M W A := λ w,
  match m (part w) with
  | Done a s => Done a (put s w)
  | Threw e => Threw e
  | Undefined => Undefined
  | Diverges => Diverges
  end.

(** ** Weakest preconditions *)

Definition wp {S A} (m : M S A) (Q : A → S → Prop) (s : S) : Prop :=
  match m s with Done a s' => Q a s' | Threw _ => True | Undefined | Diverges => False end.

Section wp.
Context {S : Type}.
Implicit Types s : S.

Lemma bind_Done {A B} (m : M S A) (k : A → M S B) s b s' :
  (m ≫= k) s = Done b s' ↔ ∃ a s1, m s = Done a s1 ∧ k a s1 = Done b s'.
Proof. unfold mbind, M_bind. destruct (m s); naive_solver. Qed.

Lemma bind_run {A B} (m : M S A) (k : A → M S B) s a s' :
  m s = Done a s' → (m ≫= k) s = k a s'.
Proof. unfold mbind, M_bind. by intros ->. Qed.

Lemma lift_Done {A} (r : res A) s a s' : lift r s = Done a s' ↔ r = Ok a ∧ s' = s.
Proof. unfold lift. destruct r; naive_solver. Qed.

Lemma wp_Done {A} (m : M S A) Q s a s' : wp m Q s → m s = Done a s' → Q a s'.
Proof. unfold wp. intros H Hm. by rewrite Hm in H. Qed.

Lemma wp_defined {A} (m : M S A) Q s : wp m Q s → m s ≠ Undefined.
Proof. unfold wp. intros H Hm. by rewrite Hm in H. Qed.

Lemma wp_mono {A} (m : M S A) (P Q : A → S → Prop) s :
  wp m P s → (∀ a s', P a s' → Q a s') → wp m Q s.
Proof. unfold wp. destruct (m s); eauto. Qed.

Lemma wp_and {A} (m : M S A) (P Q : A → S → Prop) s :
  wp m P s → wp m Q s → wp m (λ a s', P a s' ∧ Q a s') s.
Proof. unfold wp. destruct (m s); eauto. Qed.

Lemma wp_ret {A} (a : A) (Q : A → S → Prop) s : Q a s → wp (mret a) Q s.
Proof. done. Qed.

Lemma wp_bind {A B} (m : M S A) (k : A → M S B) Q s :
  wp m (λ a s', wp (k a) Q s') s → wp (m ≫= k) Q s.
Proof. unfold wp, mbind, M_bind. destruct (m s); done. Qed.

Lemma wp_get (Q : S → S → Prop) s : Q s s → wp get Q s.
Proof. done. Qed.

Lemma wp_gets {A} (f : S → A) Q s : Q (f s) s → wp (gets f) Q s.
Proof. done. Qed.

Lemma wp_modify (f : S → S) Q s : Q tt (f s) → wp (modify f) Q s.
Proof. done. Qed.

Lemma wp_lift {A} (r : res A) Q s : (∀ a, r = Ok a → Q a s) → wp (lift r) Q s.
Proof. unfold wp, lift. destruct r; auto. Qed.

Lemma wp_asserts b e (Q : unit → S → Prop) s : (b = true → Q tt s) → wp (asserts b e) Q s.
Proof. intros H. apply wp_lift. intros [] Hb%EOS_ASSERT_Ok. auto. Qed.

Lemma wp_throws {A} e (Q : A → S → Prop) s : wp (throws e) Q s.
Proof. apply wp_lift. done. Qed.

Lemma wp_deref {A} (o : option A) (a : A) Q s : o = Some a → Q a s → wp (deref o) Q s.
Proof. by intros ->. Qed.

Lemma wp_for_each {A} (l : list A) (body : A → M S unit) (I : S → Prop) s :
  (∀ a s, a ∈ l → I s → wp (body a) (λ _, I) s) → I s → wp (for_each l body) (λ _, I) s.
Proof.
  revert s. induction l as [|a l IH]; intros s Hb Hs; cbn; [done|]. apply wp_bind.
  eapply wp_mono; [apply Hb; [apply list_elem_of_here|done]|]. cbn. intros _ s' Hs'.
  apply IH; [|done]. intros b t Hin. apply Hb. by apply list_elem_of_further.
Qed.
End wp.

Lemma wp_zoom {W S A} (part : W → S) put (m : M S A) Q w :
  wp m (λ a s, Q a (put s w)) (part w) → wp (zoom part put m) Q w.
Proof. unfold wp, zoom. destruct (m (part w)); done. Qed.

Lemma zoom_Done {W S A} (part : W → S) put (m : M S A) w a w' :
  zoom part put m w = Done a w' ↔ ∃ s, m (part w) = Done a s ∧ w' = put s w.
Proof. unfold zoom. destruct (m (part w)); naive_solver. Qed.

(** Opens the first computation of the goal. *)
Ltac wp_step :=
  match goal with
  | |- wp (_ ≫= _) _ _ => apply wp_bind
  | |- wp (mret _) _ _ => apply wp_ret
  | |- wp get _ _ => apply wp_get
  | |- wp (gets _) _ _ => apply wp_gets
  | |- wp (modify _) _ _ => apply wp_modify
  | |- wp (asserts _ _) _ _ => apply wp_asserts; intros ?
  | |- wp (throws _) _ _ => apply wp_throws
  | |- wp (lift _) _ _ => apply wp_lift; intros ? ?
  | |- wp (zoom _ _ _) _ _ => apply wp_zoom
  end.

(** ** Computations that do not throw *)

Definition nothrow {S A} (m : M S A) (s : S) : Prop := ∀ e, m s ≠ Threw e.

Lemma nothrow_bind {S A B} (m : M S A) (k : A → M S B) s :
  nothrow m s → (∀ a s', m s = Done a s' → nothrow (k a) s') → nothrow (m ≫= k) s.
Proof. unfold nothrow, mbind, M_bind. intros Hm Hk e. destruct (m s) eqn:H; [by apply Hk|congruence|done|done]. Qed.

Lemma nothrow_zoom {W S A} (part : W → S) put (m : M S A) w : nothrow m (part w) → nothrow (zoom part put m) w.
Proof. unfold nothrow, zoom. intros Hm e. specialize (Hm e). destruct (m (part w)); congruence. Qed.

Lemma nothrow_deref {S A} (o : option A) (s : S) : nothrow (deref o) s.
Proof. intros e. by destruct o. Qed.

(** A computation that does not throw and is defined is done. *)
Lemma wp_total {S A} (m : M S A) Q s : wp m Q s → nothrow m s → ∃ a s', m s = Done a s' ∧ Q a s'.
Proof. unfold wp, nothrow. intros Hwp Hn. destruct (m s) eqn:H; [eauto|by destruct (Hn e)|done|done]. Qed.

(** ** Computations that come to an end *)

Definition terminates {S A} (m : M S A) (s : S) : Prop := m s ≠ Diverges.

Lemma terminates_bind {S A B} (m : M S A) (k : A → M S B) s :
  terminates m s → (∀ a s', m s = Done a s' → terminates (k a) s') → terminates (m ≫= k) s.
Proof. unfold terminates, mbind, M_bind. intros Hm Hk. destruct (m s) eqn:H; [by apply Hk|done..]. Qed.

Lemma terminates_zoom {W S A} (part : W → S) put (m : M S A) w :
  terminates m (part w) → terminates (zoom part put m) w.
Proof. unfold terminates, zoom. by destruct (m (part w)). Qed.

Lemma terminates_lift {S A} (r : res A) (s : S) : terminates (lift r) s.
Proof. by destruct r. Qed.

Lemma terminates_deref {S A} (o : option A) (s : S) : terminates (deref o) s.
Proof. by destruct o. Qed.

(** ** Liberal preconditions *)

(** [m] comes to an end, and if it is done then [Q] holds. *)
Definition lwp {S A} (m : M S A) (Q : A → S → Prop) (s : S) : Prop :=
  match m s with Done a s' => Q a s' | Threw _ | Undefined => True | Diverges => False end.

Section lwp.
Context {S : Type}.
Implicit Types s : S.

Lemma lwp_terminates {A} (m : M S A) Q s : lwp m Q s → terminates m s.
Proof. unfold lwp, terminates. by destruct (m s). Qed.

Lemma lwp_Done {A} (m : M S A) Q s a s' : lwp m Q s → m s = Done a s' → Q a s'.
Proof. unfold lwp. intros H Hm. by rewrite Hm in H. Qed.

Lemma lwp_intro {A} (m : M S A) (Q : A → S → Prop) s :
  terminates m s → (∀ a s', m s = Done a s' → Q a s') → lwp m Q s.
Proof. unfold lwp, terminates. destruct (m s); eauto. Qed.

Lemma lwp_mono {A} (m : M S A) (P Q : A → S → Prop) s :
  lwp m P s → (∀ a s', P a s' → Q a s') → lwp m Q s.
Proof. unfold lwp. destruct (m s); eauto. Qed.

Lemma lwp_bind {A B} (m : M S A) (k : A → M S B) Q s :
  lwp m (λ a s', lwp (k a) Q s') s → lwp (m ≫= k) Q s.
Proof. unfold lwp, mbind, M_bind. destruct (m s); done. Qed.

Lemma lwp_ret {A} (a : A) (Q : A → S → Prop) s : Q a s → lwp (mret a) Q s.
Proof. done. Qed.

Lemma lwp_get (Q : S → S → Prop) s : Q s s → lwp get Q s.
Proof. done. Qed.

Lemma lwp_gets {A} (f : S → A) Q s : Q (f s) s → lwp (gets f) Q s.
Proof. done. Qed.

Lemma lwp_modify (f : S → S) Q s : Q tt (f s) → lwp (modify f) Q s.
Proof. done. Qed.

Lemma lwp_lift {A} (r : res A) Q s : (∀ a, r = Ok a → Q a s) → lwp (lift r) Q s.
Proof. unfold lwp, lift. destruct r; auto. Qed.

Lemma lwp_asserts b e (Q : unit → S → Prop) s : (b = true → Q tt s) → lwp (asserts b e) Q s.
Proof. intros H. apply lwp_lift. intros [] Hb%EOS_ASSERT_Ok. auto. Qed.

Lemma lwp_throws {A} e (Q : A → S → Prop) s : lwp (throws e) Q s.
Proof. apply lwp_lift. done. Qed.

Lemma lwp_deref {A} (o : option A) Q s : (∀ a, o = Some a → Q a s) → lwp (deref o) Q s.
Proof. unfold lwp, deref. destruct o; auto. Qed.

Lemma lwp_for_each {A} (l : list A) (body : A → M S unit) (I : S → Prop) s :
  (∀ a s, a ∈ l → I s → lwp (body a) (λ _, I) s) → I s → lwp (for_each l body) (λ _, I) s.
Proof.
  revert s. induction l as [|a l IH]; intros s Hb Hs; cbn; [done|]. apply lwp_bind.
  eapply lwp_mono; [apply Hb; [apply list_elem_of_here|done]|]. cbn. intros _ s' Hs'.
  apply IH; [|done]. intros b t Hin. apply Hb. by apply list_elem_of_further.
Qed.
End lwp.

Lemma lwp_zoom {W S A} (part : W → S) put (m : M S A) Q w :
  lwp m (λ a s, Q a (put s w)) (part w) → lwp (zoom part put m) Q w.
Proof. unfold lwp, zoom. destruct (m (part w)); done. Qed.

Ltac lwp_step :=
  match goal with
  | |- lwp (_ ≫= _) _ _ => apply lwp_bind
  | |- lwp (mret _) _ _ => apply lwp_ret
  | |- lwp get _ _ => apply lwp_get
  | |- lwp (gets _) _ _ => apply lwp_gets
  | |- lwp (modify _) _ _ => apply lwp_modify
  | |- lwp (asserts _ _) _ _ => apply lwp_asserts; intros ?
  | |- lwp (throws _) _ _ => apply lwp_throws
  | |- lwp (lift _) _ _ => apply lwp_lift; intros ? ?
  | |- lwp (deref _) _ _ => apply lwp_deref; intros ? ?
  end.
