(* ===== verification/Asset.v ===== *)
(** * Symbols and assets (symbol.hpp, asset.hpp, asset.cpp)

    A symbol is a [uint64_t] with the number of decimals in its low byte and up
    to seven letters above it; an asset is an amount of a symbol.  The file
    models their constructors, arithmetic, printing and parsing.  Shifts by 64
    bits or more and overflow of [int64_t] have no defined behaviour. *)

From S2P Require Import Prelude Exceptions Name StateMonad.

(** A computation without state. *)
Abbreviation C := (M unit).

(** Signed 64-bit arithmetic with the exact result [x]. *)
Definition int64_arith (x : Z) : C Z := deref (if (- 2 ^ 63 <=? x) && (x <? 2 ^ 63) then Some x else None).

(** ** Decimal numbers *)

Definition digit (d : Z) : ascii := ascii_of_N (Z.to_N (48 + d)).

Fixpoint digits (fuel : nat) (n : Z) : list ascii :=
  match fuel with
  | O => []
  | S fuel => if n <? 10 then [digit n] else digits fuel (n / 10) ++ [digit (n mod 10)]
  end.

(** [std::to_string] of a 64-bit integer, which has at most 20 digits. *)
Definition minus : ascii := "-"%char.
Definition to_string (n : Z) : list ascii := if n <? 0 then minus :: digits 20 (- n) else digits 20 n.

(** The number that digits stand for. *)
Definition digits_value (s : list ascii) : Z := fold_left (λ acc c, 10 * acc + (chr c - 48)) s 0.
Definition is_digit (c : ascii) : bool := (48 <=? chr c) && (chr c <=? 57).

(** ** The fc library *)

(** [fc::trim], [fc::to_string], [fc::to_int64] and the checked arithmetic of
    [fc::safe<int64_t>]. *)
Class fc_lib : Type := {
  fc_trim : list ascii → list ascii;
  fc_to_string : Z → list ascii;
  fc_to_int64 : list ascii → res Z;
  safe_add : Z → Z → res Z;
  safe_mul : Z → Z → res Z }.

(** What is documented of them: trimming removes blanks at the ends, numbers are
    printed and read in decimal, and checked arithmetic is exact or throws. *)
Definition is_blank (c : ascii) : bool := (chr c =? 32) || ((9 <=? chr c) && (chr c <=? 13)).

Class fc_lib_ok {fc : fc_lib} : Prop := {
  fc_trim_id c s : is_blank c = false → (∀ l, last s = Some l → is_blank l = false) → fc_trim (c :: s) = c :: s;
  fc_to_string_decimal n : 0 <= n < 2 ^ 63 → fc_to_string n = to_string n;
  fc_to_int64_digits s : s ≠ [] → forallb is_digit s = true → digits_value s < 2 ^ 63 → fc_to_int64 s = Ok (digits_value s);
  fc_to_int64_minus s : s ≠ [] → forallb is_digit s = true → digits_value s <= 2 ^ 63 →
    fc_to_int64 (minus :: s) = Ok (- digits_value s);
  safe_add_Ok a b c : is_signed 64 a → is_signed 64 b → safe_add a b = Ok c ↔ c = a + b ∧ is_signed 64 c;
  safe_mul_Ok a b c : is_signed 64 a → is_signed 64 b → safe_mul a b = Ok c ↔ c = a * b ∧ is_signed 64 c }.

(** [std::string::find] of a character. *)
Fixpoint find_char (c : ascii) (s : list ascii) : option nat :=
  match s with
  | [] => None
  | x :: s => if Ascii.eqb x c then Some 0%nat else S <$> find_char c s
  end.

(** ** Symbols *)

Definition comma : ascii := ","%char.
Definition max_precision : Z := 18.

Definition is_upper (c : ascii) : bool := (65 <=? chr c) && (chr c <=? 90).

(** The loop of [string_to_symbol] from index [i]. *)
Fixpoint string_to_symbol_loop (i : Z) (result : Z) (str : list ascii) : C Z :=
  match str with
  | [] => mret result
  | c :: str =>
      asserts (is_upper c) symbol_type_exception;;
      shifted ← deref (if 8 * (i + 1) <? 64 then Some (u64 (Z.shiftl (chr c) (8 * (i + 1)))) else None);
      string_to_symbol_loop (i + 1) (Z.lor result shifted) str
  end.

Definition string_to_symbol (precision : Z) (str : list ascii) : C Z :=
  result ← string_to_symbol_loop 0 0 (c_str str);
  mret (Z.lor result precision).

Record symbol : Set := Symbol { m_value : Z }.

#[export] Instance symbol_eq_dec : EqDecision symbol.
Proof. solve_decision. Defined.

Definition decimals (s : symbol) : Z := Z.land (m_value s) 0xFF.

(** The loop of [name]; a value has at most seven letters. *)
Fixpoint name_loop (fuel : nat) (v : Z) : list ascii :=
  match fuel with
  | O => []
  | S fuel => if v >? 0 then ascii_of_N (Z.to_N (Z.land v 0xFF)) :: name_loop fuel (Z.shiftr v 8) else []
  end.

Definition name (s : symbol) : list ascii := name_loop 8 (Z.shiftr (m_value s) 8).

Definition valid_name (n : list ascii) : bool := forallb is_upper n.
Definition valid (s : symbol) : bool := (decimals s <=? max_precision) && valid_name (name s).

Fixpoint power10 (p : nat) (p10 : Z) : Z :=
  match p with
  | O => p10
  | S p => power10 p (u64 (p10 * 10))
  end.

Definition precision (s : symbol) : res Z :=
  EOS_ASSERT (decimals s <=? max_precision) symbol_type_exception;;
  mret (power10 (Z.to_nat (decimals s)) 1).

(** The constructor from a value. *)
Definition make_symbol (v : Z) : res symbol :=
  EOS_ASSERT (valid (Symbol v)) symbol_type_exception;;
  mret (Symbol v).

(** The constructor from a precision and a name. *)
Definition symbol_of_name (p : Z) (s : list ascii) : C symbol :=
  v ← string_to_symbol p s; lift (make_symbol v).

Definition symbol_to_string (s : symbol) : list ascii := to_string (decimals s) ++ comma :: name s.

(** [symbol_code] and its conversions. *)
Definition to_symbol_code (s : symbol) : Z := Z.shiftr (m_value s) 8.
Definition symbol_code_to_variant (code : Z) : res (list ascii) :=
  s ← make_symbol (u64 (Z.shiftl code 8)); mret (name s).
Definition symbol_code_from_variant (s : list ascii) : C Z :=
  s ← symbol_of_name 0 s; mret (to_symbol_code s).

(** [symbol::reflector_verify]. *)
Definition symbol_verify (s : symbol) : res unit :=
  EOS_ASSERT (decimals s <=? max_precision) symbol_type_exception;;
  EOS_ASSERT (valid_name (name s)) symbol_type_exception.

(** ** Assets *)

Record asset : Set := Asset { amount : Z; sym : symbol }.

Definition max_amount : Z := 2 ^ 62 - 1.
Definition is_amount_within_range (a : asset) : bool := (- max_amount <=? amount a) && (amount a <=? max_amount).
Definition is_valid (a : asset) : bool := is_amount_within_range a && valid (sym a).

Definition make_asset (amount : Z) (s : symbol) : res asset :=
  let a := Asset amount s in
  EOS_ASSERT (is_amount_within_range a) asset_type_exception;;
  EOS_ASSERT (valid s) asset_type_exception;;
  mret a.

(** [asset::reflector_verify]. *)
Definition asset_verify (a : asset) : res unit :=
  EOS_ASSERT (is_amount_within_range a) asset_type_exception;;
  EOS_ASSERT (valid (sym a)) asset_type_exception.

Definition same_symbol (a b : asset) : C unit := asserts (m_value (sym a) =? m_value (sym b)) asset_type_exception.

(** [operator +=] and [operator -=]. *)
Definition add_assign (a b : asset) : C asset :=
  same_symbol a b;; x ← int64_arith (amount a + amount b); mret (Asset x (sym a)).
Definition sub_assign (a b : asset) : C asset :=
  same_symbol a b;; x ← int64_arith (amount a - amount b); mret (Asset x (sym a)).

Definition negate (a : asset) : C asset := x ← int64_arith (- amount a); lift (make_asset x (sym a)).
Definition add (a b : asset) : C asset :=
  same_symbol a b;; x ← int64_arith (amount a + amount b); lift (make_asset x (sym a)).
Definition sub (a b : asset) : C asset :=
  same_symbol a b;; x ← int64_arith (amount a - amount b); lift (make_asset x (sym a)).

Definition asset_eqb (a b : asset) : bool := (m_value (sym a) =? m_value (sym b)) && (amount a =? amount b).
Definition asset_ltb (a b : asset) : C bool :=
  same_symbol a b;;
  mret ((amount a <? amount b) || ((amount a =? amount b) && (m_value (sym a) <? m_value (sym b)))).
Definition asset_leb (a b : asset) : C bool := if asset_eqb a b then mret true else asset_ltb a b.
Definition asset_gtb (a b : asset) : C bool := r ← asset_leb a b; mret (negb r).
Definition asset_geb (a b : asset) : C bool := r ← asset_ltb a b; mret (negb r).

Section text.
Context {fc : fc_lib}.

Definition symbol_from_string (from : list ascii) : C symbol :=
  let s := fc_trim from in
  asserts (match s with [] => false | _ => true end) symbol_type_exception;;
  match find_char comma s with
  | None => throws symbol_type_exception
  | Some comma_pos =>
      n ← lift (fc_to_int64 (take comma_pos s));
      let p := u8 n in
      let name_part := drop (S comma_pos) s in
      asserts (p <=? max_precision) symbol_type_exception;;
      v ← string_to_symbol p name_part;
      lift (make_symbol v)
  end.

Definition space : ascii := " "%char.
Definition point : ascii := "."%char.

Definition asset_to_string (a : asset) : C (list ascii) :=
  let sign := if amount a <? 0 then [minus] else [] in
  abs_amount ← int64_arith (Z.abs (amount a));
  precision ← lift (precision (sym a));
  let result := fc_to_string (Z.quot abs_amount precision) in
  result ←
    (if negb (decimals (sym a) =? 0) then
       shown ← int64_arith (precision + Z.rem abs_amount precision);
       mret (result ++ point :: drop 1 (fc_to_string shown))
     else mret result);
  mret (sign ++ result ++ space :: name (sym a)).

Definition asset_from_string (from : list ascii) : C asset :=
  let s := fc_trim from in
  match find_char space s with
  | None => throws asset_type_exception
  | Some space_pos =>
      let symbol_str := fc_trim (drop (S space_pos) s) in
      let amount_str := take space_pos s in
      match find_char point amount_str with
      | Some dot_pos =>
          asserts (negb (dot_pos =? length amount_str - 1)%nat) asset_type_exception;;
          let precision_digit_str := to_string (Z.of_nat (length amount_str - dot_pos - 1)) in
          sym ← symbol_from_string (precision_digit_str ++ comma :: symbol_str);
          int_part ← lift (fc_to_int64 (take dot_pos amount_str));
          fract_part ← lift (fc_to_int64 (drop (S dot_pos) amount_str));
          fract_part ← (if bool_decide (head amount_str = Some minus) then lift (safe_mul fract_part (-1)) else mret fract_part);
          p ← lift (precision sym);
          amount ← lift (safe_mul int_part p);
          amount ← lift (safe_add amount fract_part);
          lift (make_asset amount sym)
      | None =>
          sym ← symbol_from_string (to_string 0 ++ comma :: symbol_str);
          int_part ← lift (fc_to_int64 amount_str);
          p ← lift (precision sym);
          amount ← lift (safe_mul int_part p);
          amount ← lift (safe_add amount 0);
          lift (make_asset amount sym)
      end
  end.
End text.
