(* ===== verification/AssetTheorems.v ===== *)
(** * Correctness of symbols and assets

    Printing and parsing are inverse, and arithmetic either gives a valid asset
    or throws. *)

From S2P Require Import Prelude Exceptions Name StateMonad Asset.

(** ** Decimal numbers *)

Lemma chr_digit d : 0 <= d < 10 → chr (digit d) = 48 + d.
Proof. intros Hd. unfold chr, digit. rewrite N_ascii_embedding by lia. lia. Qed.

Lemma is_digit_digit d : 0 <= d < 10 → is_digit (digit d) = true.
Proof. intros Hd. unfold is_digit. rewrite chr_digit by done. lia. Qed.

Lemma digits_value_snoc s c : digits_value (s ++ [c]) = 10 * digits_value s + (chr c - 48).
Proof. unfold digits_value. by rewrite fold_left_app. Qed.

Lemma digits_spec fuel n :
  0 <= n < 10 ^ Z.of_nat fuel → (0 < fuel)%nat →
  digits fuel n ≠ [] ∧ forallb is_digit (digits fuel n) = true ∧ digits_value (digits fuel n) = n.
Proof.
  revert n. induction fuel as [|fuel IH]; intros n Hn Hf; [lia|]. cbn [digits].
  destruct (Z.ltb_spec n 10).
  - split; [done|]. cbn. unfold digits_value. cbn [fold_left]. rewrite is_digit_digit, chr_digit by lia. split; [done|lia].
  - assert (Hp : 10 ^ Z.of_nat (S fuel) = 10 * 10 ^ Z.of_nat fuel) by (rewrite Nat2Z.inj_succ, Z.pow_succ_r by lia; lia).
    pose proof (Z.div_mod n 10 ltac:(lia)). pose proof (Z.mod_pos_bound n 10 ltac:(lia)).
    destruct fuel as [|fuel']; [cbn in Hp; lia|].
    destruct (IH (n / 10)) as (I1 & I2 & I3); [split; [apply Z.div_pos; lia|apply Z.div_lt_upper_bound; lia]|lia|].
    split; [by destruct (digits (S fuel') (n / 10))|]. rewrite forallb_app, I2, digits_value_snoc, I3, chr_digit by lia.
    cbn. rewrite is_digit_digit by lia. split; [done|lia].
Qed.

(** A number that starts with 1 and has [d] more digits. *)
Lemma digits_leading d fuel n :
  10 ^ Z.of_nat d <= n < 2 * 10 ^ Z.of_nat d → (d < fuel)%nat →
  ∃ r, digits fuel n = digit 1 :: r ∧ length r = d ∧ forallb is_digit r = true ∧ digits_value r = n - 10 ^ Z.of_nat d.
Proof.
  revert fuel n. induction d as [|d IH]; intros [|fuel] n Hn Hf; try lia; cbn [digits].
  - exists []. cbn in Hn. assert (n = 1) as -> by lia. done.
  - assert (Hp : 10 ^ Z.of_nat (S d) = 10 * 10 ^ Z.of_nat d) by (rewrite Nat2Z.inj_succ, Z.pow_succ_r by lia; lia).
    assert (0 < 10 ^ Z.of_nat d) by (apply Z.pow_pos_nonneg; lia).
    pose proof (Z.div_mod n 10 ltac:(lia)). pose proof (Z.mod_pos_bound n 10 ltac:(lia)).
    destruct (Z.ltb_spec n 10); [lia|].
    destruct (IH fuel (n / 10)) as (r & -> & Hl & Hd & Hv);
      [split; [apply Z.div_le_lower_bound; lia|apply Z.div_lt_upper_bound; lia]|lia|].
    exists (r ++ [digit (n mod 10)]). cbn. split; [done|]. rewrite length_app, forallb_app, Hd, digits_value_snoc, Hv, chr_digit by lia.
    cbn. rewrite is_digit_digit by lia. split_and!; [lia|done|lia].
Qed.

(** ** Characters *)

Lemma find_char_app c a b : c ∉ a → find_char c (a ++ c :: b) = Some (length a).
Proof.
  induction a as [|x a IH]; intros Ha; cbn; [by rewrite Ascii.eqb_refl|].
  apply not_elem_of_cons in Ha as [Hx Ha]. destruct (Ascii.eqb_spec x c); [congruence|]. by rewrite IH.
Qed.

Lemma find_char_None c s : c ∉ s → find_char c s = None.
Proof.
  induction s as [|x s IH]; intros Hs; [done|]. cbn. apply not_elem_of_cons in Hs as [Hx Hs].
  destruct (Ascii.eqb_spec x c); [congruence|]. by rewrite IH.
Qed.

Lemma take_drop_middle {A} (a : list A) c b : take (length a) (a ++ c :: b) = a ∧ drop (S (length a)) (a ++ c :: b) = b.
Proof. split; [apply take_app_length|]. rewrite drop_app_ge by lia. by replace (S (length a) - length a)%nat with 1%nat by lia. Qed.

Lemma digits_no_char s c : forallb is_digit s = true → is_digit c = false → c ∉ s.
Proof. intros Hs Hc Hin. rewrite forallb_forall in Hs. rewrite (Hs c) in Hc; [done|by apply list_elem_of_In]. Qed.

Lemma upper_not_blank c : is_upper c = true → is_blank c = false.
Proof. unfold is_upper, is_blank. lia. Qed.
Lemma digit_not_blank c : is_digit c = true → is_blank c = false.
Proof. unfold is_digit, is_blank. lia. Qed.

(** ** Symbols *)

Lemma lor_shiftl a b k : 0 <= k → 0 <= a < 2 ^ k → 0 <= b → Z.lor a (Z.shiftl b k) = a + b * 2 ^ k.
Proof.
  intros Hk Ha Hb. rewrite <- Z.shiftl_mul_pow2 by lia. pose proof (Z.add_lor_land a (Z.shiftl b k)) as H.
  assert (Z.land a (Z.shiftl b k) = 0); [|lia]. apply Z.bits_inj'. intros i Hi. rewrite Z.land_spec, Z.bits_0.
  destruct (Z.lt_ge_cases i k); [rewrite Z.shiftl_spec_low by done; apply andb_false_r|].
  rewrite <- (Z.mod_small a (2 ^ k)) by lia. by rewrite Z.mod_pow2_bits_high by lia.
Qed.

Definition pack (s : list ascii) : Z := foldr (λ c acc, chr c + 256 * acc) 0 s.

Lemma chr_bound c : 0 <= chr c < 256.
Proof. unfold chr. pose proof (N_ascii_bounded c). lia. Qed.

Lemma pack_bound s : 0 <= pack s < 256 ^ Z.of_nat (length s).
Proof.
  induction s as [|c s IH]; [cbn; lia|]. cbn [pack foldr length]. fold (pack s). pose proof (chr_bound c).
  rewrite Nat2Z.inj_succ, Z.pow_succ_r by lia. lia.
Qed.

Lemma string_to_symbol_loop_spec i result str :
  valid_name str = true → 0 <= i → i + Z.of_nat (length str) <= 7 → 0 <= result < 2 ^ (8 * (i + 1)) →
  string_to_symbol_loop i result str tt = Done (result + 2 ^ (8 * (i + 1)) * pack str) tt.
Proof.
  revert i result. induction str as [|c str IH]; intros i result Hv Hi Hl Hr; cbn [string_to_symbol_loop].
  { cbn. f_equal. lia. }
  cbn in Hv, Hl. apply andb_true_iff in Hv as [Hc Hv]. cbn [pack foldr]. fold (pack str).
  unfold asserts. rewrite Hc. destruct (Z.ltb_spec (8 * (i + 1)) 64); [|lia].
  unfold mbind, M_bind. cbn [lift EOS_ASSERT deref].
  pose proof (chr_bound c). set (k := 8 * (i + 1)) in *.
  assert (Hp : 2 ^ (8 * (i + 1 + 1)) = 256 * 2 ^ k).
  { replace (8 * (i + 1 + 1)) with (8 + k) by lia. by rewrite Z.pow_add_r by lia. }
  assert (0 < 2 ^ k) by (apply Z.pow_pos_nonneg; lia).
  assert (2 ^ (8 * (i + 1 + 1)) <= 2 ^ 64) by (apply Z.pow_le_mono_r; lia).
  assert (Hs : Z.shiftl (chr c) k = chr c * 2 ^ k) by (apply Z.shiftl_mul_pow2; lia).
  rewrite wrap_id by (unfold is_unsigned; rewrite Hs; nia).
  rewrite lor_shiftl by lia. rewrite IH; [|done|lia|lia|nia]. f_equal. rewrite Hp. lia.
Qed.

Lemma name_loop_pack fuel v : 0 <= v < 256 ^ Z.of_nat fuel → pack (name_loop fuel v) = v.
Proof.
  revert v. induction fuel as [|fuel IH]; intros v Hv; cbn [name_loop]; [cbn in *; lia|].
  rewrite Nat2Z.inj_succ, Z.pow_succ_r in Hv by lia.
  destruct (v >? 0) eqn:Hgt; [|cbn; lia]. rewrite Z.shiftr_div_pow2 by lia. change (2 ^ 8) with 256.
  assert (Hland : Z.land v 0xFF = v mod 256) by (change 0xFF with (Z.ones 8); by rewrite Z.land_ones by lia).
  pose proof (Z.div_mod v 256 ltac:(lia)). pose proof (Z.mod_pos_bound v 256 ltac:(lia)).
  cbn [pack foldr]. fold (pack (name_loop fuel (v / 256))).
  rewrite IH, Hland by (split; [apply Z.div_pos; lia|apply Z.div_lt_upper_bound; lia]).
  unfold chr. rewrite N_ascii_embedding by lia. lia.
Qed.

Lemma name_loop_length n fuel v : 0 <= v < 256 ^ Z.of_nat n → (length (name_loop fuel v) <= n)%nat.
Proof.
  revert n v. induction fuel as [|fuel IH]; intros n v Hv; cbn [name_loop]; [cbn; lia|].
  destruct (v >? 0) eqn:Hgt; [|cbn; lia]. rewrite Z.shiftr_div_pow2 by lia. change (2 ^ 8) with 256.
  destruct n as [|n]; [cbn in Hv; lia|]. rewrite Nat2Z.inj_succ, Z.pow_succ_r in Hv by lia. cbn [length].
  apply le_n_S, IH. split; [apply Z.div_pos; lia|apply Z.div_lt_upper_bound; lia].
Qed.

Definition symbol_wf (s : symbol) : Prop := is_unsigned 64 (m_value s).

Lemma symbol_parts s :
  symbol_wf s → m_value s = decimals s + 256 * pack (name s) ∧ 0 <= decimals s < 256 ∧ (length (name s) <= 7)%nat.
Proof.
  intros Hs. unfold symbol_wf, is_unsigned in Hs. unfold decimals, name.
  change 0xFF with (Z.ones 8). rewrite Z.land_ones, Z.shiftr_div_pow2 by lia. change (2 ^ 8) with 256.
  pose proof (Z.div_mod (m_value s) 256 ltac:(lia)). pose proof (Z.mod_pos_bound (m_value s) 256 ltac:(lia)).
  assert (Hv : 0 <= m_value s / 256 < 2 ^ 56) by (split; [apply Z.div_pos; lia|apply Z.div_lt_upper_bound; lia]).
  rewrite name_loop_pack by (cbn; lia). split; [lia|split; [lia|]]. apply name_loop_length. cbn. lia.
Qed.

Lemma c_str_valid n : valid_name n = true → c_str n = n.
Proof.
  induction n as [|c n IH]; [done|]. cbn. intros [Hc Hn]%andb_true_iff. case_bool_decide as Hnul; [by subst|]. by rewrite IH.
Qed.

Lemma valid_split s : valid s = true → decimals s <= max_precision ∧ valid_name (name s) = true.
Proof. unfold valid. intros [H1 H2]%andb_true_iff. split; [lia|done]. Qed.

(** The name and the decimals determine a symbol. *)
Lemma string_to_symbol_name s :
  symbol_wf s → valid s = true → string_to_symbol (decimals s) (name s) tt = Done (m_value s) tt.
Proof.
  intros Hwf [_ Hn]%valid_split. destruct (symbol_parts s Hwf) as (Hv & Hd & Hl).
  unfold string_to_symbol. rewrite c_str_valid by done.
  rewrite (bind_run _ _ _ _ _ (string_to_symbol_loop_spec 0 0 (name s) Hn ltac:(lia) ltac:(lia) ltac:(lia))).
  unfold mret, M_ret. f_equal. pose proof (pack_bound (name s)) as [Hp _]. rewrite Z.lor_comm, Z.add_0_l, Z.mul_comm.
  rewrite <- Z.shiftl_mul_pow2 by lia. rewrite lor_shiftl by (change (2 ^ (8 * (0 + 1))) with 256; lia).
  change (2 ^ (8 * (0 + 1))) with 256. lia.
Qed.

Section text.
Context {fc : fc_lib} {fc_ok : fc_lib_ok}.

Lemma fc_to_int64_to_string n : 0 <= n < 2 ^ 63 → fc_to_int64 (to_string n) = Ok n.
Proof.
  intros Hn. unfold to_string. destruct (Z.ltb_spec n 0); [lia|].
  destruct (digits_spec 20 n) as (H1 & H2 & H3); [lia|lia|]. rewrite fc_to_int64_digits by (congruence || lia). by rewrite H3.
Qed.

Lemma trim_text a b :
  a ≠ [] → forallb is_digit a = true → (∀ l, last b = Some l → is_blank l = false) → fc_trim (a ++ b) = a ++ b.
Proof.
  intros Ha Hd Hb. destruct a as [|c a]; [done|]. cbn in *. apply andb_true_iff in Hd as [Hc Hd].
  apply fc_trim_id; [by apply digit_not_blank|]. intros l Hl. rewrite last_app in Hl.
  destruct (last b) as [x|] eqn:Hlb; [apply Hb; congruence|].
  apply digit_not_blank. rewrite forallb_forall in Hd. apply Hd, list_elem_of_In. by apply last_Some_elem_of.
Qed.

Lemma last_name s l : valid_name s = true → last s = Some l → is_blank l = false.
Proof.
  intros Hv Hl. apply upper_not_blank. unfold valid_name in Hv. rewrite forallb_forall in Hv.
  apply Hv, list_elem_of_In. by apply last_Some_elem_of.
Qed.

Lemma last_cons_name c s l : is_blank c = false → valid_name s = true → last (c :: s) = Some l → is_blank l = false.
Proof.
  intros Hc Hv Hl. destruct s as [|x s]; [by injection Hl as <-|]. rewrite last_cons_cons in Hl. by apply (last_name (x :: s)).
Qed.

Lemma wrap_decimals s d : symbol_wf s → d = decimals s → u8 d = decimals s.
Proof. intros Hwf ->. destruct (symbol_parts s Hwf) as (_ & Hd & _). by apply wrap_id. Qed.

(** Parsing the digits of [d] and a name. *)
Lemma symbol_from_parts s d :
  symbol_wf s → valid s = true → 0 <= d < 2 ^ 63 → u8 d = decimals s →
  symbol_from_string (to_string d ++ comma :: name s) tt = Done s tt.
Proof.
  intros Hwf Hv Hd63 Hu8. destruct (symbol_parts s Hwf) as (Hval & Hd & Hl). destruct (valid_split s Hv) as [Hmax Hname].
  unfold max_precision in Hmax. assert (Ht : to_string d = digits 20 d).
  { unfold to_string. by destruct (Z.ltb_spec d 0); [lia|]. }
  destruct (digits_spec 20 d) as (N1 & N2 & N3); [cbn; lia|lia|].
  assert (Htrim : fc_trim (to_string d ++ comma :: name s) = to_string d ++ comma :: name s).
  { rewrite Ht. apply trim_text; [done|done|]. intros l. by apply last_cons_name. }
  unfold symbol_from_string. rewrite Htrim.
  rewrite find_char_app by (rewrite Ht; by apply digits_no_char). destruct (take_drop_middle (to_string d) comma (name s)) as [-> ->].
  rewrite fc_to_int64_to_string by lia.
  destruct (to_string d ++ comma :: name s) eqn:Hs; [by destruct (to_string d)|].
  unfold asserts, mbind, M_bind. cbn [lift EOS_ASSERT]. rewrite Hu8.
  unfold max_precision. destruct (Z.leb_spec (decimals s) 18); [|lia]. cbn [lift EOS_ASSERT].
  rewrite string_to_symbol_name by done. unfold make_symbol. destruct s as [v]. cbn [m_value]. by rewrite Hv.
Qed.

(** ** Assets *)

Lemma power10_spec p x : 0 <= x → x * 10 ^ Z.of_nat p < 2 ^ 64 → power10 p x = x * 10 ^ Z.of_nat p.
Proof.
  revert x. induction p as [|p IH]; intros x Hx Hb; cbn [power10]; [cbn; lia|].
  rewrite Nat2Z.inj_succ, Z.pow_succ_r in * by lia. assert (1 <= 10 ^ Z.of_nat p) by (apply (Z.pow_le_mono_r 10 0); lia).
  rewrite wrap_id by (unfold is_unsigned; nia). rewrite IH by lia. lia.
Qed.

Definition scale (s : symbol) : Z := 10 ^ decimals s.

Lemma scale_bounds s : symbol_wf s → valid s = true → 1 <= scale s <= 10 ^ 18 ∧ precision s = Ok (scale s).
Proof.
  intros Hwf [Hmax _]%valid_split. destruct (symbol_parts s Hwf) as (_ & Hd & _). unfold scale, max_precision in *.
  assert (H1 : 1 <= 10 ^ decimals s) by (apply (Z.pow_le_mono_r 10 0); lia).
  assert (H2 : 10 ^ decimals s <= 10 ^ 18) by (apply Z.pow_le_mono_r; lia).
  split; [done|]. unfold precision, max_precision. destruct (Z.leb_spec (decimals s) 18); [|lia]. cbn [EOS_ASSERT mbind result_bind].
  unfold mret, result_ret. cbn. f_equal. rewrite power10_spec; rewrite ?Z2Nat.id; lia.
Qed.

Definition asset_wf (a : asset) : Prop := symbol_wf (sym a) ∧ is_valid a = true.

Lemma asset_wf_parts a :
  asset_wf a → symbol_wf (sym a) ∧ valid (sym a) = true ∧ - max_amount <= amount a <= max_amount.
Proof. intros [Hs [Hr Hv]%andb_true_iff]. unfold is_amount_within_range in Hr. split_and!; [done|done|lia|lia]. Qed.

Definition sign_of (a : asset) : list ascii := if amount a <? 0 then [minus] else [].

(** The text of an asset: the digits before and after the point, and the name. *)
Definition text (a : asset) (ip r : list ascii) : list ascii :=
  (sign_of a ++ ip ++ (if decimals (sym a) =? 0 then [] else point :: r)) ++ space :: name (sym a).

Record amount_digits (a : asset) (ip r : list ascii) : Prop := {
  ad_nonempty : ip ≠ [];
  ad_int : forallb is_digit ip = true;
  ad_int_value : digits_value ip = Z.abs (amount a) / scale (sym a);
  ad_fract : forallb is_digit r = true;
  ad_length : Z.of_nat (length r) = decimals (sym a);
  ad_fract_value : digits_value r = Z.abs (amount a) mod scale (sym a) }.

Lemma int64_arith_run x : is_signed 64 x → int64_arith x tt = Done x tt.
Proof. unfold is_signed, int64_arith. intros Hx. destruct (_ && _) eqn:Hb; [done|lia]. Qed.

Lemma asset_to_string_text a : asset_wf a → ∃ ip r, asset_to_string a tt = Done (text a ip r) tt ∧ amount_digits a ip r.
Proof.
  intros (Hwf & Hv & Hr)%asset_wf_parts. unfold max_amount in Hr. destruct (scale_bounds _ Hwf Hv) as [Hsc Hp].
  destruct (symbol_parts _ Hwf) as (_ & Hd & _). destruct (valid_split _ Hv) as [Hmax _]. unfold max_precision in Hmax.
  set (n := Z.abs (amount a)) in *. set (P := scale (sym a)) in *.
  pose proof (Z.div_mod n P ltac:(lia)). pose proof (Z.mod_pos_bound n P ltac:(lia)).
  assert (Hq : 0 <= n / P <= n) by (split; [apply Z.div_pos; lia|apply Z.div_le_upper_bound; nia]).
  destruct (digits_spec 20 (n / P)) as (I1 & I2 & I3); [lia|lia|].
  destruct (digits_leading (Z.to_nat (decimals (sym a))) 20 (P + n mod P)) as (r & R1 & R2 & R3 & R4);
    [rewrite Z2Nat.id by lia; fold (scale (sym a)); fold P; lia|lia|].
  rewrite Z2Nat.id in R4 by lia. fold (scale (sym a)) in R4. fold P in R4.
  exists (digits 20 (n / P)), r. split; [|constructor; [done|done|done|done|lia|rewrite R4; fold n P; lia]].
  assert (Hto : ∀ m, 0 <= m < 2 ^ 63 → fc_to_string m = digits 20 m).
  { intros m Hm. rewrite fc_to_string_decimal by done. unfold to_string. by destruct (Z.ltb_spec m 0); [lia|]. }
  unfold asset_to_string, text. fold n. fold (sign_of a). unfold mbind, M_bind.
  rewrite int64_arith_run by (unfold is_signed; lia). rewrite Hp. cbn [lift].
  rewrite Z.quot_div_nonneg, Z.rem_mod_nonneg, Hto by lia.
  destruct (Z.eqb_spec (decimals (sym a)) 0) as [Hz|Hz]; cbn [negb].
  - unfold mret, M_ret. f_equal. by rewrite app_nil_r, <- app_assoc.
  - rewrite int64_arith_run by (unfold is_signed; lia). rewrite Hto, R1 by lia. unfold mret, M_ret. f_equal.
    cbn [drop]. by rewrite <- !app_assoc.
Qed.

(** *** Reading the parts *)

Lemma fc_to_int64_signed (neg : bool) s :
  s ≠ [] → forallb is_digit s = true → digits_value s < 2 ^ 63 →
  fc_to_int64 ((if neg then [minus] else []) ++ s) = Ok (if neg then - digits_value s else digits_value s).
Proof. intros Hs Hd Hv. destruct neg; [apply fc_to_int64_minus|apply fc_to_int64_digits]; (done || lia). Qed.

Lemma not_in_amount c a ip x :
  is_digit c = false → c ≠ minus → forallb is_digit ip = true → c ∉ x → c ∉ sign_of a ++ ip ++ x.
Proof.
  intros Hc Hm Hd Hx. rewrite !not_elem_of_app. split_and!; [|by apply digits_no_char|done].
  unfold sign_of. destruct (amount a <? 0); [by intros ->%list_elem_of_singleton|apply not_elem_of_nil].
Qed.

Lemma trim_name n : n ≠ [] → valid_name n = true → fc_trim n = n.
Proof.
  intros Hn Hv. destruct n as [|c n]; [done|]. cbn in Hv. apply andb_true_iff in Hv as [Hc Hv].
  apply fc_trim_id; [by apply upper_not_blank|]. intros l. by apply last_name.
Qed.

Lemma trim_asset_text a ip r :
  amount_digits a ip r → valid_name (name (sym a)) = true → name (sym a) ≠ [] → fc_trim (text a ip r) = text a ip r.
Proof.
  intros [D1 D2 _ _ _ _] Hv Hn.
  assert (Hlast : ∀ x l, last (x ++ space :: name (sym a)) = Some l → is_blank l = false).
  { intros x l. destruct (name (sym a)) as [|c n] eqn:Hname; [done|]. rewrite last_app, last_cons_cons.
    destruct (last (c :: n)) eqn:Hl; [|by rewrite last_None in Hl]. intros [= <-]. by eapply last_name. }
  assert (∃ c y, text a ip r = c :: y ∧ is_blank c = false) as (c & y & Ht & Hc).
  { unfold text, sign_of. destruct (amount a <? 0); [by eexists _, _|]. destruct ip as [|c ip]; [done|].
    cbn in D2. apply andb_true_iff in D2 as [Hc _]. eexists _, _. split; [done|by apply digit_not_blank]. }
  assert (Hl : ∀ l, last (text a ip r) = Some l → is_blank l = false) by (intros l; apply Hlast). rewrite Ht in *.
  apply fc_trim_id; [done|]. intros l Hy. apply Hl. destruct y; [done|]. by rewrite last_cons_cons.
Qed.

(** The amount that the parsed parts add up to. *)
Lemma read_amount a (x y : Z) :
  asset_wf a → x = (if amount a <? 0 then - (Z.abs (amount a) / scale (sym a)) else Z.abs (amount a) / scale (sym a)) →
  y = (if amount a <? 0 then - (Z.abs (amount a) mod scale (sym a)) else Z.abs (amount a) mod scale (sym a)) →
  (p ← lift (precision (sym a)); amount ← lift (safe_mul x p); amount ← lift (safe_add amount y);
   lift (make_asset amount (sym a))) tt = Done a tt.
Proof.
  intros Ha Hx Hy. pose proof Ha as (Hwf & Hv & Hr)%asset_wf_parts. unfold max_amount in Hr.
  destruct (scale_bounds _ Hwf Hv) as [Hsc Hp]. set (n := Z.abs (amount a)) in *. set (P := scale (sym a)) in *.
  pose proof (Z.div_mod n P ltac:(lia)). pose proof (Z.mod_pos_bound n P ltac:(lia)).
  assert (Hq : 0 <= n / P <= n) by (split; [apply Z.div_pos; lia|apply Z.div_le_upper_bound; nia]).
  assert (Hxs : is_signed 64 x) by (unfold is_signed; destruct (amount a <? 0); lia).
  assert (Hys : is_signed 64 y) by (unfold is_signed; destruct (amount a <? 0); lia).
  assert (Hm : safe_mul x P = Ok (x * P)).
  { apply safe_mul_Ok; [done|unfold is_signed; lia|]. split; [done|]. unfold is_signed. destruct (amount a <? 0); nia. }
  assert (Hxy : x * P + y = amount a) by (destruct (Z.ltb_spec (amount a) 0); nia).
  assert (Hadd : safe_add (x * P) y = Ok (amount a)).
  { apply safe_add_Ok; [|done|split; [lia|unfold is_signed; lia]]. unfold is_signed. destruct (amount a <? 0); nia. }
  unfold mbind, M_bind. rewrite Hp. cbn [lift]. fold P. rewrite Hm. cbn [lift]. rewrite Hadd. cbn [lift].
  destruct Ha as [_ [Hw Hvalid]%andb_true_iff]. unfold make_asset. destruct a as [m s]. cbn [amount sym] in *.
  by rewrite Hw, Hvalid.
Qed.

Lemma asset_from_text a ip r :
  asset_wf a → name (sym a) ≠ [] → amount_digits a ip r → asset_from_string (text a ip r) tt = Done a tt.
Proof.
  intros Ha Hn Hd. pose proof Ha as (Hwf & Hv & Hr)%asset_wf_parts. unfold max_amount in Hr.
  destruct (valid_split _ Hv) as [_ Hname]. destruct (scale_bounds _ Hwf Hv) as [Hsc _].
  unfold asset_from_string. rewrite trim_asset_text by done. destruct Hd as [D1 D2 D3 D4 D5 D6].
  assert (Hq : digits_value ip < 2 ^ 63).
  { rewrite D3. apply Z.le_lt_trans with (Z.abs (amount a)); [apply Z.div_le_upper_bound; nia|lia]. }
  assert (Hf : digits_value r < 2 ^ 63) by (rewrite D6; pose proof (Z.mod_pos_bound (Z.abs (amount a)) (scale (sym a))); lia).
  set (amt := sign_of a ++ ip ++ (if decimals (sym a) =? 0 then [] else point :: r)).
  assert (Hspace : space ∉ amt).
  { apply not_in_amount; [done|done|done|]. destruct (_ =? _); [apply not_elem_of_nil|].
    apply not_elem_of_cons. split; [done|by apply digits_no_char]. }
  unfold text. fold amt. rewrite find_char_app by done. destruct (take_drop_middle amt space (name (sym a))) as [-> ->].
  rewrite trim_name by done. unfold amt. destruct (Z.eqb_spec (decimals (sym a)) 0) as [H0|H0].
  - rewrite app_nil_r, find_char_None; [|rewrite <- (app_nil_r ip); apply not_in_amount; [done|done|done|apply not_elem_of_nil]].
    rewrite (bind_run _ _ _ _ _ (symbol_from_parts (sym a) 0 Hwf Hv ltac:(lia) (eq_sym H0))).
    unfold sign_of. rewrite fc_to_int64_signed by done. rewrite (bind_run _ _ _ _ _ (eq_refl : lift (Ok _) tt = Done _ tt)).
    assert (Hs1 : scale (sym a) = 1) by (unfold scale; by rewrite H0).
    apply read_amount; [done|by rewrite D3|]. rewrite Hs1, Z.mod_1_r. by destruct (_ <? _).
  - rewrite app_assoc. assert (Hpt : point ∉ sign_of a ++ ip).
    { rewrite <- (app_nil_r ip). apply not_in_amount; [done|done|done|apply not_elem_of_nil]. }
    rewrite find_char_app by done. destruct (take_drop_middle (sign_of a ++ ip) point r) as [-> ->].
    assert (Hlen : length ((sign_of a ++ ip) ++ point :: r) = (length (sign_of a ++ ip) + S (length r))%nat)
      by (by rewrite length_app).
    rewrite Hlen. destruct (Nat.eqb_spec (length (sign_of a ++ ip)) (length (sign_of a ++ ip) + S (length r) - 1)); [lia|].
    rewrite (bind_run _ _ _ _ _ (eq_refl : asserts (negb false) asset_type_exception tt = Done tt tt)).
    assert (Hdec : Z.of_nat (length (sign_of a ++ ip) + S (length r) - length (sign_of a ++ ip) - 1) = decimals (sym a)) by lia.
    destruct (symbol_parts _ Hwf) as (_ & Hd8 & _). assert (Hlt : ∀ d, d = decimals (sym a) → 0 <= d < 2 ^ 63) by lia.
    rewrite (bind_run _ _ _ _ _ (symbol_from_parts (sym a) _ Hwf Hv (Hlt _ Hdec) (wrap_decimals _ _ Hwf Hdec))).
    rewrite (fc_to_int64_signed (amount a <? 0) ip D1 D2 Hq : fc_to_int64 (sign_of a ++ ip) = _).
    rewrite (fc_to_int64_digits r) by (done || by destruct r; [cbn in D5; lia|]).
    rewrite !(bind_run _ _ _ _ _ (eq_refl : lift (Ok _) tt = Done _ tt)).
    assert (Hsign : (if bool_decide (head ((sign_of a ++ ip) ++ point :: r) = Some minus)
                     then lift (safe_mul (digits_value r) (-1)) else mret (digits_value r) : C Z) tt =
                    Done (if amount a <? 0 then - digits_value r else digits_value r) tt).
    { unfold sign_of. destruct (amount a <? 0); cbn [app head].
      - rewrite bool_decide_eq_true_2 by done. pose proof (Z.mod_pos_bound (Z.abs (amount a)) (scale (sym a))).
        assert (safe_mul (digits_value r) (-1) = Ok (- digits_value r)) as ->; [|done].
        apply safe_mul_Ok; [unfold is_signed; lia|unfold is_signed; lia|]. split; [lia|unfold is_signed; lia].
      - destruct ip as [|c ip]; [done|]. cbn in *. apply andb_true_iff in D2 as [Hc _].
        rewrite bool_decide_eq_false_2; [done|]. by intros [= ->]. }
    rewrite (bind_run _ _ _ _ _ Hsign). apply read_amount; [done|by rewrite D3|by rewrite D6].
Qed.

(** *** Values *)

Lemma string_to_symbol_loop_range i result str :
  is_unsigned 64 result → lwp (string_to_symbol_loop i result str) (λ v _, is_unsigned 64 v) tt.
Proof.
  revert i result. induction str as [|c str IH]; intros i result Hr; cbn [string_to_symbol_loop]; repeat lwp_step; [done|].
  destruct (8 * (i + 1) <? 64); simplify_eq. apply IH. apply lor_range; [lia|done|by apply wrap_range].
Qed.

Lemma string_to_symbol_range p str :
  is_unsigned 8 p → lwp (string_to_symbol p str) (λ v _, is_unsigned 64 v) tt.
Proof.
  intros Hp. unfold string_to_symbol. lwp_step. eapply lwp_mono; [by apply string_to_symbol_loop_range|].
  cbv beta. intros v [] Hv. lwp_step. apply lor_range; [lia|done|unfold is_unsigned in *; lia].
Qed.

Lemma make_symbol_Ok v s : make_symbol v = Ok s → s = Symbol v ∧ valid s = true.
Proof. unfold make_symbol. intros H. by simplify_res. Qed.

Lemma make_asset_Ok x s a : make_asset x s = Ok a → a = Asset x s ∧ is_valid a = true.
Proof. unfold make_asset, is_valid. intros H. simplify_res. by rewrite andb_true_iff. Qed.

Lemma symbol_from_string_wf text s : symbol_from_string text tt = Done s tt → symbol_wf s.
Proof.
  apply (lwp_Done _ (λ s _, symbol_wf s)). unfold symbol_from_string. repeat lwp_step.
  destruct (find_char _ _); [|lwp_step]. repeat lwp_step. eapply lwp_mono; [apply string_to_symbol_range; by apply wrap_range|].
  cbv beta. intros v [] Hv. lwp_step. match goal with H : make_symbol _ = Ok _ |- _ => by apply make_symbol_Ok in H as [-> _] end.
Qed.

Lemma make_asset_wf x s a : symbol_wf s → make_asset x s = Ok a → asset_wf a ∧ a = Asset x s.
Proof. intros Hs [-> Hv]%make_asset_Ok. by split. Qed.

Lemma wp_int64_arith x (Q : Z → unit → Prop) : is_signed 64 x → Q x tt → wp (int64_arith x) Q tt.
Proof. intros Hx HQ. unfold wp. by rewrite int64_arith_run. Qed.

(** The exact sum, if it is an asset. *)
Definition result_is (a : asset) (x : Z) (c : asset) (_ : unit) : Prop := asset_wf c ∧ c = Asset x (sym a).

Lemma wp_make_asset a x : asset_wf a → wp (lift (make_asset x (sym a))) (result_is a x) tt.
Proof. intros Ha. apply wp_lift. intros c Hc. by apply make_asset_wf in Hc; [|apply Ha]. Qed.

Lemma add_spec a b : asset_wf a → asset_wf b → wp (add a b) (result_is a (amount a + amount b)) tt.
Proof.
  intros Ha Hb. pose proof Ha as (_ & _ & Ra)%asset_wf_parts. pose proof Hb as (_ & _ & Rb)%asset_wf_parts.
  unfold add, same_symbol, max_amount in *. do 2 wp_step. wp_step. apply wp_int64_arith; [unfold is_signed; lia|].
  by apply wp_make_asset.
Qed.

Lemma sub_spec a b : asset_wf a → asset_wf b → wp (sub a b) (result_is a (amount a - amount b)) tt.
Proof.
  intros Ha Hb. pose proof Ha as (_ & _ & Ra)%asset_wf_parts. pose proof Hb as (_ & _ & Rb)%asset_wf_parts.
  unfold sub, same_symbol, max_amount in *. do 2 wp_step. wp_step. apply wp_int64_arith; [unfold is_signed; lia|].
  by apply wp_make_asset.
Qed.

Lemma negate_spec a : asset_wf a → wp (negate a) (result_is a (- amount a)) tt.
Proof.
  intros Ha. pose proof Ha as (_ & _ & Ra)%asset_wf_parts. unfold negate, max_amount in *. wp_step.
  apply wp_int64_arith; [unfold is_signed; lia|]. by apply wp_make_asset.
Qed.

Lemma asset_from_string_wf text a : asset_from_string text tt = Done a tt → asset_wf a.
Proof.
  assert (Hsym : ∀ x Q, (∀ s, symbol_wf s → Q s tt) → lwp (symbol_from_string x) Q tt).
  { intros x Q HQ. apply lwp_intro; [|intros s [] Hs; by apply HQ; eapply symbol_from_string_wf].
    apply (lwp_terminates _ (λ _ _, True)). unfold symbol_from_string. repeat lwp_step.
    destruct (find_char _ _); [|lwp_step]. repeat lwp_step. eapply lwp_mono; [apply string_to_symbol_range; by apply wrap_range|].
    cbv beta. intros v [] _. by lwp_step. }
  apply (lwp_Done _ (λ a _, asset_wf a)). unfold asset_from_string. destruct (find_char space _); [|lwp_step].
  destruct (find_char point _); repeat lwp_step; apply Hsym; intros s Hs; repeat lwp_step;
    try destruct (bool_decide _); repeat lwp_step;
    match goal with H : make_asset _ _ = Ok _ |- _ => by apply make_asset_wf in H as [? _] end.
Qed.

(** The assets that the operations make from 64-bit values. *)
Inductive asset_value : asset → Prop :=
  | value_make x s a : symbol_wf s → make_asset x s = Ok a → asset_value a
  | value_unpacked a : symbol_wf (sym a) → asset_verify a = Ok tt → asset_value a
  | value_parsed s a : asset_from_string s tt = Done a tt → asset_value a
  | value_add a b c : asset_value a → asset_value b → add a b tt = Done c tt → asset_value c
  | value_sub a b c : asset_value a → asset_value b → sub a b tt = Done c tt → asset_value c
  | value_negate a c : asset_value a → negate a tt = Done c tt → asset_value c.

Lemma asset_value_wf a : asset_value a → asset_wf a.
Proof.
  induction 1 as [x s a Hs H|a Hs H|s a H|a b c _ IHa _ IHb H|a b c _ IHa _ IHb H|a c _ IHa H].
  - by apply make_asset_wf in H as [? _].
  - split; [done|]. unfold asset_verify in H. unfold is_valid. simplify_res. by rewrite andb_true_iff.
  - by apply asset_from_string_wf in H.
  - by destruct (wp_Done _ _ _ _ _ (add_spec a b IHa IHb) H).
  - by destruct (wp_Done _ _ _ _ _ (sub_spec a b IHa IHb) H).
  - by destruct (wp_Done _ _ _ _ _ (negate_spec a IHa) H).
Qed.


(** C40: Printing a valid asset whose symbol has a name and parsing the text gives
    the asset back, whatever its sign and its number of decimals. *)
Theorem asset_roundtrip a :
  asset_wf a → name (sym a) ≠ [] →
  (s ← asset_to_string a; asset_from_string s) tt = Done a tt.
Proof.
  intros Ha Hn. destruct (asset_to_string_text a Ha) as (ip & r & Hs & Hd).
  rewrite (bind_run _ _ _ _ _ Hs). by apply asset_from_text.
Qed.

(** Printing a valid symbol and parsing the text gives the symbol back. *)
Theorem symbol_roundtrip s :
  symbol_wf s → valid s = true → symbol_from_string (symbol_to_string s) tt = Done s tt.
Proof.
  intros Hwf Hv. destruct (symbol_parts s Hwf) as (_ & Hd & _).
  apply symbol_from_parts; [done|done|lia|by apply wrap_decimals].
Qed.

(** The number of decimals of a symbol is truncated to eight bits before it
    is compared with the maximum, so that any multiple of 256 can be added to it. *)
Theorem symbol_precision_truncated s k :
  symbol_wf s → valid s = true → 0 <= k < 2 ^ 50 →
  symbol_from_string (to_string (decimals s + 256 * k) ++ comma :: name s) tt = Done s tt.
Proof.
  intros Hwf Hv Hk. destruct (symbol_parts s Hwf) as (_ & Hd & _). apply symbol_from_parts; [done|done|lia|].
  unfold wrap. rewrite Z.mul_comm. rewrite Z.mod_add by lia. by apply Z.mod_small.
Qed.
End text.

(** ** Examples *)

Module plain_fc.
Fixpoint trim_left (s : list ascii) : list ascii :=
  match s with
  | [] => []
  | c :: s' => if is_blank c then trim_left s' else s
  end.

(** Decimal numbers with an optional minus sign. *)
Definition parse (s : list ascii) : res Z :=
  let unsigned (s : list ascii) (limit : Z) :=
    EOS_ASSERT (negb (bool_decide (s = [])) && forallb is_digit s && (digits_value s <=? limit)) fc_parse_error_exception;;
    mret (digits_value s) in
  match s with
  | c :: s' => if Ascii.eqb c minus then n ← unsigned s' (2 ^ 63); mret (- n) else unsigned s (2 ^ 63 - 1)
  | [] => EOS_THROW fc_parse_error_exception
  end.

Definition exact (x : Z) : res Z :=
  if x >=? 2 ^ 63 then EOS_THROW fc_overflow_exception
  else if x <? - 2 ^ 63 then EOS_THROW fc_underflow_exception
  else mret x.

#[export] Instance lib : fc_lib := {|
  fc_trim s := trim_right_if is_blank (trim_left s);
  fc_to_string := to_string;
  fc_to_int64 := parse;
  safe_add a b := exact (a + b);
  safe_mul a b := exact (a * b) |}.

Lemma exact_Ok x c : exact x = Ok c ↔ c = x ∧ is_signed 64 c.
Proof.
  unfold exact, is_signed. destruct (x >=? 2 ^ 63) eqn:H1; [split; [done|lia]|].
  destruct (Z.ltb_spec x (- 2 ^ 63)); [split; [done|lia]|]. split; [intros [= <-]; lia|by intros [-> _]].
Qed.

Lemma trim_right_id l x : last l = Some x → is_blank x = false → trim_right_if is_blank l = l.
Proof.
  intros Hl Hx. induction l as [|c l IH]; [done|]. cbn. destruct l as [|d l].
  - injection Hl as ->. cbn. by rewrite Hx.
  - rewrite last_cons_cons in Hl. by rewrite (IH Hl).
Qed.

#[export] Instance lib_ok : fc_lib_ok.
Proof.
  constructor.
  - intros c s Hc Hs. cbn. rewrite Hc. destruct (last s) as [x|] eqn:Hl.
    + apply (trim_right_id _ x); [|auto]. destruct s; [done|]. by rewrite last_cons_cons.
    + apply last_None in Hl as ->. cbn. by rewrite Hc.
  - done.
  - intros s Hs Hd Hv. destruct s as [|c s]; [done|]. cbn [fc_to_int64 lib]. unfold parse.
    destruct (Ascii.eqb_spec c minus) as [->|_]; [done|]. rewrite bool_decide_eq_false_2, Hd by done.
    destruct (Z.leb_spec (digits_value (c :: s)) (2 ^ 63 - 1)); [done|lia].
  - intros s Hs Hd Hv. cbn [fc_to_int64 lib]. unfold parse. rewrite Ascii.eqb_refl, bool_decide_eq_false_2, Hd by done.
    destruct (Z.leb_spec (digits_value s) (2 ^ 63)); [done|lia].
  - intros a b c _ _. apply exact_Ok.
  - intros a b c _ _. apply exact_Ok.
Qed.
End plain_fc.

#[local] Existing Instance plain_fc.lib.
#[local] Existing Instance plain_fc.lib_ok.

Module coins.
(** Four decimals of EOS. *)
Definition eos : symbol := Symbol 1397703940.
Definition coin (x : Z) : asset := Asset x eos.
Definition read (s : string) : outcome unit asset := asset_from_string (list_ascii_of_string s) tt.

Lemma eos_wf : symbol_wf eos.
Proof. by split. Qed.
End coins.

Lemma asset_roundtrip_witness :
  asset_to_string (coins.coin (-5)) tt = Done (list_ascii_of_string "-0.0005 EOS") tt ∧
  coins.read "-0.0005 EOS" = Done (coins.coin (-5)) tt.
Proof.
  split; [vm_compute; reflexivity|].
  exact (asset_roundtrip (coins.coin (-5)) (conj coins.eos_wf eq_refl) ltac:(discriminate)).
Defined.

Lemma symbol_roundtrip_witness :
  symbol_to_string coins.eos = list_ascii_of_string "4,EOS" ∧
  symbol_from_string (list_ascii_of_string "4,EOS") tt = Done coins.eos tt.
Proof. split; [vm_compute; reflexivity|]. exact (symbol_roundtrip coins.eos coins.eos_wf eq_refl). Defined.

Lemma symbol_precision_truncated_witness :
  symbol_from_string (list_ascii_of_string "260,EOS") tt = Done coins.eos tt.
Proof. apply (symbol_precision_truncated coins.eos 1); [exact coins.eos_wf|reflexivity|lia]. Defined.


(** [operator +=] does not check the range that [operator +] checks: a sum of
    two valid assets that + refuses is an invalid asset, and adding once more
    overflows the 64-bit amount. *)
Theorem add_assign_leaves_range :
  let a := coins.coin max_amount in
  is_valid a = true ∧ add a a tt = Threw asset_type_exception ∧
  (∃ b, add_assign a a tt = Done b tt ∧ is_valid b = false) ∧
  (b ← add_assign a a; add_assign b a) tt = Undefined.
Proof. split_and!; [reflexivity|reflexivity|eexists; split; reflexivity|reflexivity]. Qed.

(** A sign is accepted after the decimal point: "1.-5 EOS" is read as 0.95. *)
Theorem asset_fraction_sign : coins.read "1.-5 EOS" = coins.read "0.95 EOS" ∧ coins.read "1.-5 EOS" ≠ Undefined.
Proof. vm_compute. done. Qed.

(** A name of more than seven letters is shifted out of the 64 bits. *)
Theorem long_symbol_name_undefined :
  string_to_symbol 4 (list_ascii_of_string "ABCDEFG") tt ≠ Undefined ∧
  string_to_symbol 4 (list_ascii_of_string "ABCDEFGH") tt = Undefined.
Proof. split; [by vm_compute|reflexivity]. Qed.
