(* ===== verification/IteratorCache.v ===== *)
(** * The iterator cache (apply_context.hpp)

    A contract names the rows it works on by integers: a cache hands out a
    non-negative iterator per row and an end iterator below -1 per table.  A
    pointer to a database object is the id of the object, which the database
    does not use again.  Sizes are converted to [int] as the code converts
    them. *)

From S2P Require Import Prelude Exceptions StateMonad.

Record iterator_cache : Type := IteratorCache {
  table_cache : gmap Z (Z * Z);               (* table id to table and end iterator *)
  end_iterator_to_table : list Z;
  iterator_to_object : list (option Z);
  object_to_iterator : gmap Z Z }.

Definition cache_empty : iterator_cache := IteratorCache ∅ [] [] ∅.

Definition int_min : Z := - 2 ^ 31.

(** [-ei - 2] overflows for the least [int], which has no defined result. *)
Definition end_iterator_to_index (ei : Z) : option Z :=
  if ei =? int_min then None else Some (u64 (i32 (- ei - 2))).

Definition index_to_end_iterator (indx : Z) : Z := i32 (u64 (- u64 (indx + 2))).

Definition cache_table (t : Z) : M iterator_cache Z :=
  c ← get;
  match table_cache c !! t with
  | Some (_, ei) => mret ei
  | None =>
      let ei := index_to_end_iterator (Z.of_nat (length (end_iterator_to_table c))) in
      modify (λ c, IteratorCache (<[t := (t, ei)]> (table_cache c)) (end_iterator_to_table c ++ [t])
                     (iterator_to_object c) (object_to_iterator c));;
      mret ei
  end.

Definition get_table (i : Z) : M iterator_cache Z :=
  c ← get;
  match table_cache c !! i with
  | Some (t, _) => mret t
  | None => throws table_not_in_cache
  end.

Definition get_end_iterator_by_table_id (i : Z) : M iterator_cache Z :=
  c ← get;
  match table_cache c !! i with
  | Some (_, ei) => mret ei
  | None => throws table_not_in_cache
  end.

Definition find_table_by_end_iterator (ei : Z) : M iterator_cache (option Z) :=
  asserts (ei <? -1) invalid_table_iterator;;
  indx ← deref (end_iterator_to_index ei);
  c ← get;
  mret (end_iterator_to_table c !! Z.to_nat indx).

(** The checks of an iterator that [get] and [remove] start with. *)
Definition check_iterator (iterator : Z) : M iterator_cache unit :=
  asserts (negb (iterator =? -1)) invalid_table_iterator;;
  asserts (iterator >=? 0) table_operation_not_permitted;;
  c ← get;
  asserts (iterator <? Z.of_nat (length (iterator_to_object c))) invalid_table_iterator.

Definition cache_get (iterator : Z) : M iterator_cache Z :=
  check_iterator iterator;;
  c ← get;
  match iterator_to_object c !! Z.to_nat iterator with
  | Some (Some result) => mret result
  | _ => throws table_operation_not_permitted
  end.

Definition cache_remove (iterator : Z) : M iterator_cache unit :=
  check_iterator iterator;;
  c ← get;
  match iterator_to_object c !! Z.to_nat iterator with
  | Some (Some obj_ptr) =>
      modify (λ c, IteratorCache (table_cache c) (end_iterator_to_table c)
                     (<[Z.to_nat iterator := None]> (iterator_to_object c))
                     (delete obj_ptr (object_to_iterator c)))
  | _ => mret tt
  end.

Definition cache_add (obj : Z) : M iterator_cache Z :=
  c ← get;
  match object_to_iterator c !! obj with
  | Some itr => mret itr
  | None =>
      let itr := i32 (Z.of_nat (length (iterator_to_object c))) in
      modify (λ c, IteratorCache (table_cache c) (end_iterator_to_table c)
                     (iterator_to_object c ++ [Some obj]) (<[obj := itr]> (object_to_iterator c)));;
      mret itr
  end.

(** ** Well-formed caches *)

(** The sizes fit the iterators, which the comments of the code require. *)
Definition cache_small (c : iterator_cache) : Prop :=
  Z.of_nat (length (iterator_to_object c)) < 2 ^ 31 - 2 ∧
  Z.of_nat (length (end_iterator_to_table c)) < 2 ^ 31 - 2.

Definition denotes (c : iterator_cache) (i o : Z) : Prop :=
  0 <= i ∧ iterator_to_object c !! Z.to_nat i = Some (Some o).

Record cache_wf (c : iterator_cache) : Prop := {
  wf_objects : ∀ o i, object_to_iterator c !! o = Some i ↔ denotes c i o;
  wf_tables : ∀ t p ei, table_cache c !! t = Some (p, ei) →
    p = t ∧ ∃ n, end_iterator_to_table c !! n = Some t ∧ ei = - (Z.of_nat n + 2);
  wf_ends : ∀ n t, end_iterator_to_table c !! n = Some t →
    table_cache c !! t = Some (t, - (Z.of_nat n + 2)) }.

Lemma cache_empty_wf : cache_wf cache_empty.
Proof.
  constructor; cbn.
  - intros o i. rewrite lookup_empty. unfold denotes. cbn. split; [done|]. intros [_ H].
    by rewrite lookup_nil in H.
  - intros t p ei. by rewrite lookup_empty.
  - intros n t. by rewrite lookup_nil.
Qed.

Lemma index_to_end_iterator_id n : 0 <= n < 2 ^ 31 - 2 → index_to_end_iterator n = - (n + 2).
Proof. intros Hn. unfold index_to_end_iterator, swrap, wrap. div_lia. Qed.

Lemma end_iterator_to_index_id n :
  0 <= n < 2 ^ 31 - 2 → end_iterator_to_index (- (n + 2)) = Some n.
Proof.
  intros Hn. unfold end_iterator_to_index, int_min. destruct (Z.eqb_spec (- (n + 2)) (- 2 ^ 31)); [lia|].
  f_equal. rewrite swrap_id by (unfold is_signed; lia). rewrite wrap_id by (unfold is_unsigned; lia). lia.
Qed.

(** What the operations do. *)
Definition same_objects (c c' : iterator_cache) : Prop :=
  iterator_to_object c' = iterator_to_object c ∧ object_to_iterator c' = object_to_iterator c.
Definition same_tables (c c' : iterator_cache) : Prop :=
  table_cache c' = table_cache c ∧ end_iterator_to_table c' = end_iterator_to_table c.

Lemma cache_table_spec c t :
  cache_wf c → Z.of_nat (length (end_iterator_to_table c)) < 2 ^ 31 - 2 →
  wp (cache_table t) (λ ei c',
    cache_wf c' ∧ same_objects c c' ∧ table_cache c' !! t = Some (t, ei) ∧
    (∀ t', t' ≠ t → table_cache c' !! t' = table_cache c !! t') ∧ ei < -1) c.
Proof.
  intros Hwf Hs. unfold cache_table. wp_step. wp_step.
  destruct (table_cache c !! t) as [[p ei]|] eqn:Ht.
  - wp_step. destruct (wf_tables c Hwf t p ei Ht) as [-> (n & _ & ->)].
    split_and!; [done|done|done|done|lia].
  - repeat wp_step. cbn. rewrite index_to_end_iterator_id by lia.
    split_and!; [|done|by rewrite lookup_insert_eq| |lia].
    + constructor; cbn.
      * apply Hwf.
      * intros t' p ei [(<- & [= <- <-])|(Hne & H)]%lookup_insert_Some.
        { split; [done|]. exists (length (end_iterator_to_table c)).
          split; [|done]. rewrite lookup_app_r, Nat.sub_diag by done. done. }
        destruct (wf_tables c Hwf t' p ei H) as [-> (n & Hn & ->)]. split; [done|].
        exists n. split; [|done]. by apply lookup_app_l_Some.
      * intros n t'. rewrite lookup_app_Some. intros [Hn|(Hn & H)].
        { rewrite lookup_insert_ne; [by apply Hwf|]. intros <-.
          apply (wf_ends c Hwf) in Hn. congruence. }
        apply list_lookup_singleton_Some in H as [Hn' <-]. rewrite lookup_insert_eq.
        repeat f_equal. lia.
    + intros t' Ht'. by rewrite lookup_insert_ne.
Qed.

Lemma get_table_spec c i t ei Q :
  table_cache c !! i = Some (t, ei) → cache_wf c → Q i c → wp (get_table i) Q c.
Proof.
  intros Hi Hwf HQ. unfold get_table. repeat wp_step. rewrite Hi.
  destruct (wf_tables c Hwf i t ei Hi) as [-> _]. done.
Qed.

Lemma check_iterator_spec c iterator (Q : unit → iterator_cache → Prop) :
  (0 <= iterator < Z.of_nat (length (iterator_to_object c)) → Q tt c) → wp (check_iterator iterator) Q c.
Proof. intros HQ. unfold check_iterator. repeat wp_step. zbool. apply HQ. lia. Qed.

Lemma cache_get_spec c iterator :
  wp (cache_get iterator) (λ o c', c' = c ∧ denotes c iterator o) c.
Proof.
  unfold cache_get. wp_step. apply check_iterator_spec. intros Hi. repeat wp_step.
  destruct (iterator_to_object c !! Z.to_nat iterator) as [[o|]|] eqn:Ho; wp_step.
  split; [done|]. split; [lia|done].
Qed.

Lemma cache_get_denotes c i o : denotes c i o → cache_get i c = Done o c.
Proof.
  intros [Hi Ho]. pose proof (lookup_lt_Some _ _ _ Ho) as Hl.
  unfold cache_get, check_iterator, asserts.
  assert (Hb : ∀ b e, b = true → lift (EOS_ASSERT b e) c = Done tt c) by (by intros b e ->).
  erewrite bind_run; [|erewrite bind_run by (apply Hb; lia); erewrite bind_run by (apply Hb; lia);
    erewrite bind_run by done; apply Hb; lia].
  erewrite bind_run by done. by rewrite Ho.
Qed.

Lemma denotes_inj c i j o : cache_wf c → denotes c i o → denotes c j o → i = j.
Proof. intros Hwf Hi Hj. apply (wf_objects c Hwf) in Hi, Hj. congruence. Qed.

Lemma cache_remove_spec c iterator :
  cache_wf c →
  wp (cache_remove iterator) (λ _ c',
    cache_wf c' ∧ same_tables c c' ∧ length (iterator_to_object c') = length (iterator_to_object c) ∧
    ∀ i o, denotes c' i o ↔ denotes c i o ∧ i ≠ iterator) c.
Proof.
  intros Hwf. unfold cache_remove. wp_step. apply check_iterator_spec. intros Hi. repeat wp_step.
  destruct (iterator_to_object c !! Z.to_nat iterator) as [[o|]|] eqn:Ho; wp_step; cbn.
  - assert (Hd : ∀ i o',
      denotes (IteratorCache (table_cache c) (end_iterator_to_table c)
                 (<[Z.to_nat iterator:=None]> (iterator_to_object c)) (delete o (object_to_iterator c))) i o' ↔
      denotes c i o' ∧ i ≠ iterator).
    { intros i o'. unfold denotes. cbn. destruct (decide (i = iterator)) as [->|Hne].
      - rewrite list_lookup_insert_eq by lia. naive_solver.
      - split; [intros [H0 H]|intros [[H0 H] _]]; (split; [split|]||split); try done;
          rewrite list_lookup_insert_ne in * by lia; done. }
    split_and!; [|done|by rewrite length_insert|done]. constructor; [|apply Hwf|apply Hwf]. cbn.
    intros o' i. rewrite Hd, <- (wf_objects c Hwf). destruct (decide (o' = o)) as [->|Hne].
    + rewrite lookup_delete_eq. split; [done|]. intros [H Hne]. destruct Hne.
      apply (wf_objects c Hwf) in H. eapply denotes_inj; [done|done|]. split; [lia|done].
    + rewrite lookup_delete_ne by done. split; [|tauto]. intros H. split; [done|]. intros ->.
      apply (wf_objects c Hwf) in H as [_ H]. congruence.
  - split_and!; try done. intros i o. split; [|tauto]. intros [H0 H]. split; [done|]. intros ->. congruence.
  - apply lookup_ge_None in Ho. lia.
Qed.

Lemma cache_add_spec c obj :
  cache_wf c → Z.of_nat (length (iterator_to_object c)) < 2 ^ 31 - 2 →
  wp (cache_add obj) (λ itr c',
    cache_wf c' ∧ same_tables c c' ∧ denotes c' itr obj ∧
    ∀ i o, denotes c' i o ↔ denotes c i o ∨ (i = itr ∧ o = obj)) c.
Proof.
  intros Hwf Hs. unfold cache_add. repeat wp_step.
  destruct (object_to_iterator c !! obj) as [itr|] eqn:Ho.
  - wp_step. pose proof Ho as Hd. apply (wf_objects c Hwf) in Hd. split_and!; try done.
    intros i o. naive_solver.
  - repeat wp_step. cbn. rewrite swrap_id by (unfold is_signed; lia).
    set (n := length (iterator_to_object c)) in *.
    assert (Hd : ∀ i o,
      denotes (IteratorCache (table_cache c) (end_iterator_to_table c) (iterator_to_object c ++ [Some obj])
                 (<[obj := Z.of_nat n]> (object_to_iterator c))) i o ↔
      denotes c i o ∨ (i = Z.of_nat n ∧ o = obj)).
    { intros i o. unfold denotes. cbn. rewrite lookup_app_Some. fold n.
      rewrite list_lookup_singleton_Some. split.
      - intros [H0 [H|(H & H1 & H2)]]; [by left|right]. split; [lia|congruence].
      - intros [[H0 H]|[-> ->]]; [by auto|]. split; [lia|right]. split; [lia|]. split; [lia|done]. }
    split_and!; [|done|apply Hd; by right|done]. constructor; [|apply Hwf|apply Hwf]. cbn.
    intros o i. rewrite Hd, <- (wf_objects c Hwf). rewrite lookup_insert_Some. split.
    + intros [[<- <-]|[_ H]]; [by right|by left].
    + intros [H|[-> ->]]; [|by left]. right. split; [congruence|done].
Qed.

Lemma find_table_by_end_iterator_run c n :
  0 <= n < 2 ^ 31 - 2 →
  find_table_by_end_iterator (- (n + 2)) c = Done (end_iterator_to_table c !! Z.to_nat n) c.
Proof.
  intros Hn. unfold find_table_by_end_iterator, asserts. rewrite (proj2 (Z.ltb_lt _ _)) by lia.
  erewrite bind_run by done. erewrite bind_run by (by rewrite end_iterator_to_index_id by lia). done.
Qed.
