(* ===== verification/BlockHeaderState.v ===== *)
(** * Block headers and header states (block_timestamp.hpp, producer_schedule.hpp,
      block_header.hpp/.cpp, block_header_state.hpp/.cpp)

    The state that is carried from one block header to the next: the producer
    schedule, the confirmations that make a block irreversible, and the
    validation of a new header.  Keys, signatures and hashes belong to the
    crypto library and are parameters. *)

From S2P Require Import Prelude Exceptions Config Database Merkle Transaction.

(** ** Time slots *)

(** [operator time_point]: microseconds since the Unix epoch. *)
Definition slot_to_time_point (slot : Z) : Z :=
  let msec := i64 (slot * config.block_interval_ms) in
  let msec := i64 (msec + config.block_timestamp_epoch) in
  i64 (msec * 1000).

(** [set_time_point]: the arithmetic is unsigned because the epoch is. *)
Definition slot_of_time_point (t : Z) : Z :=
  let msec_since_epoch := Z.quot t 1000 in
  u32 (u64 (msec_since_epoch - config.block_timestamp_epoch) / config.block_interval_ms).

Definition slot_next (slot : Z) : res Z :=
  EOS_ASSERT (uint32_max - slot >=? 1) fc_assert_exception;;
  mret (u32 (slot + 1)).

Definition slot_maximum : Z := 0xffff.

Section header.
Context {K Sig : Type} `{EqDecision K}.

Record producer_key : Type := ProducerKey { producer_name : Z; block_signing_key : K }.

Record producer_schedule_type : Type := ProducerSchedule {
  version : Z;
  producers : list producer_key }.

#[export] Instance producer_key_eq_dec : EqDecision producer_key.
Proof. solve_decision. Defined.

Record block_header : Type := BlockHeader {
  timestamp : Z;             (* slot *)
  producer : Z;
  confirmed : Z;             (* uint16_t *)
  previous : digest_type;
  transaction_mroot : digest_type;
  action_mroot : digest_type;
  schedule_version : Z;
  new_producers : option producer_schedule_type;
  header_extensions : list (Z * bytes) }.

Record signed_block_header : Type := SignedBlockHeader {
  sbh_header :> block_header;
  producer_signature : Sig }.

Record header_confirmation : Type := HeaderConfirmation {
  hc_block_id : digest_type; hc_producer : Z; hc_signature : Sig }.

Record block_header_state : Type := BlockHeaderState {
  bhs_id : digest_type;
  bhs_block_num : Z;
  bhs_header : signed_block_header;
  bhs_proposed : Z;               (* dpos_proposed_irreversible_blocknum *)
  bhs_irreversible : Z;           (* dpos_irreversible_blocknum *)
  bhs_bft_irreversible : Z;       (* bft_irreversible_blocknum *)
  bhs_pending_lib_num : Z;        (* pending_schedule_lib_num *)
  bhs_pending_hash : digest_type; (* pending_schedule_hash *)
  bhs_pending : producer_schedule_type;
  bhs_active : producer_schedule_type;
  bhs_merkle : incremental_merkle;
  bhs_last_produced : gmap Z Z;   (* producer_to_last_produced *)
  bhs_last_irb : gmap Z Z;        (* producer_to_last_implied_irb *)
  bhs_signing_key : K;
  bhs_confirm_count : list Z;     (* uint8_t *)
  bhs_confirmations : list header_confirmation }.

(** The default-constructed key and signature, the hashes, key recovery and
    [fc::endian_reverse_u32]. *)
Variable default_key : K.
Variable default_sig : Sig.
Variable hash_header : block_header → digest_type.
Variable hash_pair : digest_type * digest_type → digest_type.
Variable hash_schedule : producer_schedule_type → digest_type.
Variable recover : Sig → digest_type → res K.
Variable endian_reverse_u32 : Z → Z.

(** [get_producer_key]. *)
Definition get_producer_key (s : producer_schedule_type) (p : Z) : K :=
  match list_find (λ i, producer_name i = p) (producers s) with
  | Some (_, i) => block_signing_key i
  | None => default_key
  end.

Definition num_from_id (id : digest_type) : Z := endian_reverse_u32 (u32 (_hash0 id)).
Definition header_block_num (h : block_header) : Z := u32 (num_from_id (previous h) + 1).

Definition header_id (h : block_header) : digest_type :=
  let result := hash_header h in
  Digest (u64 (Z.land (_hash0 result) 0xffffffff00000000 + endian_reverse_u32 (header_block_num h)))
    (_hash1 result) (_hash2 result) (_hash3 result).

Definition is_active_producer (s : block_header_state) (n : Z) : bool :=
  bool_decide (is_Some (bhs_last_produced s !! n)).

(** An empty schedule has no scheduled producer. *)
Definition get_scheduled_producer (s : block_header_state) (slot : Z) : option producer_key :=
  let n := Z.of_nat (length (producers (bhs_active s))) in
  if n =? 0 then None
  else producers (bhs_active s) !!
         Z.to_nat (slot mod (n * config.producer_repetitions) / config.producer_repetitions).

Definition calc_dpos_last_irreversible (irb : gmap Z Z) : Z :=
  let blocknums := merge_sort Z.le (map snd (map_to_list irb)) in
  if (length blocknums =? 0)%nat then 0
  else blocknums !!! ((length blocknums - 1) / 3)%nat.

(** [blockroot_merkle.append( id )]; the tree of a header state always has
    the active nodes that the append reads. *)
Definition merkle_append (t : incremental_merkle) (d : digest_type) : incremental_merkle :=
  match append hash_pair t d with Some (_, t) => t | None => t end.

Definition merkle_get_root (t : incremental_merkle) : digest_type := default digest_zero (get_root t).

Definition grow_confirm_count (counts : list Z) (required_confs : Z) : list Z :=
  if Z.of_nat (length counts) <? config.maximum_tracked_dpos_confirmations
  then counts ++ [u8 required_confs]
  else tail counts ++ [u8 required_confs].

(** The slot of the next header: the one asked for, or the one that follows. *)
Definition next_slot (s : block_header_state) (when : Z) : res Z :=
  if negb (when =? 0)
  then EOS_ASSERT (when >? timestamp (bhs_header s)) block_validate_exception;; mret when
  else mret (u32 (timestamp (bhs_header s) + 1)).

(** The state [generate_next] fills in for the slot [when] of the producer
    [prokey]. *)
Definition next_template (s : block_header_state) (when : Z) (prokey : producer_key) : block_header_state :=
  let block_num := u32 (bhs_block_num s + 1) in
  let irb := <[producer_name prokey := bhs_proposed s]> (bhs_last_irb s) in
  let num_active_producers := Z.of_nat (length (producers (bhs_active s))) in
  let required_confs := u32 (num_active_producers * 2 / 3 + 1) in
  BlockHeaderState digest_zero block_num
    (SignedBlockHeader
       (BlockHeader when (producer_name prokey) 1 (bhs_id s) digest_zero digest_zero
          (version (bhs_active s)) None []) default_sig)
    (bhs_proposed s) (calc_dpos_last_irreversible irb) (bhs_bft_irreversible s)
    (bhs_pending_lib_num s) (bhs_pending_hash s) (bhs_pending s) (bhs_active s)
    (merkle_append (bhs_merkle s) (bhs_id s))
    (<[producer_name prokey := block_num]> (bhs_last_produced s)) irb
    (block_signing_key prokey)
    (grow_confirm_count (bhs_confirm_count s) required_confs) [].

(** A schedule without producers makes the code index an empty vector; the
    scheduled producer is then undefined and [None] is returned. *)
Definition generate_next (s : block_header_state) (when : Z) : option (res block_header_state) :=
  match next_slot s when with
  | Throw e => Some (Throw e)
  | Ok when =>
      prokey ← get_scheduled_producer s when;
      Some (Ok (next_template s when prokey))
  end.

(** The numbers kept for the producers of a new schedule. *)
Definition carry_over (old : gmap Z Z) (lib : Z) (ps : list producer_key) : gmap Z Z :=
  foldl (λ m pro, <[producer_name pro := default lib (old !! producer_name pro)]> m) ∅ ps.

Definition maybe_promote_pending (s : block_header_state) : bool * block_header_state :=
  if negb (length (producers (bhs_pending s)) =? 0)%nat && (bhs_irreversible s >=? bhs_pending_lib_num s)
  then
    let active := bhs_pending s in
    (true,
     BlockHeaderState (bhs_id s) (bhs_block_num s) (bhs_header s) (bhs_proposed s) (bhs_irreversible s)
       (bhs_bft_irreversible s) (bhs_pending_lib_num s) (bhs_pending_hash s)
       (ProducerSchedule (version active) []) active (bhs_merkle s)
       (<[producer (bhs_header s) := bhs_block_num s]>
          (carry_over (bhs_last_produced s) (bhs_irreversible s) (producers active)))
       (carry_over (bhs_last_irb s) (bhs_irreversible s) (producers active))
       (bhs_signing_key s) (bhs_confirm_count s) (bhs_confirmations s))
  else (false, s).

Definition with_header (s : block_header_state) (h : signed_block_header) : block_header_state :=
  BlockHeaderState (bhs_id s) (bhs_block_num s) h (bhs_proposed s) (bhs_irreversible s)
    (bhs_bft_irreversible s) (bhs_pending_lib_num s) (bhs_pending_hash s) (bhs_pending s) (bhs_active s)
    (bhs_merkle s) (bhs_last_produced s) (bhs_last_irb s) (bhs_signing_key s) (bhs_confirm_count s)
    (bhs_confirmations s).

Definition set_new_producers (s : block_header_state) (pending : producer_schedule_type) : res block_header_state :=
  EOS_ASSERT (version pending =? u32 (version (bhs_active s) + 1)) producer_schedule_exception;;
  EOS_ASSERT (length (producers (bhs_pending s)) =? 0)%nat producer_schedule_exception;;
  let h := bhs_header s in
  mret (BlockHeaderState (bhs_id s) (bhs_block_num s)
    (SignedBlockHeader
       (BlockHeader (timestamp h) (producer h) (confirmed h) (previous h) (transaction_mroot h)
          (action_mroot h) (schedule_version h) (Some pending) (header_extensions h)) (producer_signature h))
    (bhs_proposed s) (bhs_irreversible s) (bhs_bft_irreversible s) (bhs_block_num s)
    (hash_schedule pending) pending (bhs_active s) (bhs_merkle s) (bhs_last_produced s) (bhs_last_irb s)
    (bhs_signing_key s) (bhs_confirm_count s) (bhs_confirmations s)).

(** The loop of [set_confirmed] over the indices below [n], from the top:
    the counts left, and the index whose count reached zero. *)
Fixpoint confirm_loop (n : nat) (blocks_to_confirm : Z) (confirm_count : list Z) : list Z * option nat :=
  match n with
  | O => (confirm_count, None)
  | S i =>
      if blocks_to_confirm =? 0 then (confirm_count, None)
      else
        let c := u8 (confirm_count !!! i - 1) in
        let confirm_count := <[i := c]> confirm_count in
        if c =? 0 then (drop (S i) confirm_count, Some i)
        else confirm_loop i (u32 (blocks_to_confirm - 1)) confirm_count
  end.

Definition set_confirmed (s : block_header_state) (num_prev_blocks : Z) : block_header_state :=
  let h := bhs_header s in
  let size := length (bhs_confirm_count s) in
  let '(counts, zero_at) := confirm_loop size (num_prev_blocks + 1) (bhs_confirm_count s) in
  let proposed :=
    match zero_at with
    | Some i => u32 (bhs_block_num s - u32 (Z.of_nat size - 1 - Z.of_nat i))
    | None => bhs_proposed s
    end in
  BlockHeaderState (bhs_id s) (bhs_block_num s)
    (SignedBlockHeader
       (BlockHeader (timestamp h) (producer h) num_prev_blocks (previous h) (transaction_mroot h)
          (action_mroot h) (schedule_version h) (new_producers h) (header_extensions h)) (producer_signature h))
    proposed (bhs_irreversible s) (bhs_bft_irreversible s) (bhs_pending_lib_num s) (bhs_pending_hash s)
    (bhs_pending s) (bhs_active s) (bhs_merkle s) (bhs_last_produced s) (bhs_last_irb s)
    (bhs_signing_key s) counts (bhs_confirmations s).

Definition state_sig_digest (s : block_header_state) : digest_type :=
  let header_bmroot := hash_pair (hash_header (bhs_header s), merkle_get_root (bhs_merkle s)) in
  hash_pair (header_bmroot, bhs_pending_hash s).

Definition signee (s : block_header_state) : res K :=
  recover (producer_signature (bhs_header s)) (state_sig_digest s).

Definition sign (s : block_header_state) (signer : digest_type → Sig) : res block_header_state :=
  let d := state_sig_digest s in
  let h := sbh_header (bhs_header s) in
  let sig := signer d in
  k ← recover sig d;
  EOS_ASSERT (bool_decide (bhs_signing_key s = k)) wrong_signing_key;;
  mret (with_header s (SignedBlockHeader h sig)).

(** The roots, the signature and the id that [next] takes over from [h]. *)
Definition complete_header (r : block_header_state) (h : signed_block_header) : block_header_state :=
  let rh := bhs_header r in
  let rh := SignedBlockHeader
    (BlockHeader (timestamp rh) (producer rh) (confirmed rh) (previous rh) (transaction_mroot h)
       (action_mroot h) (schedule_version rh) (new_producers rh) (header_extensions rh)) (producer_signature h) in
  BlockHeaderState (header_id rh) (bhs_block_num r) rh (bhs_proposed r) (bhs_irreversible r)
    (bhs_bft_irreversible r) (bhs_pending_lib_num r) (bhs_pending_hash r) (bhs_pending r) (bhs_active r)
    (bhs_merkle r) (bhs_last_produced r) (bhs_last_irb r) (bhs_signing_key r) (bhs_confirm_count r)
    (bhs_confirmations r).

(** The producer schedule a header brings, if any. *)
Definition apply_new_producers (promoted : bool) (r : block_header_state)
    (new : option producer_schedule_type) : res block_header_state :=
  match new with
  | Some pending =>
      EOS_ASSERT (negb promoted) producer_schedule_exception;;
      set_new_producers r pending
  | None => mret r
  end.

(** The range of blocks a producer confirms starts after its last block. *)
Definition check_double_confirm (s result : block_header_state) (h : signed_block_header) : res unit :=
  match bhs_last_produced s !! producer h with
  | Some last => EOS_ASSERT (last <? u32 (bhs_block_num result - confirmed h)) producer_double_confirm
  | None => mret ()
  end.

(** [next] on the state that [generate_next] has produced. *)
Definition next_from (s result : block_header_state) (h : signed_block_header) (trust : bool) : res block_header_state :=
  EOS_ASSERT (producer (bhs_header result) =? producer h) wrong_producer;;
  EOS_ASSERT (schedule_version (bhs_header result) =? schedule_version h) producer_schedule_exception;;
  check_double_confirm s result h;;
  let result := set_confirmed result (confirmed h) in
  let '(was_pending_promoted, result) := maybe_promote_pending result in
  result ← apply_new_producers was_pending_promoted result (new_producers h);
  let r := complete_header result h in
  if trust then mret r
  else
    k ← signee r;
    EOS_ASSERT (bool_decide (bhs_signing_key r = k)) wrong_signing_key;;
    mret r.

(** The checks of [next] before a state is generated. *)
Definition next_guards (s : block_header_state) (h : signed_block_header) : res unit :=
  EOS_ASSERT (negb (timestamp h =? 0)) block_validate_exception;;
  EOS_ASSERT (length (header_extensions h) =? 0)%nat block_validate_exception;;
  EOS_ASSERT (timestamp h >? timestamp (bhs_header s)) block_validate_exception;;
  EOS_ASSERT (bool_decide (previous h = bhs_id s)) unlinkable_block_exception.

Definition next (s : block_header_state) (h : signed_block_header) (trust : bool) : option (res block_header_state) :=
  match next_guards s h with
  | Throw e => Some (Throw e)
  | Ok _ =>
      generated ← generate_next s (timestamp h);
      Some (result ← generated; next_from s result h trust)
  end.

Definition add_confirmation (s : block_header_state) (conf : header_confirmation) : res block_header_state :=
  EOS_ASSERT (forallb (λ c, negb (hc_producer c =? hc_producer conf)) (bhs_confirmations s)) producer_double_confirm;;
  let key := get_producer_key (bhs_active s) (hc_producer conf) in
  EOS_ASSERT (negb (bool_decide (key = default_key))) producer_not_in_schedule;;
  signer ← recover (hc_signature conf) (state_sig_digest s);
  EOS_ASSERT (bool_decide (signer = key)) wrong_signing_key;;
  mret (BlockHeaderState (bhs_id s) (bhs_block_num s) (bhs_header s) (bhs_proposed s) (bhs_irreversible s)
    (bhs_bft_irreversible s) (bhs_pending_lib_num s) (bhs_pending_hash s) (bhs_pending s) (bhs_active s)
    (bhs_merkle s) (bhs_last_produced s) (bhs_last_irb s) (bhs_signing_key s) (bhs_confirm_count s)
    (bhs_confirmations s ++ [conf])).

(** ** Producing a header (controller.cpp) *)

(** The header part of [start_block]: [proposed] is the schedule of the global
    properties with the block it was proposed in. *)
Definition start_block_header (s : block_header_state) (when confirm_block_count : Z)
    (proposed : option (Z * producer_schedule_type)) : option (res block_header_state) :=
  generated ← generate_next s when;
  Some (p ← generated;
        let '(was_pending_promoted, p) := maybe_promote_pending (set_confirmed p confirm_block_count) in
        match proposed with
        | Some (proposed_schedule_block_num, proposed_schedule) =>
            if (proposed_schedule_block_num <=? bhs_irreversible p) &&
               (length (producers (bhs_pending p)) =? 0)%nat && negb was_pending_promoted
            then set_new_producers p proposed_schedule
            else mret p
        | None => mret p
        end).

(** The header part of [finalize_block], with the two Merkle roots given. *)
Definition finalize_block_header (p : block_header_state) (action_root trx_root : digest_type) : block_header_state :=
  let h := bhs_header p in
  complete_header p (SignedBlockHeader
    (BlockHeader (timestamp h) (producer h) (confirmed h) (previous h) trx_root action_root
       (schedule_version h) (new_producers h) (header_extensions h)) (producer_signature h)).

Definition produce_header (s : block_header_state) (when confirm_block_count : Z)
    (proposed : option (Z * producer_schedule_type)) (action_root trx_root : digest_type)
    (signer : digest_type → Sig) : option (res block_header_state) :=
  started ← start_block_header s when confirm_block_count proposed;
  Some (p ← started; sign (finalize_block_header p action_root trx_root) signer).

(** ** The last irreversible block *)

(** Drops the parameters a statement does not mention. *)
Ltac drop_parameters :=
  try clear default_key; try clear default_sig; try clear hash_header; try clear hash_pair;
  try clear hash_schedule; try clear recover; try clear endian_reverse_u32.

#[local] Set Default Proof Using "Type".

(** The producers that have implied that block [v] is irreversible. *)
Definition implied_by (irb : gmap Z Z) (v : Z) : nat :=
  length (filter (λ x, v <= x) (map snd (map_to_list irb))).

Lemma sorted_count_ge l i (x : Z) :
  StronglySorted Z.le l → l !! i = Some x →
  (length l - i <= length (filter (λ y, (x <= y)%Z) l))%nat.
Proof.
  drop_parameters.
  intros Hs Hi. rewrite <- (take_drop_middle l i x Hi) in Hs |- *.
  apply StronglySorted_app_1_r in Hs. apply StronglySorted_cons in Hs as [Hge _].
  rewrite filter_app, !length_app, length_cons.
  assert (Hall : filter (λ y, x <= y) (x :: drop (S i) l) = x :: drop (S i) l).
  { rewrite filter_cons_True by lia. f_equal. by apply filter_all. }
  rewrite Hall. pose proof (lookup_lt_Some _ _ _ Hi). rewrite length_take, length_cons, !length_drop. lia.
Qed.

Lemma sorted_count_gt l i (x v : Z) :
  StronglySorted Z.le l → l !! i = Some x → x < v →
  (length (filter (λ y, (v <= y)%Z) l) <= length l - S i)%nat.
Proof.
  drop_parameters.
  intros Hs Hi Hv. rewrite <- (take_drop_middle l i x Hi) in Hs |- *.
  rewrite filter_app, length_app.
  assert (Hnone : filter (λ y, v <= y) (take i l) = []).
  { apply filter_none, Forall_forall. intros y Hy.
    assert (y <= x); [|lia]. eapply StronglySorted_app_1_elem_of; eauto using list_elem_of_here. }
  rewrite Hnone, filter_cons_False, length_app, length_cons, length_drop by lia.
  pose proof (lookup_lt_Some _ _ _ Hi). rewrite length_take. cbn [length].
  pose proof (length_filter (λ y, v <= y) (drop (S i) l)). rewrite length_drop in *. lia.
Qed.

Lemma calc_dpos_cases irb :
  (irb = ∅ ∧ calc_dpos_last_irreversible irb = 0) ∨
  (irb ≠ ∅ ∧ (∃ p, irb !! p = Some (calc_dpos_last_irreversible irb)) ∧
   (2 * size irb < 3 * implied_by irb (calc_dpos_last_irreversible irb))%nat ∧
   ∀ v, calc_dpos_last_irreversible irb < v → (3 * implied_by irb v <= 2 * size irb)%nat).
Proof.
  drop_parameters.
  unfold calc_dpos_last_irreversible, implied_by.
  set (l := map snd (map_to_list irb)). set (m := merge_sort Z.le l).
  assert (Hm : m ≡ₚ l) by apply merge_sort_Permutation.
  assert (Hl : length m = size irb).
  { rewrite Hm. subst l. rewrite length_map. apply length_map_to_list. }
  assert (Hs : StronglySorted Z.le m) by apply (StronglySorted_merge_sort Z.le).
  case_match eqn:Hz; zbool.
  - left. apply Nat.eqb_eq in Hz. split; [|done]. apply map_size_empty_inv. lia.
  - right. apply Nat.eqb_neq in Hz.
    destruct (lookup_lt_is_Some_2 m ((length m - 1) / 3)) as [x Hx].
    { pose proof (Nat.Div0.div_le_upper_bound (length m - 1) 3 (length m - 1)). lia. }
    rewrite (list_lookup_total_correct _ _ _ Hx).
    assert (Hf : ∀ v, length (filter (λ y, v <= y) l) = length (filter (λ y, v <= y) m)).
    { intros v. by rewrite Hm. }
    split_and!.
    + intros ->. rewrite map_size_empty in Hl. lia.
    + apply list_elem_of_lookup_2 in Hx. rewrite Hm in Hx.
      apply list_elem_of_fmap in Hx as ([p y] & -> & Hp). apply elem_of_map_to_list in Hp. eauto.
    + rewrite Hf. pose proof (sorted_count_ge _ _ _ Hs Hx). rewrite <- Hl. lia.
    + intros v Hv. rewrite Hf. pose proof (sorted_count_gt _ _ _ v Hs Hx Hv). rewrite <- Hl. lia.
Qed.

(** C17: The last irreversible block number is the largest number that more
    than two thirds of the producers have implied to be irreversible: more
    than two thirds of the entries reach it, and no larger number is reached
    by more than two thirds. *)
Theorem calc_dpos_last_irreversible_spec irb :
  irb ≠ ∅ →
  let lib := calc_dpos_last_irreversible irb in
  (2 * size irb < 3 * implied_by irb lib)%nat ∧
  ∀ v, lib < v → (3 * implied_by irb v <= 2 * size irb)%nat.
Proof. intros Hne lib. destruct (calc_dpos_cases irb) as [[? _]|(_ & _ & ? & ?)]; done. Qed.

(** ** Confirmations *)

Definition count_ok (c : Z) : Prop := 0 < c < 256.

Lemma confirm_loop_spec l r b :
  Forall count_ok l → is_unsigned 32 b →
  let k := (length l - Z.to_nat b)%nat in
  (∃ l1 l2, l = l1 ++ 1 :: l2 ∧ (k <= length l1)%nat ∧ Forall (λ c, c ≠ 1) l2 ∧
     confirm_loop (length l) b (l ++ r) = (map Z.pred l2 ++ r, Some (length l1))) ∨
  (Forall (λ c, c ≠ 1) (drop k l) ∧
     confirm_loop (length l) b (l ++ r) = (take k l ++ map Z.pred (drop k l) ++ r, None)).
Proof.
  drop_parameters.
  revert r b. induction l as [|x l IH] using rev_ind; intros r b Hok Hb k.
  { right. subst k. split; [constructor|done]. }
  apply Forall_app in Hok as [Hok Hx]. rewrite Forall_singleton in Hx.
  assert (Hlen : length (l ++ [x]) = S (length l)) by (rewrite length_app; cbn; lia).
  subst k. rewrite Hlen. cbn [confirm_loop]. rewrite <- app_assoc. cbn [app].
  destruct (Z.eqb_spec b 0) as [->|Hb0].
  { right. rewrite drop_ge, take_ge by lia. rewrite <- app_assoc. split; [constructor|done]. }
  rewrite list_lookup_total_middle by done.
  assert (Hx1 : u8 (x - 1) = x - 1) by (apply wrap_id; unfold count_ok, is_unsigned in *; lia).
  rewrite Hx1.
  replace (<[length l := x - 1]> (l ++ x :: r)) with (l ++ x - 1 :: r)
    by (rewrite insert_app_r_alt by lia; by rewrite Nat.sub_diag).
  destruct (Z.eqb_spec (x - 1) 0) as [Hz|Hz].
  { left. exists l, []. assert (x = 1) as -> by lia. split_and!; [done|unfold is_unsigned in *; lia|constructor|].
    f_equal. replace (S (length l)) with (length (l ++ [1 - 1])) by (rewrite length_app; cbn; lia).
    rewrite (cons_middle (1 - 1) l r), app_assoc, drop_app_length. done. }
  destruct (IH (x - 1 :: r) (u32 (b - 1))) as [(l1 & l2 & -> & Hk & Hl2 & Hr)|[Hl2 Hr]]; [done|..].
  { apply wrap_range; lia. }
  - left. exists l1, (l2 ++ [x]). rewrite wrap_id in Hk by (unfold is_unsigned in *; lia).
    split_and!; [by rewrite <- app_assoc|unfold is_unsigned in *; lia| |].
    + apply Forall_app; split; [done|]. apply Forall_singleton; lia.
    + rewrite Hr, map_app, <- app_assoc. done.
  - right. rewrite Hr. rewrite wrap_id in Hl2 |- * by (unfold is_unsigned in *; lia).
    replace (S (length l) - Z.to_nat b)%nat with (length l - Z.to_nat (b - 1))%nat
      by (unfold is_unsigned in *; lia).
    rewrite drop_app_le, take_app_le by lia. split.
    + apply Forall_app; split; [done|]. apply Forall_singleton; lia.
    + rewrite map_app, <- !app_assoc. done.
Qed.

Lemma set_confirmed_cases s n :
  Forall count_ok (bhs_confirm_count s) → is_unsigned 16 n →
  is_unsigned 32 (bhs_block_num s) → Z.of_nat (length (bhs_confirm_count s)) <= bhs_block_num s →
  let cc := bhs_confirm_count s in
  let cc' := bhs_confirm_count (set_confirmed s n) in
  let k := (length cc - Z.to_nat (n + 1))%nat in
  (∃ old newer, cc = old ++ 1 :: newer ∧ (k <= length old)%nat ∧ Forall (λ c, c ≠ 1) newer ∧
     cc' = map Z.pred newer ∧
     bhs_proposed (set_confirmed s n) = bhs_block_num s - Z.of_nat (length newer)) ∨
  (Forall (λ c, c ≠ 1) (drop k cc) ∧ cc' = take k cc ++ map Z.pred (drop k cc) ∧
     bhs_proposed (set_confirmed s n) = bhs_proposed s).
Proof.
  drop_parameters.
  intros Hok Hn Hb Hlen cc cc' k. unfold is_unsigned in *.
  destruct (confirm_loop_spec cc [] (n + 1)) as [(l1 & l2 & Hcc & Hk & Hl2 & Hr)|[Hl2 Hr]];
    [done|unfold is_unsigned; lia|..]; rewrite !app_nil_r in Hr; subst cc cc' k; unfold set_confirmed;
    rewrite Hr; cbn.
  - left. exists l1, l2. split_and!; try done.
    rewrite Hcc in Hlen |- *. rewrite length_app, length_cons in Hlen |- *.
    rewrite (wrap_id 32 (Z.of_nat _ - _ - _)) by (unfold is_unsigned; lia).
    rewrite wrap_id by (unfold is_unsigned; lia). lia.
  - right. done.
Qed.

(** What confirming [n] previous blocks does to the tracked counts.  The
    window is the newest [n + 1] tracked blocks.  If a block of the window is
    one confirmation short, the newest such block becomes the proposed
    irreversible one, it and everything older are no longer tracked, and the
    newer blocks each gain a confirmation.  Otherwise every block of the
    window gains a confirmation and the proposal stays. *)
Theorem set_confirmed_spec s n :
  Forall count_ok (bhs_confirm_count s) → is_unsigned 16 n →
  is_unsigned 32 (bhs_block_num s) → Z.of_nat (length (bhs_confirm_count s)) <= bhs_block_num s →
  let cc := bhs_confirm_count s in
  let cc' := bhs_confirm_count (set_confirmed s n) in
  let k := (length cc - Z.to_nat (n + 1))%nat in
  (∃ old newer, cc = old ++ 1 :: newer ∧ (k <= length old)%nat ∧ Forall (λ c, c ≠ 1) newer ∧
     cc' = map Z.pred newer ∧
     bhs_proposed (set_confirmed s n) = bhs_block_num s - Z.of_nat (length newer)) ∨
  (Forall (λ c, c ≠ 1) (drop k cc) ∧ cc' = take k cc ++ map Z.pred (drop k cc) ∧
     bhs_proposed (set_confirmed s n) = bhs_proposed s).
Proof. apply set_confirmed_cases. Qed.

(** ** The invariant of header states *)

Record header_state_wf (s : block_header_state) : Prop := {
  wf_counts : Forall count_ok (bhs_confirm_count s);
  wf_tracked : Z.of_nat (length (bhs_confirm_count s)) <= config.maximum_tracked_dpos_confirmations;
  wf_proposed : 0 <= bhs_proposed s ∧
    bhs_proposed s + Z.of_nat (length (bhs_confirm_count s)) <= bhs_block_num s;
  wf_irb : map_Forall (λ _ v, 0 <= v <= bhs_proposed s) (bhs_last_irb s);
  wf_lib : 0 <= bhs_irreversible s <= bhs_proposed s;
  wf_active : Z.of_nat (length (producers (bhs_active s))) <= config.max_producers;
  wf_pending : Z.of_nat (length (producers (bhs_pending s))) <= config.max_producers }.

Lemma calc_dpos_bounds irb b :
  0 <= b → map_Forall (λ _ v, 0 <= v <= b) irb → 0 <= calc_dpos_last_irreversible irb <= b.
Proof.
  drop_parameters.
  intros Hb H. destruct (calc_dpos_cases irb) as [[_ ->]|(_ & [p Hp] & _)]; [lia|]. apply (H _ _ Hp).
Qed.

Lemma grow_confirm_count_wf cc c :
  Forall count_ok cc → count_ok c →
  Z.of_nat (length cc) <= config.maximum_tracked_dpos_confirmations →
  Forall count_ok (grow_confirm_count cc c) ∧
  Z.of_nat (length (grow_confirm_count cc c)) <= config.maximum_tracked_dpos_confirmations ∧
  (length (grow_confirm_count cc c) <= S (length cc))%nat.
Proof.
  drop_parameters.
  intros Hcc Hc Hlen. unfold grow_confirm_count, config.maximum_tracked_dpos_confirmations in *.
  rewrite (wrap_id 8 c) by (unfold count_ok, is_unsigned in *; lia).
  assert (Hd : Forall count_ok (tail cc)) by (destruct Hcc; [constructor|done]).
  assert (Hdl : length (tail cc) = (length cc - 1)%nat) by (destruct cc; cbn; lia).
  case_match; zbool; rewrite !length_app; cbn [length]; rewrite ?Hdl; split_and!; try lia;
    apply Forall_app; split; try done; by apply Forall_singleton.
Qed.

Lemma next_template_wf s when prokey :
  header_state_wf s → is_unsigned 32 (bhs_block_num s + 1) →
  header_state_wf (next_template s when prokey).
Proof.
  drop_parameters.
  intros [Hc Ht Hp Hi Hl Ha Hpd] Hb. unfold next_template.
  set (n := Z.of_nat (length (producers (bhs_active s)))) in *.
  assert (Hreq : 1 <= n * 2 / 3 + 1 <= 84) by (unfold config.max_producers in *; div_lia).
  rewrite (wrap_id 32 (n * 2 / 3 + 1)) by (unfold is_unsigned; lia).
  destruct (grow_confirm_count_wf (bhs_confirm_count s) (n * 2 / 3 + 1)) as (? & ? & ?);
    [done|unfold count_ok; lia|done|].
  assert (Hirb : map_Forall (λ _ v, 0 <= v <= bhs_proposed s)
    (<[producer_name prokey := bhs_proposed s]> (bhs_last_irb s))).
  { apply map_Forall_insert_2; [lia|done]. }
  constructor; cbn; try done.
  - rewrite wrap_id by done. lia.
  - apply calc_dpos_bounds; [lia|done].
Qed.

Lemma pred_counts_ok l : Forall count_ok l → Forall (λ c, c ≠ 1) l → Forall count_ok (map Z.pred l).
Proof.
  drop_parameters.
  induction 1 as [|c l Hc _ IH]; intros Hn; cbn; [constructor|].
  apply Forall_cons in Hn as [Hc1 Hn]. constructor; [|auto]. unfold count_ok in *. lia.
Qed.

(** What [set_confirmed] leaves alone. *)
Lemma set_confirmed_frame s n :
  let s' := set_confirmed s n in
  bhs_id s' = bhs_id s ∧ bhs_block_num s' = bhs_block_num s ∧ bhs_irreversible s' = bhs_irreversible s ∧
  bhs_pending s' = bhs_pending s ∧ bhs_active s' = bhs_active s ∧ bhs_merkle s' = bhs_merkle s ∧
  bhs_last_irb s' = bhs_last_irb s ∧ bhs_signing_key s' = bhs_signing_key s ∧
  sbh_header (bhs_header s') =
    let h := sbh_header (bhs_header s) in
    BlockHeader (timestamp h) (producer h) n (previous h) (transaction_mroot h) (action_mroot h)
      (schedule_version h) (new_producers h) (header_extensions h).
Proof. unfold set_confirmed. by destruct (confirm_loop _ _ _). Qed.

Lemma set_confirmed_wf s n :
  header_state_wf s → is_unsigned 16 n → is_unsigned 32 (bhs_block_num s) →
  header_state_wf (set_confirmed s n) ∧ bhs_proposed s <= bhs_proposed (set_confirmed s n).
Proof.
  drop_parameters.
  intros [Hc Ht Hp Hi Hl Ha Hpd] Hn Hb.
  destruct (set_confirmed_frame s n) as (_ & Eb & El & Epd & Ea & _ & Ei & _).
  assert (Hle : bhs_proposed s <= bhs_proposed (set_confirmed s n) ∧
    bhs_proposed (set_confirmed s n) + Z.of_nat (length (bhs_confirm_count (set_confirmed s n)))
      <= bhs_block_num s ∧
    (length (bhs_confirm_count (set_confirmed s n)) <= length (bhs_confirm_count s))%nat ∧
    Forall count_ok (bhs_confirm_count (set_confirmed s n))).
  { destruct (set_confirmed_cases s n) as [(l1 & l2 & Hcc & _ & Hl2 & Hcc' & Hp')|(Hl2 & Hcc' & Hp')];
      [done|done|done|lia|..]; rewrite Hcc', Hp'.
    - rewrite Hcc in Hp, Hc |- *. rewrite length_app, length_cons in *. rewrite length_map.
      apply Forall_app in Hc as [_ Hc]. apply Forall_cons in Hc as [_ Hc].
      split_and!; [lia..|by apply pred_counts_ok].
    - rewrite length_app, length_map, length_take, length_drop. split_and!; [lia..|].
      apply Forall_app; split; [by apply Forall_take|]. by apply pred_counts_ok; [apply Forall_drop|]. }
  destruct Hle as (? & ? & ? & ?). split; [constructor|lia]; rewrite ?Eb, ?El, ?Epd, ?Ea, ?Ei;
    try done; try lia.
  intros q v Hv. pose proof (Hi _ _ Hv). cbn in *. lia.
Qed.

Lemma carry_over_forall (P : Z → Prop) old lib ps :
  P lib → map_Forall (λ _ v, P v) old → map_Forall (λ _ v, P v) (carry_over old lib ps).
Proof.
  intros Hlib Hold. unfold carry_over.
  assert (Hgen : ∀ m : gmap Z Z, map_Forall (λ _ v, P v) m →
    map_Forall (λ _ v, P v)
      (foldl (λ m pro, <[producer_name pro := default lib (old !! producer_name pro)]> m) m ps)).
  { induction ps as [|p ps IH]; intros m Hm; [done|]. cbn. apply IH. apply map_Forall_insert_2; [|done].
    destruct (old !! producer_name p) eqn:E; [|done]. apply (Hold _ _ E). }
  apply Hgen, map_Forall_empty.
Qed.

Lemma maybe_promote_pending_wf s b s' :
  header_state_wf s → maybe_promote_pending s = (b, s') →
  header_state_wf s' ∧ bhs_proposed s' = bhs_proposed s ∧ bhs_block_num s' = bhs_block_num s.
Proof.
  intros [Hc Ht Hp Hi Hl Ha Hpd]. unfold maybe_promote_pending. case_match; intros [= <- <-]; [|done].
  split_and!; [constructor|..]; cbn; try done.
  by apply (carry_over_forall (λ v, 0 <= v <= bhs_proposed s)).
Qed.

Lemma apply_new_producers_wf b s new s' :
  header_state_wf s → apply_new_producers b s new = Ok s' →
  (∀ p, new = Some p → Z.of_nat (length (producers p)) <= config.max_producers) →
  header_state_wf s' ∧ bhs_proposed s' = bhs_proposed s ∧ bhs_block_num s' = bhs_block_num s.
Proof.
  intros Hwf H Hnew. destruct new as [p|]; cbn in H; [|by simplify_res].
  unfold set_new_producers in H. simplify_res. destruct Hwf. split_and!; [constructor|..]; cbn; try done. auto.
Qed.

Lemma next_guards_Ok s h :
  next_guards s h = Ok () ↔
  timestamp h ≠ 0 ∧ header_extensions h = [] ∧ timestamp (bhs_header s) < timestamp h ∧ previous h = bhs_id s.
Proof.
  drop_parameters.
  unfold next_guards. split.
  - intros H. simplify_res. rewrite bool_decide_eq_true in *. zbool.
    split_and!; try done. apply nil_length_inv, Nat.eqb_eq. done.
  - intros (? & -> & ? & ->). cbn. rewrite bool_decide_eq_true_2 by done. repeat pass_assert. done.
Qed.

Lemma next_Ok s h trust s' :
  next s h trust = Some (Ok s') ↔
  (timestamp h ≠ 0 ∧ header_extensions h = [] ∧ timestamp (bhs_header s) < timestamp h ∧ previous h = bhs_id s) ∧
  ∃ prokey, get_scheduled_producer s (timestamp h) = Some prokey ∧
    next_from s (next_template s (timestamp h) prokey) h trust = Ok s'.
Proof.
  drop_parameters.
  rewrite <- next_guards_Ok. unfold next.
  destruct (next_guards s h) as [[]|e] eqn:Hg; [|naive_solver].
  apply next_guards_Ok in Hg as (Hnz & _ & Hlt & _).
  assert (Hslot : next_slot s (timestamp h) = Ok (timestamp h)).
  { unfold next_slot. rewrite (proj2 (Z.eqb_neq _ _) Hnz). cbn [negb]. by pass_assert. }
  unfold generate_next. rewrite Hslot. destruct (get_scheduled_producer s (timestamp h)) as [pk|]; cbn.
  - split; [intros [= H]; eauto|]. by intros (_ & ? & [= ->] & ->).
  - split; [done|]. by intros (_ & ? & ? & _).
Qed.

Lemma next_from_Ok s t (h : signed_block_header) trust s' :
  next_from s t h trust = Ok s' ↔
  (producer (bhs_header t) = producer h ∧ schedule_version (bhs_header t) = schedule_version h ∧
   check_double_confirm s t h = Ok ()) ∧
  ∃ b r r', maybe_promote_pending (set_confirmed t (confirmed h)) = (b, r) ∧
    apply_new_producers b r (new_producers h) = Ok r' ∧ s' = complete_header r' h ∧
    (trust = false → signee s' = Ok (bhs_signing_key s')).
Proof.
  unfold next_from. destruct (maybe_promote_pending _) as [b r] eqn:Hpr. split.
  - intros H. simplify_res. zbool. destruct x1. split_and!; try done. exists b, r, x2.
    destruct trust; simplify_res; [done|]. rewrite bool_decide_eq_true in *. split_and!; try done.
    intros _. congruence.
  - intros ((-> & -> & Hc) & b' & r0 & r' & [= <- <-] & Hnew & -> & Hsig). rewrite !Z.eqb_refl, Hc, Hnew. cbn.
    destruct trust; [done|]. rewrite Hsig by done. cbn. by rewrite bool_decide_eq_true_2.
Qed.

Lemma next_wf s (h : signed_block_header) trust s' :
  header_state_wf s → is_unsigned 32 (bhs_block_num s + 1) → is_unsigned 16 (confirmed h) →
  (∀ p, new_producers h = Some p → Z.of_nat (length (producers p)) <= config.max_producers) →
  next s h trust = Some (Ok s') →
  header_state_wf s' ∧ bhs_proposed s <= bhs_proposed s' ∧ bhs_block_num s' = bhs_block_num s + 1.
Proof.
  intros Hwf Hb Hn Hnew [_ (prokey & _ & H)]%next_Ok.
  apply next_from_Ok in H as (_ & b & r & r' & Hpr & Hr' & -> & _).
  pose proof (next_template_wf s (timestamp h) prokey Hwf Hb) as Hwf1.
  set (t := next_template _ _ _) in *.
  assert (Etb : bhs_block_num t = bhs_block_num s + 1) by (apply wrap_id; done).
  assert (Etp : bhs_proposed t = bhs_proposed s) by done.
  destruct (set_confirmed_wf t (confirmed h)) as [Hwf2 Hmono]; [done|done|by rewrite Etb|].
  destruct (set_confirmed_frame t (confirmed h)) as (_ & Eb & _).
  destruct (maybe_promote_pending_wf _ _ _ Hwf2 Hpr) as (Hwf3 & Ep3 & Eb3).
  destruct (apply_new_producers_wf _ _ _ _ Hwf3 Hr' Hnew) as (Hwf4 & Ep4 & Eb4).
  split_and!; [|cbn; lia..]. destruct Hwf4; by constructor.
Qed.

(** The states reached by accepting a sequence of headers. *)
Inductive header_chain : block_header_state → block_header_state → Prop :=
  | chain_refl s : header_chain s s
  | chain_step s s1 (h : signed_block_header) trust s2 :
      header_chain s s1 →
      is_unsigned 32 (bhs_block_num s1 + 1) → is_unsigned 16 (confirmed h) →
      (∀ p, new_producers h = Some p → Z.of_nat (length (producers p)) <= config.max_producers) →
      next s1 h trust = Some (Ok s2) → header_chain s s2.


(** ** Accepted and produced headers *)

Lemma maybe_promote_pending_frame s b s' :
  maybe_promote_pending s = (b, s') →
  bhs_header s' = bhs_header s ∧ bhs_block_num s' = bhs_block_num s ∧ bhs_merkle s' = bhs_merkle s ∧
  bhs_signing_key s' = bhs_signing_key s.
Proof. unfold maybe_promote_pending. by case_match; intros [= <- <-]. Qed.

Lemma apply_new_producers_frame b s new s' :
  apply_new_producers b s new = Ok s' → new_producers (bhs_header s) = None →
  (let h := bhs_header s in
   sbh_header (bhs_header s') =
     BlockHeader (timestamp h) (producer h) (confirmed h) (previous h) (transaction_mroot h) (action_mroot h)
       (schedule_version h) new (header_extensions h)) ∧
  bhs_block_num s' = bhs_block_num s ∧ bhs_merkle s' = bhs_merkle s ∧ bhs_signing_key s' = bhs_signing_key s.
Proof.
  intros H Hn. destruct new as [p|]; cbn in H.
  - unfold set_new_producers in H. by simplify_res.
  - injection H as <-. destruct s as [? ? [[] ?]]; cbn in *; by subst.
Qed.

(** What an accepted header state has taken from the header and the template. *)
Lemma next_from_frame s when prokey (h : signed_block_header) trust s' :
  next_from s (next_template s when prokey) h trust = Ok s' →
  when = timestamp h → previous h = bhs_id s → header_extensions h = [] →
  bhs_header s' = h ∧ bhs_id s' = header_id h ∧ bhs_block_num s' = u32 (bhs_block_num s + 1) ∧
  bhs_merkle s' = merkle_append (bhs_merkle s) (bhs_id s) ∧ bhs_signing_key s' = block_signing_key prokey.
Proof.
  intros ((Hprod & Hver & _) & b & r & r' & Hpr & Hnew & -> & _)%next_from_Ok -> Hprev Hext.
  destruct (set_confirmed_frame (next_template s (timestamp h) prokey) (confirmed h))
    as (_ & Eb1 & _ & _ & _ & Em1 & _ & Ek1 & Eh1).
  destruct (maybe_promote_pending_frame _ _ _ Hpr) as (Eh2 & Eb2 & Em2 & Ek2).
  destruct (apply_new_producers_frame _ _ _ _ Hnew) as (Eh3 & Eb3 & Em3 & Ek3); [by rewrite Eh2, Eh1|].
  cbv zeta in Eh3. rewrite Eh2, Eh1 in Eh3. cbn in Hprod, Hver, Eh3, Eb1, Em1, Ek1.
  assert (Hh : bhs_header (complete_header r' h) = h).
  { cbn. rewrite Eh3. cbn. destruct h as [[] ?]; cbn in *; by subst. }
  split_and!; [done| |cbn; congruence..].
  change (bhs_id (complete_header r' h)) with (header_id (bhs_header (complete_header r' h))). by rewrite Hh.
Qed.

(** C14: An untrusted header that is accepted links to the current state, is
    later in time, names the producer scheduled for its slot and the active
    schedule's version, does not reach back to the producer's previous block
    and is signed by the producer's key over the digest of the new state.
    The new state carries exactly that header and its id, is one block
    higher, and its Merkle tree has the previous id appended. *)
Theorem next_sound s (h : signed_block_header) s' :
  is_unsigned 32 (bhs_block_num s + 1) →
  next s h false = Some (Ok s') →
  (previous h = bhs_id s ∧ timestamp (bhs_header s) < timestamp h) ∧
  (∃ prokey, get_scheduled_producer s (timestamp h) = Some prokey ∧ producer h = producer_name prokey ∧
     schedule_version h = version (bhs_active s) ∧
     (∀ last, bhs_last_produced s !! producer h = Some last → last < u32 (bhs_block_num s' - confirmed h)) ∧
     recover (producer_signature h) (state_sig_digest s') = Ok (block_signing_key prokey)) ∧
  bhs_header s' = h ∧ bhs_id s' = header_id h ∧ bhs_block_num s' = bhs_block_num s + 1 ∧
  bhs_merkle s' = merkle_append (bhs_merkle s) (bhs_id s).
Proof.
  intros Hb ((_ & Hext & Hlt & Hprev) & prokey & Hpk & H)%next_Ok.
  destruct (next_from_frame _ _ _ _ _ _ H) as (Eh & Ei & Eb & Em & Ek); try done.
  apply next_from_Ok in H as ((Hprod & Hver & Hdc) & _ & _ & _ & _ & _ & _ & Hsig).
  split_and!; try done; [|by rewrite Eb, wrap_id].
  exists prokey. split_and!; try done.
  - intros last Hl. unfold check_double_confirm in Hdc. rewrite Hl in Hdc. simplify_res. zbool. by rewrite Eb.
  - specialize (Hsig eq_refl). unfold signee in Hsig. rewrite Eh in Hsig. congruence.
Qed.


(** When a producer's range of confirmed blocks is accepted.  The range
    must start after the producer's previous block; but the subtraction is
    unsigned, so a header that claims to confirm more blocks than the chain
    has is accepted as well, although the range then covers the producer's
    previous block. *)
Theorem check_double_confirm_spec s t (h : signed_block_header) last :
  bhs_last_produced s !! producer h = Some last →
  is_unsigned 32 last → is_unsigned 32 (bhs_block_num t) → is_unsigned 16 (confirmed h) →
  check_double_confirm s t h =
    if decide (last + confirmed h < bhs_block_num t ∨
               bhs_block_num t < confirmed h ∧ last < 2 ^ 32 + bhs_block_num t - confirmed h)
    then Ok () else Throw producer_double_confirm.
Proof.
  drop_parameters.
  intros Hl Hlast Hb Hc. unfold check_double_confirm. rewrite Hl. unfold is_unsigned in *.
  assert (Hw : u32 (bhs_block_num t - confirmed h) =
    if decide (bhs_block_num t < confirmed h) then 2 ^ 32 + bhs_block_num t - confirmed h
    else bhs_block_num t - confirmed h).
  { unfold wrap. case_decide; [|apply Z.mod_small; lia].
    rewrite <- (Z_mod_plus_full _ 1), Z.mod_small by lia. lia. }
  rewrite Hw. repeat case_decide; unfold EOS_ASSERT; case_match; try done; zbool; lia.
Qed.

(** ** Block numbers in block ids *)

Section ids.
Hypothesis endian_reverse_involutive : ∀ x, is_unsigned 32 x →
  is_unsigned 32 (endian_reverse_u32 x) ∧ endian_reverse_u32 (endian_reverse_u32 x) = x.

Lemma num_from_header_id h : num_from_id (header_id h) = header_block_num h.
Proof using endian_reverse_involutive.
  drop_parameters. unfold num_from_id, header_id. cbn [_hash0].
  assert (Hn : is_unsigned 32 (header_block_num h)) by (apply wrap_range; lia).
  destruct (endian_reverse_involutive _ Hn) as [Hr Hinv].
  set (r := endian_reverse_u32 (header_block_num h)) in *. set (x := _hash0 (hash_header h)).
  assert (H0 : Z.land x 0xffffffff00000000 mod 2 ^ 32 = 0).
  { rewrite <- Z.land_ones by lia. rewrite <- Z.land_assoc.
    replace (Z.land 0xffffffff00000000 (Z.ones 32)) with 0 by done. apply Z.land_0_r. }
  replace (u32 (u64 (Z.land x 0xffffffff00000000 + r))) with r; [done|]. unfold wrap.
  rewrite <- Znumtheory.Zmod_div_mod; [|done|done|by exists (2 ^ 32)].
  rewrite Zplus_mod, H0, Z.add_0_l, Zmod_mod. symmetry. by apply Z.mod_small.
Qed.

(** Block ids carry the block number: if the id of the current state
    holds its block number, so does the id of the state after any accepted
    header. *)
Theorem next_id_holds_block_num s (h : signed_block_header) trust s' :
  next s h trust = Some (Ok s') →
  num_from_id (bhs_id s) = bhs_block_num s → num_from_id (bhs_id s') = bhs_block_num s'.
Proof using endian_reverse_involutive.
  intros ((_ & Hext & _ & Hprev) & prokey & _ & H)%next_Ok Hid.
  destruct (next_from_frame _ _ _ _ _ _ H) as (_ & -> & -> & _); try done.
  rewrite num_from_header_id. unfold header_block_num. by rewrite Hprev, Hid.
Qed.
End ids.

(** ** The schedule *)

(** Round robin: each producer of the active schedule has
    [producer_repetitions] slots in a row, in the order of the schedule, round
    after round. *)
Theorem scheduled_producer_rotation s round i j :
  0 <= round → (i < length (producers (bhs_active s)))%nat → 0 <= j < config.producer_repetitions →
  get_scheduled_producer s
    ((round * Z.of_nat (length (producers (bhs_active s))) + Z.of_nat i) * config.producer_repetitions + j) =
  producers (bhs_active s) !! i.
Proof.
  drop_parameters.
  intros Hr Hi Hj. unfold get_scheduled_producer, config.producer_repetitions in *.
  set (n := Z.of_nat (length (producers (bhs_active s)))).
  assert (Hn : 0 <= Z.of_nat i < n) by lia.
  rewrite (proj2 (Z.eqb_neq n 0)) by lia. f_equal.
  replace ((round * n + Z.of_nat i) * 12 + j) with (Z.of_nat i * 12 + j + round * (n * 12)) by lia.
  rewrite Z_mod_plus_full, Z.mod_small by lia.
  rewrite Z.div_add_l, (Z.div_small j) by lia. lia.
Qed.

(** ** Progress of the last irreversible block *)

Lemma implied_by_mono irb p v x :
  is_Some (irb !! p) → (∀ y, irb !! p = Some y → y <= x) →
  (implied_by irb v <= implied_by (<[p := x]> irb) v)%nat.
Proof.
  drop_parameters.
  intros [y Hy] Hle. specialize (Hle _ Hy). unfold implied_by.
  rewrite <- (insert_id irb p y Hy) at 1. rewrite <- !(insert_delete_eq irb).
  rewrite !map_to_list_insert by apply lookup_delete_eq. cbn [map snd].
  destruct (decide (v <= y)).
  - rewrite !filter_cons_True by lia. done.
  - rewrite filter_cons_False by lia. destruct (decide (v <= x)).
    + rewrite filter_cons_True by lia. cbn. lia.
    + by rewrite filter_cons_False by lia.
Qed.

(** While the schedule stays the same the last irreversible block never
    moves back: when a producer that is already counted extends the chain, the
    new state's irreversible block is at least the one its counts gave before. *)
Theorem next_irreversible_monotone s (h : signed_block_header) trust s' :
  header_state_wf s → next s h trust = Some (Ok s') →
  is_Some (bhs_last_irb s !! producer h) →
  calc_dpos_last_irreversible (bhs_last_irb s) <= bhs_irreversible s'.
Proof.
  intros Hwf (_ & prokey & _ & H)%next_Ok Hp.
  apply next_from_Ok in H as ((Hprod & _) & b & r & r' & Hpr & Hr' & -> & _).
  cbn in Hprod. rewrite <- Hprod in Hp. cbn.
  assert (Hirr : bhs_irreversible r' =
    calc_dpos_last_irreversible (<[producer_name prokey := bhs_proposed s]> (bhs_last_irb s))).
  { transitivity (bhs_irreversible r).
    - destruct (new_producers h); cbn in Hr'; unfold set_new_producers in Hr'; by simplify_res.
    - destruct (set_confirmed_frame (next_template s (timestamp h) prokey) (confirmed h)) as (_ & _ & El & _).
      unfold maybe_promote_pending in Hpr. by case_match; injection Hpr as <- <-. }
  rewrite Hirr. set (irb := bhs_last_irb s) in *.
  destruct (Z.le_gt_cases (calc_dpos_last_irreversible irb)
    (calc_dpos_last_irreversible (<[producer_name prokey := bhs_proposed s]> irb))) as [?|Hgt]; [done|].
  destruct (calc_dpos_cases irb) as [[He _]|(_ & _ & Hlo & _)].
  { rewrite He, lookup_empty in Hp. by destruct Hp. }
  destruct (calc_dpos_cases (<[producer_name prokey := bhs_proposed s]> irb)) as [[He _]|(_ & _ & _ & Hhi)].
  { by apply insert_non_empty in He. }
  specialize (Hhi _ Hgt). rewrite map_size_insert_Some in Hhi by done.
  pose proof (implied_by_mono irb (producer_name prokey) (calc_dpos_last_irreversible irb) (bhs_proposed s) Hp).
  assert (∀ y, irb !! producer_name prokey = Some y → y <= bhs_proposed s)
    by (intros y Hy; apply (wf_irb s Hwf _ _ Hy)).
  lia.
Qed.
End header.

(** ** Instances *)

(** A toy crypto library: a signature is the key itself, digests are zero and
    the byte order is reversed by arithmetic. *)
Module toy.
Definition header_hash (h : @block_header Z) : digest_type := digest_zero.
Definition pair_hash (p : digest_type * digest_type) : digest_type := p.1.
Definition schedule_hash (s : @producer_schedule_type Z) : digest_type := digest_zero.
Definition recover (sig : Z) (d : digest_type) : res Z := Ok sig.
Definition reverse (x : Z) : Z :=
  (x mod 256) * 2 ^ 24 + (x / 2 ^ 8 mod 256) * 2 ^ 16 + (x / 2 ^ 16 mod 256) * 2 ^ 8 + x / 2 ^ 24 mod 256.

Lemma reverse_involutive x : is_unsigned 32 x → is_unsigned 32 (reverse x) ∧ reverse (reverse x) = x.
Proof.
  intros Hx. unfold is_unsigned in *.
  assert (Hd : ∃ a b c d, x = a + b * 2 ^ 8 + c * 2 ^ 16 + d * 2 ^ 24 ∧
    0 <= a < 256 ∧ 0 <= b < 256 ∧ 0 <= c < 256 ∧ 0 <= d < 256).
  { exists (x mod 256), (x / 2 ^ 8 mod 256), (x / 2 ^ 16 mod 256), (x / 2 ^ 24 mod 256).
    Z.to_euclidean_division_equations; lia. }
  assert (Hrev : ∀ a b c d, 0 <= a < 256 → 0 <= b < 256 → 0 <= c < 256 → 0 <= d < 256 →
    reverse (a + b * 2 ^ 8 + c * 2 ^ 16 + d * 2 ^ 24) = d + c * 2 ^ 8 + b * 2 ^ 16 + a * 2 ^ 24).
  { intros. unfold reverse. Z.to_euclidean_division_equations; lia. }
  destruct Hd as (a & b & c & d & -> & ? & ? & ? & ?). rewrite !Hrev by lia. lia.
Qed.

Definition schedule : @producer_schedule_type Z := ProducerSchedule 0 [ProducerKey 1 100; ProducerKey 2 200].

(** Block 1 of a chain with two producers. *)
Definition head : @block_header_state Z Z :=
  BlockHeaderState (Digest (reverse 1) 0 0 0) 1
    (SignedBlockHeader (BlockHeader 10 1 0 digest_zero digest_zero digest_zero 0 None []) 100)
    0 0 0 0 digest_zero (ProducerSchedule 0 []) schedule incremental_merkle_empty
    {[1 := 1]} {[1 := 0; 2 := 0]} 100 [2] [].

Definition implied : gmap Z Z := {[1 := 5; 2 := 7; 3 := 9; 4 := 4]}.

(** Producer 2 extends it in the slot 12. *)
Definition produced : res (@block_header_state Z Z) :=
  default (Throw chain_exception)
    (produce_header 0 header_hash pair_hash schedule_hash recover reverse head 12 1 None
       digest_zero digest_zero (λ _, 200)).

Definition block_2 : @block_header_state Z Z :=
  match produced with Ok s => s | Throw _ => head end.

Lemma head_wf : header_state_wf head.
Proof.
  constructor; cbn; try (unfold config.maximum_tracked_dpos_confirmations, config.max_producers; lia).
  - repeat constructor; unfold count_ok; lia.
  - intros p v Hp. cbn in Hp |- *.
    apply lookup_insert_Some in Hp as [[_ <-]|[_ [_ <-]%lookup_singleton_Some]]; lia.
Qed.

Lemma block_2_next :
  next 0 header_hash pair_hash schedule_hash recover reverse head (bhs_header block_2) false = Some (Ok block_2).
Proof. by vm_compute. Qed.
End toy.

Lemma calc_dpos_last_irreversible_spec_witness :
  calc_dpos_last_irreversible toy.implied = 5 ∧
  (2 * 4 < 3 * implied_by toy.implied 5)%nat.
Proof.
  split; [by vm_compute|].
  destruct (calc_dpos_last_irreversible_spec toy.implied) as [H _]; [done|exact H].
Defined.

Lemma set_confirmed_spec_witness :
  bhs_proposed (set_confirmed toy.head 5) = 0 ∧ bhs_confirm_count (set_confirmed toy.head 5) = [1].
Proof.
  destruct (set_confirmed_spec toy.head 5) as [(o & n & H & _)|(_ & Hc & Hp)];
    [repeat constructor|done|done|by vm_compute|..].
  - exfalso. destruct o as [|? [|]]; by inversion H.
  - rewrite Hc, Hp. by vm_compute.
Defined.


Lemma next_sound_witness : bhs_block_num toy.block_2 = 2.
Proof.
  destruct (next_sound 0 toy.header_hash toy.pair_hash toy.schedule_hash toy.recover toy.reverse toy.head
    (bhs_header toy.block_2) toy.block_2) as (_ & _ & _ & _ & H & _); [done|exact toy.block_2_next|exact H].
Defined.


(** Producer 1 of block 1 claims in block 2 to confirm 10 blocks. *)
Lemma check_double_confirm_spec_witness :
  check_double_confirm toy.head toy.block_2
    (SignedBlockHeader (BlockHeader 24 1 10 digest_zero digest_zero digest_zero 0 None []) 100) = Ok ().
Proof.
  rewrite (check_double_confirm_spec toy.head toy.block_2 _ 1); [|by vm_compute..]. by vm_compute.
Defined.

Lemma next_id_holds_block_num_witness : num_from_id toy.reverse (bhs_id toy.block_2) = 2.
Proof.
  apply (next_id_holds_block_num 0 toy.header_hash toy.pair_hash toy.schedule_hash toy.recover toy.reverse
    toy.reverse_involutive toy.head (bhs_header toy.block_2) false toy.block_2);
    [exact toy.block_2_next|by vm_compute].
Defined.

Lemma scheduled_producer_rotation_witness : get_scheduled_producer toy.head 12 = Some (ProducerKey 2 200).
Proof. apply (scheduled_producer_rotation toy.head 0 1 0); cbn; unfold config.producer_repetitions; lia. Defined.

Lemma next_irreversible_monotone_witness : 0 <= bhs_irreversible toy.block_2.
Proof.
  apply (next_irreversible_monotone 0 toy.header_hash toy.pair_hash toy.schedule_hash toy.recover toy.reverse
    toy.head (bhs_header toy.block_2) false toy.block_2);
    [exact toy.head_wf|exact toy.block_2_next|exists 0; by vm_compute].
Defined.
