(* ===== verification/ChainDatabase.v ===== *)
(** * The chain database (account_object.hpp, contract_table_objects.hpp,
      global_property_object.hpp, transaction_object.hpp)

    The objects that the execution of transactions reads and changes.  An
    index of objects is a finite map keyed by a unique key of the objects;
    tables and rows are keyed by their ids, which the database hands out in
    ascending order.  An ordered traversal picks the least or greatest object
    in the order of the index it names. *)

From S2P Require Import Prelude Exceptions Config Merkle Database ResourceLimits Transaction ChainConfig AuthorizationManager BlockHeaderState.

(** ** Accounts *)

Record account_object : Set := AccountObject {
  ao_vm_type : Z;             (* uint8_t *)
  ao_vm_version : Z;          (* uint8_t *)
  ao_privileged : bool;
  ao_code_activated : bool;
  ao_last_code_update : Z;    (* microseconds *)
  ao_code_version : digest_type;
  ao_creation_date : Z;       (* slot *)
  ao_code : bytes;
  ao_abi : bytes }.

Record account_sequence_object : Set := AccountSequence {
  recv_sequence : Z;          (* uint64_t *)
  auth_sequence : Z;
  code_sequence : Z;
  abi_sequence : Z }.

Definition account_sequence_default : account_sequence_object := AccountSequence 0 0 0 0.

(** ** Tables of contracts *)

Record table_id_object : Set := TableId {
  tb_code : Z;
  tb_scope : Z;
  tb_table : Z;
  tb_payer : Z;
  tb_count : Z }.             (* uint32_t *)

Definition tb_key (t : table_id_object) : Z * Z * Z := (tb_code t, tb_scope t, tb_table t).
Definition with_count (t : table_id_object) (n : Z) : table_id_object :=
  TableId (tb_code t) (tb_scope t) (tb_table t) (tb_payer t) n.

(** [key_value_object], [key256_value_object] and the [index_object]s: a row
    of table [r_t_id] with a primary key, and a value or a secondary key. *)
Record row (P D : Type) : Type := Row {
  r_id : Z;
  r_t_id : Z;
  r_primary : P;
  r_payer : Z;
  r_data : D }.
Arguments Row {P D}.
Arguments r_id {P D}.
Arguments r_t_id {P D}.
Arguments r_primary {P D}.
Arguments r_payer {P D}.
Arguments r_data {P D}.

Record rows (P D : Type) : Type := Rows { by_id : gmap Z (row P D); next_row_id : Z }.
Arguments Rows {P D}.
Arguments by_id {P D}.
Arguments next_row_id {P D}.

Definition rows_empty {P D} : rows P D := Rows ∅ 0.

(** [key256_t]: an array of two 128-bit integers. *)
Abbreviation key256_t := (Z * Z)%type.

(** The seven indices of rows and the types of their keys and values.
    Floating-point keys are their bit patterns. *)
Inductive table_index : Set :=
  | key_value_index
  | key256_value_index
  | index64_index
  | index128_index
  | index256_index
  | index_double_index
  | index_long_double_index.

#[export] Instance table_index_eq_dec : EqDecision table_index.
Proof. solve_decision. Defined.

Definition table_indices : list table_index :=
  [key_value_index; key256_value_index; index64_index; index128_index; index256_index;
   index_double_index; index_long_double_index].

Definition primary_key_type (i : table_index) : Set :=
  match i with key256_value_index => key256_t | _ => Z end.

Definition data_type (i : table_index) : Set :=
  match i with
  | key_value_index | key256_value_index => bytes
  | index256_index => key256_t
  | _ => Z
  end.

#[export] Instance primary_key_type_eq_dec i : EqDecision (primary_key_type i).
Proof. destruct i; apply _. Defined.

Definition key256_lt (a b : key256_t) : bool :=
  (a.1 <? b.1) || ((a.1 =? b.1) && (a.2 <? b.2)).

Definition primary_key_lt (i : table_index) : primary_key_type i → primary_key_type i → bool :=
  match i with key256_value_index => key256_lt | _ => Z.ltb end.

(** The bytes of a row beyond its constant size. *)
Definition value_size (i : table_index) : data_type i → Z :=
  match i with
  | key_value_index | key256_value_index => λ v : bytes, Z.of_nat (length v)
  | index256_index => λ _, 0
  | _ => λ _, 0
  end.

Abbreviation index_row i := (row (primary_key_type i) (data_type i)).
Abbreviation index_rows_type i := (rows (primary_key_type i) (data_type i)).

Record contract_db : Type := ContractDb {
  tables : gmap Z table_id_object;
  next_table_id : Z;
  index_rows : ∀ i : table_index, index_rows_type i }.

Definition contract_db_empty : contract_db := ContractDb ∅ 0 (λ _, rows_empty).

Definition with_tables (db : contract_db) (t : gmap Z table_id_object) (next : Z) : contract_db :=
  ContractDb t next (index_rows db).

Definition put_rows (db : contract_db) (i : table_index) (r : index_rows_type i) : contract_db :=
  ContractDb (tables db) (next_table_id db) (λ j,
    match decide (i = j) with
    | left e => eq_rect i (λ k, index_rows_type k) r j e
    | right _ => index_rows db j
    end).

Lemma index_rows_put_eq db i r : index_rows (put_rows db i r) i = r.
Proof. by destruct i. Qed.

Lemma index_rows_put_ne db i j r : i ≠ j → index_rows (put_rows db i r) j = index_rows db j.
Proof. intros Hij. cbn. by destruct (decide (i = j)). Qed.

(** [db.find<table_id_object, by_code_scope_table>]: the id of the table. *)
Definition find_table_id (db : contract_db) (code scope table : Z) : option Z :=
  fst <$> (snd <$> list_find (λ '(_, t), tb_key t = (code, scope, table)) (map_to_list (tables db))).

(** ** Billable sizes *)

Module billable.
Definition rows_overhead (indices : Z) : Z := config.overhead_per_row_per_index_ram_bytes * indices.
Definition table_id : Z := config.billable_size_v (44 + rows_overhead 2).
Definition key_value : Z := config.billable_size_v (32 + 8 + 4 + rows_overhead 2).
Definition key256_value : Z := config.billable_size_v (24 + 32 + 8 + 4 + rows_overhead 2).
Definition index64 : Z := config.billable_size_v (24 + 8 + rows_overhead 3).
Definition index128 : Z := config.billable_size_v (24 + 16 + rows_overhead 3).
Definition index256 : Z := config.billable_size_v (24 + 32 + rows_overhead 3).
Definition index_double : Z := config.billable_size_v (24 + 8 + rows_overhead 3).
Definition index_long_double : Z := config.billable_size_v (24 + 16 + rows_overhead 3).
Definition generated_transaction : Z := config.billable_size_v (96 + 4 + rows_overhead 5).
Definition permission_link : Z := config.billable_size_v (40 + rows_overhead 3).

(** [billable_size_v] of the rows of an index. *)
Definition of_index (i : table_index) : Z :=
  match i with
  | key_value_index => key_value
  | key256_value_index => key256_value
  | index64_index => index64
  | index128_index => index128
  | index256_index => index256
  | index_double_index => index_double
  | index_long_double_index => index_long_double
  end.
End billable.

(** ** The database *)

Section chain_db.
Context {K : Type}.

Record chain_db : Type := ChainDb {
  ch_contracts : contract_db;
  ch_limits : resource_limits_db;
  ch_authorization : @authorization_db K;
  ch_accounts : gmap Z account_object;
  ch_sequences : gmap Z account_sequence_object;
  ch_generated : gmap digest_type generated_transaction_object;   (* by trx_id *)
  ch_transactions : gmap digest_type Z;                           (* trx_id to expiration *)
  ch_global_action_sequence : Z;                                  (* uint64_t *)
  ch_configuration : chain_config;
  ch_proposed : option (Z * @producer_schedule_type K) }.         (* proposed_schedule and its block *)

Definition with_contracts (db : chain_db) (x : contract_db) : chain_db :=
  ChainDb x (ch_limits db) (ch_authorization db) (ch_accounts db) (ch_sequences db) (ch_generated db)
    (ch_transactions db) (ch_global_action_sequence db) (ch_configuration db) (ch_proposed db).
Definition with_ch_limits (db : chain_db) (x : resource_limits_db) : chain_db :=
  ChainDb (ch_contracts db) x (ch_authorization db) (ch_accounts db) (ch_sequences db) (ch_generated db)
    (ch_transactions db) (ch_global_action_sequence db) (ch_configuration db) (ch_proposed db).
Definition with_authorization (db : chain_db) (x : @authorization_db K) : chain_db :=
  ChainDb (ch_contracts db) (ch_limits db) x (ch_accounts db) (ch_sequences db) (ch_generated db)
    (ch_transactions db) (ch_global_action_sequence db) (ch_configuration db) (ch_proposed db).
Definition with_accounts (db : chain_db) (x : gmap Z account_object) : chain_db :=
  ChainDb (ch_contracts db) (ch_limits db) (ch_authorization db) x (ch_sequences db) (ch_generated db)
    (ch_transactions db) (ch_global_action_sequence db) (ch_configuration db) (ch_proposed db).
Definition with_sequences (db : chain_db) (x : gmap Z account_sequence_object) : chain_db :=
  ChainDb (ch_contracts db) (ch_limits db) (ch_authorization db) (ch_accounts db) x (ch_generated db)
    (ch_transactions db) (ch_global_action_sequence db) (ch_configuration db) (ch_proposed db).
Definition with_generated (db : chain_db) (x : gmap digest_type generated_transaction_object) : chain_db :=
  ChainDb (ch_contracts db) (ch_limits db) (ch_authorization db) (ch_accounts db) (ch_sequences db) x
    (ch_transactions db) (ch_global_action_sequence db) (ch_configuration db) (ch_proposed db).
Definition with_transactions (db : chain_db) (x : gmap digest_type Z) : chain_db :=
  ChainDb (ch_contracts db) (ch_limits db) (ch_authorization db) (ch_accounts db) (ch_sequences db)
    (ch_generated db) x (ch_global_action_sequence db) (ch_configuration db) (ch_proposed db).
Definition with_global_action_sequence (db : chain_db) (x : Z) : chain_db :=
  ChainDb (ch_contracts db) (ch_limits db) (ch_authorization db) (ch_accounts db) (ch_sequences db)
    (ch_generated db) (ch_transactions db) x (ch_configuration db) (ch_proposed db).

Definition with_configuration (db : chain_db) (x : chain_config) : chain_db :=
  ChainDb (ch_contracts db) (ch_limits db) (ch_authorization db) (ch_accounts db) (ch_sequences db)
    (ch_generated db) (ch_transactions db) (ch_global_action_sequence db) x (ch_proposed db).
Definition with_proposed (db : chain_db) (x : option (Z * producer_schedule_type)) : chain_db :=
  ChainDb (ch_contracts db) (ch_limits db) (ch_authorization db) (ch_accounts db) (ch_sequences db)
    (ch_generated db) (ch_transactions db) (ch_global_action_sequence db) (ch_configuration db) x.

(** [db.find<generated_transaction_object, by_sender_id>]. *)
Definition find_generated (db : chain_db) (sender sender_id : Z) : option generated_transaction_object :=
  snd <$> (snd <$> list_find (λ '(_, g), gto_sender g = sender ∧ gto_sender_id g = sender_id)
                             (map_to_list (ch_generated db))).

(** [db.create<generated_transaction_object>]: the transaction id and the
    sender's id are unique. *)
Definition create_generated (db : chain_db) (g : generated_transaction_object) : res chain_db :=
  match ch_generated db !! gto_trx_id g, find_generated db (gto_sender g) (gto_sender_id g) with
  | None, None => mret (with_generated db (<[gto_trx_id g := g]> (ch_generated db)))
  | _, _ => Throw std_logic_error
  end.
End chain_db.
Arguments chain_db : clear implicits.

(** ** Searching a map *)

Section search.
Context {A : Type}.

Lemma find_in_map_Some (P : Z * A → Prop) `{∀ x, Decision (P x)} (m : gmap Z A) n i a :
  list_find P (map_to_list m) = Some (n, (i, a)) → m !! i = Some a ∧ P (i, a).
Proof.
  intros (Hn & HP & _)%list_find_Some. split; [|done].
  apply elem_of_map_to_list. by eapply list_elem_of_lookup_2.
Qed.

Lemma find_in_map_None (P : Z * A → Prop) `{∀ x, Decision (P x)} (m : gmap Z A) i a :
  list_find P (map_to_list m) = None → m !! i = Some a → ¬ P (i, a).
Proof.
  intros Hf%list_find_None Hi. rewrite Forall_forall in Hf. apply Hf. by apply elem_of_map_to_list.
Qed.

(** The least element of a map in the order [lt], among those that satisfy [p]. *)
Definition better (lt : A → A → bool) (p : A → bool) (a : A) (best : option A) : option A :=
  if p a then match best with Some b => if lt b a then Some b else Some a | None => Some a end
  else best.

Definition first_by (lt : A → A → bool) (p : A → bool) (m : gmap Z A) : option A :=
  map_fold (λ _, better lt p) None m.

Definition last_by (lt : A → A → bool) (p : A → bool) (m : gmap Z A) : option A :=
  first_by (λ a b, lt b a) p m.

(** Whatever the order, what is found is in the map and qualifies. *)
Lemma first_by_elem lt p (m : gmap Z A) b :
  first_by lt p m = Some b → p b = true ∧ ∃ i, m !! i = Some b.
Proof.
  unfold first_by. revert b. induction m as [|i x m Hi Hfirst IH] using map_first_key_ind; intros b.
  { by rewrite map_fold_empty. }
  rewrite map_fold_insert_first_key by done. unfold better at 1.
  assert (Hkeep : map_fold (λ _, better lt p) None m = Some b → p b = true ∧ ∃ j, <[i:=x]> m !! j = Some b).
  { intros [Hb [j Hj]]%IH. split; [done|]. exists j. rewrite lookup_insert_ne; [done|]. congruence. }
  destruct (p x) eqn:Hx; [|done].
  destruct (map_fold (λ _, better lt p) None m) as [b'|]; [destruct (lt b' x)|]; [done| |];
    intros [= <-]; (split; [done|]); exists i; apply lookup_insert_eq.
Qed.

(** A strict weak order, as the comparison of an index is. *)
Record weak_order (lt : A → A → bool) : Prop := {
  weak_irrefl a : lt a a = false;
  weak_trans a b c : lt a b = true → lt b c = true → lt a c = true;
  weak_incomparable a b c : lt a b = false → lt b c = false → lt a c = false }.

Lemma weak_order_flip lt : weak_order lt → weak_order (λ a b, lt b a).
Proof. intros [Hi Ht Hc]. constructor; eauto. Qed.

Lemma weak_asym lt a b : weak_order lt → lt a b = true → lt b a = false.
Proof.
  intros [Hi Ht _] Hab. apply not_true_iff_false. intros Hba. specialize (Hi a).
  rewrite (Ht a b a Hab Hba) in Hi. done.
Qed.

(** The first element qualifies, and no other that qualifies comes before it. *)
Lemma first_by_spec lt p (m : gmap Z A) :
  weak_order lt →
  match first_by lt p m with
  | Some b => p b = true ∧ (∃ i, m !! i = Some b) ∧ ∀ i a, m !! i = Some a → p a = true → lt a b = false
  | None => ∀ i a, m !! i = Some a → p a = false
  end.
Proof.
  intros Hlt. unfold first_by. induction m as [|i x m Hi Hfirst IH] using map_first_key_ind.
  { by rewrite map_fold_empty. }
  rewrite map_fold_insert_first_key by done. revert IH.
  destruct (map_fold (λ _, better lt p) None m) as [b|] eqn:Hm; unfold better at 1;
    (destruct (p x) eqn:Hx; [|]); [destruct (lt b x) eqn:Hbx| | |].
  - intros (Hb & [j Hj] & Hmin). split_and!; [done|exists j|].
    + rewrite lookup_insert_ne; [done|]. congruence.
    + intros k a [[<- <-]|[_ ?]]%lookup_insert_Some ?; [by apply weak_asym|eauto].
  - intros (Hb & _ & Hmin). split_and!; [done|exists i; apply lookup_insert_eq|].
    intros k a [[<- <-]|[_ ?]]%lookup_insert_Some ?; [apply Hlt|].
    eapply weak_incomparable; [done| |exact Hbx]. eauto.
  - intros (Hb & [j Hj] & Hmin). split_and!; [done|exists j|].
    + rewrite lookup_insert_ne; [done|]. congruence.
    + intros k a [[<- <-]|[_ ?]]%lookup_insert_Some ?; [congruence|eauto].
  - intros Hnone. split_and!; [done|exists i; apply lookup_insert_eq|].
    intros k a [[<- <-]|[_ ?]]%lookup_insert_Some ?; [apply Hlt|].
    assert (p a = false) by eauto. congruence.
  - intros Hnone k a [[<- <-]|[_ ?]]%lookup_insert_Some; eauto.
Qed.
End search.
