(* ===== verification/ForkDatabase.v ===== *)
(** * The fork database (fork_database.hpp/.cpp, block_state.hpp/.cpp)

    The tree of block states that are not yet irreversible: a container with a
    unique index by id and ordered indices by block number and by
    irreversibility, and the current head.  The container is a library outside
    the program: its ordered indices are the class [multi_index].  The ordered indices are kept as
    sequences of ids, because the order of blocks that compare equal decides
    which fork is the head.  [None] stands for undefined behaviour: a null or
    dangling pointer, or the first element of an empty index. *)

From S2P Require Import Prelude Exceptions Config Merkle BlockHeaderState.

(** ** Ordered indices *)

(** An [ordered_non_unique] index: the sequence of its elements, ascending in
    a composite key of three integers (descending components are negated). *)
Section ordered_index.
Context {A : Type} `{EqDecision A}.
Variable key : A → Z * Z * Z.

Definition key_less (x y : Z * Z * Z) : bool :=
  let '(x1, x2, x3) := x in
  let '(y1, y2, y3) := y in
  (x1 <? y1) || ((x1 =? y1) && ((x2 <? y2) || ((x2 =? y2) && (x3 <? y3)))).

Definition less (a b : A) : bool := key_less (key a) (key b).

Fixpoint stable_insert (x : A) (l : list A) : list A :=
  match l with
  | [] => [x]
  | y :: l' => if less x y then x :: l else y :: stable_insert x l'
  end.

Definition in_place (before : list A) (x : A) (after : list A) : bool :=
  match last before with Some y => negb (less x y) | None => true end &&
  match head after with Some y => negb (less y x) | None => true end.

(** After its key has changed an element stays where it is if the order still
    holds there, and is inserted again otherwise. *)
Definition stable_relink (x : A) (l : list A) : list A :=
  match list_find (λ y, y = x) l with
  | Some (i, _) =>
      if in_place (take i l) x (drop (S i) l) then l
      else stable_insert x (take i l ++ drop (S i) l)
  | None => l
  end.

Definition index_erase (x : A) (l : list A) : list A := filter (λ y, y ≠ x) l.

Definition ordered (l : list A) : Prop := StronglySorted (λ a b, less b a = false) l.

Lemma less_refl a : less a a = false.
Proof. unfold less, key_less. destruct (key a) as [[] ?]. lia. Qed.

Lemma not_less_trans a b c : less b a = false → less c b = false → less c a = false.
Proof. unfold less, key_less. destruct (key a) as [[] ?], (key b) as [[] ?], (key c) as [[] ?]. lia. Qed.

Lemma less_not_less a b : less a b = true → less b a = false.
Proof. unfold less, key_less. destruct (key a) as [[] ?], (key b) as [[] ?]. lia. Qed.

Lemma stable_insert_perm x l : stable_insert x l ≡ₚ x :: l.
Proof.
  induction l as [|y l IH]; cbn; [done|]. case_match; [done|]. rewrite IH. apply Permutation_swap.
Qed.

Lemma ordered_stable_insert x l : ordered l → ordered (stable_insert x l).
Proof.
  induction 1 as [|y l Hl IH Hy]; cbn; [by repeat constructor|]. case_match eqn:Hxy.
  - constructor; [by constructor|]. constructor; [by apply less_not_less|].
    eapply Forall_impl; [exact Hy|]. cbn. intros z. apply not_less_trans. by apply less_not_less.
  - constructor; [done|]. rewrite stable_insert_perm. by constructor.
Qed.

Lemma ordered_filter (P : A → Prop) `{∀ x, Decision (P x)} l : ordered l → ordered (filter P l).
Proof.
  induction 1 as [|y l Hl IH Hy]; [constructor|]. rewrite filter_cons. case_decide; [|done].
  constructor; [done|]. apply Forall_forall. intros z [_ Hz]%list_elem_of_filter.
  by eapply Forall_forall in Hy.
Qed.

Lemma index_erase_elem_of x y l : y ∈ index_erase x l ↔ y ≠ x ∧ y ∈ l.
Proof. unfold index_erase. by rewrite list_elem_of_filter. Qed.

Lemma stable_relink_split x l :
  NoDup l → x ∈ l → ∃ l1 l2, l = l1 ++ x :: l2 ∧ index_erase x l = l1 ++ l2 ∧
    stable_relink x l = if in_place l1 x l2 then l else stable_insert x (l1 ++ l2).
Proof.
  intros Hnd Hx. apply list_elem_of_split in Hx as (l1 & l2 & ->). exists l1, l2.
  apply NoDup_app in Hnd as (_ & Hn1 & Hn2). apply NoDup_cons in Hn2 as [Hn2 _].
  assert (Hn1' : x ∉ l1) by (intros H; apply (Hn1 _ H), list_elem_of_here).
  assert (Hne : ∀ l : list A, x ∉ l → filter (λ y, y ≠ x) l = l).
  { intros l Hl. apply filter_all, Forall_forall. by intros y Hy ->. }
  split_and!; [done| |].
  - unfold index_erase. rewrite filter_app, filter_cons_False by auto. by rewrite !Hne.
  - unfold stable_relink. rewrite list_find_app_r.
    + cbn. rewrite decide_True by done. cbn.
      assert (Hd : drop (S (length l1)) (l1 ++ x :: l2) = l2).
      { replace (S (length l1)) with (length (l1 ++ [x])) by (rewrite length_app; cbn; lia).
        by rewrite (cons_middle x l1 l2), app_assoc, drop_app_length. }
      by rewrite Hd, take_app_length.
    + apply list_find_None, Forall_forall. by intros y Hy ->.
Qed.

Lemma stable_relink_perm x l : NoDup l → stable_relink x l ≡ₚ l.
Proof.
  intros Hnd. destruct (decide (x ∈ l)) as [Hx|Hx].
  - destruct (stable_relink_split x l Hnd Hx) as (l1 & l2 & -> & _ & ->). case_match; [done|].
    rewrite stable_insert_perm. apply Permutation_middle.
  - unfold stable_relink. rewrite (proj2 (list_find_None _ _)); [done|].
    apply Forall_forall. by intros y Hy ->.
Qed.

Lemma ordered_stable_relink x l : NoDup l → ordered (index_erase x l) → ordered (stable_relink x l).
Proof.
  intros Hnd Ho. destruct (decide (x ∈ l)) as [Hx|Hx].
  - destruct (stable_relink_split x l Hnd Hx) as (l1 & l2 & -> & He & ->). rewrite He in Ho.
    case_match eqn:Hp; [|by apply ordered_stable_insert].
    unfold in_place in Hp. zbool. apply StronglySorted_app in Ho as (H12 & H1 & H2).
    assert (Hl1 : ∀ y, y ∈ l1 → less x y = false).
    { destruct (last l1) as [z|] eqn:Hz; [|by apply last_None in Hz as ->; intros y ?%not_elem_of_nil].
      apply last_Some in Hz as [l1' ->]. apply StronglySorted_app in H1 as (H1 & _ & _). zbool.
      intros y [Hy| ->%list_elem_of_singleton]%elem_of_app; [|done].
      eapply not_less_trans; [apply (H1 y z); [done|apply list_elem_of_here]|done]. }
    assert (Hl2 : ∀ y, y ∈ l2 → less y x = false).
    { destruct l2 as [|z l2]; [by intros y ?%not_elem_of_nil|]. cbn in *. zbool.
      apply StronglySorted_cons in H2 as [H2 _]. intros y [->|Hy]%elem_of_cons; [done|].
      eapply not_less_trans; [done|]. eapply Forall_forall in H2; done. }
    apply StronglySorted_app. split_and!; [|done|].
    + intros y z Hy [->|Hz]%elem_of_cons; auto.
    + apply StronglySorted_cons. split; [by apply Forall_forall|done].
  - unfold stable_relink. rewrite (proj2 (list_find_None _ _)).
    + unfold index_erase in Ho. rewrite filter_all in Ho; [done|]. apply Forall_forall. by intros y Hy ->.
    + apply Forall_forall. by intros y Hy ->.
Qed.

(** The first element of an index comes before all others. *)
Lemma ordered_head l x y : ordered l → head l = Some x → y ∈ l → less y x = false.
Proof.
  destruct 1 as [|z l _ Hz]; [done|]. intros [= ->] [->|Hy]%elem_of_cons; [apply less_refl|].
  eapply Forall_forall in Hz; done.
Qed.
End ordered_index.

Lemma ordered_ext {A} (key key' : A → Z * Z * Z) l :
  (∀ y, y ∈ l → key' y = key y) → ordered key l → ordered key' l.
Proof.
  intros Hk. induction 1 as [|y l Hl IH Hy]; [constructor|]. constructor.
  - apply IH. intros z Hz. apply Hk. by apply list_elem_of_further.
  - apply Forall_forall. intros z Hz. eapply Forall_forall in Hy; [|done]. unfold less in *.
    rewrite !Hk; [done|apply list_elem_of_here|by apply list_elem_of_further].
Qed.

(** What the container promises of its ordered indices: an insertion and the
    update after a key has changed keep the elements and the order.  Where an
    element goes among those that compare equal to it is not promised. *)
Class multi_index := {
  index_insert : (digest_type → Z * Z * Z) → digest_type → list digest_type → list digest_type;
  index_relink : (digest_type → Z * Z * Z) → digest_type → list digest_type → list digest_type;
  index_insert_perm key x l : index_insert key x l ≡ₚ x :: l;
  ordered_insert key x l : ordered key l → ordered key (index_insert key x l);
  index_relink_perm key x l : NoDup l → index_relink key x l ≡ₚ l;
  ordered_relink key x l :
    NoDup l → ordered key (index_erase x l) → ordered key (index_relink key x l) }.

(** A container that keeps equal elements in the order of their insertion. *)
#[local] Instance stable_multi_index : multi_index := {
  index_insert := stable_insert;
  index_relink := stable_relink;
  index_insert_perm := stable_insert_perm;
  ordered_insert := ordered_stable_insert;
  index_relink_perm := stable_relink_perm;
  ordered_relink := ordered_stable_relink }.

(** ** States *)

Section fork_database.
Context {K Sig B : Type} `{EqDecision K}.
Abbreviation header_state := (@block_header_state K Sig).

(** What the fork database needs of header states: the id of a header, the
    transition to the next state and the confirmations. *)
Class header_rules := {
  rule_id : @block_header K → digest_type;
  rule_next : header_state → signed_block_header → bool → option (res header_state);
  rule_add_confirmation : header_state → @header_confirmation Sig → res header_state;
  rule_next_Ok s h trust s' : rule_next s h trust = Some (Ok s') →
    bhs_header s' = h ∧ bhs_id s' = rule_id h ∧ previous h = bhs_id s ∧
    bhs_block_num s' = u32 (bhs_block_num s + 1);
  rule_add_confirmation_Ok s c s' : rule_add_confirmation s c = Ok s' →
    bhs_id s' = bhs_id s ∧ bhs_header s' = bhs_header s ∧ bhs_block_num s' = bhs_block_num s ∧
    bhs_irreversible s' = bhs_irreversible s ∧ bhs_bft_irreversible s' = bhs_bft_irreversible s }.

Context {rules : header_rules} {container : multi_index}.

(** [block_state]; the captured transactions are not used by the fork
    database. *)
Record block_state : Type := BlockState {
  bs_header_state :> header_state;
  bs_block : option B;
  bs_validated : bool;
  bs_in_current_chain : bool }.

Abbreviation bs_id b := (bhs_id (bs_header_state b)).
Abbreviation bs_num b := (bhs_block_num (bs_header_state b)).
Abbreviation bs_lib b := (bhs_irreversible (bs_header_state b)).
Abbreviation bs_bft b := (bhs_bft_irreversible (bs_header_state b)).

(** [block_header_state::prev]. *)
Definition prev (b : block_state) : digest_type := previous (bhs_header b).

Record fork_database : Type := ForkDatabase {
  fdb_index : gmap digest_type block_state;
  fdb_by_num : list digest_type;
  fdb_by_lib : list digest_type;
  fdb_head : option digest_type;
  fdb_irreversible : list block_state   (* the signals sent, oldest first *) }.

Definition num_key (index : gmap digest_type block_state) (id : digest_type) : Z * Z * Z :=
  match (index !! id : option block_state) with
  | Some b => (bs_num b, if bs_in_current_chain b then 0 else 1, 0)
  | None => (0, 0, 0)
  end.

Definition lib_key (index : gmap digest_type block_state) (id : digest_type) : Z * Z * Z :=
  match (index !! id : option block_state) with
  | Some b => (- bs_lib b, - bs_bft b, - bs_num b)
  | None => (0, 0, 0)
  end.

(** [index.insert]: nothing is inserted if the id is known. *)
Definition fdb_insert (db : fork_database) (s : block_state) : fork_database * bool :=
  match fdb_index db !! bs_id s with
  | Some _ => (db, false)
  | None =>
      let index := <[bs_id s := s]> (fdb_index db) in
      (ForkDatabase index
         (index_insert (num_key index) (bs_id s) (fdb_by_num db))
         (index_insert (lib_key index) (bs_id s) (fdb_by_lib db))
         (fdb_head db) (fdb_irreversible db), true)
  end.

Definition fdb_erase (db : fork_database) (id : digest_type) : fork_database :=
  ForkDatabase (delete id (fdb_index db)) (index_erase id (fdb_by_num db)) (index_erase id (fdb_by_lib db))
    (fdb_head db) (fdb_irreversible db).

(** [index.modify]: the indices are sorted again. *)
Definition fdb_modify (db : fork_database) (id : digest_type) (f : block_state → block_state) : fork_database :=
  let index := alter f id (fdb_index db) in
  ForkDatabase index (index_relink (num_key index) id (fdb_by_num db))
    (index_relink (lib_key index) id (fdb_by_lib db)) (fdb_head db) (fdb_irreversible db).

(** A change through the pointer, which no index sees. *)
Definition fdb_write (db : fork_database) (id : digest_type) (f : block_state → block_state) : fork_database :=
  ForkDatabase (alter f id (fdb_index db)) (fdb_by_num db) (fdb_by_lib db) (fdb_head db) (fdb_irreversible db).

Definition set_head (db : fork_database) (h : option digest_type) : fork_database :=
  ForkDatabase (fdb_index db) (fdb_by_num db) (fdb_by_lib db) h (fdb_irreversible db).

Definition emit_irreversible (db : fork_database) (b : block_state) : fork_database :=
  ForkDatabase (fdb_index db) (fdb_by_num db) (fdb_by_lib db) (fdb_head db) (fdb_irreversible db ++ [b]).

Definition fdb_empty : fork_database := ForkDatabase ∅ [] [] None [].

(** ** Operations *)

Definition get_block (db : fork_database) (id : digest_type) : option block_state := fdb_index db !! id.

Definition head_block (db : fork_database) : option block_state := fdb_head db ≫= get_block db.

Definition set_guards (s : block_state) (inserted : bool) : res unit :=
  EOS_ASSERT (bool_decide (bs_id s = rule_id (bhs_header s))) fork_database_exception;;
  EOS_ASSERT inserted fork_database_exception.

(** [set]: the state is inserted before it is checked. *)
Definition set (db : fork_database) (s : block_state) : fork_database * res unit :=
  let '(db', inserted) := fdb_insert db s in
  match set_guards s inserted with
  | Throw e => (db', Throw e)
  | Ok _ =>
      (match head_block db with
       | None => set_head db' (Some (bs_id s))
       | Some h => if bs_num h <? bs_num s then set_head db' (Some (bs_id s)) else db'
       end, Ok ())
  end.

(** The blocks that [by_prev] lists for [id]; their order plays no role. *)
Definition children (db : fork_database) (id : digest_type) : list digest_type :=
  filter (λ i, prev <$> get_block db i = Some id) (fdb_by_num db).

Fixpoint remove_loop (fuel : nat) (remove_queue : list digest_type) (db : fork_database) : option fork_database :=
  match remove_queue with
  | [] => Some db
  | i :: queue =>
      match fuel with
      | O => None
      | S fuel =>
          let db := fdb_erase db i in
          remove_loop fuel (queue ++ children db i) db
      end
  end.

Definition remove (db : fork_database) (id : digest_type) : option fork_database :=
  db ← remove_loop (S (size (fdb_index db))) [id] db;
  best ← head (fdb_by_lib db);
  Some (set_head db (Some best)).

Definition not_below (db : fork_database) (num : Z) (id : digest_type) : bool :=
  match get_block db id with Some b => num <=? bs_num b | None => false end.

(** The first element of the index by number that is not below [num]. *)
Definition lower_bound (db : fork_database) (num : Z) : option digest_type :=
  head (filter (λ i, not_below db num i = true) (fdb_by_num db)).

(** The element after [id] in the index by number. *)
Definition num_successor (db : fork_database) (id : digest_type) : option digest_type :=
  match list_find (λ i, i = id) (fdb_by_num db) with
  | Some (n, _) => fdb_by_num db !! S n
  | None => None
  end.

(** The last loop of [prune]: [nitr] is advanced before the block it pointed
    to is removed, and is dangling if that removal takes the next block. *)
Fixpoint prune_siblings (fuel : nat) (num : Z) (nitr : option digest_type) (db : fork_database) : option fork_database :=
  match nitr with
  | None => Some db
  | Some i =>
      match fuel with
      | O => None
      | S fuel =>
          b ← get_block db i;
          if bs_num b =? num then
            let nitr := num_successor db i in
            db ← remove db i;
            prune_siblings fuel num nitr db
          else Some db
      end
  end.

(** The first loop of [prune], which prunes the blocks below [num]. *)
Fixpoint prune_older (prune : fork_database → block_state → option fork_database) (num : Z) (n : nat)
    (db : fork_database) : option fork_database :=
  match n with
  | O => None
  | S n =>
      match head (fdb_by_num db) ≫= get_block db with
      | Some b => if bs_num b <? num then db ← prune db b; prune_older prune num n db else Some db
      | None => Some db
      end
  end.

Fixpoint prune (fuel : nat) (db : fork_database) (h : block_state) : option fork_database :=
  match fuel with
  | O => None
  | S fuel =>
      let num := bs_num h in
      db ← prune_older (prune fuel) num (S (length (fdb_by_num db))) db;
      let db :=
        match get_block db (bs_id h) with
        | Some b => fdb_erase (emit_irreversible db b) (bs_id h)
        | None => db
        end in
      prune_siblings (S (length (fdb_by_num db))) num (lower_bound db num) db
  end.

(** A block that is pruned from within [prune] is the lowest one, so the
    recursion is at most two deep. *)
Definition prune_depth : nat := 2.

(** [add( block_state_ptr )]. *)
Definition add_state (db : fork_database) (n : block_state) : option (fork_database * res unit) :=
  let '(db', inserted) := fdb_insert db n in
  if negb inserted then Some (db, Throw (fc_throw_exception fork_database_exception))
  else
    best ← head (fdb_by_lib db');
    let db' := set_head db' (Some best) in
    h ← get_block db' best;
    oldest ← head (fdb_by_num db') ≫= get_block db';
    if bs_num oldest <? bs_lib h
    then db' ← prune prune_depth db' oldest; Some (db', Ok ())
    else Some (db', Ok ()).

(** The checks on a new block before its state is made. *)
Definition add_guards (db : fork_database) (h : @signed_block_header K Sig) : res unit :=
  EOS_ASSERT (match fdb_head db with Some _ => true | None => false end) fork_db_block_not_found;;
  EOS_ASSERT (match get_block db (rule_id h) with Some _ => false | None => true end) fork_database_exception;;
  EOS_ASSERT (match get_block db (previous h) with Some _ => true | None => false end) unlinkable_block_exception.

(** [add( signed_block_ptr, trust )], of a block that is not null; [header]
    reads the header of a block. *)
Definition add_block (header : B → @signed_block_header K Sig) (db : fork_database) (b : B) (trust : bool) :
    option (fork_database * res unit) :=
  match add_guards db (header b) with
  | Throw e => Some (db, Throw e)
  | Ok _ =>
      match get_block db (previous (header b)) with
      | None => None
      | Some prior =>
          match rule_next (bs_header_state prior) (header b) trust with
          | None => None
          | Some (Throw e) => Some (db, Throw e)
          | Some (Ok s) => add_state db (BlockState s (Some b) false false)
          end
      end
  end.

Definition set_validity (db : fork_database) (id : digest_type) (valid : bool) : option fork_database :=
  if negb valid then remove db id
  else Some (fdb_write db id (λ h, BlockState h (bs_block h) true (bs_in_current_chain h))).

(** [h_in_current_chain] is the flag of the state that the caller points to. *)
Definition mark_in_current_chain (db : fork_database) (id : digest_type) (h_in_current_chain in_current_chain : bool) :
    fork_database * res unit :=
  if Bool.eqb h_in_current_chain in_current_chain then (db, Ok ())
  else
    match get_block db id with
    | None => (db, Throw (fc_throw_exception fork_db_block_not_found))
    | Some _ =>
        (fdb_modify db id (λ b, BlockState b (bs_block b) (bs_validated b) in_current_chain), Ok ())
    end.

Definition get_block_in_current_chain_by_num (db : fork_database) (n : Z) : option block_state :=
  nitr ← lower_bound db n ≫= get_block db;
  if negb (bs_num nitr =? n) || negb (bs_in_current_chain nitr) then None else Some nitr.

(** ** Branches *)

(** A null [first_branch] makes the assertion's message dereference it, which
    is undefined; so are the null pointers of the loop conditions. *)
Fixpoint descend (fuel : nat) (db : fork_database) (b : block_state) (num : Z) (acc : list block_state) :
    option (block_state * list block_state) :=
  match fuel with
  | O => None
  | S fuel =>
      if bs_num b >? num then
        b' ← get_block db (prev b);
        descend fuel db b' num (acc ++ [b])
      else Some (b, acc)
  end.

Fixpoint descend_both (fuel : nat) (db : fork_database) (b1 b2 : block_state) (acc1 acc2 : list block_state) :
    option (list block_state * list block_state) :=
  match fuel with
  | O => None
  | S fuel =>
      if bool_decide (prev b1 ≠ prev b2) then
        b1' ← get_block db (prev b1);
        b2' ← get_block db (prev b2);
        descend_both fuel db b1' b2' (acc1 ++ [b1]) (acc2 ++ [b2])
      else Some (acc1 ++ [b1], acc2 ++ [b2])
  end.

Definition fetch_branch_from (db : fork_database) (first second : digest_type) :
    option (list block_state * list block_state) :=
  let fuel := S (size (fdb_index db)) in
  b1 ← get_block db first;
  b2 ← get_block db second;
  '(b1, r1) ← descend fuel db b1 (bs_num b2) [];
  '(b2, r2) ← descend fuel db b2 (bs_num b1) [];
  descend_both fuel db b1 b2 r1 r2.

(** ** Confirmations *)

Definition set_bft (num : Z) (b : block_state) : block_state :=
  BlockState
    (BlockHeaderState (bs_id b) (bs_num b) (bhs_header b) (bhs_proposed b) (bs_lib b) num
       (bhs_pending_lib_num b) (bhs_pending_hash b) (bhs_pending b) (bhs_active b) (bhs_merkle b)
       (bhs_last_produced b) (bhs_last_irb b) (bhs_signing_key b) (bhs_confirm_count b) (bhs_confirmations b))
    (bs_block b) (bs_validated b) (bs_in_current_chain b).

(** One layer of the traversal: the children of [i]. *)
Definition update_children (block_num : Z) (st : fork_database * list digest_type) (i : digest_type) :
    fork_database * list digest_type :=
  foldl (λ '(db, updated) c,
    match get_block db c with
    | Some b =>
        if bs_bft b <? block_num
        then (fdb_modify db c (set_bft block_num), updated ++ [c]) else (db, updated)
    | None => (db, updated)
    end) st (children st.1 i).

Fixpoint update_layers (fuel : nat) (block_num : Z) (queue : list digest_type) (db : fork_database) :
    option fork_database :=
  match queue with
  | [] => Some db
  | _ :: _ =>
      match fuel with
      | O => None
      | S fuel =>
          let '(db, updated) := foldl (update_children block_num) (db, []) queue in
          update_layers fuel block_num updated db
      end
  end.

Definition set_bft_irreversible (db : fork_database) (id : digest_type) : option fork_database :=
  b ← get_block db id;
  let block_num := bs_num b in
  let db := fdb_modify db id (set_bft block_num) in
  update_layers (S (S (size (fdb_index db)))) block_num [id] db.

(** [add( header_confirmation )]. *)
Definition add_header_confirmation (db : fork_database) (c : header_confirmation) : option (fork_database * res unit) :=
  match get_block db (hc_block_id c) with
  | None => Some (db, Throw (fc_throw_exception fork_db_block_not_found))
  | Some b =>
      match rule_add_confirmation b c with
      | Throw e => Some (db, Throw e)
      | Ok s =>
          let db := fdb_write db (hc_block_id c)
            (λ b, BlockState s (bs_block b) (bs_validated b) (bs_in_current_chain b)) in
          if (bhs_bft_irreversible s <? bhs_block_num s) &&
             (Z.of_nat (length (producers (bhs_active s))) * 2 / 3 + 1 <=? Z.of_nat (length (bhs_confirmations s)))
          then db ← set_bft_irreversible db (hc_block_id c); Some (db, Ok ())
          else Some (db, Ok ())
      end
  end.

(** ** The invariant of the container *)

(** The id of every state is its key, and both ordered indices list exactly
    the states, once each and in order. *)
Record fdb_wf (db : fork_database) : Prop := {
  wf_ids : ∀ i b, get_block db i = Some b → bs_id b = i;
  wf_num_dom : ∀ i, i ∈ fdb_by_num db ↔ is_Some (get_block db i);
  wf_lib_dom : ∀ i, i ∈ fdb_by_lib db ↔ is_Some (get_block db i);
  wf_num_nodup : NoDup (fdb_by_num db);
  wf_lib_nodup : NoDup (fdb_by_lib db);
  wf_num_ordered : ordered (num_key (fdb_index db)) (fdb_by_num db);
  wf_lib_ordered : ordered (lib_key (fdb_index db)) (fdb_by_lib db) }.

Lemma fdb_empty_wf : fdb_wf fdb_empty.
Proof.
  constructor; cbn; try constructor; try done.
  - by intros ?%not_elem_of_nil.
  - by intros [? ?].
  - by intros ?%not_elem_of_nil.
  - by intros [? ?].
Qed.

Lemma num_key_ext index index' i :
  (index !! i : option block_state) = index' !! i → num_key index' i = num_key index i.
Proof. unfold num_key. by intros ->. Qed.

Lemma lib_key_ext index index' i :
  (index !! i : option block_state) = index' !! i → lib_key index' i = lib_key index i.
Proof. unfold lib_key. by intros ->. Qed.

Lemma fdb_insert_wf db s db' : fdb_wf db → fdb_insert db s = (db', true) → fdb_wf db'.
Proof.
  intros [Hid Hnd Hld Hnn Hln Hno Hlo]. unfold fdb_insert.
  destruct (fdb_index db !! bs_id s) eqn:Hs; intros [= <-].
  assert (Hin : ∀ i : digest_type, is_Some (get_block db i) → i ≠ bs_id s).
  { intros i [b Hb] ->. unfold get_block in Hb. congruence. }
  assert (Hdom : ∀ i : digest_type, i = bs_id s ∨ is_Some (get_block db i) ↔
      is_Some ((<[bs_id s:=s]> (fdb_index db)) !! i)).
  { intros i. rewrite lookup_insert_is_Some. unfold get_block. destruct (decide (i = bs_id s)); naive_solver. }
  constructor; unfold get_block; cbn.
  - intros i b [[<- <-]|[_ ?]]%lookup_insert_Some; eauto.
  - intros i. rewrite index_insert_perm, elem_of_cons, Hnd. apply Hdom.
  - intros i. rewrite index_insert_perm, elem_of_cons, Hld. apply Hdom.
  - rewrite index_insert_perm. constructor; [|done]. rewrite Hnd. intros H. by apply (Hin _ H).
  - rewrite index_insert_perm. constructor; [|done]. rewrite Hld. intros H. by apply (Hin _ H).
  - apply ordered_insert. eapply ordered_ext; [|exact Hno]. intros i Hi. apply num_key_ext.
    rewrite lookup_insert_ne; [done|]. apply Hnd, Hin in Hi. done.
  - apply ordered_insert. eapply ordered_ext; [|exact Hlo]. intros i Hi. apply lib_key_ext.
    rewrite lookup_insert_ne; [done|]. apply Hld, Hin in Hi. done.
Qed.

(** Erasing keeps the keys of the other states. *)
Lemma ordered_erase_num db i (index : gmap digest_type block_state) :
  (∀ j, j ≠ i → index !! j = fdb_index db !! j) →
  ordered (num_key (fdb_index db)) (fdb_by_num db) → ordered (num_key index) (index_erase i (fdb_by_num db)).
Proof.
  intros Hj Ho. eapply ordered_ext; [|apply ordered_filter, Ho].
  intros j [? _]%index_erase_elem_of. apply num_key_ext. by rewrite Hj.
Qed.

Lemma ordered_erase_lib db i (index : gmap digest_type block_state) :
  (∀ j, j ≠ i → index !! j = fdb_index db !! j) →
  ordered (lib_key (fdb_index db)) (fdb_by_lib db) → ordered (lib_key index) (index_erase i (fdb_by_lib db)).
Proof.
  intros Hj Ho. eapply ordered_ext; [|apply ordered_filter, Ho].
  intros j [? _]%index_erase_elem_of. apply lib_key_ext. by rewrite Hj.
Qed.

Lemma fdb_erase_wf db i : fdb_wf db → fdb_wf (fdb_erase db i).
Proof.
  intros [Hid Hnd Hld Hnn Hln Hno Hlo].
  assert (Hdom : ∀ j : digest_type, j ≠ i ∧ is_Some (get_block db j) ↔ is_Some (delete i (fdb_index db) !! j)).
  { intros j. rewrite lookup_delete_is_Some. unfold get_block. naive_solver. }
  constructor; unfold get_block; cbn.
  - intros j b [_ ?]%lookup_delete_Some. by apply Hid.
  - intros j. rewrite index_erase_elem_of, Hnd. apply Hdom.
  - intros j. rewrite index_erase_elem_of, Hld. apply Hdom.
  - by apply NoDup_filter.
  - by apply NoDup_filter.
  - apply ordered_erase_num; [|done]. intros j Hj. by rewrite lookup_delete_ne.
  - apply ordered_erase_lib; [|done]. intros j Hj. by rewrite lookup_delete_ne.
Qed.

Lemma fdb_modify_wf db i f :
  (∀ b, bs_id (f b) = bs_id b) → fdb_wf db → fdb_wf (fdb_modify db i f).
Proof.
  intros Hf [Hid Hnd Hld Hnn Hln Hno Hlo].
  assert (Hdom : ∀ j : digest_type, is_Some (get_block db j) ↔ is_Some (alter f i (fdb_index db) !! j)).
  { intros j. by rewrite lookup_alter_is_Some. }
  constructor; unfold get_block; cbn.
  - intros j b [(-> & b' & Hb & ->)|[_ ?]]%lookup_alter_Some; [rewrite Hf|]; by apply Hid.
  - intros j. rewrite index_relink_perm by done. rewrite Hnd. apply Hdom.
  - intros j. rewrite index_relink_perm by done. rewrite Hld. apply Hdom.
  - by rewrite index_relink_perm.
  - by rewrite index_relink_perm.
  - apply ordered_relink; [done|]. apply ordered_erase_num; [|done]. intros j Hj. by rewrite lookup_alter_ne.
  - apply ordered_relink; [done|]. apply ordered_erase_lib; [|done]. intros j Hj. by rewrite lookup_alter_ne.
Qed.

Lemma fdb_write_wf db i f :
  (∀ b, bs_id (f b) = bs_id b ∧ bs_num (f b) = bs_num b ∧ bs_lib (f b) = bs_lib b ∧ bs_bft (f b) = bs_bft b ∧
        bs_in_current_chain (f b) = bs_in_current_chain b) →
  fdb_wf db → fdb_wf (fdb_write db i f).
Proof.
  intros Hf [Hid Hnd Hld Hnn Hln Hno Hlo].
  assert (Hdom : ∀ j : digest_type, is_Some (get_block db j) ↔ is_Some (alter f i (fdb_index db) !! j)).
  { intros j. by rewrite lookup_alter_is_Some. }
  constructor; unfold get_block; cbn; try done.
  - intros j b [(-> & b' & Hb & ->)|[_ ?]]%lookup_alter_Some; [|by apply Hid].
    destruct (Hf b') as [-> _]. by apply Hid.
  - intros j. rewrite Hnd. apply Hdom.
  - intros j. rewrite Hld. apply Hdom.
  - eapply ordered_ext; [|exact Hno]. intros j _. unfold num_key. destruct (decide (j = i)) as [->|].
    + rewrite lookup_alter_eq. destruct (fdb_index db !! i) as [b|]; cbn; [|done].
      by destruct (Hf b) as (_ & -> & _ & _ & ->).
    + by rewrite lookup_alter_ne.
  - eapply ordered_ext; [|exact Hlo]. intros j _. unfold lib_key. destruct (decide (j = i)) as [->|].
    + rewrite lookup_alter_eq. destruct (fdb_index db !! i) as [b|]; cbn; [|done].
      by destruct (Hf b) as (_ & -> & -> & -> & _).
    + by rewrite lookup_alter_ne.
Qed.

Lemma set_head_wf db h : fdb_wf db → fdb_wf (set_head db h).
Proof. by intros []. Qed.

Lemma emit_irreversible_wf db b : fdb_wf db → fdb_wf (emit_irreversible db b).
Proof. by intros []. Qed.

(** ** Removing a fork *)

(** The blocks that build on one of [roots], through states of the index; the
    roots included. *)
Inductive builds_on (index : gmap digest_type block_state) (roots : list digest_type) : digest_type → Prop :=
  | builds_root x : x ∈ roots → builds_on index roots x
  | builds_step x b : index !! x = Some b → builds_on index roots (prev b) → builds_on index roots x.

Lemma get_block_erase_Some db i x b :
  get_block (fdb_erase db i) x = Some b ↔ i ≠ x ∧ get_block db x = Some b.
Proof. apply lookup_delete_Some. Qed.

Lemma get_block_erase_eq db i : get_block (fdb_erase db i) i = None.
Proof. apply lookup_delete_eq. Qed.

Lemma by_num_length db : fdb_wf db → length (fdb_by_num db) = size (fdb_index db).
Proof.
  intros Hwf. rewrite <- (size_list_to_set (C := gset digest_type)) by apply (wf_num_nodup db Hwf).
  rewrite <- (size_dom (D := gset digest_type)). f_equal. apply set_eq. intros i.
  rewrite elem_of_list_to_set, (wf_num_dom db Hwf), elem_of_dom. done.
Qed.

Lemma children_elem_of db i c :
  fdb_wf db → c ∈ children db i ↔ ∃ b, get_block db c = Some b ∧ prev b = i.
Proof.
  intros Hwf. unfold children. rewrite list_elem_of_filter, (wf_num_dom db Hwf), fmap_Some. unfold is_Some.
  naive_solver.
Qed.

Lemma builds_on_pop db i queue x :
  fdb_wf db →
  builds_on (fdb_index db) (i :: queue) x ↔
  x = i ∨ builds_on (fdb_index (fdb_erase db i)) (queue ++ children (fdb_erase db i) i) x.
Proof.
  intros Hwf. pose proof (fdb_erase_wf db i Hwf) as Hwf'. cbn. split.
  - induction 1 as [x Hx|x b Hb _ IH].
    + apply elem_of_cons in Hx as [->|Hx]; [by left|]. right. apply builds_root, elem_of_app. by left.
    + destruct (decide (x = i)) as [->|Hxi]; [by left|]. right.
      assert (Hb' : delete i (fdb_index db) !! x = Some b) by by rewrite lookup_delete_ne.
      destruct IH as [Hp|IH].
      * apply builds_root, elem_of_app. right. apply children_elem_of; [done|]. exists b. by split.
      * by eapply builds_step.
  - intros [->|H]; [apply builds_root, list_elem_of_here|].
    induction H as [x Hx|x b Hb _ IH].
    + apply elem_of_app in Hx as [Hx|Hx]; [by apply builds_root, list_elem_of_further|].
      apply children_elem_of in Hx as (b & Hb & Hp); [|done].
      apply get_block_erase_Some in Hb as [_ Hb]. eapply builds_step; [done|]. rewrite Hp.
      apply builds_root, list_elem_of_here.
    + apply lookup_delete_Some in Hb as [_ Hb]. by eapply builds_step.
Qed.

(** A state without roots below it keeps everything. *)
Lemma builds_on_nil index x : ¬ builds_on index [] x.
Proof. induction 1 as [x Hx|]; [by apply not_elem_of_nil in Hx|done]. Qed.

Lemma remove_loop_spec fuel queue db db' :
  fdb_wf db → remove_loop fuel queue db = Some db' →
  fdb_wf db' ∧ fdb_head db' = fdb_head db ∧ fdb_irreversible db' = fdb_irreversible db ∧
  ∀ x, (builds_on (fdb_index db) queue x → get_block db' x = None) ∧
       (¬ builds_on (fdb_index db) queue x → get_block db' x = get_block db x) ∧
       (get_block db x = None → get_block db' x = None).
Proof.
  revert queue db. induction fuel as [|fuel IH]; intros [|i queue] db Hwf; cbn [remove_loop]; try done.
  1,2: intros [= <-]; split_and!; try done; intros x; split_and!; try done; by intros ?%builds_on_nil.
  intros H. apply IH in H as (Hwf' & Hh & Hi & Hx); [|by apply fdb_erase_wf]. split_and!; try done.
  intros x. destruct (Hx x) as (Hx1 & Hx2 & Hx3). rewrite builds_on_pop by done. split_and!.
  - intros [->|Hb]; [|by apply Hx1]. apply Hx3, lookup_delete_eq.
  - intros Hn. rewrite Hx2 by naive_solver. unfold get_block. cbn. rewrite lookup_delete_ne; naive_solver.
  - intros Hn. apply Hx3. unfold get_block in *. cbn. by apply lookup_delete_None; right.
Qed.

(** The queue of [remove] after its first round: distinct states whose parents
    are gone. *)
Definition queue_ok (db : fork_database) (queue : list digest_type) : Prop :=
  NoDup queue ∧ ∀ c, c ∈ queue → ∃ b, get_block db c = Some b ∧ get_block db (prev b) = None.

Lemma queue_ok_pop db i queue :
  fdb_wf db → queue_ok db (i :: queue) →
  queue_ok (fdb_erase db i) (queue ++ children (fdb_erase db i) i).
Proof.
  intros Hwf [Hnd Hq]. pose proof (fdb_erase_wf db i Hwf) as Hwf'. apply NoDup_cons in Hnd as [Hi Hnd].
  assert (Hold : ∀ c, c ∈ queue → ∃ b, get_block db c = Some b ∧ get_block db (prev b) = None)
    by (intros; by apply Hq, list_elem_of_further).
  split.
  - apply NoDup_app. split_and!; [done| |by apply NoDup_filter, (wf_num_nodup _ Hwf')].
    intros c Hc (b & Hb & Hp)%children_elem_of; [|done].
    apply get_block_erase_Some in Hb as [_ Hb]. destruct (Hold c Hc) as (b' & Hb' & Hn).
    destruct (Hq i) as (bi & Hbi & _); [apply list_elem_of_here|]. unfold get_block in *. congruence.
  - intros c [Hc|Hc]%elem_of_app.
    + destruct (Hold c Hc) as (b & Hb & Hn). exists b. unfold get_block in *. cbn. split.
      * rewrite lookup_delete_ne; [done|]. by intros ->.
      * by apply lookup_delete_None; right.
    + apply children_elem_of in Hc as (b & Hb & Hp); [|done]. exists b. split; [done|]. rewrite Hp.
      apply lookup_delete_eq.
Qed.

Lemma remove_loop_total fuel queue db :
  fdb_wf db → queue_ok db queue → (size (fdb_index db) <= fuel)%nat →
  is_Some (remove_loop fuel queue db).
Proof.
  revert queue db. induction fuel as [|fuel IH]; intros [|i queue] db Hwf Hq Hf; cbn [remove_loop]; try by eexists.
  - destruct Hq as [_ Hq]. destruct (Hq i) as (b & Hb & _); [apply list_elem_of_here|].
    assert (He : fdb_index db = ∅) by (apply map_size_empty_inv; lia).
    unfold get_block in Hb. rewrite He in Hb. done.
  - apply IH; [by apply fdb_erase_wf|by apply queue_ok_pop|].
    destruct Hq as [_ Hq]. destruct (Hq i) as (b & Hb & _); [apply list_elem_of_here|].
    cbn. rewrite map_size_delete. unfold get_block in Hb. rewrite Hb. cbn. lia.
Qed.

Lemma remove_queue_total db id :
  fdb_wf db → is_Some (remove_loop (S (size (fdb_index db))) [id] db).
Proof.
  intros Hwf. cbn [remove_loop app]. pose proof (fdb_erase_wf db id Hwf) as Hwf'.
  apply remove_loop_total; [done| |].
  - split; [by apply NoDup_filter, (wf_num_nodup _ Hwf')|].
    intros c (b & Hb & Hp)%children_elem_of; [|done]. exists b. split; [done|]. rewrite Hp. apply lookup_delete_eq.
  - cbn. rewrite map_size_delete. destruct (fdb_index db !! id); cbn; lia.
Qed.

(** The best state: first by irreversible block, then by BFT irreversible
    block, then by height. *)
Definition at_least (b c : block_state) : Prop :=
  bs_lib c < bs_lib b ∨
  (bs_lib c = bs_lib b ∧ (bs_bft c < bs_bft b ∨ (bs_bft c = bs_bft b ∧ bs_num c <= bs_num b))).

Definition is_best (db : fork_database) (b : block_state) : Prop :=
  get_block db (bs_id b) = Some b ∧ ∀ i c, get_block db i = Some c → at_least b c.

Lemma lib_head_best db i :
  fdb_wf db → head (fdb_by_lib db) = Some i → ∃ b, get_block db i = Some b ∧ is_best db b.
Proof.
  intros Hwf Hi.
  assert (Hb : is_Some (get_block db i)).
  { apply (wf_lib_dom db Hwf). destruct (fdb_by_lib db); [done|]. injection Hi as ->. apply list_elem_of_here. }
  destruct Hb as [b Hb]. exists b. split; [done|]. split; [by rewrite (wf_ids db Hwf _ _ Hb)|].
  intros j c Hc. pose proof (wf_lib_dom db Hwf j) as Hj.
  pose proof (ordered_head _ _ _ j (wf_lib_ordered db Hwf) Hi) as Hless. specialize (Hless (proj2 Hj ltac:(eauto))).
  unfold less, lib_key, get_block in *. rewrite Hb, Hc in Hless. unfold key_less in Hless. unfold at_least. lia.
Qed.

Lemma remove_cases db id :
  fdb_wf db →
  ((∃ i, is_Some (get_block db i) ∧ ¬ builds_on (fdb_index db) [id] i) →
   is_Some (remove db id)) ∧
  ∀ db', remove db id = Some db' →
    fdb_wf db' ∧ fdb_irreversible db' = fdb_irreversible db ∧
    (∃ h, fdb_head db' = Some (bs_id h) ∧ is_best db' h) ∧
    ∀ x, (builds_on (fdb_index db) [id] x → get_block db' x = None) ∧
         (¬ builds_on (fdb_index db) [id] x → get_block db' x = get_block db x).
Proof.
  intros Hwf. unfold remove. destruct (remove_queue_total db id Hwf) as [db1 H1]. rewrite H1. cbn.
  destruct (remove_loop_spec _ _ _ _ Hwf H1) as (Hwf1 & Hh & Hirr & Hx). split.
  - intros (i & Hi & Hn). destruct (Hx i) as (_ & Hk & _). rewrite <- Hk in Hi by done.
    apply (wf_lib_dom db1 Hwf1) in Hi. destruct (fdb_by_lib db1); [by apply not_elem_of_nil in Hi|]. by eexists.
  - intros db'. destruct (head (fdb_by_lib db1)) as [i|] eqn:Hi; cbn; intros [= <-].
    destruct (lib_head_best db1 i Hwf1 Hi) as (b & Hb & Hbest).
    split_and!; [by apply set_head_wf|done| |].
    + exists b. cbn. rewrite (wf_ids db1 Hwf1 _ _ Hb). split; [done|]. exact Hbest.
    + intros x. destruct (Hx x) as (? & ? & _). done.
Qed.

(** C24: Removing an invalid fork takes out exactly the block and the blocks
    that build on it, leaves every other state untouched, always ends, and
    makes the best remaining block the head.  It is defined whenever a block
    remains. *)
Theorem remove_spec db id :
  fdb_wf db → (∃ i, is_Some (get_block db i) ∧ ¬ builds_on (fdb_index db) [id] i) →
  ∃ db', remove db id = Some db' ∧ fdb_wf db' ∧
    (∃ h, fdb_head db' = Some (bs_id h) ∧ is_best db' h) ∧
    ∀ x, (builds_on (fdb_index db) [id] x → get_block db' x = None) ∧
         (¬ builds_on (fdb_index db) [id] x → get_block db' x = get_block db x).
Proof.
  intros Hwf Hi. destruct (remove_cases db id Hwf) as [H1 H2]. destruct (H1 Hi) as [db' Hr].
  exists db'. destruct (H2 db' Hr) as (? & _ & ? & ?). done.
Qed.

(** ** Branches *)

(** [branch db b l a]: [l] is the way down from [b] to its ancestor [a], both
    included. *)
Inductive branch (db : fork_database) : block_state → list block_state → block_state → Prop :=
  | branch_one b : branch db b [b] b
  | branch_cons b p l a : get_block db (prev b) = Some p → branch db p l a → branch db b (b :: l) a.

(** Block numbers count up along the links. *)
Definition linked (db : fork_database) : Prop :=
  ∀ i b p, get_block db i = Some b → get_block db (prev b) = Some p → bs_num b = bs_num p + 1.

Lemma branch_app db b l1 c l2 a : branch db b (l1 ++ [c]) c → branch db c l2 a → branch db b (l1 ++ l2) a.
Proof.
  revert b. induction l1 as [|x l1 IH]; intros b H H2; cbn in *.
  - inversion H as [|? ? ? ? ? H']; subst; [done|inversion H'].
  - inversion H as [|? p ? ? Hp H']; subst; [by destruct l1|].
    eapply branch_cons; [done|]. by apply IH.
Qed.

Lemma branch_num db b l a :
  linked db → get_block db (bs_id b) = Some b → fdb_wf db →
  branch db b l a → bs_num b = bs_num a + Z.of_nat (length l) - 1.
Proof.
  intros Hl Hb Hwf. induction 1 as [b|b p l a Hp _ IH]; cbn; [lia|].
  pose proof (Hl _ _ _ Hb Hp). rewrite (wf_ids db Hwf _ _ Hp) in IH. specialize (IH Hp). lia.
Qed.

Lemma branch_elem db b l a x :
  linked db → get_block db (bs_id b) = Some b → fdb_wf db → branch db b l a → x ∈ l →
  get_block db (bs_id x) = Some x ∧ bs_num x <= bs_num b.
Proof.
  intros Hl Hb Hwf H. induction H as [b|b p l a Hp _ IH].
  - intros ->%list_elem_of_singleton. split; [done|lia].
  - intros [->|Hx]%elem_of_cons; [split; [done|lia]|].
    pose proof (Hl _ _ _ Hb Hp). rewrite (wf_ids db Hwf _ _ Hp) in IH. destruct (IH Hp Hx). split; [done|lia].
Qed.

Lemma branch_length db b l a :
  linked db → get_block db (bs_id b) = Some b → fdb_wf db → branch db b l a →
  (length l <= size (fdb_index db))%nat.
Proof.
  intros Hl Hb Hwf H.
  assert (Hnd : NoDup (map (λ x, bs_id x) l)).
  { clear -Hl Hb Hwf H. induction H as [b|b p l a Hp H IH]; [apply NoDup_singleton|]. cbn.
    assert (Hp' : get_block db (bs_id p) = Some p) by by rewrite (wf_ids db Hwf _ _ Hp).
    apply NoDup_cons. split; [|by apply IH].
    intros (x & Hx & Hin)%list_elem_of_fmap. destruct (branch_elem db p l a x) as [Hxb Hn]; try done.
    pose proof (Hl _ _ _ Hb Hp). rewrite <- Hx, Hb in Hxb. injection Hxb as <-. lia. }
  rewrite <- (length_map (λ x, bs_id x)), <- (size_list_to_set (C := gset digest_type)) by done.
  rewrite <- (size_dom (D := gset digest_type)). apply subseteq_size. intros i Hi.
  apply elem_of_list_to_set, list_elem_of_fmap in Hi as (x & -> & Hx).
  destruct (branch_elem db b l a x) as [Hxb _]; try done. apply elem_of_dom. by eexists.
Qed.

Lemma descend_spec db fuel b l a num acc :
  linked db → get_block db (bs_id b) = Some b → fdb_wf db → branch db b l a → bs_num a <= num →
  (length l <= fuel)%nat →
  ∃ c l1 l2, descend fuel db b num acc = Some (c, acc ++ l1) ∧ branch db b (l1 ++ [c]) c ∧ branch db c l2 a ∧
    get_block db (bs_id c) = Some c ∧ bs_num c = Z.min (bs_num b) num.
Proof.
  intros Hl Hb Hwf H. revert fuel acc. induction H as [b|b p l a Hp H IH]; intros [|fuel] acc Ha Hf;
    cbn in Hf |- *; try lia; destruct (Z.gtb_spec (bs_num b) num).
  - lia.
  - exists b, [], [b]. rewrite app_nil_r. split_and!; try done; try constructor. lia.
  - rewrite Hp. cbn. pose proof (Hl _ _ _ Hb Hp).
    assert (Hp' : get_block db (bs_id p) = Some p) by by rewrite (wf_ids db Hwf _ _ Hp).
    destruct (IH Hp' fuel (acc ++ [b])) as (c & l1 & l2 & -> & ? & ? & Hc & Hn); [done|lia|].
    exists c, (b :: l1), l2. rewrite <- app_assoc. split_and!; try done; [by eapply branch_cons|lia].
  - exists b, [], (b :: l). rewrite app_nil_r. split_and!; try done; [constructor|by eapply branch_cons|lia].
Qed.

Lemma descend_both_spec db fuel b1 b2 l1 l2 a1 a2 acc1 acc2 :
  branch db b1 l1 a1 → branch db b2 l2 a2 → length l1 = length l2 → prev a1 = prev a2 →
  (length l1 <= fuel)%nat →
  ∃ c1 c2 r1 r2, descend_both fuel db b1 b2 acc1 acc2 = Some (acc1 ++ r1, acc2 ++ r2) ∧
    branch db b1 r1 c1 ∧ branch db b2 r2 c2 ∧ prev c1 = prev c2 ∧ length r1 = length r2.
Proof.
  intros H1. revert fuel b2 l2 acc1 acc2. induction H1 as [b1|b1 p1 l1 a1 Hp1 H1 IH];
    intros [|fuel] b2 l2 acc1 acc2 H2 Hlen Hprev Hf; cbn in Hf, Hlen |- *; try lia.
  - inversion H2 as [|? ? ? ? ? H2']; subst; [|inversion H2'; subst; cbn in Hlen; lia].
    rewrite bool_decide_eq_false_2 by auto. exists b1, a2, [b1], [a2]. split_and!; try done; constructor.
  - destruct (decide (prev b1 = prev b2)) as [He|He].
    { rewrite bool_decide_eq_false_2 by auto. exists b1, b2, [b1], [b2]. split_and!; try done; constructor. }
    rewrite bool_decide_eq_true_2 by done. rewrite Hp1. cbn.
    inversion H2 as [|? p2 l2' ? Hp2 H2']; subst.
    { cbn in Hlen. inversion H1; subst; cbn in Hlen; lia. }
    rewrite Hp2. cbn. cbn in Hlen.
    destruct (IH fuel p2 l2' (acc1 ++ [b1]) (acc2 ++ [b2])) as (c1 & c2 & r1 & r2 & -> & Hr1 & Hr2 & Hp & Hl);
      [done|lia|done|lia|].
    exists c1, c2, (b1 :: r1), (b2 :: r2). rewrite <- !app_assoc.
    split_and!; try done; [by eapply branch_cons|by eapply branch_cons|cbn; lia].
Qed.

(** C25: [fetch_branch_from] finds where two forks part: if the chains of two
    blocks reach blocks of the same height with the same parent, it ends, and
    its two results are the ways down from each block to blocks with a common
    parent and of equal height. *)
Theorem fetch_branch_from_spec db first second b1 b2 l1 l2 a1 a2 :
  fdb_wf db → linked db →
  get_block db first = Some b1 → get_block db second = Some b2 →
  branch db b1 l1 a1 → branch db b2 l2 a2 → prev a1 = prev a2 → bs_num a1 = bs_num a2 →
  ∃ r1 r2 c1 c2, fetch_branch_from db first second = Some (r1, r2) ∧
    branch db b1 r1 c1 ∧ branch db b2 r2 c2 ∧ prev c1 = prev c2 ∧ bs_num c1 = bs_num c2.
Proof.
  intros Hwf Hl Hb1 Hb2 H1 H2 Hprev Hnum.
  assert (Hi1 : get_block db (bs_id b1) = Some b1) by by rewrite (wf_ids db Hwf _ _ Hb1).
  assert (Hi2 : get_block db (bs_id b2) = Some b2) by by rewrite (wf_ids db Hwf _ _ Hb2).
  pose proof (branch_num db b1 l1 a1 Hl Hi1 Hwf H1) as Hn1.
  pose proof (branch_num db b2 l2 a2 Hl Hi2 Hwf H2) as Hn2.
  assert (Hpos : (1 <= length l1 ∧ 1 <= length l2)%nat) by (destruct H1, H2; cbn; lia).
  pose proof (branch_length db b1 l1 a1 Hl Hi1 Hwf H1). pose proof (branch_length db b2 l2 a2 Hl Hi2 Hwf H2).
  unfold fetch_branch_from. rewrite Hb1, Hb2. cbn [mbind option_bind].
  destruct (descend_spec db (S (size (fdb_index db))) b1 l1 a1 (bs_num b2) [])
    as (c1 & m1 & n1 & -> & Hm1 & Hn1' & Hc1 & Hnc1); try done; try lia. cbn [mbind option_bind app].
  destruct (descend_spec db (S (size (fdb_index db))) b2 l2 a2 (bs_num c1) [])
    as (c2 & m2 & n2 & Hd2 & Hm2 & Hn2' & Hc2 & Hnc2); try done; try lia.
  rewrite Hd2. cbn [mbind option_bind app].
  pose proof (branch_num db c1 n1 a1 Hl Hc1 Hwf Hn1').
  pose proof (branch_num db c2 n2 a2 Hl Hc2 Hwf Hn2').
  pose proof (branch_length db c1 n1 a1 Hl Hc1 Hwf Hn1').
  destruct (descend_both_spec db (S (size (fdb_index db))) c1 c2 n1 n2 a1 a2 m1 m2)
    as (d1 & d2 & r1 & r2 & -> & Hr1 & Hr2 & Hp & Hlen); try done; try lia.
  exists (m1 ++ r1), (m2 ++ r2), d1, d2. split_and!; try done; try by eapply branch_app.
  pose proof (branch_num db c1 r1 d1 Hl Hc1 Hwf Hr1).
  pose proof (branch_num db c2 r2 d2 Hl Hc2 Hwf Hr2). lia.
Qed.

(** ** Blocks of the current chain *)

Lemma lower_bound_first db n i :
  fdb_wf db → lower_bound db n = Some i →
  ∃ b, get_block db i = Some b ∧ n <= bs_num b ∧
    ∀ j c, get_block db j = Some c → n <= bs_num c →
      bs_num b < bs_num c ∨ (bs_num b = bs_num c ∧ (bs_in_current_chain c = true → bs_in_current_chain b = true)).
Proof.
  intros Hwf Hi. unfold lower_bound in Hi.
  assert (Hin : i ∈ filter (λ i, not_below db n i = true) (fdb_by_num db)).
  { destruct (filter _ _); [done|]. injection Hi as ->. apply list_elem_of_here. }
  apply list_elem_of_filter in Hin as [Hn Hin]. apply (wf_num_dom db Hwf) in Hin as [b Hb].
  exists b. unfold not_below in Hn. rewrite Hb in Hn. split_and!; [done|lia|].
  intros j c Hc Hnc.
  pose proof (ordered_filter _ (λ i, not_below db n i = true) _ (wf_num_ordered db Hwf)) as Ho.
  pose proof (ordered_head _ _ _ j Ho Hi) as Hless.
  assert (Hj : j ∈ filter (λ i, not_below db n i = true) (fdb_by_num db)).
  { apply list_elem_of_filter. split; [|apply (wf_num_dom db Hwf); eauto]. unfold not_below. rewrite Hc. lia. }
  specialize (Hless Hj). unfold less, num_key, get_block in *. rewrite Hb, Hc in Hless. unfold key_less in Hless.
  destruct (bs_in_current_chain b), (bs_in_current_chain c); lia.
Qed.

(** [get_block_in_current_chain_by_num] finds a block of the height asked
    for that is on the current chain exactly when the index holds one. *)
Theorem get_block_in_current_chain_by_num_spec db n :
  fdb_wf db →
  (∀ b, get_block_in_current_chain_by_num db n = Some b →
     get_block db (bs_id b) = Some b ∧ bs_num b = n ∧ bs_in_current_chain b = true) ∧
  ((∃ i b, get_block db i = Some b ∧ bs_num b = n ∧ bs_in_current_chain b = true) →
     is_Some (get_block_in_current_chain_by_num db n)).
Proof.
  intros Hwf. unfold get_block_in_current_chain_by_num.
  destruct (lower_bound db n) as [i|] eqn:Hi; cbn.
  - destruct (lower_bound_first db n i Hwf Hi) as (b & Hb & Hn & Hfirst). rewrite Hb. cbn. split.
    + intros b'. case_match eqn:Hg; intros [= <-]. zbool. rewrite (wf_ids db Hwf _ _ Hb). done.
    + intros (j & c & Hc & Hcn & Hcc). destruct (Hfirst j c Hc ltac:(lia)) as [?|[? Hcb]]; [lia|].
      rewrite (Hcb Hcc), (proj2 (Z.eqb_eq _ _)) by lia. by eexists.
  - split; [done|]. intros (j & c & Hc & Hcn & _). exfalso. unfold lower_bound in Hi.
    assert (Hj : j ∈ filter (λ i, not_below db n i = true) (fdb_by_num db)).
    { apply list_elem_of_filter. split; [|apply (wf_num_dom db Hwf); eauto]. unfold not_below. rewrite Hc. lia. }
    destruct (filter _ _); [by apply not_elem_of_nil in Hj|done].
Qed.

(** ** Adding and pruning *)

Lemma remove_by_num db id db' : remove db id = Some db' → fdb_by_num db' `sublist_of` fdb_by_num db.
Proof.
  assert (Hloop : ∀ fuel queue db db', remove_loop fuel queue db = Some db' →
    fdb_by_num db' `sublist_of` fdb_by_num db).
  { clear. induction fuel as [|fuel IH]; intros [|i queue] db db'; cbn [remove_loop]; try done;
      [by intros [= <-]..|]. intros H%IH. cbn in H. etrans; [exact H|]. apply sublist_filter. }
  unfold remove. intros H. apply bind_Some in H as (db1 & H1 & H). apply bind_Some in H as (best & _ & [= <-]).
  by apply Hloop in H1.
Qed.

Lemma sublist_second {A} (l : list A) j k r :
  NoDup (j :: k :: r) → l `sublist_of` j :: k :: r → j ∉ l → k ∈ l → head l = Some k.
Proof.
  intros Hnd Hs Hj Hk. apply NoDup_cons in Hnd as [_ Hnd]. apply NoDup_cons in Hnd as [Hkr _].
  inversion Hs as [|x l1 l2 Hs'|x l1 l2 Hs']; subst; [by destruct Hj; apply list_elem_of_here|].
  inversion Hs' as [|x l1 l2 Hs''|x l1 l2 Hs'']; subst; [done|].
  exfalso. apply Hkr. by eapply elem_of_sublist.
Qed.

Lemma builds_on_higher db j b x d :
  linked db → get_block db j = Some b → builds_on (fdb_index db) [j] x → get_block db x = Some d →
  x = j ∨ bs_num b < bs_num d.
Proof.
  intros Hl Hb H. revert d. induction H as [x Hx|x d0 Hd0 H IH]; intros d Hd.
  - left. by apply list_elem_of_singleton in Hx.
  - right. assert (d0 = d) as -> by (unfold get_block in Hd; congruence).
    destruct (get_block db (prev d)) as [p|] eqn:Hp.
    + pose proof (Hl _ _ _ Hd Hp). destruct (IH p eq_refl) as [Hj|?]; [|lia].
      rewrite Hj in Hp. assert (p = b) as -> by congruence. lia.
    + inversion H as [? Hr|? p Hp' ?]; subst; [|unfold get_block in Hp; congruence].
      apply list_elem_of_singleton in Hr. rewrite Hr in Hp. congruence.
Qed.

(** Removing a block whose parent stays or is already gone keeps the links. *)
Lemma linked_subset db db' :
  (∀ i b, get_block db' i = Some b → get_block db i = Some b) → linked db → linked db'.
Proof. intros Hs Hl i b p Hb Hp. eapply Hl; eauto. Qed.

(** The state in which the siblings of a pruned block of height [num] are
    removed: its successor [c] on the current chain is the only one of its
    height there, and [nitr] is the first block of the index. *)
Record pruning (num : Z) (c : block_state) (db : fork_database) : Prop := {
  pr_wf : fdb_wf db;
  pr_linked : linked db;
  pr_floor : ∀ i b, get_block db i = Some b → num <= bs_num b;
  pr_next : get_block db (bs_id c) = Some c ∧ bs_num c = num + 1 ∧ bs_in_current_chain c = true;
  pr_parent : get_block db (prev c) = None;
  pr_unique : ∀ i b, get_block db i = Some b → bs_num b = num + 1 → bs_in_current_chain b = true → i = bs_id c;
  pr_head : ∃ h, fdb_head db = Some (bs_id h) ∧ is_best db h }.

Lemma is_best_subset db db' h :
  (∀ i b, get_block db' i = Some b → get_block db i = Some b) → get_block db' (bs_id h) = Some h →
  is_best db h → is_best db' h.
Proof. intros Hs Hh [_ Hb]. split; [done|]. intros i c Hc. apply (Hb i c). by apply Hs. Qed.

(** The second block of the index, while the first one is a sibling, survives
    its removal. *)
Lemma pruning_second num c db j k r b :
  pruning num c db → fdb_by_num db = j :: k :: r → get_block db j = Some b → bs_num b = num →
  ¬ builds_on (fdb_index db) [j] k.
Proof.
  intros [Hwf Hl Hfloor (Hc & Hcn & Hcc) Hpar Huniq _] Hlist Hb Hbn Hbuild.
  assert (Hk : is_Some (get_block db k)).
  { apply (wf_num_dom db Hwf). rewrite Hlist. by apply list_elem_of_further, list_elem_of_here. }
  destruct Hk as [d Hd]. pose proof (wf_num_nodup db Hwf) as Hnd. rewrite Hlist in Hnd.
  apply NoDup_cons in Hnd as [Hjk _].
  destruct (builds_on_higher db j b k d Hl Hb Hbuild Hd) as [->|Hdn]; [by destruct Hjk; apply list_elem_of_here|].
  assert (k = bs_id c) as ->.
  { assert (Hin : bs_id c ∈ k :: r).
    { pose proof (proj2 (wf_num_dom db Hwf (bs_id c)) ltac:(eauto)) as Hin. rewrite Hlist in Hin.
      apply elem_of_cons in Hin as [Hcj|Hin]; [|done]. exfalso. rewrite Hcj in Hc. assert (c = b) by congruence.
      subst. lia. }
    pose proof (wf_num_ordered db Hwf) as Ho. rewrite Hlist in Ho. apply StronglySorted_cons in Ho as [_ Ho].
    pose proof (ordered_head _ _ k (bs_id c) Ho eq_refl Hin) as Hless.
    unfold less, num_key, get_block in *. rewrite Hc, Hd, Hcc in Hless. unfold key_less in Hless.
    apply (Huniq k d Hd); destruct (bs_in_current_chain d); lia. }
  assert (d = c) as -> by congruence.
  inversion Hbuild as [? Hr|? p Hp Hb']; subst.
  - apply list_elem_of_singleton in Hr. destruct Hjk. rewrite Hr. apply list_elem_of_here.
  - assert (p = c) as -> by (unfold get_block in Hd; congruence).
    inversion Hb' as [? Hr|? p Hp' ?]; subst; [|unfold get_block in Hpar; congruence].
    apply list_elem_of_singleton in Hr. rewrite Hr in Hpar. congruence.
Qed.

Lemma pruning_remove num c db j k r b db' :
  pruning num c db → fdb_by_num db = j :: k :: r → get_block db j = Some b → bs_num b = num →
  remove db j = Some db' →
  pruning num c db' ∧ head (fdb_by_num db') = Some k ∧ (size (fdb_index db') < size (fdb_index db))%nat ∧
  fdb_irreversible db' = fdb_irreversible db ∧
  (∀ i d, get_block db' i = Some d → get_block db i = Some d).
Proof.
  intros Hp Hlist Hb Hbn Hr. pose proof (pruning_second _ _ _ _ _ _ _ Hp Hlist Hb Hbn) as Hk.
  destruct Hp as [Hwf Hl Hfloor (Hc & Hcn & Hcc) Hpar Huniq _].
  destruct (remove_cases db j Hwf) as [_ Hspec]. destruct (Hspec db' Hr) as (Hwf' & Hirr & Hh & Hx).
  assert (Hj : get_block db' j = None) by (apply (Hx j), builds_root, list_elem_of_here).
  assert (Hsub : ∀ i d, get_block db' i = Some d → get_block db i = Some d).
  { intros i d Hd. destruct (get_block db' i) eqn:Hi; [|done]. destruct (Hx i) as [H1 H2].
    rewrite H2 in Hi; [congruence|]. intros Hn. by rewrite H1 in Hi. }
  assert (Hkd : is_Some (get_block db k)).
  { apply (wf_num_dom db Hwf). rewrite Hlist. by apply list_elem_of_further, list_elem_of_here. }
  assert (Hk' : is_Some (get_block db' k)) by by rewrite (proj2 (Hx k) Hk).
  assert (Hc' : get_block db' (bs_id c) = Some c).
  { rewrite (proj2 (Hx (bs_id c))); [done|]. intros Hn.
    inversion Hn as [? Hr'|? p Hpp Hb']; subst.
    - apply list_elem_of_singleton in Hr'. rewrite Hr' in Hc. assert (b = c) by congruence. subst. lia.
    - assert (p = c) as -> by (unfold get_block in Hc; congruence).
      inversion Hb' as [? Hr'|? p Hp' ?]; subst; [|unfold get_block in Hpar; congruence].
      apply list_elem_of_singleton in Hr'. rewrite Hr' in Hpar. congruence. }
  split_and!; try done.
  - constructor; try done; [by eapply linked_subset|..]; try by eauto.
    destruct (get_block db' (prev c)) eqn:He; [|done]. apply Hsub in He. congruence.
  - eapply (sublist_second _ j k r); [rewrite <- Hlist; apply (wf_num_nodup db Hwf)|..].
    + rewrite <- Hlist. by eapply remove_by_num.
    + rewrite (wf_num_dom db' Hwf'), Hj. by intros [? ?].
    + by apply (wf_num_dom db' Hwf').
  - apply map_subset_size. apply map_subset_alt. split.
    + apply map_subseteq_spec. intros i d. apply Hsub.
    + exists j. unfold get_block in *. rewrite Hb. by split; [|eexists].
Qed.

(** The removal of the siblings ends with a block above them, without a
    dangling iterator. *)
Lemma prune_siblings_spec num c fuel db j :
  pruning num c db → head (fdb_by_num db) = Some j → (size (fdb_index db) < fuel)%nat →
  ∃ db', prune_siblings fuel num (Some j) db = Some db' ∧ pruning num c db' ∧
    (∀ i b, get_block db' i = Some b → get_block db i = Some b ∧ num < bs_num b) ∧
    fdb_irreversible db' = fdb_irreversible db.
Proof.
  revert db j. induction fuel as [|fuel IH]; intros db j Hp Hj Hf; [lia|]. cbn [prune_siblings].
  pose proof Hp as [Hwf Hl Hfloor (Hc & Hcn & Hcc) Hpar Huniq _].
  destruct (fdb_by_num db) as [|j' l] eqn:Hlist; [done|]. injection Hj as ->.
  assert (Hb : is_Some (get_block db j)).
  { apply (wf_num_dom db Hwf). rewrite Hlist. apply list_elem_of_here. }
  destruct Hb as [b Hb]. rewrite Hb. cbn [mbind option_bind]. destruct (Z.eqb_spec (bs_num b) num) as [Hn|Hn].
  - assert (Hcin : bs_id c ∈ fdb_by_num db) by (apply (wf_num_dom db Hwf); eauto).
    rewrite Hlist in Hcin. apply elem_of_cons in Hcin as [Hcj|Hcin].
    { rewrite Hcj in Hc. assert (b = c) by congruence. subst. lia. }
    destruct l as [|k r]; [by apply not_elem_of_nil in Hcin|].
    assert (Hsucc : num_successor db j = Some k).
    { unfold num_successor. rewrite Hlist. cbn. by rewrite decide_True. }
    pose proof (pruning_second _ _ _ _ _ _ _ Hp Hlist Hb Hn) as Hk.
    destruct (remove_cases db j Hwf) as [Hdef _]. destruct Hdef as [db1 Hr].
    { exists k. split; [|done]. apply (wf_num_dom db Hwf). rewrite Hlist.
      by apply list_elem_of_further, list_elem_of_here. }
    rewrite Hsucc, Hr. cbn [mbind option_bind].
    destruct (pruning_remove _ _ _ _ _ _ _ _ Hp Hlist Hb Hn Hr) as (Hp1 & Hk1 & Hsz & Hirr & Hsub).
    destruct (IH db1 k Hp1 Hk1 ltac:(lia)) as (db' & -> & Hp' & Hx & Hirr').
    exists db'. split_and!; [done|done| |congruence]. intros i d Hd. destruct (Hx i d Hd). split; [by apply Hsub|done].
  - exists db. split_and!; try done. intros i d Hd. split; [done|].
    pose proof (ordered_head _ _ j i (wf_num_ordered db Hwf)) as Hless. rewrite Hlist in Hless.
    specialize (Hless eq_refl). rewrite <- Hlist, (wf_num_dom db Hwf) in Hless. specialize (Hless ltac:(eauto)).
    pose proof (Hfloor j b Hb). unfold less, num_key, get_block in *. rewrite Hb, Hd in Hless.
    unfold key_less in Hless. lia.
Qed.

(** A block [c] follows the oldest block [o] on the current chain, and is the
    only one of its height there. *)
Definition followed (db : fork_database) (o : block_state) (c : block_state) : Prop :=
  get_block db (bs_id c) = Some c ∧ prev c = bs_id o ∧ bs_in_current_chain c = true ∧
  ∀ i b, get_block db i = Some b → bs_num b = bs_num o + 1 → bs_in_current_chain b = true → i = bs_id c.

Lemma prune_oldest db o c h fuel :
  fdb_wf db → linked db → head (fdb_by_num db) = Some (bs_id o) → get_block db (bs_id o) = Some o →
  followed db o c → fdb_head db = Some (bs_id h) → is_best db h → bs_id h ≠ bs_id o →
  ∃ db', prune (S fuel) db o = Some db' ∧ fdb_wf db' ∧ (∃ h, fdb_head db' = Some (bs_id h) ∧ is_best db' h) ∧
    (∀ i b, get_block db' i = Some b → get_block db i = Some b ∧ bs_num o < bs_num b) ∧
    fdb_irreversible db' = fdb_irreversible db ++ [o].
Proof.
  intros Hwf Hl Ho Hob (Hc & Hcp & Hcc & Huniq) Hh Hbest Hne.
  assert (Hfloor : ∀ i b, get_block db i = Some b → bs_num o <= bs_num b).
  { intros i b Hb. pose proof (ordered_head _ _ _ i (wf_num_ordered db Hwf) Ho) as Hless.
    rewrite (wf_num_dom db Hwf) in Hless. specialize (Hless ltac:(eauto)).
    unfold less, num_key, get_block in *. rewrite Hob, Hb in Hless. unfold key_less in Hless. lia. }
  assert (Hcn : bs_num c = bs_num o + 1) by (eapply Hl; [exact Hc|by rewrite Hcp]).
  assert (Hco : bs_id c ≠ bs_id o).
  { intros He. rewrite He in Hc. assert (c = o) by congruence. subst. lia. }
  cbn [prune prune_older]. rewrite Ho. cbn [mbind option_bind]. rewrite Hob. rewrite Z.ltb_irrefl. cbn [mbind option_bind].
  rewrite Hob. set (db1 := fdb_erase (emit_irreversible db o) (bs_id o)).
  assert (Hget : ∀ i b, get_block db1 i = Some b ↔ bs_id o ≠ i ∧ get_block db i = Some b)
    by (intros; apply (get_block_erase_Some (emit_irreversible db o))).
  assert (Hp : pruning (bs_num o) c db1).
  { constructor.
    - by apply fdb_erase_wf, emit_irreversible_wf.
    - eapply linked_subset; [|exact Hl]. intros i b Hb. by apply Hget in Hb as [_ ?].
    - intros i b Hb. apply Hget in Hb as [_ ?]. eauto.
    - split_and!; try done. by apply Hget.
    - rewrite Hcp. apply get_block_erase_eq.
    - intros i b Hb. apply Hget in Hb as [_ ?]. eauto.
    - exists h. split; [done|]. eapply is_best_subset; [..|exact Hbest].
      + intros i b Hb. by apply Hget in Hb as [_ ?].
      + apply Hget. split; [done|]. apply Hbest. }
  assert (Hin : is_Some (lower_bound db1 (bs_num o)) ∧ lower_bound db1 (bs_num o) = head (fdb_by_num db1)).
  { unfold lower_bound. rewrite filter_all.
    - split; [|done]. pose proof (proj2 (wf_num_dom db1 (pr_wf _ _ _ Hp) (bs_id c))) as Hin.
      destruct (fdb_by_num db1); [|by eexists]. exfalso. eapply not_elem_of_nil, Hin.
      exists c. by apply (pr_next _ _ _ Hp).
    - apply Forall_forall. intros i [b Hb]%(wf_num_dom db1 (pr_wf _ _ _ Hp)). unfold not_below. rewrite Hb.
      pose proof (pr_floor _ _ _ Hp i b Hb). lia. }
  destruct Hin as [[j Hj] Hjh]. rewrite Hj. rewrite Hj in Hjh.
  destruct (prune_siblings_spec (bs_num o) c (S (length (fdb_by_num db1))) db1 j Hp)
    as (db' & -> & Hp' & Hx & Hirr); [done| |].
  { rewrite by_num_length by apply (pr_wf _ _ _ Hp). lia. }
  exists db'. split_and!; [done|apply (pr_wf _ _ _ Hp')|apply (pr_head _ _ _ Hp')| |done].
  intros i b Hb. destruct (Hx i b Hb) as [Hb1 Hn]. by apply Hget in Hb1 as [_ ?].
Qed.

(** Adding a block state.  The head becomes a best block.  If the oldest
    block is below the head's irreversible block it is announced as
    irreversible and pruned with everything of its height; this is safe when
    the oldest block is followed by one block of the current chain.  Nothing
    else changes. *)
Theorem add_state_spec db n :
  let db1 := (fdb_insert db n).1 in
  fdb_wf db → get_block db (bs_id n) = None → linked db1 →
  (∀ i b, get_block db1 i = Some b → bs_lib b <= bs_num b) →
  (∀ o i b, head (fdb_by_num db1) = Some (bs_id o) → get_block db1 (bs_id o) = Some o →
     get_block db1 i = Some b → bs_num o < bs_lib b → ∃ c, followed db1 o c) →
  ∃ db', add_state db n = Some (db', Ok ()) ∧ fdb_wf db' ∧
    (∃ h, fdb_head db' = Some (bs_id h) ∧ is_best db' h) ∧
    ((∀ i, get_block db' i = get_block db1 i) ∧ fdb_irreversible db' = fdb_irreversible db ∨
     ∃ o, fdb_irreversible db' = fdb_irreversible db ++ [o] ∧
       ∀ i b, get_block db' i = Some b → get_block db1 i = Some b ∧ bs_num o < bs_num b).
Proof.
  intros db1 Hwf Hnew Hl Hlib Hsafe. unfold add_state.
  destruct (fdb_insert db n) as [db1' ins] eqn:Hins. subst db1. cbn [fst] in *.
  assert (ins = true ∧ fdb_irreversible db1' = fdb_irreversible db ∧ get_block db1' (bs_id n) = Some n)
    as (-> & Hirr & Hn).
  { unfold fdb_insert in Hins. unfold get_block in Hnew. rewrite Hnew in Hins. injection Hins as <- <-.
    split_and!; try done. apply lookup_insert_eq. }
  pose proof (fdb_insert_wf _ _ _ Hwf Hins) as Hwf1. cbn [negb].
  destruct (head (fdb_by_lib db1')) as [best|] eqn:Hbest; cbn [mbind option_bind].
  2:{ exfalso. pose proof (proj2 (wf_lib_dom db1' Hwf1 (bs_id n)) ltac:(eauto)) as Hin.
      destruct (fdb_by_lib db1'); [by apply not_elem_of_nil in Hin|done]. }
  destruct (lib_head_best db1' best Hwf1 Hbest) as (h & Hh & Hhb).
  assert (Hhid : bs_id h = best) by by apply (wf_ids db1' Hwf1).
  set (db2 := set_head db1' (Some best)).
  change (get_block db2 best) with (get_block db1' best). rewrite Hh. cbn [mbind option_bind].
  destruct (fdb_by_num db1') as [|oi l] eqn:Hlist.
  { exfalso. pose proof (proj2 (wf_num_dom db1' Hwf1 (bs_id n)) ltac:(eauto)) as Hin.
    rewrite Hlist in Hin. by apply not_elem_of_nil in Hin. }
  assert (Ho : is_Some (get_block db1' oi)).
  { apply (wf_num_dom db1' Hwf1). rewrite Hlist. apply list_elem_of_here. }
  destruct Ho as [o Ho]. assert (Hoi : bs_id o = oi) by by apply (wf_ids db1' Hwf1).
  change (fdb_by_num db2) with (fdb_by_num db1'). rewrite Hlist. cbn [head mbind option_bind].
  change (get_block db2 oi) with (get_block db1' oi). rewrite Ho. cbn [mbind option_bind]. subst oi.
  destruct (Z.ltb_spec (bs_num o) (bs_lib h)) as [Hlt|Hge].
  - destruct (Hsafe o best h) as [c Hc]; try done.
    destruct (prune_oldest db2 o c h 1) as (db' & Hpr & Hwf' & Hh' & Hx & Hirr').
    1: by apply set_head_wf. 1: done. 1: cbn; by rewrite Hlist. 1,2: done. 1: cbn; by rewrite Hhid. 1: done.
    { intros He. rewrite <- Hhid, He in Hh. assert (o = h) by congruence. subst. pose proof (Hlib _ _ Ho). lia. }
    unfold prune_depth. rewrite Hpr. cbn [mbind option_bind]. exists db'. split_and!; try done.
    right. exists o. split; [|done]. rewrite Hirr'. cbn. by rewrite Hirr.
  - exists db2. split_and!; [done|by apply set_head_wf| |by left].
    exists h. by rewrite Hhid.
Qed.

(** A state that is already known is refused. *)
Lemma add_state_known db n :
  is_Some (get_block db (bs_id n)) → add_state db n = Some (db, Throw fork_database_exception).
Proof. intros [b Hb]. unfold add_state, fdb_insert. unfold get_block in Hb. by rewrite Hb. Qed.

(** ** BFT irreversibility *)

(** [db] is [db0] with the BFT irreversible number of the blocks of [l] raised
    to [num]; these build on [id] and had a lower number. *)
Record raised (db0 : fork_database) (num : Z) (id : digest_type) (l : list digest_type) (db : fork_database) : Prop := {
  ra_wf : fdb_wf db;
  ra_some : ∀ x c, get_block db0 x = Some c →
    get_block db x = Some (if decide (x ∈ l) then set_bft num c else c);
  ra_none : ∀ x, get_block db0 x = None → get_block db x = None;
  ra_nodup : NoDup l;
  ra_list : ∀ x, x ∈ l → builds_on (fdb_index db0) [id] x ∧
    ∃ c, get_block db0 x = Some c ∧ bs_bft c < num }.

Lemma get_block_modify db i f x :
  get_block (fdb_modify db i f) x = if decide (x = i) then f <$> get_block db x else get_block db x.
Proof.
  unfold get_block, fdb_modify. cbn. case_decide as Hx; [subst; apply lookup_alter_eq|].
  by rewrite lookup_alter_ne.
Qed.

Lemma raised_children db0 num id l db i c :
  raised db0 num id l db → fdb_wf db0 → c ∈ children db i ↔ c ∈ children db0 i.
Proof.
  intros [Hwf Hs Hn _ _] Hwf0. rewrite !children_elem_of by done. split.
  - intros (b & Hb & Hp). destruct (get_block db0 c) as [b0|] eqn:Hb0; [|by rewrite Hn in Hb].
    rewrite (Hs _ _ Hb0) in Hb. injection Hb as <-. exists b0. split; [done|]. by case_decide.
  - intros (b & Hb & Hp). rewrite (Hs _ _ Hb). eexists. split; [done|]. by case_decide.
Qed.

Lemma raised_step db0 num id l db c b :
  raised db0 num id l db → builds_on (fdb_index db0) [id] c → get_block db c = Some b → bs_bft b < num →
  raised db0 num id (l ++ [c]) (fdb_modify db c (set_bft num)).
Proof.
  intros [Hwf Hs Hn Hnd Hl] Hbuild Hb Hlt.
  assert (Hc0 : ∃ b0, get_block db0 c = Some b0 ∧ c ∉ l ∧ bs_bft b0 < num).
  { destruct (get_block db0 c) as [b0|] eqn:Hb0; [|by rewrite Hn in Hb]. exists b0.
    rewrite (Hs _ _ Hb0) in Hb. injection Hb as <-. case_decide; [cbn in Hlt; lia|done]. }
  destruct Hc0 as (b0 & Hb0 & Hcl & Hlt0). constructor.
  - by apply fdb_modify_wf.
  - intros x d Hd. rewrite get_block_modify, (Hs _ _ Hd). case_decide as Hxc.
    + subst x. rewrite decide_False by done. rewrite decide_True; [done|].
      apply elem_of_app. right. apply list_elem_of_here.
    + case_decide as Hx; case_decide as Hx'; try done; exfalso.
      * apply Hx', elem_of_app. by left.
      * apply elem_of_app in Hx' as [?|?%list_elem_of_singleton]; done.
  - intros x Hx. rewrite get_block_modify, (Hn x Hx). by case_decide.
  - apply NoDup_app. split_and!; [done| |apply NoDup_singleton].
    by intros x Hx ->%list_elem_of_singleton.
  - intros x [Hx| ->%list_elem_of_singleton]%elem_of_app; [by apply Hl|]. split; [done|]. eauto.
Qed.

(** A block of [db0] with a lower number that the traversal has not raised. *)
Definition pending_raise (db0 : fork_database) (num : Z) (l : list digest_type) (c : digest_type) : Prop :=
  c ∉ l ∧ ∃ b, get_block db0 c = Some b ∧ bs_bft b < num.

Lemma update_fold db0 num id l cs db upd :
  raised db0 num id (l ++ upd) db →
  (∀ c, c ∈ cs → builds_on (fdb_index db0) [id] c) →
  ∃ db' upd', foldl (λ '(db, updated) c,
    match get_block db c with
    | Some b =>
        if bs_bft b <? num then (fdb_modify db c (set_bft num), updated ++ [c]) else (db, updated)
    | None => (db, updated)
    end) (db, upd) cs = (db', upd ++ upd') ∧
    raised db0 num id (l ++ upd ++ upd') db' ∧
    ∀ c, c ∈ cs → ¬ pending_raise db0 num (l ++ upd ++ upd') c.
Proof.
  revert db upd. induction cs as [|c cs IH]; intros db upd Hr Hcs; cbn.
  { exists db, []. rewrite !app_nil_r. split_and!; try done. by intros c ?%not_elem_of_nil. }
  assert (Hcs' : ∀ c, c ∈ cs → builds_on (fdb_index db0) [id] c) by (intros; by apply Hcs, list_elem_of_further).
  assert (Hskip : ∀ upd', ¬ pending_raise db0 num (l ++ upd) c → ¬ pending_raise db0 num (l ++ upd ++ upd') c).
  { intros upd' Hn [H1 H2]. apply Hn. split; [|done]. intros Hin. apply H1.
    apply elem_of_app in Hin as [?|?]; apply elem_of_app; [by left|]. right. apply elem_of_app. by left. }
  destruct (get_block db c) as [b|] eqn:Hb; [destruct (Z.ltb_spec (bs_bft b) num) as [Hlt|Hge]|].
  - pose proof (raised_step _ _ _ _ _ c b Hr (Hcs c (list_elem_of_here _ _)) Hb Hlt) as Hr'.
    rewrite <- app_assoc in Hr'. destruct (IH _ _ Hr' Hcs') as (db' & upd' & -> & Hr'' & Hdone).
    exists db', (c :: upd'). rewrite <- !app_assoc in *. cbn in *. split_and!; try done.
    intros x [->|Hx]%elem_of_cons; [|by apply Hdone]. intros [Hn _]. apply Hn.
    apply elem_of_app; right. apply elem_of_app; right. apply list_elem_of_here.
  - destruct (IH _ _ Hr Hcs') as (db' & upd' & -> & Hr'' & Hdone). exists db', upd'. split_and!; try done.
    intros x [->|Hx]%elem_of_cons; [|by apply Hdone]. apply Hskip. intros (Hn & b0 & Hb0 & Hlt).
    rewrite (ra_some _ _ _ _ _ Hr _ _ Hb0), decide_False in Hb by done. injection Hb as ->. lia.
  - destruct (IH _ _ Hr Hcs') as (db' & upd' & -> & Hr'' & Hdone). exists db', upd'. split_and!; try done.
    intros x [->|Hx]%elem_of_cons; [|by apply Hdone]. apply Hskip. intros (Hn & b0 & Hb0 & Hlt).
    by rewrite (ra_some _ _ _ _ _ Hr _ _ Hb0) in Hb.
Qed.

Lemma update_layer db0 num id l queue db upd :
  fdb_wf db0 → raised db0 num id (l ++ upd) db → (∀ i, i ∈ queue → builds_on (fdb_index db0) [id] i) →
  ∃ db' upd', foldl (update_children num) (db, upd) queue = (db', upd ++ upd') ∧
    raised db0 num id (l ++ upd ++ upd') db' ∧
    ∀ i c, i ∈ queue → c ∈ children db0 i → ¬ pending_raise db0 num (l ++ upd ++ upd') c.
Proof.
  intros Hwf0. revert db upd. induction queue as [|i queue IH]; intros db upd Hr Hq; cbn [foldl].
  { exists db, []. rewrite !app_nil_r. split_and!; try done. by intros i c ?%not_elem_of_nil. }
  unfold update_children at 2. cbn [fst].
  destruct (update_fold db0 num id l (children db i) db upd Hr) as (db1 & upd1 & -> & Hr1 & Hd1).
  { intros c Hc. apply (raised_children _ _ _ _ _ _ _ Hr Hwf0) in Hc.
    apply children_elem_of in Hc as (b & Hb & Hp); [|done].
    eapply builds_step; [exact Hb|]. rewrite Hp. apply Hq, list_elem_of_here. }
  destruct (IH db1 (upd ++ upd1) Hr1) as (db' & upd' & -> & Hr' & Hd').
  { intros j Hj. by apply Hq, list_elem_of_further. }
  exists db', (upd1 ++ upd'). rewrite <- !app_assoc in *. split_and!; try done.
  intros j c [->|Hj]%elem_of_cons Hc; [|by eapply Hd'].
  apply (raised_children _ _ _ _ _ _ _ Hr Hwf0) in Hc. intros [Hn Hb]. apply (Hd1 c Hc). split; [|done].
  intros Hin. apply Hn. rewrite !elem_of_app in *. naive_solver.
Qed.

Lemma raised_length db0 num id l db : raised db0 num id l db → (length l <= size (fdb_index db0))%nat.
Proof.
  intros Hr. rewrite <- (size_list_to_set (C := gset digest_type)) by apply (ra_nodup _ _ _ _ _ Hr).
  rewrite <- (size_dom (D := gset digest_type)). apply subseteq_size. intros x Hx%elem_of_list_to_set.
  destruct (ra_list _ _ _ _ _ Hr x Hx) as (_ & c & Hc & _). apply elem_of_dom. by eexists.
Qed.

(** The traversal ends with every child of a raised block raised or at least
    as high. *)
Lemma update_layers_spec db0 num id fuel l queue db :
  fdb_wf db0 → raised db0 num id l db → (∀ i, i ∈ queue → i ∈ l) →
  (∀ i c, i ∈ l → i ∉ queue → c ∈ children db0 i → ¬ pending_raise db0 num l c) →
  (size (fdb_index db0) + 1 - length l < fuel)%nat →
  ∃ l' db', update_layers fuel num queue db = Some db' ∧ raised db0 num id l' db' ∧ (∀ i, i ∈ l → i ∈ l') ∧
    ∀ i c, i ∈ l' → c ∈ children db0 i → ¬ pending_raise db0 num l' c.
Proof.
  intros Hwf0. revert l queue db. induction fuel as [|fuel IH]; intros l queue db Hr Hq Hcl Hf; [lia|].
  destruct queue as [|i0 queue0]; cbn [update_layers].
  { exists l, db. split_and!; try done. intros i c Hi Hc. apply (Hcl i c Hi); [by apply not_elem_of_nil|done]. }
  set (queue := i0 :: queue0) in *.
  destruct (update_layer db0 num id l queue db []) as (db1 & upd & Hfold & Hr1 & Hd); [done|by rewrite app_nil_r|..].
  { intros i Hi. by apply (ra_list _ _ _ _ _ Hr), Hq. }
  rewrite Hfold. cbn [app] in *.
  pose proof (raised_length _ _ _ _ _ Hr1) as Hlen. rewrite length_app in Hlen.
  assert (Hclosed : ∀ i c, i ∈ l ++ upd → i ∉ upd → c ∈ children db0 i → ¬ pending_raise db0 num (l ++ upd) c).
  { intros i c [Hi|Hi]%elem_of_app Hn Hc; [|done]. destruct (decide (i ∈ queue)) as [Hiq|Hiq]; [by eapply Hd|].
    intros [H1 H2]. apply (Hcl i c Hi Hiq Hc). split; [|done]. intros Hin. apply H1, elem_of_app. by left. }
  destruct upd as [|u upd].
  - rewrite app_nil_r in *. exists l, db1. split_and!; [by destruct fuel|done|done|].
    intros i c Hi Hc. apply (Hclosed i c Hi); [apply not_elem_of_nil|done].
  - destruct (IH (l ++ u :: upd) (u :: upd) db1) as (l' & db' & Hup & Hr' & Hsub & Hd'); try done.
    + intros i Hi. apply elem_of_app. by right.
    + rewrite length_app. cbn [length] in *. lia.
    + exists l', db'. split_and!; try done. intros i Hi. apply Hsub, elem_of_app. by left.
Qed.

(** When a block becomes BFT irreversible, that block and every block
    that builds on it have at least its number as their BFT irreversible
    number afterwards, every other state is unchanged, and the traversal
    ends.  The numbers must not decrease along the links before. *)
Theorem set_bft_irreversible_spec db id b :
  fdb_wf db → get_block db id = Some b → bs_bft b < bs_num b →
  (∀ i c p, get_block db i = Some c → get_block db (prev c) = Some p → bs_bft p <= bs_bft c) →
  ∃ db', set_bft_irreversible db id = Some db' ∧ fdb_wf db' ∧
    (∀ x c, get_block db x = Some c → builds_on (fdb_index db) [id] x →
       get_block db' x = Some (set_bft (Z.max (bs_bft c) (bs_num b)) c)) ∧
    ∀ x, ¬ builds_on (fdb_index db) [id] x → get_block db' x = get_block db x.
Proof.
  intros Hwf Hb Hlt Hmono. unfold set_bft_irreversible. rewrite Hb. cbn [mbind option_bind].
  set (num := bs_num b) in *. set (db1 := fdb_modify db id (set_bft num)).
  assert (Hr0 : raised db num id [] db).
  { constructor; [done| |done|constructor|by intros x ?%not_elem_of_nil].
    intros x c Hc. by rewrite decide_False by apply not_elem_of_nil. }
  assert (Hr1 : raised db num id [id] db1).
  { by apply (raised_step db num id [] db id b Hr0); [apply builds_root, list_elem_of_here|..]. }
  destruct (update_layers_spec db num id (S (S (size (fdb_index db1)))) [id] [id] db1)
    as (l & db' & -> & Hr & Hid & Hcl); try done.
  { replace (size (fdb_index db1)) with (size (fdb_index db)); [cbn; lia|].
    rewrite <- !(size_dom (D := gset digest_type)). unfold db1, fdb_modify. cbn. by rewrite dom_alter_L. }
  exists db'. split_and!; [done|apply (ra_wf _ _ _ _ _ Hr)|..].
  - intros x c Hc Hbuild. rewrite (ra_some _ _ _ _ _ Hr x c Hc). f_equal.
    assert (Hx : x ∈ l ∧ bs_bft c < num ∨ x ∉ l ∧ num <= bs_bft c).
    { revert c Hc. induction Hbuild as [x Hx|x c0 Hc0 Hbuild IH]; intros c Hc.
      - apply list_elem_of_singleton in Hx. subst x. assert (c = b) as -> by congruence. left.
        split; [apply Hid, list_elem_of_here|done].
      - assert (c0 = c) as -> by (unfold get_block in Hc; congruence).
        destruct (decide (x ∈ l)) as [Hxl|Hxl].
        { destruct (ra_list _ _ _ _ _ Hr x Hxl) as (_ & c' & Hc' & Hlt'). left. split; [done|]. congruence. }
        right. split; [done|]. apply Z.nlt_ge. intros Hlt'.
        assert (Hp : prev c ∈ l → False).
        { intros Hp. apply (Hcl (prev c) x Hp).
          - apply children_elem_of; [done|]. by exists c.
          - split; [done|]. by exists c. }
        destruct (get_block db (prev c)) as [p|] eqn:Hpb.
        + destruct (IH p eq_refl) as [[? _]|[_ Hge]]; [done|]. pose proof (Hmono x c p Hc Hpb). lia.
        + inversion Hbuild as [? Hroot|? p Hp' ?]; subst; [|unfold get_block in Hpb; congruence].
          apply list_elem_of_singleton in Hroot. rewrite Hroot in Hpb. congruence. }
    destruct Hx as [[Hxl ?]|[Hxl ?]]; [rewrite decide_True by done; f_equal; lia|].
    rewrite decide_False by done. rewrite Z.max_l by lia. by destruct c as [[] ? ? ?].
  - intros x Hn. destruct (get_block db x) as [c|] eqn:Hc; [|by apply (ra_none _ _ _ _ _ Hr)].
    rewrite (ra_some _ _ _ _ _ Hr x c Hc), decide_False; [done|].
    intros Hx. apply Hn. by apply (ra_list _ _ _ _ _ Hr).
Qed.

Lemma update_layers_head fuel num queue db db' :
  update_layers fuel num queue db = Some db' → fdb_head db' = fdb_head db.
Proof.
  assert (Hfold : ∀ cs st, fdb_head (foldl (λ '(db, updated) c,
    match get_block db c with
    | Some b =>
        if bs_bft b <? num then (fdb_modify db c (set_bft num), updated ++ [c]) else (db, updated)
    | None => (db, updated)
    end) st cs).1 = fdb_head st.1).
  { induction cs as [|c cs IH]; intros [d upd]; cbn [foldl]; [done|]. rewrite IH. by repeat case_match. }
  assert (Hlayer : ∀ q st, fdb_head (foldl (update_children num) st q).1 = fdb_head st.1).
  { induction q as [|i q IH]; intros st; cbn [foldl]; [done|]. rewrite IH. apply Hfold. }
  revert queue db. induction fuel as [|fuel IH]; intros [|i q] db; cbn [update_layers]; try done;
    [by intros [= <-]..|]. specialize (Hlayer (i :: q) (db, [])).
  destruct (foldl _ _ _) as [db1 upd]. intros H%IH. cbn in Hlayer. congruence.
Qed.

(** Adding a confirmation never changes the head, also when it makes a
    block BFT irreversible and thereby changes the order of the index that the
    head is taken from. *)
Theorem add_header_confirmation_keeps_head db c db' r :
  add_header_confirmation db c = Some (db', r) → fdb_head db' = fdb_head db.
Proof.
  unfold add_header_confirmation, set_bft_irreversible. intros H.
  destruct (get_block db (hc_block_id c)) as [b|]; [|by injection H as <- <-].
  destruct (rule_add_confirmation b c) as [s|]; [|by injection H as <- <-].
  destruct (_ && _); [|by injection H as <- <-].
  apply bind_Some in H as (db1 & H1 & [= <- _]). apply bind_Some in H1 as (b1 & _ & H1).
  apply update_layers_head in H1. done.
Qed.
(** ** Every operation keeps the indices in order *)

Lemma remove_wf db i db' : fdb_wf db → remove db i = Some db' → fdb_wf db'.
Proof. intros Hwf H. by apply (remove_cases db i Hwf) in H as [? _]. Qed.

Lemma set_wf db s db' r : fdb_wf db → set db s = (db', r) → fdb_wf db'.
Proof.
  intros Hwf. unfold set. destruct (fdb_insert db s) as [db1 ins] eqn:Hins.
  assert (Hwf1 : fdb_wf db1).
  { destruct ins; [by eapply fdb_insert_wf|]. unfold fdb_insert in Hins. by case_match; injection Hins as <-. }
  repeat case_match; intros [= <- <-]; try done; by apply set_head_wf.
Qed.

Lemma prune_siblings_wf fuel num nitr db db' :
  fdb_wf db → prune_siblings fuel num nitr db = Some db' → fdb_wf db'.
Proof.
  revert nitr db. induction fuel as [|fuel IH]; intros [i|] db Hwf; cbn [prune_siblings]; try done;
    [by intros [= <-]| |by intros [= <-]].
  intros (b & _ & H)%bind_Some. destruct (_ =? _); [|by injection H as <-].
  apply bind_Some in H as (db1 & Hr & H). eapply IH; [|exact H]. by eapply remove_wf.
Qed.

Lemma prune_wf fuel db h db' : fdb_wf db → prune fuel db h = Some db' → fdb_wf db'.
Proof.
  revert db h db'. induction fuel as [|fuel IH]; intros db h db' Hwf; cbn [prune]; [done|].
  intros (db1 & Hold & H)%bind_Some.
  assert (Hwf1 : fdb_wf db1).
  { revert Hold. generalize (S (length (fdb_by_num db))). intros n. revert db Hwf.
    induction n as [|n IHn]; intros db Hwf; cbn [prune_older]; [done|].
    destruct (head (fdb_by_num db) ≫= get_block db) as [b|]; [|by intros [= <-]].
    destruct (_ <? _); [|by intros [= <-]]. intros (db2 & H2 & H3)%bind_Some. eapply IHn; [|exact H3]. eauto. }
  eapply prune_siblings_wf; [|exact H]. case_match; [|done]. by apply fdb_erase_wf, emit_irreversible_wf.
Qed.

Lemma add_state_wf db n db' r : fdb_wf db → add_state db n = Some (db', r) → fdb_wf db'.
Proof.
  intros Hwf. unfold add_state. destruct (fdb_insert db n) as [db1 ins] eqn:Hins.
  destruct ins; cbn [negb]; [|by intros [= <- <-]]. pose proof (fdb_insert_wf _ _ _ Hwf Hins) as Hwf1.
  intros (best & _ & H)%bind_Some. apply bind_Some in H as (h & _ & H). apply bind_Some in H as (o & _ & H).
  destruct (_ <? _); [|injection H as <- <-; by apply set_head_wf].
  apply bind_Some in H as (db2 & H2 & [= <- <-]). eapply prune_wf; [|exact H2]. by apply set_head_wf.
Qed.

Lemma add_block_wf header db b trust db' r : fdb_wf db → add_block header db b trust = Some (db', r) → fdb_wf db'.
Proof.
  intros Hwf. unfold add_block. repeat case_match; try done; try by intros [= <- <-]. by apply add_state_wf.
Qed.

Lemma set_validity_wf db i valid db' : fdb_wf db → set_validity db i valid = Some db' → fdb_wf db'.
Proof.
  intros Hwf. unfold set_validity. destruct valid; cbn [negb]; [|by apply remove_wf].
  intros [= <-]. by apply fdb_write_wf.
Qed.

Lemma mark_in_current_chain_wf db i was now db' r :
  fdb_wf db → mark_in_current_chain db i was now = (db', r) → fdb_wf db'.
Proof.
  intros Hwf. unfold mark_in_current_chain. repeat case_match; intros [= <- <-]; try done. by apply fdb_modify_wf.
Qed.

Lemma update_layers_wf fuel num queue db db' :
  fdb_wf db → update_layers fuel num queue db = Some db' → fdb_wf db'.
Proof.
  assert (Hfold : ∀ cs st, fdb_wf st.1 → fdb_wf (foldl (λ '(db, updated) c,
    match get_block db c with
    | Some b =>
        if bs_bft b <? num then (fdb_modify db c (set_bft num), updated ++ [c]) else (db, updated)
    | None => (db, updated)
    end) st cs).1).
  { induction cs as [|c cs IH]; intros [d upd] Hwf; cbn [foldl]; [done|]. apply IH. cbn in Hwf.
    repeat case_match; cbn; try done. by apply fdb_modify_wf. }
  assert (Hlayer : ∀ q st, fdb_wf st.1 → fdb_wf (foldl (update_children num) st q).1).
  { induction q as [|i q IH]; intros st Hwf; cbn [foldl]; [done|]. by apply IH, Hfold. }
  revert queue db. induction fuel as [|fuel IH]; intros [|i q] db Hwf; cbn [update_layers]; try done;
    [by intros [= <-]..|]. specialize (Hlayer (i :: q) (db, []) Hwf).
  destruct (foldl _ _ _) as [db1 upd]. cbn in Hlayer. intros H. by eapply (IH _ db1).
Qed.

Lemma add_header_confirmation_wf db c db' r :
  fdb_wf db → add_header_confirmation db c = Some (db', r) → fdb_wf db'.
Proof.
  intros Hwf. unfold add_header_confirmation, set_bft_irreversible.
  destruct (get_block db (hc_block_id c)) as [b|] eqn:Hb; [|by intros [= <- <-]].
  destruct (rule_add_confirmation b c) as [s|] eqn:Hs; [|by intros [= <- <-]].
  destruct (rule_add_confirmation_Ok _ _ _ Hs) as (Hi & _ & Hn & Hl & Hf).
  set (db1 := fdb_write _ _ _).
  assert (Hwf1 : fdb_wf db1).
  { replace db1 with (fdb_write db (hc_block_id c) (λ b', if decide (bs_id b' = bs_id b ∧ bs_num b' = bs_num b ∧
      bs_lib b' = bs_lib b ∧ bs_bft b' = bs_bft b)
      then BlockState s (bs_block b') (bs_validated b') (bs_in_current_chain b') else b')).
    - apply fdb_write_wf; [|done]. intros b'. case_decide as Hd; [|done]. destruct Hd as (-> & -> & -> & ->). done.
    - subst db1. unfold fdb_write. f_equal. apply alter_ext. intros b' Hb'.
      assert (b' = b) as -> by (unfold get_block in Hb; congruence). by rewrite decide_True. }
  destruct (_ && _); [|by intros [= <- <-]].
  intros (db2 & H2 & [= <- <-])%bind_Some. apply bind_Some in H2 as (b1 & _ & H2).
  eapply update_layers_wf; [|exact H2]. by apply fdb_modify_wf.
Qed.

(** What the controller does with the database after it was created. *)
Inductive fdb_history (header : B → signed_block_header) : fork_database → Prop :=
  | history_empty : fdb_history header fdb_empty
  | history_set db s db' r : fdb_history header db → set db s = (db', r) → fdb_history header db'
  | history_add_state db n db' r :
      fdb_history header db → add_state db n = Some (db', r) → fdb_history header db'
  | history_add_block db b trust db' r :
      fdb_history header db → add_block header db b trust = Some (db', r) → fdb_history header db'
  | history_remove db i db' : fdb_history header db → remove db i = Some db' → fdb_history header db'
  | history_prune db h db' : fdb_history header db → prune prune_depth db h = Some db' → fdb_history header db'
  | history_set_validity db i valid db' :
      fdb_history header db → set_validity db i valid = Some db' → fdb_history header db'
  | history_mark db i was now db' r :
      fdb_history header db → mark_in_current_chain db i was now = (db', r) → fdb_history header db'
  | history_confirm db c db' r :
      fdb_history header db → add_header_confirmation db c = Some (db', r) → fdb_history header db'.

(** C18: Through any sequence of operations, failed ones included, the indices
    agree: every state is listed once in each, under its own id, and in the
    order of the index. *)
Theorem fdb_history_wf header db : fdb_history header db → fdb_wf db.
Proof.
  induction 1; [apply fdb_empty_wf|by eapply set_wf|by eapply add_state_wf|by eapply add_block_wf|
    by eapply remove_wf|by eapply prune_wf|by eapply set_validity_wf|by eapply mark_in_current_chain_wf|
    by eapply add_header_confirmation_wf].
Qed.
End fork_database.

(** ** Header states implement the rules *)

Section rules.
Context {K Sig : Type} `{EqDecision K}.
Variable default_key : K.
Variable default_sig : Sig.
Variable hash_header : @block_header K → digest_type.
Variable hash_pair : digest_type * digest_type → digest_type.
Variable hash_schedule : @producer_schedule_type K → digest_type.
Variable recover : Sig → digest_type → res K.
Variable endian_reverse_u32 : Z → Z.

#[refine] Instance chain_header_rules : @header_rules K Sig := {
  rule_id := header_id hash_header endian_reverse_u32;
  rule_next := next default_sig hash_header hash_pair hash_schedule recover endian_reverse_u32;
  rule_add_confirmation := add_confirmation default_key hash_header hash_pair recover }.
Proof.
  - intros s h trust s' ((_ & Hext & _ & Hprev) & prokey & _ & H)%next_Ok.
    destruct (next_from_frame _ _ _ _ _ _ _ _ _ _ _ _ H) as (? & ? & ? & _); done.
  - intros s c s' H. unfold add_confirmation in H. by simplify_res.
Defined.
End rules.

(** ** Instances *)

Abbreviation bs_id b := (bhs_id (bs_header_state b)).
Abbreviation bs_num b := (bhs_block_num (bs_header_state b)).
Abbreviation bs_lib b := (bhs_irreversible (bs_header_state b)).

(** Small fork databases over the toy crypto library of the header states. *)
Module forks.
#[local] Instance toy_rules : @header_rules Z Z :=
  chain_header_rules 0 0 toy.header_hash toy.pair_hash toy.schedule_hash toy.recover toy.reverse.

Abbreviation toy_state := (@block_state Z Z unit).
Abbreviation toy_database := (@fork_database Z Z unit).

Definition did (n : Z) : digest_type := Digest n 0 0 0.

(** A block state with one scheduled producer. *)
Definition st (id num prv lib bft : Z) (current : bool) : toy_state :=
  BlockState (BlockHeaderState (did id) num
    (SignedBlockHeader (BlockHeader num 1 0 (did prv) digest_zero digest_zero 0 None []) 0)
    0 lib bft 0 digest_zero (ProducerSchedule 0 []) (ProducerSchedule 0 [ProducerKey 1 100])
    incremental_merkle_empty ∅ ∅ 0 [] []) None false current.

Definition add_all (l : list toy_state) : toy_database :=
  foldl (λ db n, match add_state db n with Some (db', _) => db' | None => db end) fdb_empty l.

Lemma add_all_wf l : fdb_wf (add_all l).
Proof.
  unfold add_all. assert (H : fdb_wf (fdb_empty : toy_database)) by apply fdb_empty_wf.
  revert H. generalize (fdb_empty : toy_database). induction l as [|n l IH]; intros db Hwf; cbn [foldl]; [done|].
  apply IH. destruct (add_state db n) as [[db' r]|] eqn:Ha; [|done]. by eapply add_state_wf.
Qed.

(** A property of all states, checked by evaluation. *)
Lemma check_states (f : toy_state → bool) (db : toy_database) :
  forallb (λ x, f x.2) (map_to_list (fdb_index db)) = true → ∀ i b, get_block db i = Some b → f b = true.
Proof.
  intros H i b Hb. rewrite forallb_forall in H. apply (H (i, b)). apply list_elem_of_In, elem_of_map_to_list. done.
Qed.

Definition link_ok (db : toy_database) (b : toy_state) : bool :=
  match get_block db (prev b) with Some p => bs_num b =? bs_num p + 1 | None => true end.

Lemma check_linked db :
  forallb (λ x, link_ok db x.2) (map_to_list (fdb_index db)) = true → linked db.
Proof.
  intros H i b p Hb Hp. pose proof (check_states _ _ H i b Hb) as Hok. unfold link_ok in Hok.
  rewrite Hp in Hok. lia.
Qed.

(** A root, two forks of two blocks each, and a third block on the first. *)
Definition R : toy_state := st 1 1 0 0 0 false.
Definition A : toy_state := st 2 2 1 0 0 false.
Definition B : toy_state := st 3 2 1 0 0 false.
Definition B2 : toy_state := st 4 3 3 0 0 false.
Definition A2 : toy_state := st 5 3 2 0 0 false.
Definition A3 : toy_state := st 6 4 5 2 0 false.
Definition A4 : toy_state := st 7 5 6 3 0 false.

Definition two_forks : toy_database := add_all [R; A; B; B2; A2].

Lemma two_forks_linked : linked two_forks.
Proof. apply check_linked. by vm_compute. Qed.

(** The same, with the current chain marked. *)
Definition current_chain : toy_database := add_all [st 1 1 0 0 0 true; st 2 2 1 0 0 true; B].
End forks.
#[local] Existing Instance forks.toy_rules.

(** Pruning can follow a dangling iterator.  On a node that has not
    marked a current chain, with two forks of which the losing one was seen
    first at the next height, adding the block that makes the winning fork
    irreversible removes the block the iterator was advanced to. *)
Theorem prune_dangling_iterator :
  let db := (fdb_insert (forks.add_all [forks.R; forks.A; forks.B; forks.B2; forks.A2; forks.A3]) forks.A4).1 in
  let pruned := fdb_erase (emit_irreversible db forks.A) (bs_id forks.A) in
  head (fdb_by_num db) = Some (bs_id forks.A) ∧
  lower_bound pruned 2 = Some (bs_id forks.B) ∧
  num_successor pruned (bs_id forks.B) = Some (bs_id forks.B2) ∧
  (get_block pruned (bs_id forks.B2) = Some forks.B2 ∧
   match remove pruned (bs_id forks.B) with
   | Some db' => get_block db' (bs_id forks.B2) = None
   | None => False
   end) ∧
  add_state (forks.add_all [forks.R; forks.A; forks.B; forks.B2; forks.A2; forks.A3]) forks.A4 = None.
Proof. by vm_compute. Qed.

Lemma remove_spec_witness :
  ∃ db', remove forks.two_forks (forks.did 3) = Some db' ∧ get_block db' (forks.did 4) = None ∧
    get_block db' (forks.did 2) = Some forks.A.
Proof.
  assert (Hn : ¬ builds_on (fdb_index forks.two_forks) [forks.did 3] (forks.did 2)).
  { intros H. by destruct (builds_on_higher forks.two_forks (forks.did 3) forks.B _ forks.A
      forks.two_forks_linked ltac:(by vm_compute) H ltac:(by vm_compute)). }
  destruct (remove_spec forks.two_forks (forks.did 3)) as (db' & Hr & _ & _ & Hx).
  - apply forks.add_all_wf.
  - exists (forks.did 2). split; [by vm_compute; eexists|done].
  - exists db'. split_and!; [done| |].
    + apply (Hx (forks.did 4)). eapply builds_step; [by vm_compute|]. apply builds_root. apply list_elem_of_here.
    + rewrite (proj2 (Hx (forks.did 2)) Hn). by vm_compute.
Defined.

Lemma fetch_branch_from_spec_witness :
  ∃ r1 r2, fetch_branch_from forks.two_forks (forks.did 4) (forks.did 5) = Some (r1, r2).
Proof.
  destruct (fetch_branch_from_spec forks.two_forks (forks.did 4) (forks.did 5) forks.B2 forks.A2
    [forks.B2; forks.B] [forks.A2; forks.A] forks.B forks.A) as (r1 & r2 & _ & _ & H & _);
    [apply forks.add_all_wf|apply forks.two_forks_linked|by vm_compute|by vm_compute| | |done|done|by eauto].
  - eapply branch_cons; [by vm_compute|constructor].
  - eapply branch_cons; [by vm_compute|constructor].
Defined.

Lemma get_block_in_current_chain_by_num_spec_witness :
  is_Some (get_block_in_current_chain_by_num forks.current_chain 2).
Proof.
  apply (get_block_in_current_chain_by_num_spec forks.current_chain 2); [apply forks.add_all_wf|].
  exists (forks.did 2), (forks.st 2 2 1 0 0 true). by vm_compute.
Defined.

Lemma add_state_spec_witness :
  ∃ db', add_state forks.current_chain (forks.st 5 3 2 2 0 true) = Some (db', Ok ()).
Proof.
  destruct (add_state_spec forks.current_chain (forks.st 5 3 2 2 0 true)) as (db' & H & _); [..|by eauto].
  - apply forks.add_all_wf.
  - by vm_compute.
  - apply forks.check_linked. by vm_compute.
  - intros i b Hb. apply Z.leb_le. revert i b Hb. apply forks.check_states. by vm_compute.
  - intros o i b Ho Hob _ _. exists (forks.st 2 2 1 0 0 true).
    assert (o = forks.st 1 1 0 0 0 true) as ->.
    { set (db1 := (fdb_insert _ _).1) in *.
      assert (Hh : head (fdb_by_num db1) = Some (forks.did 1)) by by vm_compute.
      assert (Hr : get_block db1 (forks.did 1) = Some (forks.st 1 1 0 0 0 true)) by by vm_compute.
      rewrite Hh in Ho. injection Ho as Ho. rewrite <- Ho in Hob. congruence. }
    split_and!; [by vm_compute..|]. intros j c Hc Hn Hcc.
    pose proof (forks.check_states (λ b, negb (bs_num b =? 2) || negb (bs_in_current_chain b) ||
      bool_decide (bs_id b = forks.did 2)) (fdb_insert forks.current_chain (forks.st 5 3 2 2 0 true)).1
      ltac:(by vm_compute) j c Hc) as Hok.
    cbn in Hn. cbn beta in Hok. rewrite Hcc, Hn in Hok. cbn in Hok. apply bool_decide_eq_true in Hok.
    assert (Hwf : fdb_wf (fdb_insert forks.current_chain (forks.st 5 3 2 2 0 true)).1).
    { apply (fdb_insert_wf forks.current_chain (forks.st 5 3 2 2 0 true)); [apply forks.add_all_wf|].
      assert (Hins : (fdb_insert forks.current_chain (forks.st 5 3 2 2 0 true)).2 = true) by by vm_compute.
      rewrite <- Hins at 2. apply surjective_pairing. }
    rewrite <- (wf_ids _ Hwf _ _ Hc). done.
Defined.

Lemma set_bft_irreversible_spec_witness :
  ∃ db', set_bft_irreversible forks.two_forks (forks.did 3) = Some db' ∧
    get_block db' (forks.did 4) = Some (set_bft 2 forks.B2).
Proof.
  destruct (set_bft_irreversible_spec forks.two_forks (forks.did 3) forks.B) as (db' & H & _ & Hx & _).
  - apply forks.add_all_wf.
  - by vm_compute.
  - by vm_compute.
  - intros i c p Hc Hp.
    pose proof (forks.check_states (λ b, bhs_bft_irreversible b =? 0) forks.two_forks ltac:(by vm_compute)) as Hz.
    pose proof (Hz _ _ Hc). pose proof (Hz _ _ Hp). cbn in *. lia.
  - exists db'. split; [done|]. apply (Hx (forks.did 4) forks.B2); [by vm_compute|].
    eapply builds_step; [by vm_compute|]. apply builds_root, list_elem_of_here.
Defined.

(** The head stays although the confirmed fork has become the better one. *)
Lemma add_header_confirmation_keeps_head_witness :
  match add_header_confirmation (forks.add_all [forks.R; forks.A; forks.B])
          (HeaderConfirmation (forks.did 3) 1 100) with
  | Some (db', _) => fdb_head db' = Some (forks.did 2) ∧ head (fdb_by_lib db') = Some (forks.did 3)
  | None => False
  end.
Proof.
  destruct (add_header_confirmation _ _) as [[db' r]|] eqn:H; [|by vm_compute in H].
  split; [|vm_compute in H; by injection H as <- <-].
  rewrite (add_header_confirmation_keeps_head _ _ _ _ H). by vm_compute.
Defined.

Lemma fdb_history_wf_witness :
  fdb_wf (forks.add_all [forks.R]).
Proof.
  apply (fdb_history_wf (λ _ : unit, bhs_header forks.R)).
  apply (history_add_state _ fdb_empty forks.R (forks.add_all [forks.R]) (Ok ())); [apply history_empty|by vm_compute].
Defined.
