(* ===== verification/ForkStorage.v ===== *)
(** * The file of the fork database (fork_database.cpp)

    [close] writes the states and the id of the head to a file when the node
    stops, and announces the oldest block if it is irreversible; the constructor
    reads the file and removes it.  The theorem shows that a node that is stopped
    and started again has the states and the head it had. *)

From S2P Require Import Prelude Exceptions Merkle Transaction BlockHeaderState ForkDatabase.

(** [fc::raw::pack] and [fc::raw::unpack] of [unsigned_int], [block_state] and
    [block_id_type]; unpacking returns what is left of the stream. *)
Class state_codec (S : Type) : Type := {
  pack_count : Z → bytes;
  unpack_count : bytes → res (Z * bytes);
  pack_state : S → bytes;
  unpack_state : bytes → res (S * bytes);
  pack_id : digest_type → bytes;
  unpack_id : bytes → res (digest_type * bytes) }.

(** What is packed is unpacked again. *)
Class state_codec_ok (S : Type) {codec : state_codec S} : Prop := {
  unpack_pack_count n l : is_unsigned 32 n → unpack_count (pack_count n ++ l) = Ok (n, l);
  unpack_pack_state s l : unpack_state (pack_state s ++ l) = Ok (s, l);
  unpack_pack_id i l : unpack_id (pack_id i ++ l) = Ok (i, l) }.

(** The order in which the hashed index, the first one of the container, is
    walked. *)
Class hashed_index (S : Type) : Type := {
  index_walk : gmap digest_type S → list S;
  index_walk_perm m : index_walk m ≡ₚ (map_to_list m).*2 }.

Section storage.
Context {K Sig B : Type} `{EqDecision K}.
Context {rules : @header_rules K Sig} {container : multi_index}.
Abbreviation block_state := (@block_state K Sig B).
Abbreviation fork_database := (@fork_database K Sig B).
Context {codec : state_codec block_state} {hashed : hashed_index block_state}.
Abbreviation bs_id b := (bhs_id (bs_header_state b)).
Abbreviation bs_num b := (bhs_block_num (bs_header_state b)).
Abbreviation bs_lib b := (bhs_irreversible (bs_header_state b)).
Implicit Types (db : fork_database) (s h o c b : block_state).

(** ** Operations *)

(** The loop of the constructor. *)
Fixpoint load_states (n : nat) (ds : bytes) (db : fork_database) : res (fork_database * bytes) :=
  match n with
  | O => mret (db, ds)
  | S n =>
      '(s, ds) ← unpack_state ds;
      match set db s with
      | (_, Throw e) => Throw e
      | (db, Ok _) => load_states n ds db
      end
  end.

Definition load (content : bytes) : res fork_database :=
  '(n, ds) ← unpack_count content;
  '(db, ds) ← load_states (Z.to_nat n) ds fdb_empty;
  '(head_id, _) ← unpack_id ds;
  mret (set_head db ((λ s, bs_id s) <$> get_block db head_id)).

(** [fork_database::fork_database]: the file is removed once it is read. *)
Definition construct (fork_db_dat : option bytes) : option bytes * res fork_database :=
  match fork_db_dat with
  | None => (None, Ok fdb_empty)
  | Some content =>
      match load content with
      | Ok db => (None, Ok db)
      | Throw e => (fork_db_dat, Throw e)
      end
  end.

(** [my->index.clear()]. *)
Definition fdb_clear (db : fork_database) : fork_database :=
  ForkDatabase ∅ [] [] (fdb_head db) (fdb_irreversible db).

(** What [close] writes. *)
Definition saved (db : fork_database) : bytes :=
  pack_count (u32 (Z.of_nat (size (fdb_index db)))) ++
  mjoin (pack_state <$> index_walk (fdb_index db)) ++
  pack_id (match fdb_head db with Some i => i | None => digest_zero end).

(** [fork_database::close]: undefined without a head. *)
Definition close (fork_db_dat : option bytes) (db : fork_database) : option (option bytes * fork_database) :=
  if (size (fdb_index db) =? 0)%nat then Some (fork_db_dat, db)
  else
    let out := saved db in
    h ← head_block db;
    let lib := bs_lib h in
    oldest ← head (fdb_by_num db) ≫= get_block db;
    db ← (if bs_num oldest <=? lib then prune prune_depth db oldest else Some db);
    Some (Some out, fdb_clear db).

(** ** Loading *)

(** A state whose id is new and is the id of its header is accepted. *)
Lemma set_new db s :
  fdb_wf db → get_block db (bs_id s) = None → bs_id s = rule_id (bhs_header s) →
  ∃ db', set db s = (db', Ok ()) ∧ fdb_wf db' ∧ fdb_index db' = <[bs_id s := s]> (fdb_index db) ∧
    fdb_irreversible db' = fdb_irreversible db.
Proof.
  intros Hwf Hn Hid. pose proof (set_wf db s) as Hset. unfold set, fdb_insert, set_guards in *. unfold get_block in Hn.
  rewrite Hn in *. rewrite (bool_decide_eq_true_2 _ Hid) in *. cbn [EOS_ASSERT mbind result_bind] in *.
  eexists. split; [done|]. split; [by eapply Hset|]. by repeat case_match.
Qed.

Lemma load_states_ok {ok : state_codec_ok block_state} l ds db :
  fdb_wf db → NoDup ((λ s, bs_id s) <$> l) →
  Forall (λ s, get_block db (bs_id s) = None ∧ bs_id s = rule_id (bhs_header s)) l →
  ∃ db', load_states (length l) (mjoin (pack_state <$> l) ++ ds) db = Ok (db', ds) ∧ fdb_wf db' ∧
    (∀ i b, get_block db' i = Some b ↔ get_block db i = Some b ∨ b ∈ l ∧ bs_id b = i) ∧
    fdb_irreversible db' = fdb_irreversible db.
Proof.
  revert db. induction l as [|s l IH]; intros db Hwf Hnd Hl; cbn [load_states length fmap list_fmap].
  { exists db. split_and!; [done|done| |done]. intros i b. rewrite elem_of_nil. tauto. }
  apply NoDup_cons in Hnd as [Hs Hnd]. apply Forall_cons in Hl as [[Hnew Hid] Hl].
  change (mjoin (?x :: ?y)) with (x ++ mjoin y). rewrite <- app_assoc, unpack_pack_state. cbn [mbind result_bind].
  destruct (set_new db s Hwf Hnew Hid) as (db1 & -> & Hwf1 & Hi & Hirr).
  destruct (IH db1 Hwf1 Hnd) as (db' & -> & Hwf' & Hx & Hirr').
  { rewrite Forall_forall in Hl |- *. intros b Hb. destruct (Hl b Hb) as [Hn ?]. split; [|done].
    unfold get_block in *. rewrite Hi, lookup_insert_ne; [done|]. intros He. apply Hs. rewrite He.
    by apply (list_elem_of_fmap_2 (λ s, bs_id s)). }
  exists db'. split_and!; [done|done| |congruence]. intros i b. rewrite Hx, elem_of_cons.
  unfold get_block in *. rewrite Hi, lookup_insert_Some.
  split; [|destruct (decide (bs_id s = i)) as [<-|]; [rewrite Hnew|]; naive_solver].
  naive_solver.
Qed.

(** What is read back of a saved database. *)
Lemma load_saved {ok : state_codec_ok block_state} db :
  fdb_wf db → (∀ i b, get_block db i = Some b → bs_id b = rule_id (bhs_header b)) →
  Z.of_nat (size (fdb_index db)) < 2 ^ 32 → is_Some (head_block db) →
  ∃ db', load (saved db) = Ok db' ∧ fdb_wf db' ∧ fdb_index db' = fdb_index db ∧ fdb_head db' = fdb_head db ∧
    fdb_irreversible db' = [].
Proof.
  intros Hwf Hids Hsz [h Hh]. unfold load, saved.
  assert (Hu : is_unsigned 32 (Z.of_nat (size (fdb_index db)))) by (unfold is_unsigned; lia).
  rewrite wrap_id, unpack_pack_count by done. cbn [mbind result_bind]. rewrite Nat2Z.id.
  set (l := index_walk (fdb_index db)).
  assert (Hl : l ≡ₚ (map_to_list (fdb_index db)).*2) by apply index_walk_perm.
  assert (Hin : ∀ b, b ∈ l ↔ get_block db (bs_id b) = Some b).
  { intros b. rewrite Hl, list_elem_of_fmap. unfold get_block. split.
    - intros ([i b'] & -> & Hb%elem_of_map_to_list). cbn. by rewrite (wf_ids db Hwf i b' Hb).
    - intros Hb. exists (bs_id b, b). by rewrite elem_of_map_to_list. }
  assert (Hlen : length l = size (fdb_index db)) by by rewrite Hl, length_fmap, length_map_to_list.
  assert (Hk : (λ s, bs_id s) <$> (map_to_list (fdb_index db)).*2 = (map_to_list (fdb_index db)).*1).
  { rewrite <- list_fmap_compose. apply list_fmap_ext. intros k [i b] Hb. cbn.
    apply (wf_ids db Hwf i b), elem_of_map_to_list. by eapply list_elem_of_lookup_2. }
  rewrite <- Hlen.
  destruct (load_states_ok l (pack_id (match fdb_head db with Some i => i | None => digest_zero end)) fdb_empty)
    as (db1 & -> & Hwf1 & Hx & Hirr).
  { apply fdb_empty_wf. }
  { rewrite Hl, Hk. apply NoDup_fst_map_to_list. }
  { apply Forall_forall. intros b Hb. split; [done|]. by eapply Hids, Hin. }
  cbn [mbind result_bind]. rewrite <- (app_nil_r (pack_id _)), unpack_pack_id. cbn [mbind result_bind].
  assert (Hsame : fdb_index db1 = fdb_index db).
  { apply map_eq. intros i. apply option_eq. intros b. change (fdb_index db1 !! i) with (get_block db1 i).
    rewrite Hx, Hin. split; [|intros Hb; right; by rewrite (wf_ids db Hwf i b Hb)].
    intros [[=]|[Hb <-]]. done. }
  unfold head_block in Hh. destruct (fdb_head db) as [i|] eqn:Hi; [|done]. cbn [mbind option_bind] in Hh.
  eexists. split; [done|]. split_and!; [by apply set_head_wf|done| |done].
  unfold get_block in *. cbn. rewrite Hsame, Hh. cbn. by rewrite (wf_ids db Hwf i h Hh).
Qed.

(** ** Stopping *)

(** The database holds one state, or the oldest block is followed on the current
    chain. *)
Definition closable (db : fork_database) (o h : block_state) : Prop :=
  fdb_index db = {[bs_id o := o]} ∨ linked db ∧ is_best db h ∧ bs_id h ≠ bs_id o ∧ ∃ c, followed db o c.

Lemma prune_only db o fuel :
  fdb_wf db → fdb_index db = {[bs_id o := o]} → fdb_by_num db = [bs_id o] →
  ∃ db', prune (S fuel) db o = Some db' ∧ fdb_irreversible db' = fdb_irreversible db ++ [o].
Proof.
  intros Hwf Hi Hn. assert (Ho : get_block db (bs_id o) = Some o) by (unfold get_block; by rewrite Hi, lookup_singleton_eq).
  cbn [prune prune_older]. rewrite Hn. cbn [head mbind option_bind]. rewrite Ho, Z.ltb_irrefl.
  cbn [mbind option_bind]. rewrite Ho. unfold lower_bound, fdb_erase, index_erase. cbn. rewrite Hn.
  rewrite filter_cons_False by auto. cbn. by eexists.
Qed.

Lemma close_states db o h f :
  fdb_wf db → head (fdb_by_num db) = Some (bs_id o) → get_block db (bs_id o) = Some o → head_block db = Some h →
  (bs_num o <= bs_lib h → closable db o h) →
  ∃ db', close f db = Some (Some (saved db), db') ∧ fdb_index db' = ∅ ∧
    fdb_irreversible db' = fdb_irreversible db ++ (if bs_num o <=? bs_lib h then [o] else []).
Proof.
  intros Hwf Ho Hob Hh Hc. unfold close.
  assert (Hsz : (size (fdb_index db) =? 0)%nat = false).
  { apply Nat.eqb_neq. intros H0%map_size_empty_inv. unfold get_block in Hob. by rewrite H0 in Hob. }
  rewrite Hsz, Hh. cbn [mbind option_bind]. rewrite Ho. cbn [mbind option_bind]. rewrite Hob. cbn [mbind option_bind].
  destruct (Z.leb_spec (bs_num o) (bs_lib h)) as [Hle|Hgt].
  2:{ cbn [mbind option_bind]. eexists. split_and!; [done|done|]. cbn. by rewrite app_nil_r. }
  assert (Hp : ∃ db', prune prune_depth db o = Some db' ∧ fdb_irreversible db' = fdb_irreversible db ++ [o]).
  { destruct (Hc Hle) as [Hi|(Hl & Hb & Hne & c & Hf)].
    - apply prune_only; [done|done|]. destruct (fdb_by_num db) as [|i [|j l]] eqn:Hn; [done| |]; injection Ho as ->; [done|].
      exfalso. pose proof (wf_num_nodup db Hwf) as Hnd. rewrite Hn in Hnd. apply NoDup_cons in Hnd as [Hnin _].
      apply Hnin, elem_of_cons. left. assert (Hj : is_Some (get_block db j)).
      { apply (wf_num_dom db Hwf). rewrite Hn, !elem_of_cons. tauto. }
      destruct Hj as [b Hj]. unfold get_block in Hj. rewrite Hi in Hj. by apply lookup_singleton_Some in Hj as [-> _].
    - unfold head_block in Hh. destruct (fdb_head db) as [i|] eqn:Hi; [|done]. cbn [mbind option_bind] in Hh.
      rewrite <- (wf_ids db Hwf i h Hh) in Hi.
      destruct (prune_oldest db o c h 1) as (db' & ? & _ & _ & _ & ?); eauto. }
  destruct Hp as (db' & -> & Hirr). cbn [mbind option_bind]. eexists. by split_and!.
Qed.

(** C23: A node that is stopped and started again.  Closing the fork database
    announces the oldest block if the head makes it irreversible, and empties
    the index; constructing a fork database from the file that is left restores
    every state and the head, with all indices in order, and removes the file. *)
Theorem close_reopen {ok : state_codec_ok block_state} db o h f :
  fdb_wf db → (∀ i b, get_block db i = Some b → bs_id b = rule_id (bhs_header b)) →
  Z.of_nat (size (fdb_index db)) < 2 ^ 32 →
  head (fdb_by_num db) = Some (bs_id o) → get_block db (bs_id o) = Some o → head_block db = Some h →
  (bs_num o <= bs_lib h → closable db o h) →
  ∃ file db1 db2, close f db = Some (Some file, db1) ∧ fdb_index db1 = ∅ ∧
    fdb_irreversible db1 = fdb_irreversible db ++ (if bs_num o <=? bs_lib h then [o] else []) ∧
    construct (Some file) = (None, Ok db2) ∧ fdb_wf db2 ∧ fdb_index db2 = fdb_index db ∧ fdb_head db2 = fdb_head db.
Proof.
  intros Hwf Hids Hsz Ho Hob Hh Hc.
  destruct (close_states db o h f Hwf Ho Hob Hh Hc) as (db1 & Hcl & He & Hirr).
  destruct (load_saved db Hwf Hids Hsz) as (db2 & Hload & Hwf2 & Hi & Hhd & _); [by eexists|].
  exists (saved db), db1, db2. unfold construct. by rewrite Hload.
Qed.

(** Closing does not check for a head where it reads the irreversible block:
    a database with states and no head is not closed. *)
Lemma close_without_head db f : fdb_index db ≠ ∅ → fdb_head db = None → close f db = None.
Proof.
  intros Hi Hh. unfold close, head_block. rewrite Hh.
  destruct (Nat.eqb_spec (size (fdb_index db)) 0) as [H0%map_size_empty_inv|]; done.
Qed.

(** Loading checks what it reads: whatever the file holds, a database that is
    constructed is well formed and its head is one of its states; the file is
    removed only then. *)
Lemma load_states_wf n ds db db' ds' : fdb_wf db → load_states n ds db = Ok (db', ds') → fdb_wf db'.
Proof.
  revert ds db. induction n as [|n IH]; intros ds db Hwf; cbn [load_states]; [by intros [= <- <-]|].
  destruct (unpack_state ds) as [[s ds1]|]; cbn [mbind result_bind]; [|done].
  destruct (set db s) as [db1 [[]|e]] eqn:Hs; [|done]. apply IH. by eapply set_wf.
Qed.

Lemma construct_wf file file' r :
  construct file = (file', r) →
  match r with
  | Ok db => file' = None ∧ fdb_wf db ∧ (∀ i, fdb_head db = Some i → is_Some (get_block db i))
  | Throw _ => file' = file
  end.
Proof.
  unfold construct. destruct file as [content|]; [|intros [= <- <-]; split_and!; [done|apply fdb_empty_wf|done]].
  destruct (load content) as [db|e] eqn:Hl; intros [= <- <-]; [|done]. split; [done|]. unfold load in Hl.
  destruct (unpack_count content) as [[n ds]|]; cbn [mbind result_bind] in Hl; [|done].
  destruct (load_states (Z.to_nat n) ds fdb_empty) as [[db1 ds1]|] eqn:Hs; cbn [mbind result_bind] in Hl; [|done].
  destruct (unpack_id ds1) as [[i ds2]|]; cbn [mbind result_bind] in Hl; [|done]. injection Hl as <-.
  apply load_states_wf in Hs; [|apply fdb_empty_wf]. split; [by apply set_head_wf|].
  intros j. cbn. destruct (get_block db1 i) as [b|] eqn:Hb; cbn; [|done]. intros [= <-].
  exists b. by rewrite (wf_ids db1 Hs i b Hb).
Qed.

End storage.

(** ** An instance *)

Abbreviation bs_id b := (bhs_id (bs_header_state b)).
Abbreviation bs_num b := (bhs_block_num (bs_header_state b)).
Abbreviation bs_lib b := (bhs_irreversible (bs_header_state b)).

(** Small states, written digit by digit, and a chain of three blocks of which
    the head makes the first one irreversible. *)
Module stored.
#[local] Existing Instance forks.toy_rules.
#[local] Existing Instance stable_multi_index.

Fixpoint pos_bytes (p : positive) : bytes :=
  match p with xH => [2] | xO p => 0 :: pos_bytes p | xI p => 1 :: pos_bytes p end.
Fixpoint bytes_pos (l : bytes) : res (positive * bytes) :=
  match l with
  | [] => Throw fc_out_of_range_exception
  | b :: l =>
      if b =? 2 then Ok (xH, l)
      else '(p, l) ← bytes_pos l; mret (if b =? 0 then xO p else xI p, l)
  end.

Definition pack_any {A} `{Countable A} (a : A) : bytes := pos_bytes (encode a).
Definition unpack_any {A} `{Countable A} (l : bytes) : res (A * bytes) :=
  '(p, l) ← bytes_pos l;
  match decode p with Some a => Ok (a, l) | None => Throw fc_out_of_range_exception end.

Lemma unpack_pack_any {A} `{Countable A} (a : A) l : unpack_any (pack_any a ++ l) = Ok (a, l).
Proof.
  assert (Hp : ∀ p, bytes_pos (pos_bytes p ++ l) = Ok (p, l)).
  { induction p as [p IH|p IH|]; cbn; [by rewrite IH|by rewrite IH|done]. }
  unfold unpack_any, pack_any. rewrite Hp. cbn [mbind result_bind]. by rewrite decode_encode.
Qed.

#[local] Instance key_countable : Countable (@producer_key Z).
Proof.
  apply (inj_countable' (λ k, (producer_name k, block_signing_key k)) (λ '(n, k), ProducerKey n k)). by intros [].
Defined.
#[local] Instance schedule_eq_dec : EqDecision (@producer_schedule_type Z).
Proof. solve_decision. Defined.
#[local] Instance schedule_countable : Countable (@producer_schedule_type Z).
Proof.
  apply (inj_countable' (λ s, (version s, producers s)) (λ '(v, l), ProducerSchedule v l)). by intros [].
Defined.
#[local] Instance header_eq_dec : EqDecision (@signed_block_header Z Z).
Proof. intros [[]] [[]]. unfold Decision. repeat decide equality; try apply digest_eq_dec. Defined.
#[local] Instance header_countable : Countable (@signed_block_header Z Z).
Proof.
  apply (inj_countable' (λ '(SignedBlockHeader (BlockHeader t p c v m a s n e) g), (t, p, c, v, m, a, s, n, e, g))
    (λ '(t, p, c, v, m, a, s, n, e, g), SignedBlockHeader (BlockHeader t p c v m a s n e) g)). by intros [[]].
Defined.
#[local] Instance confirmation_eq_dec : EqDecision (@header_confirmation Z).
Proof. solve_decision. Defined.
#[local] Instance confirmation_countable : Countable (@header_confirmation Z).
Proof.
  apply (inj_countable' (λ '(HeaderConfirmation i p g), (i, p, g)) (λ '(i, p, g), HeaderConfirmation i p g)). by intros [].
Defined.
#[local] Instance merkle_eq_dec : EqDecision incremental_merkle.
Proof. solve_decision. Defined.
#[local] Instance merkle_countable : Countable incremental_merkle.
Proof.
  apply (inj_countable' (λ '(IncrementalMerkle n l), (n, l)) (λ '(n, l), IncrementalMerkle n l)). by intros [].
Defined.
#[local] Instance header_state_eq_dec : EqDecision (@block_header_state Z Z).
Proof. solve_decision. Defined.
#[local] Instance toy_state_eq_dec : EqDecision forks.toy_state.
Proof. pose proof (header_state_eq_dec : EqDecision (@block_header_state Z Z)). solve_decision. Defined.
#[local] Instance toy_state_countable : Countable forks.toy_state.
Proof.
  apply (inj_countable'
    (λ '(BlockState (BlockHeaderState i n h p l b q r s a m d e k c f) o v x),
       (i, n, h, p, l, b, q, r, s, a, m, d, e, k, c, f, o, v, x))
    (λ '(i, n, h, p, l, b, q, r, s, a, m, d, e, k, c, f, o, v, x),
       BlockState (BlockHeaderState i n h p l b q r s a m d e k c f) o v x)). by intros [[]].
Defined.

#[local] Instance codec : state_codec forks.toy_state := {
  pack_count := pack_any;
  unpack_count := unpack_any;
  pack_state := pack_any;
  unpack_state := unpack_any;
  pack_id := pack_any;
  unpack_id := unpack_any }.
#[local] Instance codec_laws : state_codec_ok forks.toy_state.
Proof. constructor; intros; apply unpack_pack_any. Qed.
#[local] Program Instance walk : hashed_index forks.toy_state := {
  index_walk m := (map_to_list m).*2 }.
Next Obligation. done. Qed.

(** A state with the id of its header. *)
Definition with_id (s : forks.toy_state) : forks.toy_state :=
  match s with
  | BlockState (BlockHeaderState i n h p l b q r s a m d e k c f) o v x =>
      BlockState (BlockHeaderState (rule_id h) n h p l b q r s a m d e k c f) o v x
  end.
Definition after (s : forks.toy_state) (num lib : Z) : forks.toy_state :=
  with_id (BlockState (BlockHeaderState digest_zero num
    (SignedBlockHeader (BlockHeader num 1 0 (bs_id s) digest_zero digest_zero 0 None []) 0)
    0 lib 0 0 digest_zero (ProducerSchedule 0 []) (ProducerSchedule 0 [ProducerKey 1 100])
    incremental_merkle_empty ∅ ∅ 0 [] []) None false true).

Definition first : forks.toy_state := with_id (forks.st 1 1 0 0 0 true).
Definition second : forks.toy_state := after first 2 0.
Definition third : forks.toy_state := after second 3 1.
Definition chain : forks.toy_database := forks.add_all [first; second; third].

Lemma chain_first : head (fdb_by_num chain) = Some (bs_id first) ∧ get_block chain (bs_id first) = Some first.
Proof. by vm_compute. Qed.

Lemma chain_closable : closable chain first third.
Proof.
  right. split_and!.
  - apply forks.check_linked. by vm_compute.
  - split; [by vm_compute|]. intros i b Hb.
    assert (H : b ∈ [first; second; third]).
    { pose proof (forks.check_states (λ b, bool_decide (b ∈ [first; second; third])) chain ltac:(by vm_compute) i b Hb) as H.
      by apply bool_decide_eq_true in H. }
    rewrite !elem_of_cons, elem_of_nil in H. destruct H as [->|[->|[->|[]]]]; unfold at_least; cbn; lia.
  - by vm_compute.
  - exists second. split_and!; [by vm_compute|by vm_compute|by vm_compute|]. intros i b Hb Hn _.
    rewrite <- (wf_ids _ (forks.add_all_wf _) i b Hb).
    pose proof (forks.check_states (λ b, negb (bs_num b =? 2) || bool_decide (bs_id b = bs_id second)) chain
      ltac:(by vm_compute) i b Hb) as H.
    apply orb_true_iff in H as [H|H]; [|by apply bool_decide_eq_true in H].
    change (bs_num first + 1) with 2 in Hn. rewrite Hn in H. done.
Qed.
End stored.
#[local] Existing Instance forks.toy_rules.
#[local] Existing Instance stable_multi_index.
#[local] Existing Instance stored.codec.
#[local] Existing Instance stored.codec_laws.
#[local] Existing Instance stored.walk.

Lemma close_reopen_witness :
  ∃ file db1 db2, close None stored.chain = Some (Some file, db1) ∧ fdb_index db1 = ∅ ∧
    fdb_irreversible db1 = [stored.first] ∧ construct (Some file) = (None, Ok db2) ∧
    fdb_wf db2 ∧ fdb_index db2 = fdb_index stored.chain ∧ fdb_head db2 = Some (bs_id stored.third).
Proof.
  apply (close_reopen stored.chain stored.first stored.third None).
  - apply forks.add_all_wf.
  - intros i b Hb. apply (bool_decide_eq_true_1 _). revert i b Hb.
    apply (forks.check_states (λ b, bool_decide (bs_id b = rule_id (bhs_header b)))). by vm_compute.
  - by vm_compute.
  - apply stored.chain_first.
  - apply stored.chain_first.
  - by vm_compute.
  - intros _. apply stored.chain_closable.
Defined.
