(* ===== verification/ForkFacts.v ===== *)
(** * What the operations of the fork database keep

    The facts about single operations that the controller's invariant rests on:
    which block states an operation keeps, which it announces as irreversible,
    and that no block is left without its parent, except above a pruned one. *)

From S2P Require Import Prelude Exceptions Merkle BlockHeaderState ForkDatabase.

Section facts.
Context {K Sig B : Type} {rules : @header_rules K Sig} {container : multi_index}.
Abbreviation block_state := (@ForkDatabase.block_state K Sig B).
Abbreviation fork_database := (@ForkDatabase.fork_database K Sig B).
Abbreviation bs_id b := (bhs_id (bs_header_state b)).
Abbreviation bs_num b := (bhs_block_num (bs_header_state b)).
Implicit Types (f : fork_database) (b p : block_state).

(** Two states of the same block: the rest of a state may change. *)
Definition same_block (a b : block_state) : Prop :=
  bs_id a = bs_id b ∧ bs_num a = bs_num b ∧ bhs_header a = bhs_header b ∧ bs_block a = bs_block b.

#[export] Instance same_block_equivalence : Equivalence same_block.
Proof.
  split; [done|by intros a b (? & ? & ? & ?)|]. intros a b c (? & ? & ? & ?) (? & ? & ? & ?).
  by split_and!; etrans.
Qed.

Lemma same_block_prev a b : same_block a b → prev a = prev b.
Proof. intros (_ & _ & H & _). unfold prev. by rewrite H. Qed.

(** The same blocks, in states that may have changed. *)
Definition similar f f' : Prop := ∀ x, option_Forall2 same_block (get_block f x) (get_block f' x).

#[export] Instance similar_preorder : PreOrder similar.
Proof.
  split; [intros f x; by apply option_Forall2_refl; intros ?|]. intros f g h H1 H2 x.
  specialize (H1 x). specialize (H2 x). destruct H1; inversion H2; subst; constructor. by etrans.
Qed.

Lemma similar_alter f f' i (g : block_state → block_state) :
  (∀ b, get_block f i = Some b → same_block b (g b)) → fdb_index f' = alter g i (fdb_index f) → similar f f'.
Proof.
  intros Hg Hi x. unfold get_block in *. rewrite Hi. destruct (decide (i = x)) as [->|Hx].
  - rewrite lookup_alter_eq. destruct (fdb_index f !! x); constructor. by apply Hg.
  - rewrite lookup_alter_ne by done. by apply option_Forall2_refl; intros ?.
Qed.

Lemma similar_Some f f' x b : similar f f' → get_block f x = Some b → ∃ b', get_block f' x = Some b' ∧ same_block b b'.
Proof. intros H Hb. specialize (H x). rewrite Hb in H. inversion H; subst. eauto. Qed.

Lemma similar_None f f' x : similar f f' → get_block f' x = None → get_block f x = None.
Proof. intros H Hb. specialize (H x). rewrite Hb in H. by inversion H. Qed.

Lemma similar_back f f' x b' :
  similar f f' → get_block f' x = Some b' → ∃ b, get_block f x = Some b ∧ same_block b b'.
Proof. intros H Hb. specialize (H x). rewrite Hb in H. inversion H; subst. eauto. Qed.

(** ** Flags and confirmations *)

Lemma mark_similar f i was now f' r :
  mark_in_current_chain f i was now = (f', r) →
  similar f f' ∧ fdb_irreversible f' = fdb_irreversible f ∧ fdb_head f' = fdb_head f ∧
  (is_Some (get_block f i) → r = Ok tt).
Proof.
  unfold mark_in_current_chain. destruct (Bool.eqb _ _); [by intros [= <- <-]; split_and!; [reflexivity|..]|].
  destruct (get_block f i) eqn:Hi; intros [= <- <-]; [|split_and!; [reflexivity|done..|by intros [? ?]]].
  split_and!; try done. by (eapply similar_alter; [|reflexivity]).
Qed.

Lemma write_similar f i valid : similar f (fdb_write f i (λ h, BlockState h (bs_block h) valid (bs_in_current_chain h))).
Proof. by (eapply similar_alter; [|reflexivity]). Qed.

Lemma update_layers_similar fuel num queue f f' :
  update_layers fuel num queue f = Some f' → similar f f' ∧ fdb_irreversible f' = fdb_irreversible f.
Proof.
  assert (Hfold : ∀ cs (st : fork_database * list digest_type),
    let st' := foldl (λ '(db, updated) c,
      match get_block db c with
      | Some b =>
          if bhs_bft_irreversible b <? num then (fdb_modify db c (set_bft num), updated ++ [c]) else (db, updated)
      | None => (db, updated)
      end) st cs in similar st.1 st'.1 ∧ fdb_irreversible st'.1 = fdb_irreversible st.1).
  { induction cs as [|c cs IH]; intros [d upd]; cbn [foldl]; [by split; [reflexivity|]|]. cbn zeta.
    set (st1 := match get_block d c with Some _ => _ | None => _ end). destruct (IH st1) as [H1 H2].
    assert (Hd : similar d st1.1 ∧ fdb_irreversible st1.1 = fdb_irreversible d).
    { subst st1. repeat case_match; try (by split; [reflexivity|]). split; [|done]. by (eapply similar_alter; [|reflexivity]). }
    destruct Hd. split; [by etrans|by etrans]. }
  assert (Hlayer : ∀ q (st : fork_database * list digest_type),
    let st' := foldl (update_children num) st q in
    similar st.1 st'.1 ∧ fdb_irreversible st'.1 = fdb_irreversible st.1).
  { induction q as [|i q IH]; intros st; cbn [foldl]; [by split; [reflexivity|]|]. cbn zeta.
    destruct (IH (update_children num st i)) as [H1 H2].
    destruct (Hfold (children st.1 i) st) as [H3 H4]. split; [by etrans|by etrans]. }
  revert queue f. induction fuel as [|fuel IH]; intros [|i q] f; cbn [update_layers]; try done;
    [by intros [= <-]; split; [reflexivity|]..|]. specialize (Hlayer (i :: q) (f, [])).
  destruct (foldl _ _ _) as [f1 upd]. cbn in Hlayer. destruct Hlayer as [H1 H2]. intros [H3 H4]%IH.
  split; by etrans.
Qed.

Lemma confirmation_similar f c f' r :
  fdb_wf f → add_header_confirmation f c = Some (f', r) → similar f f' ∧ fdb_irreversible f' = fdb_irreversible f.
Proof.
  intros Hwf. unfold add_header_confirmation, set_bft_irreversible.
  destruct (get_block f (hc_block_id c)) as [b|] eqn:Hb; [|by intros [= <- <-]; split; [reflexivity|]].
  destruct (rule_add_confirmation b c) as [s|] eqn:Hs; [|by intros [= <- <-]; split; [reflexivity|]].
  destruct (rule_add_confirmation_Ok _ _ _ Hs) as (Hi & Hh & Hn & _ & _).
  set (f1 := fdb_write _ _ _).
  assert (H1 : similar f f1).
  { eapply similar_alter; [|done]. intros b'. rewrite Hb. intros [= <-]. done. }
  destruct (_ && _); [|by intros [= <- <-]].
  intros (f2 & H2 & [= <- <-])%bind_Some. apply bind_Some in H2 as (b1 & _ & H2).
  apply update_layers_similar in H2 as [H2 H3]. split; [|done]. etrans; [done|]. etrans; [|exact H2].
  by (eapply similar_alter; [|reflexivity]).
Qed.

(** ** Removing *)

(** [f'] has some of the states of [f], and no state has lost its parent. *)
Record trimmed f f' : Prop := {
  tr_some x b : get_block f' x = Some b → get_block f x = Some b;
  tr_parent x b : get_block f' x = Some b → get_block f' (prev b) = None → get_block f (prev b) = None }.

Lemma trimmed_refl f : trimmed f f.
Proof. by split. Qed.

Lemma trimmed_trans f g h : trimmed f g → trimmed g h → trimmed f h.
Proof.
  intros [A1 A2] [B1 B2]. split; [by eauto|]. intros x b Hx Hp. eapply A2; [by apply B1|]. by eapply B2.
Qed.

Lemma remove_trimmed f i f' :
  fdb_wf f → remove f i = Some f' → trimmed f f' ∧ fdb_wf f' ∧ fdb_irreversible f' = fdb_irreversible f.
Proof.
  intros Hwf Hr. destruct (remove_cases f i Hwf) as [_ Hspec]. destruct (Hspec f' Hr) as (Hwf' & Hirr & _ & Hx).
  assert (Hkeep : ∀ x b, get_block f' x = Some b → ¬ builds_on (fdb_index f) [i] x ∧ get_block f x = Some b).
  { intros x b Hb. assert (Hn : ¬ builds_on (fdb_index f) [i] x).
    { intros H. apply (Hx x) in H. congruence. }
    split; [done|]. rewrite <- (proj2 (Hx x) Hn). done. }
  split_and!; [|done..]. split; [intros x b Hb; by apply Hkeep|].
  intros x b Hb Hp. apply Hkeep in Hb as [Hn Hb]. rewrite <- Hp. symmetry. apply (Hx (prev b)).
  intros H. apply Hn. by eapply builds_step.
Qed.

(** ** Pruning *)

Lemma prune_siblings_trimmed fuel num f f' :
  fdb_wf f → (∀ x b, get_block f x = Some b → num <= bs_num b) →
  prune_siblings fuel num (head (fdb_by_num f)) f = Some f' →
  trimmed f f' ∧ fdb_wf f' ∧ fdb_irreversible f' = fdb_irreversible f ∧
  ∀ x b, get_block f' x = Some b → num < bs_num b.
Proof.
  revert f. induction fuel as [|fuel IH]; intros f Hwf Hfloor.
  all: destruct (fdb_by_num f) as [|i l] eqn:Hl; cbn [head prune_siblings]; try done.
  1,2: intros [= <-]; split_and!; [apply trimmed_refl|done..|]; intros x b Hb;
    pose proof (proj2 (wf_num_dom f Hwf x) ltac:(eauto)) as Hin; rewrite Hl in Hin; by apply not_elem_of_nil in Hin.
  intros (b & Hb & H)%bind_Some. destruct (Z.eqb_spec (bs_num b) num) as [Hn|Hn].
  - apply bind_Some in H as (f1 & Hr & H). destruct (remove_trimmed f i f1 Hwf Hr) as (Ht & Hwf1 & Hirr).
    assert (Hi : get_block f1 i = None).
    { destruct (remove_cases f i Hwf) as [_ Hspec]. destruct (Hspec f1 Hr) as (_ & _ & _ & Hx).
      apply (Hx i), builds_root, list_elem_of_here. }
    assert (Hi' : i ∉ fdb_by_num f1) by (rewrite (wf_num_dom f1 Hwf1), Hi; by intros [? ?]).
    assert (Hhead : num_successor f i = head (fdb_by_num f1)).
    { assert (Hsucc : num_successor f i = head l).
      { unfold num_successor. rewrite Hl. cbn. rewrite decide_True by done. by destruct l. }
      rewrite Hsucc in H |- *. destruct l as [|k r]; cbn [head] in H |- *.
      - pose proof (remove_by_num _ _ _ Hr) as Hs. rewrite Hl in Hs.
        destruct (fdb_by_num f1) as [|j l1]; [done|]. exfalso. apply Hi'.
        inversion Hs as [|? ? ? Hs'|? ? ? Hs']; subst; [apply list_elem_of_here|inversion Hs'].
      - destruct fuel; cbn [prune_siblings] in H; [done|]. apply bind_Some in H as (c & Hc & _).
        symmetry. eapply (sublist_second _ i k r); [rewrite <- Hl; apply (wf_num_nodup f Hwf)| |done|].
        + rewrite <- Hl. by eapply remove_by_num.
        + by apply (wf_num_dom f1 Hwf1); eexists. }
    rewrite Hhead in H. destruct (IH f1 Hwf1) as (Ht' & Hwf' & Hirr' & Hx); [|done|].
    { intros x c Hc. apply (Hfloor x). by apply (tr_some _ _ Ht). }
    split_and!; [by eapply trimmed_trans|done|congruence|done].
  - injection H as <-. split_and!; [apply trimmed_refl|done..|]. intros x c Hc.
    pose proof (ordered_head _ _ i x (wf_num_ordered f Hwf)) as Hless. rewrite Hl in Hless. specialize (Hless eq_refl).
    rewrite <- Hl, (wf_num_dom f Hwf) in Hless. specialize (Hless ltac:(eauto)).
    pose proof (Hfloor _ _ Hb). unfold less, num_key, get_block in *. rewrite Hb, Hc in Hless.
    unfold key_less in Hless. lia.
Qed.

(** Pruning the lowest block announces it, keeps only higher blocks, and
    leaves without a parent only the blocks on top of it. *)
Lemma prune_lowest fuel f o f' :
  fdb_wf f → head (fdb_by_num f) = Some (bs_id o) → get_block f (bs_id o) = Some o →
  prune (S fuel) f o = Some f' →
  fdb_wf f' ∧ fdb_irreversible f' = fdb_irreversible f ++ [o] ∧
  ∀ x b, get_block f' x = Some b →
    get_block f x = Some b ∧ bs_num o < bs_num b ∧
    (get_block f' (prev b) = None → get_block f (prev b) = None ∨ prev b = bs_id o).
Proof.
  intros Hwf Ho Hob. cbn [prune prune_older]. rewrite Ho. cbn [mbind option_bind]. rewrite Hob, Z.ltb_irrefl.
  cbn [mbind option_bind]. rewrite Hob. set (f1 := fdb_erase (emit_irreversible f o) (bs_id o)).
  assert (Hget : ∀ i b, get_block f1 i = Some b ↔ bs_id o ≠ i ∧ get_block f i = Some b)
    by (intros; apply (get_block_erase_Some (emit_irreversible f o))).
  assert (Hwf1 : fdb_wf f1) by by apply fdb_erase_wf, emit_irreversible_wf.
  assert (Hfloor : ∀ x b, get_block f1 x = Some b → bs_num o <= bs_num b).
  { intros x b [_ Hb]%Hget. pose proof (ordered_head _ _ _ x (wf_num_ordered f Hwf) Ho) as Hless.
    rewrite (wf_num_dom f Hwf) in Hless. specialize (Hless ltac:(eauto)).
    unfold less, num_key, get_block in *. rewrite Hob, Hb in Hless. unfold key_less in Hless. lia. }
  assert (Hlb : lower_bound f1 (bs_num o) = head (fdb_by_num f1)).
  { unfold lower_bound. rewrite filter_all; [done|]. apply Forall_forall. intros i [b Hb]%(wf_num_dom f1 Hwf1).
    unfold not_below. rewrite Hb. pose proof (Hfloor _ _ Hb). lia. }
  rewrite Hlb. intros (Ht & Hwf' & Hirr & Hx)%prune_siblings_trimmed; [|done|done]. split_and!; [done|done|].
  intros x b Hb. pose proof (tr_some _ _ Ht _ _ Hb) as Hb1. apply Hget in Hb1 as [_ Hb1].
  split_and!; [done|by eapply Hx|]. intros Hp. apply (tr_parent _ _ Ht _ _ Hb) in Hp.
  destruct (decide (prev b = bs_id o)); [by right|]. left.
  destruct (get_block f (prev b)) eqn:He; [|done]. rewrite (proj2 (Hget _ _) (conj (not_eq_sym n) He)) in Hp. done.
Qed.

(** ** Adding *)

Lemma insert_get f n f1 :
  fdb_insert f n = (f1, true) → get_block f (bs_id n) = None ∧
  fdb_irreversible f1 = fdb_irreversible f ∧
  ∀ x, get_block f1 x = if decide (x = bs_id n) then Some n else get_block f x.
Proof.
  unfold fdb_insert, get_block. destruct (fdb_index f !! bs_id n) eqn:Hn; intros [= <-]. split_and!; try done.
  intros x. cbn. case_decide as Hx; [subst; apply lookup_insert_eq|]. by rewrite lookup_insert_ne.
Qed.

(** What is left of [f] with [n] after an addition: everything, or what is
    above a block [o] of the lowest number, which is announced. *)
Lemma add_state_cases f n f' r :
  fdb_wf f → add_state f n = Some (f', r) →
  (f' = f ∧ r = Throw (fc_throw_exception fork_database_exception)) ∨
  ∃ f1, r = Ok tt ∧ get_block f (bs_id n) = None ∧
    (∀ x, get_block f1 x = if decide (x = bs_id n) then Some n else get_block f x) ∧
    ((fdb_irreversible f' = fdb_irreversible f ∧ ∀ x, get_block f' x = get_block f1 x) ∨
     ∃ o, get_block f1 (bs_id o) = Some o ∧ (∀ x b, get_block f1 x = Some b → bs_num o <= bs_num b) ∧
       fdb_irreversible f' = fdb_irreversible f ++ [o] ∧
       ∀ x b, get_block f' x = Some b →
         get_block f1 x = Some b ∧ bs_num o < bs_num b ∧
         (get_block f' (prev b) = None → get_block f1 (prev b) = None ∨ prev b = bs_id o)).
Proof.
  intros Hwf. unfold add_state. destruct (fdb_insert f n) as [f1 ins] eqn:Hins.
  destruct ins; cbn [negb]; [|intros [= <- <-]; by left].
  pose proof (fdb_insert_wf _ _ _ Hwf Hins) as Hwf1. destruct (insert_get _ _ _ Hins) as (Hn & Hirr & Hget).
  intros (best & _ & H)%bind_Some. apply bind_Some in H as (h & _ & H). apply bind_Some in H as (o & Ho & H).
  apply bind_Some in Ho as (oi & Hoi & Ho). cbn in Hoi. change (get_block f1 oi = Some o) in Ho.
  assert (oi = bs_id o) as -> by (symmetry; by apply (wf_ids f1 Hwf1)).
  right. exists f1. destruct (_ <? _).
  - apply bind_Some in H as (f2 & H2 & [= <- <-]). apply prune_lowest in H2 as (_ & Hirr2 & Hx);
      [|by apply set_head_wf|done|done].
    split_and!; try done. right. exists o. split_and!; [done| |by rewrite Hirr2; cbn; rewrite Hirr|done].
    intros x b Hb. pose proof (ordered_head _ _ _ x (wf_num_ordered f1 Hwf1) Hoi) as Hless.
    rewrite (wf_num_dom f1 Hwf1) in Hless. specialize (Hless ltac:(eauto)).
    unfold less, num_key, get_block in *. rewrite Ho, Hb in Hless. unfold key_less in Hless. lia.
  - injection H as <- <-. split_and!; try done. by left.
Qed.

Lemma add_block_cases (header : B → signed_block_header) f (b : B) trust f' r :
  add_block header f b trust = Some (f', r) →
  (f' = f ∧ ∃ e, r = Throw e) ∨
  ∃ prior s, get_block f (previous (header b)) = Some prior ∧ get_block f (rule_id (header b)) = None ∧
    rule_next (bs_header_state prior) (header b) trust = Some (Ok s) ∧
    add_state f (BlockState s (Some b) false false) = Some (f', r).
Proof.
  unfold add_block. destruct (add_guards f (header b)) as [[]|e] eqn:Hg; [|intros [= <- <-]; left; eauto].
  destruct (get_block f (previous (header b))) as [prior|] eqn:Hp; [|done].
  destruct (rule_next _ _ _) as [[s|e]|] eqn:Hs; [|intros [= <- <-]; left; eauto|done].
  intros H. right. exists prior, s. split_and!; try done. unfold add_guards in Hg. simplify_res.
  by destruct (get_block f (rule_id (header b))).
Qed.

(** ** Branches *)

Lemma descend_branch fuel f b num acc c l :
  descend fuel f b num acc = Some (c, l) → ∃ l1, l = acc ++ l1 ∧ branch f b (l1 ++ [c]) c.
Proof.
  revert b acc. induction fuel as [|fuel IH]; intros b acc; cbn [descend]; [done|].
  destruct (_ >? _); [|intros [= <- <-]; exists []; split; [by rewrite app_nil_r|constructor]].
  intros (p & Hp & (l1 & -> & Hb)%IH)%bind_Some. exists (b :: l1). rewrite <- app_assoc. split; [done|].
  by eapply branch_cons.
Qed.

Lemma descend_both_branch fuel f b1 b2 acc1 acc2 r1 r2 :
  descend_both fuel f b1 b2 acc1 acc2 = Some (r1, r2) →
  ∃ l1 l2 c1 c2, r1 = acc1 ++ l1 ∧ r2 = acc2 ++ l2 ∧ branch f b1 l1 c1 ∧ branch f b2 l2 c2 ∧ prev c1 = prev c2.
Proof.
  revert b1 b2 acc1 acc2. induction fuel as [|fuel IH]; intros b1 b2 acc1 acc2; cbn [descend_both]; [done|].
  case_bool_decide as Hp.
  - intros (p1 & Hp1 & H)%bind_Some. apply bind_Some in H as (p2 & Hp2 & H).
    apply IH in H as (l1 & l2 & c1 & c2 & -> & -> & H1 & H2 & Hc).
    exists (b1 :: l1), (b2 :: l2), c1, c2. rewrite <- !app_assoc. split_and!; try done; by eapply branch_cons.
  - intros [= <- <-]. exists [b1], [b2], b1, b2. split_and!; try done; constructor.
Qed.

(** The branches that are returned lead down to blocks with a common parent. *)
Lemma fetch_branch_sound f x y r1 r2 :
  fetch_branch_from f x y = Some (r1, r2) →
  ∃ b1 b2 c1 c2, get_block f x = Some b1 ∧ get_block f y = Some b2 ∧
    branch f b1 r1 c1 ∧ branch f b2 r2 c2 ∧ prev c1 = prev c2.
Proof.
  unfold fetch_branch_from. intros (b1 & H1 & H)%bind_Some. apply bind_Some in H as (b2 & H2 & H).
  apply bind_Some in H as ([d1 m1] & (l1 & -> & Hm1)%descend_branch & H).
  apply bind_Some in H as ([d2 m2] & (l2 & -> & Hm2)%descend_branch & H).
  apply descend_both_branch in H as (n1 & n2 & c1 & c2 & -> & -> & Hn1 & Hn2 & Hc).
  exists b1, b2, c1, c2. split_and!; try done; by eapply branch_app.
Qed.

Lemma branch_last f b l a : branch f b l a → last l = Some a.
Proof. induction 1 as [b|b p l a _ H IH]; [done|]. destruct H; by rewrite last_cons, IH. Qed.

Lemma branch_states f b l a x :
  get_block f (bs_id b) = Some b → fdb_wf f → branch f b l a → x ∈ l → get_block f (bs_id x) = Some x.
Proof.
  intros Hb Hwf. induction 1 as [b|b p l a Hp _ IH]; [by intros ->%list_elem_of_singleton|].
  intros [->|Hx]%elem_of_cons; [done|]. apply IH; [|done]. by rewrite (wf_ids f Hwf _ _ Hp).
Qed.

(** [path i l]: the blocks of [l] build on [i] and on one another. *)
Fixpoint path (i : digest_type) (l : list block_state) : Prop :=
  match l with
  | [] => True
  | b :: l => prev b = i ∧ path (bs_id b) l
  end.

Lemma path_app i l1 l2 : path i (l1 ++ l2) ↔ path i l1 ∧ path (from_option (λ b, bs_id b) i (last l1)) l2.
Proof.
  revert i. induction l1 as [|b l1 IH]; intros i; cbn [app path]; [naive_solver|].
  rewrite IH, last_cons. destruct (last l1); cbn; naive_solver.
Qed.

(** The way up to a block. *)
Lemma branch_path f b l a :
  fdb_wf f → branch f b l a → path (prev a) (reverse l) ∧ last (reverse l) = Some b.
Proof.
  intros Hwf. induction 1 as [b|b p l a Hp H [IH Hl]]; [done|]. rewrite reverse_cons.
  rewrite last_snoc. split; [|done]. apply path_app. split; [done|]. rewrite Hl. cbn. split; [|done].
  symmetry. by apply (wf_ids f Hwf).
Qed.
End facts.
