(* ===== verification/ErrorState.v ===== *)
(** * A state monad whose throws keep the state

    Outside a transaction nothing is undone when an exception is thrown: the
    caller that catches it goes on with the state at the throw.  [X S A] returns
    the value or the exception together with the state; [None] stands for
    undefined behaviour.  [xwp m Q s] says that [m] is defined and that [Q]
    holds of its result and state, and [xlwp m Q s] that [Q] holds of them if
    [m] is defined. *)

From S2P Require Import Prelude Exceptions.

Definition X (S A : Type) : Type := S → option (res A * S).

#[global] Instance X_ret {S} : MRet (X S) := λ A a s, Some (Ok a, s).
#[global] Instance X_bind {S} : MBind (X S) := λ A B k m s,
  match m s with
  | Some (Ok a, s') => k a s'
  | Some (Throw e, s') => Some (Throw e, s')
  | None => None
  end.

Section keeping.
Context {S : Type}.
Implicit Types s : S.

Definition xget : X S S := λ s, Some (Ok s, s).
Definition xmodify (f : S → S) : X S unit := λ s, Some (Ok tt, f s).
Definition xlift {A} (r : res A) : X S A := λ s, Some (r, s).
Definition xasserts (b : bool) (e : exception) : X S unit := xlift (EOS_ASSERT b e).
Definition xderef {A} (o : option A) : X S A := λ s, (λ a, (Ok a, s)) <$> o.

Fixpoint xfor_each {A} (l : list A) (body : A → X S unit) : X S unit :=
  match l with
  | [] => mret tt
  | a :: l => body a;; xfor_each l body
  end.

(** [catch (const fc::exception& e)]: other exceptions pass. *)
Definition xcatch {A} (m : X S A) (handler : exception → X S A) : X S A := λ s,
  match m s with
  | Some (Throw e, s') => if derives_from e fc_exception then handler e s' else Some (Throw e, s')
  | r => r
  end.

(** [catch (...)]. *)
Definition xcatch_all {A} (m : X S A) (handler : exception → X S A) : X S A := λ s,
  match m s with
  | Some (Throw e, s') => handler e s'
  | r => r
  end.

(** The result of a [try] block with a handler for [fc::exception]. *)
Definition xtry {A} (m : X S A) : X S (res A) := λ s,
  match m s with
  | Some (Throw e, s') => if derives_from e fc_exception then Some (Ok (Throw e), s') else Some (Throw e, s')
  | Some (Ok a, s') => Some (Ok (Ok a), s')
  | None => None
  end.

Definition xwp {A} (m : X S A) (Q : res A → S → Prop) (s : S) : Prop :=
  match m s with Some (r, s') => Q r s' | None => False end.

Lemma xwp_mono {A} (m : X S A) (P Q : res A → S → Prop) s :
  xwp m P s → (∀ r s', P r s' → Q r s') → xwp m Q s.
Proof. unfold xwp. destruct (m s) as [[]|]; eauto. Qed.

Lemma xwp_Some {A} (m : X S A) Q s r s' : xwp m Q s → m s = Some (r, s') → Q r s'.
Proof. unfold xwp. intros H Hm. by rewrite Hm in H. Qed.

Lemma xwp_ret {A} (a : A) Q s : Q (Ok a) s → xwp (mret a) Q s.
Proof. done. Qed.

Lemma xwp_bind {A B} (m : X S A) (k : A → X S B) Q s :
  xwp m (λ r s', match r with Ok a => xwp (k a) Q s' | Throw e => Q (Throw e) s' end) s → xwp (m ≫= k) Q s.
Proof. unfold xwp, mbind, X_bind. by destruct (m s) as [[[] ?]|]. Qed.

Lemma xwp_get Q s : Q (Ok s) s → xwp xget Q s.
Proof. done. Qed.

Lemma xwp_modify f Q s : Q (Ok tt) (f s) → xwp (xmodify f) Q s.
Proof. done. Qed.

Lemma xwp_lift {A} (r : res A) Q s : Q r s → xwp (xlift r) Q s.
Proof. done. Qed.

Lemma xwp_asserts b e Q s :
  (b = true → Q (Ok tt) s) → (b = false → Q (Throw (fc_throw_exception e)) s) → xwp (xasserts b e) Q s.
Proof. intros H1 H2. apply xwp_lift. destruct b; auto. Qed.

Lemma xwp_deref {A} (o : option A) (a : A) Q s : o = Some a → Q (Ok a) s → xwp (xderef o) Q s.
Proof. by intros ->. Qed.

Lemma xwp_catch {A} (m : X S A) handler Q s :
  xwp m (λ r s', match r with
                 | Throw e => if derives_from e fc_exception then xwp (handler e) Q s' else Q (Throw e) s'
                 | Ok a => Q (Ok a) s'
                 end) s →
  xwp (xcatch m handler) Q s.
Proof. unfold xwp, xcatch. destruct (m s) as [[[] ?]|]; try done. by destruct (derives_from _ _). Qed.

Lemma xwp_catch_all {A} (m : X S A) handler Q s :
  xwp m (λ r s', match r with Throw e => xwp (handler e) Q s' | Ok a => Q (Ok a) s' end) s →
  xwp (xcatch_all m handler) Q s.
Proof. unfold xwp, xcatch_all. by destruct (m s) as [[[] ?]|]. Qed.

Lemma xwp_try {A} (m : X S A) Q s :
  xwp m (λ r s', match r with
                 | Throw e => if derives_from e fc_exception then Q (Ok (Throw e)) s' else Q (Throw e) s'
                 | Ok a => Q (Ok (Ok a)) s'
                 end) s →
  xwp (xtry m) Q s.
Proof. unfold xwp, xtry. destruct (m s) as [[[] ?]|]; try done. by destruct (derives_from _ _). Qed.
End keeping.

(** What holds of every result, if there is one. *)
Definition xlwp {S A} (m : X S A) (Q : res A → S → Prop) (s : S) : Prop :=
  ∀ r s', m s = Some (r, s') → Q r s'.

Section keeping_liberal.
Context {S : Type}.
Implicit Types s : S.

Lemma xlwp_mono {A} (m : X S A) (P Q : res A → S → Prop) s :
  xlwp m P s → (∀ r s', P r s' → Q r s') → xlwp m Q s.
Proof. unfold xlwp. eauto. Qed.

Lemma xlwp_ret {A} (a : A) Q s : Q (Ok a) s → xlwp (mret a) Q s.
Proof. by intros ? ? ? [= <- <-]. Qed.

Lemma xlwp_bind {A B} (m : X S A) (k : A → X S B) Q s :
  xlwp m (λ r s', match r with Ok a => xlwp (k a) Q s' | Throw e => Q (Throw e) s' end) s → xlwp (m ≫= k) Q s.
Proof.
  unfold xlwp, mbind, X_bind. intros H r s'. destruct (m s) as [[[] ?]|] eqn:Hm; [|intros [= <- <-]|done].
  - by apply (H _ _ eq_refl).
  - by apply (H _ _ eq_refl).
Qed.

Lemma xlwp_get Q s : Q (Ok s) s → xlwp xget Q s.
Proof. by intros ? ? ? [= <- <-]. Qed.

Lemma xlwp_modify f Q s : Q (Ok tt) (f s) → xlwp (xmodify f) Q s.
Proof. by intros ? ? ? [= <- <-]. Qed.

Lemma xlwp_lift {A} (r : res A) Q s : Q r s → xlwp (xlift r) Q s.
Proof. by intros ? ? ? [= <- <-]. Qed.

Lemma xlwp_asserts b e Q s :
  (b = true → Q (Ok tt) s) → (b = false → Q (Throw (fc_throw_exception e)) s) → xlwp (xasserts b e) Q s.
Proof. intros H1 H2. apply xlwp_lift. destruct b; auto. Qed.

Lemma xlwp_deref {A} (o : option A) Q s : (∀ a, o = Some a → Q (Ok a) s) → xlwp (xderef o) Q s.
Proof. unfold xlwp, xderef. destruct o; cbn; [intros H ? ? [= <- <-]; eauto|done]. Qed.

Lemma xlwp_catch {A} (m : X S A) handler Q s :
  xlwp m (λ r s', match r with
                  | Throw e => (derives_from e fc_exception = true → xlwp (handler e) Q s') ∧
                               (derives_from e fc_exception = false → Q (Throw e) s')
                  | Ok a => Q (Ok a) s'
                  end) s →
  xlwp (xcatch m handler) Q s.
Proof.
  unfold xlwp, xcatch. intros H r s'. destruct (m s) as [[[a|e] t]|] eqn:Hm; [| |done].
  - intros [= <- <-]. by apply (H _ _ eq_refl).
  - destruct (H _ _ eq_refl) as [H1 H2]. destruct (derives_from e fc_exception); [by apply H1|].
    intros [= <- <-]. by apply H2.
Qed.

Lemma xlwp_catch_all {A} (m : X S A) handler Q s :
  xlwp m (λ r s', match r with Throw e => xlwp (handler e) Q s' | Ok a => Q (Ok a) s' end) s →
  xlwp (xcatch_all m handler) Q s.
Proof.
  unfold xlwp, xcatch_all. intros H r s'. destruct (m s) as [[[a|e] t]|] eqn:Hm; [| |done].
  - intros [= <- <-]. by apply (H _ _ eq_refl).
  - by apply (H _ _ eq_refl).
Qed.

Lemma xlwp_try {A} (m : X S A) Q s :
  xlwp m (λ r s', match r with
                  | Throw e => (derives_from e fc_exception = true → Q (Ok (Throw e)) s') ∧
                               (derives_from e fc_exception = false → Q (Throw e) s')
                  | Ok a => Q (Ok (Ok a)) s'
                  end) s →
  xlwp (xtry m) Q s.
Proof.
  unfold xlwp, xtry. intros H r s'. destruct (m s) as [[[a|e] t]|] eqn:Hm; [| |done].
  - intros [= <- <-]. by apply (H _ _ eq_refl).
  - destruct (H _ _ eq_refl) as [H1 H2]. destruct (derives_from e fc_exception); intros [= <- <-]; auto.
Qed.

(** An invariant that also holds when an iteration throws. *)
Lemma xlwp_for_each {A} (l : list A) (body : A → X S unit) (I : S → Prop) s :
  (∀ a s, I s → xlwp (body a) (λ _, I) s) → I s → xlwp (xfor_each l body) (λ _, I) s.
Proof.
  intros Hb. revert s. induction l as [|a l IH]; intros s Hs; cbn; [by apply xlwp_ret|]. apply xlwp_bind.
  eapply xlwp_mono; [by apply Hb|]. cbn. intros [[]|e] s' Hs'; [by apply IH|done].
Qed.
End keeping_liberal.

Ltac xlwp_step :=
  match goal with
  | |- xlwp (_ ≫= _) _ _ => apply xlwp_bind
  | |- xlwp (mret _) _ _ => apply xlwp_ret
  | |- xlwp xget _ _ => apply xlwp_get
  | |- xlwp (xmodify _) _ _ => apply xlwp_modify
  | |- xlwp (xasserts _ _) _ _ => apply xlwp_asserts; intros ?
  | |- xlwp (xlift _) _ _ => apply xlwp_lift
  | |- xlwp (xderef _) _ _ => apply xlwp_deref; intros ? ?
  | |- xlwp (xcatch _ _) _ _ => apply xlwp_catch
  | |- xlwp (xcatch_all _ _) _ _ => apply xlwp_catch_all
  | |- xlwp (xtry _) _ _ => apply xlwp_try
  end.

Ltac xwp_step :=
  match goal with
  | |- xwp (_ ≫= _) _ _ => apply xwp_bind
  | |- xwp (mret _) _ _ => apply xwp_ret
  | |- xwp xget _ _ => apply xwp_get
  | |- xwp (xmodify _) _ _ => apply xwp_modify
  | |- xwp (xlift _) _ _ => apply xwp_lift
  | |- xwp (xcatch _ _) _ _ => apply xwp_catch
  | |- xwp (xcatch_all _ _) _ _ => apply xwp_catch_all
  | |- xwp (xtry _) _ _ => apply xwp_try
  end.
