(* ===== verification/Controller.v ===== *)
(** * The controller: applying blocks and switching forks (controller.cpp)

    The controller keeps the chain database in step with the head block: it
    applies a block that extends the head, and when the fork database prefers
    another fork it undoes the blocks of the current one and applies those of
    the other, or returns to the current one if a block turns out to be invalid.

    A pointer to a block state is the state; the state of the fork database
    with the same id is the object it points to.  The undo stack of chainbase
    is the list of the contents that [undo] returns to, latest first.  The
    execution of the transactions of a block is an interface.  A node in
    irreversible read mode, which applies blocks from within the pruning of the
    fork database, is not modelled; in the other modes the handlers of
    irreversible blocks do not touch the fork database and run after it. *)

From S2P Require Import Prelude Exceptions Config Merkle Database BlockHeaderState ForkDatabase ErrorState.

Inductive block_status : Set := irreversible | validated | complete | incomplete.
#[export] Instance block_status_eq_dec : EqDecision block_status.
Proof. solve_decision. Defined.

Inductive db_read_mode : Set := SPECULATIVE | HEAD | READ_ONLY.
#[export] Instance db_read_mode_eq_dec : EqDecision db_read_mode.
Proof. solve_decision. Defined.

(** The part of [controller::config] that the code reads. *)
Record controller_config : Type := ControllerConfig {
  read_mode : db_read_mode;
  force_all_checks : bool;
  disable_replay_opts : bool;
  trusted_producers : gset Z }.

Section controller.
Context {K Sig B T D : Type}.
Context {rules : @header_rules K Sig} {container : multi_index}.

Abbreviation header_state := (@block_header_state K Sig).
Abbreviation block_state := (@ForkDatabase.block_state K Sig B).
Abbreviation bs_id b := (bhs_id (bs_header_state b)).
Abbreviation bs_num b := (bhs_block_num (bs_header_state b)).

(** What the controller needs of blocks and of their execution.  [run_block] is
    the part of [apply_block] between the start of the undo session and the
    comparison of the ids: the rest of [start_block], the transactions of the
    block and [finalize_block].  It is given the status of the block, whether
    the producer is trusted, the state of the previous block and the contents
    of the database; it returns the new contents, the transactions it applied
    by their signed ids and the signed ids it erased from the unapplied
    transactions, and the pending block state or an exception. *)
Class block_execution := {
  header_of : B → @signed_block_header K Sig;
  block_num_of : B → Z;
  set_block_header : B → @signed_block_header K Sig → B;
  has_extensions : B → bool;
  run_block : block_status → bool → header_state → B → D →
    option (D * (list (digest_type * T) * list digest_type) * res block_state);
  run_block_num st light h b d d' trxs p :
    run_block st light h b d = Some (d', trxs, Ok p) → bs_num p = u32 (bhs_block_num h + 1) ∧ is_Some (bs_block p);
  run_block_throws st light h b d d' trxs e :
    run_block st light h b d = Some (d', trxs, Throw e) → derives_from e fc_exception = true }.

Context {execution : block_execution}.

(** ** State *)

(** [pending_state]; the block state is there once it is finalized. *)
Record pending_state : Type := Pending {
  p_session : bool;                           (* maybe_session *)
  p_state : option block_state;
  p_trxs : list (digest_type * T) }.

Record controller_state : Type := ControllerState {
  c_head : block_state;
  c_fork : @fork_database K Sig B;
  c_db : D;
  c_undo : list D;
  c_revision : Z;
  c_reversible : gmap Z B;                    (* reversible_blocks, by number *)
  c_pending : option pending_state;
  c_trxs : gmap digest_type (list (digest_type * T));  (* block_state::trxs, by block *)
  c_unapplied : gmap digest_type T;           (* unapplied_transactions *)
  c_light : bool;                             (* trusted_producer_light_validation *)
  c_log : list B }.                           (* the block log *)

Variable conf : controller_config.
Variable replaying : bool.
(** The number of the first block of the block log. *)
Variable first_block_num : Z.

Definition put_head (h : block_state) (s : controller_state) : controller_state :=
  ControllerState h (c_fork s) (c_db s) (c_undo s) (c_revision s) (c_reversible s) (c_pending s) (c_trxs s)
    (c_unapplied s) (c_light s) (c_log s).
Definition put_fork (f : fork_database) (s : controller_state) : controller_state :=
  ControllerState (c_head s) f (c_db s) (c_undo s) (c_revision s) (c_reversible s) (c_pending s) (c_trxs s)
    (c_unapplied s) (c_light s) (c_log s).
Definition put_database (d : D) (u : list D) (rev : Z) (s : controller_state) : controller_state :=
  ControllerState (c_head s) (c_fork s) d u rev (c_reversible s) (c_pending s) (c_trxs s)
    (c_unapplied s) (c_light s) (c_log s).
Definition put_reversible (r : gmap Z B) (s : controller_state) : controller_state :=
  ControllerState (c_head s) (c_fork s) (c_db s) (c_undo s) (c_revision s) r (c_pending s) (c_trxs s)
    (c_unapplied s) (c_light s) (c_log s).
Definition put_pending (p : option pending_state) (s : controller_state) : controller_state :=
  ControllerState (c_head s) (c_fork s) (c_db s) (c_undo s) (c_revision s) (c_reversible s) p (c_trxs s)
    (c_unapplied s) (c_light s) (c_log s).
Definition put_trxs (t : gmap digest_type (list (digest_type * T))) (s : controller_state) : controller_state :=
  ControllerState (c_head s) (c_fork s) (c_db s) (c_undo s) (c_revision s) (c_reversible s) (c_pending s) t
    (c_unapplied s) (c_light s) (c_log s).
Definition put_unapplied (u : gmap digest_type T) (s : controller_state) : controller_state :=
  ControllerState (c_head s) (c_fork s) (c_db s) (c_undo s) (c_revision s) (c_reversible s) (c_pending s) (c_trxs s)
    u (c_light s) (c_log s).
Definition put_light (l : bool) (s : controller_state) : controller_state :=
  ControllerState (c_head s) (c_fork s) (c_db s) (c_undo s) (c_revision s) (c_reversible s) (c_pending s) (c_trxs s)
    (c_unapplied s) l (c_log s).
Definition put_log (l : list B) (s : controller_state) : controller_state :=
  ControllerState (c_head s) (c_fork s) (c_db s) (c_undo s) (c_revision s) (c_reversible s) (c_pending s) (c_trxs s)
    (c_unapplied s) (c_light s) l.

Abbreviation MC := (X controller_state).

(** The object that a pointer to a block state refers to. *)
Definition object (s : controller_state) (b : block_state) : block_state :=
  default b (get_block (c_fork s) (bs_id b)).

(** ** Undo sessions *)

(** [database::undo], which does nothing without a session. *)
Definition undo (s : controller_state) : controller_state :=
  match c_undo s with
  | d :: u => put_database d u (c_revision s - 1) s
  | [] => s
  end.

Definition start_session (s : controller_state) : controller_state :=
  put_database (c_db s) (c_db s :: c_undo s) (c_revision s + 1) s.

(** [database::commit]: the sessions up to a revision can no longer be undone. *)
Definition commit (revision : Z) (s : controller_state) : controller_state :=
  put_database (c_db s) (take (Z.to_nat (c_revision s - revision)) (c_undo s)) (c_revision s) s.

(** [pending.reset()]: the session is undone unless it was pushed. *)
Definition reset_pending (s : controller_state) : controller_state :=
  match c_pending s with
  | Some p => put_pending None (if p_session p then undo s else s)
  | None => s
  end.

Definition keep_unapplied (trxs : list (digest_type * T)) (s : controller_state) : controller_state :=
  put_unapplied (list_to_map (reverse trxs) ∪ c_unapplied s) s.

Definition erase_unapplied (ids : list digest_type) (s : controller_state) : controller_state :=
  put_unapplied (foldr delete (c_unapplied s) ids) s.

Definition is_speculative : bool := bool_decide (read_mode conf = SPECULATIVE).

Definition abort_block (s : controller_state) : controller_state :=
  match c_pending s with
  | Some p => reset_pending (if is_speculative then keep_unapplied (p_trxs p) s else s)
  | None => s
  end.

(** ** Irreversible blocks *)

(** The checks on the block log: whether the block is to be appended. *)
Definition check_log (log : list B) (b : block_state) : option (res bool) :=
  match last log, bs_block b with
  | None, Some _ => Some (EOS_ASSERT (bs_num b =? first_block_num) block_log_exception;; mret true)
  | None, None => Some (EOS_ASSERT (bs_num b =? u32 (first_block_num - 1)) block_log_exception;; mret false)
  | Some log_head, block =>
      if bs_num b >? block_num_of log_head then
        if u32 (bs_num b - 1) =? block_num_of log_head then
          block ← block;
          Some (EOS_ASSERT (bool_decide (previous (header_of block) = rule_id (header_of log_head)))
                  unlinkable_block_exception;; mret true)
        else Some (EOS_THROW unlinkable_block_exception)
      else Some (mret false)
  end.

Definition on_irreversible (b : block_state) : MC unit :=
  s ← xget;
  checked ← xderef (check_log (c_log s) b);
  append_to_blog ← xlift checked;
  xmodify (commit (bs_num b));;
  (if (append_to_blog : bool)
   then block ← xderef (bs_block b); xmodify (λ s, put_log (c_log s ++ [block]) s)
   else mret tt);;
  xmodify (λ s, put_reversible (filter (λ '(n, _), n > bs_num b) (c_reversible s)) s).

(** An operation of the fork database, and the handlers of the blocks that it
    has announced as irreversible. *)
Definition fork_operation (f : fork_database → option (fork_database * res unit)) : MC unit :=
  s ← xget;
  '(fork, r) ← xderef (f (c_fork s));
  xmodify (put_fork fork);;
  xfor_each (drop (length (fdb_irreversible (c_fork s))) (fdb_irreversible fork)) on_irreversible;;
  xlift r.

Definition mark (b : block_state) (in_current_chain : bool) : MC unit :=
  fork_operation (λ f, Some (mark_in_current_chain f (bs_id b)
    (bs_in_current_chain (default b (get_block f (bs_id b)))) in_current_chain)).

Definition set_valid (b : block_state) (valid : bool) : MC unit :=
  fork_operation (λ f, (λ f, (f, Ok tt)) <$> set_validity f (bs_id b) valid).

(** ** Blocks *)

Definition pop_block : MC unit :=
  s ← xget;
  let head := c_head s in
  prev ← xlift (match get_block (c_fork s) (prev head) with
                | Some p => Ok p
                | None => EOS_THROW block_validate_exception
                end);
  xmodify (λ s, put_reversible (delete (bs_num head) (c_reversible s)) s);;
  (if is_speculative then
     xasserts (bool_decide (is_Some (bs_block head))) block_validate_exception;;
     xmodify (keep_unapplied (default [] (c_trxs s !! bs_id head)))
   else mret tt);;
  xmodify (put_head prev);;
  xmodify undo.

Definition skip_db_sessions (st : block_status) : bool :=
  bool_decide (st = irreversible) && negb (disable_replay_opts conf).

(** [start_block] up to its undo session. *)
Definition start_block (st : block_status) : MC unit :=
  s ← xget;
  xasserts (bool_decide (c_pending s = None)) block_validate_exception;;
  if negb (skip_db_sessions st) then
    xasserts (c_revision s =? bs_num (c_head s)) database_exception;;
    xmodify (λ s, put_pending (Some (Pending true None [])) (start_session s))
  else xmodify (put_pending (Some (Pending false None []))).

Definition create_reversible (num : Z) (block : option B) : MC unit :=
  s ← xget;
  block ← xderef block;
  r ← xlift (db_create (c_reversible s) num block);
  xmodify (put_reversible r).

Definition commit_block (add_to_fork_db : bool) : MC unit :=
  s ← xget;
  p ← xderef (c_pending s);
  b ← xderef (p_state p);
  xcatch_all
    ((if add_to_fork_db then
        let b := BlockState b (bs_block b) true (bs_in_current_chain b) in
        fork_operation (λ f, add_state f b);;
        xmodify (λ s, put_trxs (<[bs_id b := p_trxs p]> (c_trxs s)) s);;
        s ← xget;
        h ← xderef (head_block (c_fork s));
        xmodify (put_head h);;
        xasserts (bool_decide (bs_id h = bs_id b)) fork_database_exception
      else mret tt);;
     if replaying then mret tt else create_reversible (bs_num b) (bs_block b))
    (λ e, xmodify abort_block;; xlift (Throw e));;
  xmodify (put_pending None).

(** The signature of the producer is taken over into the pending block. *)
Definition fill_signature (p : block_state) (b : B) : block_state :=
  let h := SignedBlockHeader (bhs_header p) (producer_signature (header_of b)) in
  BlockState (with_header p h) ((λ x, set_block_header x h) <$> bs_block p) (bs_validated p) (bs_in_current_chain p).

(** [FC_CAPTURE_AND_RETHROW] turns standard exceptions into [fc::exception]s. *)
Definition fc_rethrow (e : exception) : exception := if derives_from e fc_exception then e else fc_exception.

Lemma fc_rethrow_fc e : derives_from (fc_rethrow e) fc_exception = true.
Proof. unfold fc_rethrow. destruct (derives_from e fc_exception) eqn:He; [done|by vm_compute]. Qed.

Definition apply_block (b : B) (st : block_status) : MC unit :=
  xcatch_all
    (xcatch
       (xasserts (negb (has_extensions b)) block_validate_exception;;
        start_block st;;
        s ← xget;
        '(d, trxs, r) ← xderef (run_block st (c_light s) (object s (c_head s)) b (c_db s));
        xmodify (λ s, put_database d (c_undo s) (c_revision s) s);;
        xmodify (erase_unapplied trxs.2);;
        xmodify (λ s, put_pending ((λ p, Pending (p_session p) (p_state p) trxs.1) <$> c_pending s) s);;
        p ← xlift r;
        xasserts (bool_decide (rule_id (header_of b) = rule_id (bhs_header p))) block_validate_exception;;
        xmodify (λ s, put_pending
          ((λ q, Pending (p_session q) (Some (fill_signature p b)) (p_trxs q)) <$> c_pending s) s);;
        commit_block false)
       (λ e, xmodify abort_block;; xlift (Throw e)))
    (λ e, xlift (Throw (fc_rethrow e))).

(** ** Switching forks *)

Definition pop_branch (l : list block_state) : MC unit := xfor_each l (λ b, mark b false;; pop_block).

(** The head is the block that both branches build on. *)
Definition check_parent (second : list block_state) : MC unit :=
  s ← xget;
  b ← xderef (last second);
  xasserts (bool_decide (bs_id (c_head s) = prev b)) fork_database_exception.

(** Applies a block of a branch and makes it the head. *)
Definition apply_head (b : block_state) (st : block_status) : MC unit :=
  block ← xderef (bs_block b);
  apply_block block st;;
  xmodify (put_head b);;
  mark b true.

Definition reapply (b : block_state) : MC unit := apply_head b validated.

Definition apply_new (b : block_state) : MC unit :=
  s ← xget;
  apply_head b (if bs_validated (object s b) then validated else complete);;
  xmodify (λ s, put_fork (fdb_write (c_fork s) (bs_id b)
                            (λ h, BlockState h (bs_block h) true (bs_in_current_chain h))) s).

(** The new branch, oldest block first; [applied] are the blocks that were
    applied, latest first. *)
Fixpoint apply_branch (second applied todo : list block_state) : MC unit :=
  match todo with
  | [] => mret tt
  | b :: todo =>
      r ← xtry (apply_new b);
      match r with
      | Ok _ => apply_branch second (b :: applied) todo
      | Throw e =>
          set_valid b false;;
          pop_branch applied;;
          check_parent second;;
          xfor_each (reverse second) reapply;;
          xlift (Throw e)
      end
  end.

Definition maybe_switch_forks (st : block_status) : MC unit :=
  s ← xget;
  new_head ← xderef (head_block (c_fork s));
  if bool_decide (prev new_head = bs_id (c_head s)) then
    xcatch
      (block ← xderef (bs_block new_head);
       apply_block block st;;
       mark new_head true;;
       set_valid new_head true;;
       xmodify (put_head new_head))
      (λ e, set_valid new_head false;; xlift (Throw e))
  else if bool_decide (bs_id new_head ≠ bs_id (c_head s)) then
    '(first, second) ← xderef (fetch_branch_from (c_fork s) (bs_id new_head) (bs_id (c_head s)));
    pop_branch second;;
    check_parent second;;
    apply_branch second [] (reverse first)
  else mret tt.

(** ** What is pushed *)

Definition push_block (b : B) (st : block_status) : MC unit :=
  s ← xget;
  xasserts (bool_decide (c_pending s = None)) block_validate_exception;;
  let trust := negb (force_all_checks conf) && bool_decide (st = irreversible ∨ st = validated) in
  let restore s' := put_light (c_light s) s' in
  xcatch_all
    (xasserts (bool_decide (st ≠ incomplete)) block_validate_exception;;
     fork_operation (λ f, add_block header_of f b trust);;
     (if bool_decide (producer (header_of b) ∈ trusted_producers conf) then xmodify (put_light true) else mret tt);;
     maybe_switch_forks st)
    (λ e, xmodify restore;; xlift (Throw (fc_rethrow e)));;
  xmodify restore.

Definition push_confirmation (c : header_confirmation) : MC unit :=
  s ← xget;
  xasserts (bool_decide (c_pending s = None)) block_validate_exception;;
  fork_operation (λ f, add_header_confirmation f c);;
  maybe_switch_forks complete.
End controller.
