(* ===== verification/ControllerTheorems.v ===== *)
(** * The chain database follows the head block

    Whatever blocks and confirmations are pushed, in whatever order, valid or
    not, the database always is what executing the blocks of the chain of the
    head gives, and every block that can be popped can be undone. *)

From S2P Require Import Prelude Exceptions Config Merkle Database BlockHeaderState ForkDatabase ForkFacts ErrorState Controller.

Section chain.
Context {K Sig B T D : Type}.
Context {rules : @header_rules K Sig} {container : multi_index}.
Context {execution : @block_execution K Sig B T D}.
Abbreviation block_state := (@ForkDatabase.block_state K Sig B).
Abbreviation fork_database := (@ForkDatabase.fork_database K Sig B).
Abbreviation controller_state := (@Controller.controller_state K Sig B T D).
Abbreviation bs_id b := (bhs_id (bs_header_state b)).
Abbreviation bs_num b := (bhs_block_num (bs_header_state b)).
Implicit Types (f : fork_database) (b p : block_state) (d : D) (u : list D) (s : controller_state).

Variable conf : controller_config.
Variable replaying : bool.
Variable first_block_num : Z.
(** The block and the contents of the database that the controller starts with. *)
Variable b0 : block_state.
Variable d0 : D.

(** ** The invariant *)

(** A block was executed on top of the block [i]. *)
Definition executed (i : digest_type) (blk : B) (d d' : D) : Prop :=
  has_extensions blk = false ∧ ∃ st light h trxs q,
    bhs_id h = i ∧ run_block st light h blk d = Some (d', trxs, Ok q) ∧
    rule_id (header_of blk) = rule_id (bhs_header q).

(** Executing the blocks from [b0] to [b] takes the database from [d0] to [d]. *)
Inductive reached : block_state → D → Prop :=
  | reached_start b : same_block b0 b → reached b d0
  | reached_block b p blk d d' :
      reached p d → bs_id p = prev b → bs_block b = Some blk → executed (prev b) blk d d' → reached b d'.

(** The database of a block, with what undoing its blocks one after the other
    gives, as far as the parents are in the fork database. *)
Inductive applied f : block_state → D → list D → Prop :=
  | applied_base b d u : reached b d → get_block f (prev b) = None → applied f b d u
  | applied_block b p blk d d' u :
      applied f p d u → get_block f (prev b) = Some p → bs_id p = prev b → bs_num b = bs_num p + 1 →
      bs_block b = Some blk → executed (prev b) blk d d' → applied f b d' (d :: u).

Definition block_ok b : Prop := 0 <= bs_num b < 2 ^ 32 - 1.

Record fork_ok f : Prop := {
  fo_wf : fdb_wf f;
  fo_linked : linked f;
  fo_block x b : get_block f x = Some b → block_ok b }.

(** What the fork database knows of the head. *)
Record head_ok f (h : block_state) : Prop := {
  ho_block : block_ok h;
  ho_same b : get_block f (bs_id h) = Some b → same_block b h;
  ho_link p : get_block f (prev h) = Some p → bs_num h = bs_num p + 1;
  ho_child x b : get_block f x = Some b → prev b = bs_id h → bs_num b = bs_num h + 1 }.

Record consistent s : Prop := {
  co_pending : c_pending s = None;
  co_fork : fork_ok (c_fork s);
  co_head : head_ok (c_fork s) (c_head s);
  co_revision : c_revision s = bs_num (c_head s);
  co_applied : applied (c_fork s) (c_head s) (c_db s) (c_undo s);
  co_reversible n : is_Some (c_reversible s !! n) → n <= bs_num (c_head s) }.

(** ** Blocks and their parents *)

Lemma reached_same b b' d : same_block b b' → reached b d → reached b' d.
Proof.
  intros Hs H. destruct H as [b H|b p blk d d' H Hp Hb He].
  - apply reached_start. by etrans.
  - pose proof (same_block_prev _ _ Hs) as Hp'. destruct Hs as (_ & _ & _ & Hb').
    apply (reached_block b' p blk d d'); [done|congruence|congruence|by rewrite <- Hp'].
Qed.

Lemma applied_reached f b d u : applied f b d u → reached b d.
Proof. induction 1; [done|by eapply reached_block]. Qed.

Lemma applied_same f b b' d u : same_block b b' → applied f b d u → applied f b' d u.
Proof.
  intros Hs H. pose proof (same_block_prev _ _ Hs) as Hp'. destruct H as [b d u H Hn|b p blk d d' u H Hp Hi Hn Hb He].
  - apply applied_base; [by eapply reached_same|congruence].
  - destruct Hs as (_ & Hn' & _ & Hb').
    apply (applied_block f b' p blk d d' u); [done|by rewrite <- Hp'|congruence..|by rewrite <- Hp'].
Qed.

(** Blocks may disappear, and their states may change. *)
Lemma applied_mono f f' b d u :
  (∀ x p', get_block f' x = Some p' → ∃ p, get_block f x = Some p ∧ same_block p p') →
  applied f b d u → applied f' b d u.
Proof.
  intros Hs. induction 1 as [b d u H Hn|b p blk d d' u H IH Hp Hi Hn Hb He].
  - apply applied_base; [done|]. destruct (get_block f' (prev b)) eqn:Hp; [|done].
    apply Hs in Hp as (? & Hp & _). congruence.
  - destruct (get_block f' (prev b)) as [p'|] eqn:Hp'.
    + apply Hs in Hp' as Hp''. destruct Hp'' as (? & Hp'' & Hsame). rewrite Hp in Hp''. injection Hp'' as <-.
      pose proof Hsame as (Hi' & Hn' & _ & _).
      apply (applied_block f' b p' blk d d' u); [by eapply applied_same|done|congruence|congruence|done|done].
    + apply applied_base; [|done]. eapply reached_block; [by eapply applied_reached|done..].
Qed.

Lemma applied_commit f b d u m :
  (∀ x p, get_block f x = Some p → m < bs_num p) → applied f b d u →
  applied f b d (take (Z.to_nat (bs_num b - m)) u).
Proof.
  intros Hm. induction 1 as [b d u H Hn|b p blk d d' u H IH Hp Hi Hn Hb He]; [by apply applied_base|].
  pose proof (Hm _ _ Hp). replace (Z.to_nat (bs_num b - m)) with (S (Z.to_nat (bs_num p - m))) by lia.
  cbn [take]. by eapply applied_block.
Qed.

(** ** Operations of the fork database *)

(** The fork database [f'] still supports the chain of [h]. *)
Record supports (h : block_state) f f' : Prop := {
  su_ok : fork_ok f';
  su_head : head_ok f' h;
  su_applied d u : applied f h d u → applied f' h d u }.

(** Every state of [f'] is one of [f], possibly changed. *)
Definition kept f f' : Prop := ∀ x b', get_block f' x = Some b' → ∃ b, get_block f x = Some b ∧ same_block b b'.

#[export] Instance kept_preorder : PreOrder kept.
Proof.
  split; [intros f x b Hb; exists b; by split|]. intros f g h H1 H2 x b (c & Hc & Hcb)%H2.
  apply H1 in Hc as (a & Ha & Hac). exists a. split; [done|by etrans].
Qed.

Lemma similar_kept f f' : similar f f' → kept f f'.
Proof. intros Hs x b' Hb'. by apply (similar_back f f'). Qed.

Lemma head_ok_kept f f' h : kept f f' → head_ok f h → head_ok f' h.
Proof.
  intros Hs [Hok Hsame Hlink Hchild]. split; [done|..].
  - intros b (b1 & Hb & Hbs)%Hs. etrans; [by symmetry|]. by apply Hsame.
  - intros p (p1 & Hp & (_ & Hn & _))%Hs. rewrite <- Hn. by apply Hlink.
  - intros x b (b1 & Hb & Hbs)%Hs Hp. rewrite <- (same_block_prev _ _ Hbs) in Hp.
    destruct Hbs as (_ & <- & _). by eapply Hchild.
Qed.

(** The blocks of the fork database can be the head. *)
Lemma head_ok_member f x b : fork_ok f → get_block f x = Some b → head_ok f b.
Proof.
  intros [Hwf Hlink Hok] Hb. pose proof (wf_ids f Hwf _ _ Hb) as Hx. split.
  - by eapply Hok.
  - intros b' Hb'. rewrite Hx, Hb in Hb'. by injection Hb' as <-.
  - intros p Hp. by eapply Hlink.
  - intros y c Hc Hp. eapply Hlink; [exact Hc|]. by rewrite Hp, Hx.
Qed.

Lemma supports_subset h f f' : fork_ok f → fdb_wf f' → head_ok f h → kept f f' → supports h f f'.
Proof.
  intros Hf Hwf Hh Hs. split.
  - split; [done|..].
    + intros i b p (b1 & Hb & Hbs)%Hs Hp. rewrite <- (same_block_prev _ _ Hbs) in Hp.
      apply Hs in Hp as (p1 & Hp & (_ & Hn & _)). destruct Hbs as (_ & Hn' & _).
      rewrite <- Hn, <- Hn'. by eapply (fo_linked f Hf).
    + intros x b (b1 & Hb & (_ & Hn & _))%Hs. unfold block_ok. rewrite <- Hn. by apply (fo_block f Hf x).
  - by eapply head_ok_kept.
  - intros d u. by apply applied_mono.
Qed.

Lemma supports_similar h f f' : fork_ok f → fdb_wf f' → head_ok f h → similar f f' → supports h f f'.
Proof.
  intros Hf Hwf Hh Hs. apply supports_subset; [done..|]. by apply similar_kept.
Qed.

Lemma supports_remove h f i f' : fork_ok f → head_ok f h → remove f i = Some f' → supports h f f'.
Proof.
  intros Hf Hh Hr. destruct (remove_trimmed f i f' (fo_wf f Hf) Hr) as (Ht & Hwf' & _).
  apply supports_subset; [done..|]. intros x b Hb. exists b. split; [by eapply tr_some|done].
Qed.

(** The block [i] is not the missing parent of the head or of a block of the
    fork database. *)
Definition fresh f (h : block_state) (i : digest_type) : Prop :=
  ∀ b, b = h ∨ (∃ x, get_block f x = Some b) → get_block f (prev b) = None → prev b ≠ i.

(** A block that the fork database does not have is not one it had before. *)
Definition unseen f (h : block_state) (i : digest_type) : Prop := get_block f i = None → i ≠ bs_id h ∧ fresh f h i.

Lemma applied_grow f f1 n h b d u :
  (∀ x, get_block f1 x = if decide (x = bs_id n) then Some n else get_block f x) →
  get_block f (bs_id n) = None → fresh f h (bs_id n) →
  b = h ∨ (∃ x, get_block f x = Some b) → applied f b d u → applied f1 b d u.
Proof.
  intros Hget Hnew Hfresh Hb H. revert Hb.
  induction H as [b d u H Hp|b p blk d d' u H IH Hp Hi Hn Hblk He]; intros Hb.
  - apply applied_base; [done|]. rewrite Hget, decide_False by by apply Hfresh. done.
  - apply (applied_block f1 b p blk d d' u); [by eauto| |done..]. rewrite Hget, decide_False; [done|]. congruence.
Qed.

(** A new block [n] on top of [prior], before anything is pruned. *)
Lemma supports_insert h f f1 n prior :
  fork_ok f → head_ok f h → fdb_wf f1 → block_ok n → get_block f (prev n) = Some prior →
  bs_num n = bs_num prior + 1 → get_block f (bs_id n) = None → bs_id n ≠ bs_id h ∨ same_block n h →
  fresh f h (bs_id n) →
  (∀ x, get_block f1 x = if decide (x = bs_id n) then Some n else get_block f x) → supports h f f1.
Proof.
  intros Hf [Hok Hsame Hlink Hchild] Hwf1 Hn Hprior Hnum Hnew Hnh Hfresh Hget.
  assert (Hpar : ∀ b p, b = h ∨ (∃ x, get_block f x = Some b) → get_block f1 (prev b) = Some p →
    get_block f (prev b) = Some p).
  { intros b p Hb. rewrite Hget. case_decide as He; [|done]. intros _.
    destruct (get_block f (prev b)) eqn:Hp; [congruence|]. by destruct (Hfresh b Hb Hp). }
  split.
  - split; [done|..].
    + intros i b p. rewrite Hget. case_decide.
      * intros [= <-]. rewrite Hget. case_decide; congruence.
      * intros Hb Hp%Hpar; [|eauto]. by eapply (fo_linked f Hf).
    + intros x b. rewrite Hget. case_decide; [by intros [= <-]|]. apply (fo_block f Hf).
  - split; [done|..].
    + intros b. rewrite Hget. case_decide; [|apply Hsame]. intros [= <-]. by destruct Hnh.
    + intros p Hp%Hpar; auto.
    + intros x b. rewrite Hget. case_decide; [|apply Hchild]. intros [= <-] Hp. rewrite Hp in Hprior.
      destruct (Hsame _ Hprior) as (_ & <- & _). done.
  - intros d u H. eapply (applied_grow f f1 n); [done..| |exact H]. auto.
Qed.

Lemma supports_trans h f g f' : supports h f g → supports h g f' → supports h f f'.
Proof. intros [_ _ H1] [? ? H2]. split; auto. Qed.

(** The blocks that are announced are below everything that is left. *)
Definition announced f f' : Prop :=
  ∀ o, o ∈ drop (length (fdb_irreversible f)) (fdb_irreversible f') →
    ∀ x y, get_block f' x = Some y → bs_num o < bs_num y.

Lemma announced_none f f' : fdb_irreversible f' = fdb_irreversible f → announced f f'.
Proof. intros H o. rewrite H, drop_all. by intros ?%not_elem_of_nil. Qed.

Lemma supports_add h f n prior f' r :
  fork_ok f → head_ok f h → block_ok n → get_block f (prev n) = Some prior →
  bs_num n = bs_num prior + 1 → bs_id n ≠ bs_id h ∨ same_block n h → fresh f h (bs_id n) →
  add_state f n = Some (f', r) → supports h f f' ∧ announced f f'.
Proof.
  intros Hf Hh Hn Hprior Hnum Hnh Hfresh Ha. pose proof (add_state_wf _ _ _ _ (fo_wf f Hf) Ha) as Hwf'.
  destruct (add_state_cases f n f' r (fo_wf f Hf) Ha) as [[-> _]|(f1 & _ & Hnew & Hget & Hc)].
  { split; [by apply supports_similar; [..|reflexivity]|by apply announced_none]. }
  destruct (fdb_insert f n) as [g ins] eqn:Hins.
  assert (ins = true) as ->.
  { unfold fdb_insert in Hins. unfold get_block in Hnew. rewrite Hnew in Hins. by injection Hins. }
  destruct (insert_get _ _ _ Hins) as (_ & _ & Hg).
  pose proof (fdb_insert_wf _ _ _ (fo_wf f Hf) Hins) as Hwfg.
  assert (Hsg : supports h f g) by by eapply supports_insert.
  assert (Hsub : (∀ x b, get_block f' x = Some b → get_block f1 x = Some b) → supports h f f').
  { intros Hsub. eapply supports_trans; [exact Hsg|]. apply supports_subset; [apply Hsg|done|apply Hsg|].
    intros x b Hb%Hsub. exists b. by rewrite Hg, <- Hget. }
  destruct Hc as [[Hirr Hx]|(o & _ & _ & Hirr & Hx)].
  - split; [|by apply announced_none]. apply Hsub. intros x b. by rewrite Hx.
  - split; [apply Hsub; intros x b Hb; by apply Hx|]. intros o' Ho' x y Hy.
    rewrite Hirr, drop_app_length in Ho'. apply list_elem_of_singleton in Ho' as ->. by apply Hx in Hy as (_ & ? & _).
Qed.

(** Blocks that are pushed: the number of a state follows that of its parent. *)
Lemma supports_add_block h f (b : B) trust f' r :
  fork_ok f → head_ok f h → (∀ x y, get_block f x = Some y → bs_num y < 2 ^ 32 - 2) →
  unseen f h (rule_id (header_of b)) →
  add_block header_of f b trust = Some (f', r) → supports h f f' ∧ announced f f'.
Proof.
  intros Hf Hh Hroom Hnew Ha.
  destruct (add_block_cases _ _ _ _ _ _ Ha) as [[-> _]|(prior & st & Hp & [Hne Hfresh]%Hnew & Hnext & Hadd)].
  { split; [apply supports_similar; [done|apply Hf|done|reflexivity]|by apply announced_none]. }
  destruct (rule_next_Ok _ _ _ _ Hnext) as (Hh' & Hi & Hprev & Hnum).
  pose proof (fo_block f Hf _ _ Hp) as Hpok. pose proof (Hroom _ _ Hp) as Hpr. unfold block_ok in Hpok.
  assert (Hnum' : bhs_block_num st = bs_num prior + 1).
  { rewrite Hnum. apply wrap_id. unfold is_unsigned. lia. }
  eapply (supports_add h f (BlockState st (Some b) false false) prior); try done; cbn.
  - unfold block_ok. cbn. lia.
  - unfold prev. cbn. by rewrite Hh'.
  - left. by rewrite Hi.
  - by rewrite Hi.
Qed.

(** ** Steps of the controller *)

Lemma consistent_put_fork s f' : consistent s → supports (c_head s) (c_fork s) f' → consistent (put_fork f' s).
Proof. intros [] []. by split; auto. Qed.

Lemma on_irreversible_consistent o s :
  consistent s → (∀ x y, get_block (c_fork s) x = Some y → bs_num o < bs_num y) →
  xlwp (on_irreversible first_block_num o) (λ _ s', consistent s' ∧ c_fork s' = c_fork s) s.
Proof.
  intros Hs Hlow. unfold on_irreversible. repeat (xlwp_step; cbv beta).
  match goal with |- match ?r with Ok _ => _ | Throw _ => _ end => destruct r; [|done] end.
  xlwp_step. xlwp_step.
  assert (H1 : consistent (commit (bs_num o) s)).
  { destruct Hs. split; try done. cbn. rewrite co_revision0. by apply applied_commit. }
  clear Hs. xlwp_step.
  apply (xlwp_mono _ (λ r s', consistent s' ∧ c_fork s' = c_fork s)).
  { case_match; [|by apply xlwp_ret]. repeat (xlwp_step; cbv beta). split; [|done]. by destruct H1. }
  intros [[]|e] s' [Hs' Hf]; [|done]. xlwp_step. split; [|done]. destruct Hs'. split; try done. cbn.
  intros n Hn. apply co_reversible0. destruct Hn as [x Hx]. apply map_lookup_filter_Some in Hx as [Hx _]. by eexists.
Qed.

Lemma fork_operation_consistent op s :
  consistent s →
  (∀ f' r, op (c_fork s) = Some (f', r) → supports (c_head s) (c_fork s) f' ∧ announced (c_fork s) f') →
  xlwp (fork_operation first_block_num op) (λ _, consistent) s.
Proof.
  intros Hs Hop. unfold fork_operation. repeat (xlwp_step; cbv beta). destruct a as [f' r].
  destruct (Hop f' r) as [Hsup Hann]; [done|]. repeat (xlwp_step; cbv beta).
  apply (xlwp_mono _ (λ _ s', consistent s' ∧ c_fork s' = f')).
  - assert (H0 : consistent (put_fork f' s) ∧ c_fork (put_fork f' s) = f') by by split; [apply consistent_put_fork|].
    revert H0. generalize (put_fork f' s). unfold announced in Hann. revert Hann.
    generalize (drop (length (fdb_irreversible (c_fork s))) (fdb_irreversible f')) as l.
    induction l as [|o l IH]; intros Hann t [Ht Hf]; cbn; [by apply xlwp_ret|].
    apply xlwp_bind. eapply xlwp_mono; [apply on_irreversible_consistent; [done|]|].
    { rewrite Hf. apply Hann, list_elem_of_here. }
    cbn. intros [[]|e] t' [Ht' Hf']; [|split; [done|congruence]]. apply IH; [|split; [done|congruence]].
    intros o' Ho'. by apply Hann, list_elem_of_further.
  - intros [[]|e] t [Ht _]; [|done]. by xlwp_step.
Qed.

(** Operations that announce nothing. *)
Lemma fork_operation_quiet op s f' r :
  op (c_fork s) = Some (f', r) → fdb_irreversible f' = fdb_irreversible (c_fork s) →
  fork_operation first_block_num op s = Some (r, put_fork f' s).
Proof.
  intros Hop Hirr. unfold fork_operation, mbind, X_bind, xget, xderef. rewrite Hop. cbn. rewrite Hirr, drop_all. done.
Qed.

Lemma mark_run b flag s :
  fdb_wf (c_fork s) → ∃ f' r, mark first_block_num b flag s = Some (r, put_fork f' s) ∧
    fdb_wf f' ∧ similar (c_fork s) f' ∧ (is_Some (get_block (c_fork s) (bs_id b)) → r = Ok tt).
Proof.
  intros Hs. destruct (mark_in_current_chain (c_fork s) (bs_id b)
    (bs_in_current_chain (default b (get_block (c_fork s) (bs_id b)))) flag) as [f' r] eqn:Hm.
  destruct (mark_similar _ _ _ _ _ _ Hm) as (Hsim & Hirr & _ & Hr). exists f', r. split_and!; try done.
  - apply fork_operation_quiet; [|done]. by rewrite Hm.
  - by eapply mark_in_current_chain_wf.
Qed.

Lemma set_valid_true b s :
  fdb_wf (c_fork s) → ∃ f', set_valid first_block_num b true s = Some (Ok tt, put_fork f' s) ∧
    fdb_wf f' ∧ similar (c_fork s) f'.
Proof.
  intros Hs. eexists. assert (Hsim : similar (c_fork s) (fdb_write (c_fork s) (bs_id b)
    (λ h, BlockState h (bs_block h) true (bs_in_current_chain h)))) by apply write_similar.
  split_and!; [by apply fork_operation_quiet| |done]. by apply fdb_write_wf.
Qed.

Lemma set_valid_false_run b s r s' :
  consistent s → set_valid first_block_num b false s = Some (r, s') →
  r = Ok tt ∧ ∃ f', s' = put_fork f' s ∧ remove (c_fork s) (bs_id b) = Some f' ∧ supports (c_head s) (c_fork s) f'.
Proof.
  intros Hs. destruct (remove (c_fork s) (bs_id b)) as [f'|] eqn:Hr.
  - unfold set_valid. rewrite (fork_operation_quiet _ _ f' (Ok tt)); [|by cbn -[remove]; rewrite Hr|].
    + intros [= <- <-]. split; [done|]. exists f'. split_and!; try done. eapply supports_remove; [apply Hs..|done].
    + by apply remove_trimmed in Hr as (_ & _ & ?); [|apply Hs].
  - unfold set_valid, fork_operation, mbind, X_bind, xget, xderef, set_validity. cbn -[remove]. by rewrite Hr.
Qed.

Lemma pop_block_run s :
  consistent s →
  xlwp (pop_block conf)
    (λ r s', consistent s' ∧ c_fork s' = c_fork s ∧ c_light s' = c_light s ∧
       match r with
       | Ok _ => get_block (c_fork s) (prev (c_head s)) = Some (c_head s') ∧
                 bs_num (c_head s) = bs_num (c_head s') + 1 ∧ c_undo s = c_db s' :: c_undo s'
       | Throw _ => c_head s' = c_head s ∧ c_db s' = c_db s ∧ c_undo s' = c_undo s
       end) s.
Proof.
  intros Hs. unfold pop_block. repeat (xlwp_step; cbv beta).
  destruct (get_block (c_fork s) (prev (c_head s))) as [p|] eqn:Hp; [|done]. repeat (xlwp_step; cbv beta).
  set (s1 := put_reversible _ s).
  assert (H1 : consistent s1 ∧ ∀ n, is_Some (c_reversible s1 !! n) → n < bs_num (c_head s)).
  { destruct Hs. subst s1. split; [split; try done|]; cbn; intros n Hn.
    - apply co_reversible0. destruct (decide (n = bs_num (c_head s))) as [->|Hne];
        [rewrite lookup_delete_eq in Hn; by destruct Hn|]. by rewrite lookup_delete_ne in Hn.
    - destruct (decide (n = bs_num (c_head s))) as [->|Hne]; [rewrite lookup_delete_eq in Hn; by destruct Hn|].
      rewrite lookup_delete_ne in Hn by done. apply co_reversible0 in Hn. lia. }
  destruct H1 as [H1 Hrev].
  apply (xlwp_mono _ (λ r t, ∃ m, t = put_unapplied m s1)).
  { destruct (is_speculative conf); repeat (xlwp_step; cbv beta); [by eexists..|].
    by exists (c_unapplied s1); destruct s1. }
  intros [[]|e] t [m ->]; [|by destruct H1]. repeat (xlwp_step; cbv beta).
  destruct H1. subst s1. cbn in *. pose proof (ho_link _ _ co_head0 _ Hp) as Hn.
  inversion co_applied0 as [b d u Hr Hnone Heq1 Heq2 Heq3|b p' blk d d' u Ha Hp' Hi _ _ _ Heq1 Heq2 Heq3]; [congruence|].
  assert (p' = p) as -> by congruence. unfold undo. cbn. rewrite <- Heq3. cbn.
  split_and!; try done. split; cbn; try done.
  - by eapply head_ok_member.
  - lia.
  - intros n Hnn. apply Hrev in Hnn. lia.
Qed.

(** The state is as before, apart from the transactions kept for later. *)
Definition restored s s' : Prop := ∃ m, s' = put_unapplied m s.

(** A block was executed and its session kept. *)
Record advanced s s' (d' : D) : Prop := {
  ad_pending : c_pending s' = None;
  ad_head : c_head s' = c_head s;
  ad_fork : c_fork s' = c_fork s;
  ad_db : c_db s' = d';
  ad_undo : c_undo s' = c_db s :: c_undo s;
  ad_revision : c_revision s' = c_revision s + 1;
  ad_light : c_light s' = c_light s;
  ad_reversible n : is_Some (c_reversible s' !! n) → n <= bs_num (c_head s) + 1 }.

Lemma restored_consistent s s' : restored s s' → consistent s → consistent s'.
Proof. intros [m ->] []. by split. Qed.

Lemma object_header s : consistent s →
  bs_id (object s (c_head s)) = bs_id (c_head s) ∧ bs_num (object s (c_head s)) = bs_num (c_head s).
Proof.
  intros Hs. unfold object. destruct (get_block (c_fork s) (bs_id (c_head s))) as [b|] eqn:Hb; [|done]. cbn.
  by destruct (ho_same _ _ (co_head s Hs) b Hb) as (? & ? & _).
Qed.

(** A pending block on top of [s], with a session of its own. *)
Definition started s (d : D) (q : option block_state) (trxs : list (digest_type * T)) : controller_state :=
  put_pending (Some (Pending true q trxs)) (put_database d (c_db s :: c_undo s) (c_revision s + 1) s).

Lemma abort_started s d q trxs : c_pending s = None → restored s (abort_block conf (started s d q trxs)).
Proof.
  intros Hp. destruct s. cbn in Hp. subst. unfold restored, abort_block, reset_pending, undo, keep_unapplied. cbn.
  destruct (is_speculative conf); cbn; eexists; unfold put_unapplied, put_pending, put_database; cbn; f_equal; lia.
Qed.

Lemma abort_none s : c_pending s = None → abort_block conf s = s.
Proof. intros Hp. unfold abort_block. by rewrite Hp. Qed.

Lemma restored_refl s : restored s s.
Proof. exists (c_unapplied s). by destruct s. Qed.

(** The transactions kept for later do not matter. *)
Lemma restored_unapplied s m t : restored (put_unapplied m s) t → restored s t.
Proof. intros [m' ->]. by exists m'. Qed.

Lemma advanced_unapplied s m t d : advanced (put_unapplied m s) t d → advanced s t d.
Proof. by intros []. Qed.

Lemma started_advanced s d q trxs r :
  (∀ n, is_Some (r !! n) → n <= bs_num (c_head s) + 1) →
  advanced s (put_pending None (put_reversible r (started s d q trxs))) d.
Proof. intros Hr. by destruct s. Qed.

Lemma create_reversible_run num block s :
  xlwp (create_reversible num block)
    (λ r t, ∃ m, t = put_reversible m s ∧
       match r with
       | Ok _ => ∀ n, is_Some (m !! n) → n = num ∨ is_Some (c_reversible s !! n)
       | Throw _ => m = c_reversible s
       end) s.
Proof.
  unfold create_reversible. repeat (xlwp_step; cbv beta). unfold db_create.
  destruct (c_reversible s !! num); [by exists (c_reversible s); destruct s|]. xlwp_step.
  eexists. split; [done|]. intros n. destruct (decide (n = num)) as [->|Hn]; [by left|].
  rewrite lookup_insert_ne by done. by right.
Qed.

Lemma commit_block_run s d p trxs :
  consistent s → bs_num p = bs_num (c_head s) + 1 →
  xlwp (commit_block conf replaying first_block_num false)
    (λ r t, match r with Ok _ => advanced s t d | Throw _ => restored s t end) (started s d (Some p) trxs).
Proof.
  intros Hs Hnum. pose proof (co_reversible s Hs) as Hrev. unfold commit_block. do 4 (xlwp_step; cbv beta).
  injection H as <-. xlwp_step. xlwp_step. injection H as <-. xlwp_step. xlwp_step. xlwp_step. xlwp_step.
  destruct replaying.
  - repeat (xlwp_step; cbv beta). apply (started_advanced s d (Some p) trxs (c_reversible s)). intros n Hn%Hrev. lia.
  - eapply xlwp_mono; [apply create_reversible_run|]. cbv beta. intros [[]|e] t (m & -> & Hm).
    + repeat (xlwp_step; cbv beta). apply started_advanced. intros n [->|Hn%Hrev]%Hm; lia.
    + repeat (xlwp_step; cbv beta). subst m. apply (abort_started s d (Some p) trxs), Hs.
Qed.

Lemma abort_restored s t : c_pending s = None → restored s t → restored s (abort_block conf t).
Proof. intros Hp [m ->]. rewrite abort_none by done. by exists m. Qed.

(** The execution of a block on top of the head of [s], as [apply_block] runs it. *)
Definition runs s (blk : B) st (d' : D) : Prop :=
  has_extensions blk = false ∧ ∃ trxs q,
    run_block st (c_light s) (object s (c_head s)) blk (c_db s) = Some (d', trxs, Ok q) ∧
    rule_id (header_of blk) = rule_id (bhs_header q).

Lemma runs_executed s blk st d' : consistent s → runs s blk st d' → executed (bs_id (c_head s)) blk (c_db s) d'.
Proof.
  intros Hs (Hext & trxs & q & Hrun & Hid). split; [done|]. do 5 eexists. split_and!; [|exact Hrun|done].
  by apply object_header.
Qed.

Lemma start_block_run st s :
  consistent s → skip_db_sessions conf st = false →
  start_block conf st s = Some (Ok tt, started s (c_db s) None []).
Proof.
  intros Hs Hst. unfold start_block, mbind, X_bind, xget, xasserts, xlift. rewrite Hst, (co_revision s Hs), Z.eqb_refl.
  by rewrite (bool_decide_true (c_pending s = None)) by apply Hs.
Qed.

Lemma apply_block_run (blk : B) st s :
  consistent s → skip_db_sessions conf st = false →
  xlwp (apply_block conf replaying first_block_num blk st)
    (λ r s', match r with
             | Ok _ => ∃ d', runs s blk st d' ∧ advanced s s' d'
             | Throw e => derives_from e fc_exception = true ∧ restored s s'
             end) s.
Proof.
  intros Hs Hst. pose proof (object_header s Hs) as [Hid Hnum]. pose proof (co_pending s Hs) as Hpend.
  set (Post := λ (r : res unit) t, match r with
    | Ok _ => ∃ d', runs s blk st d' ∧ advanced s t d'
    | Throw e => restored s (abort_block conf t) ∧ (derives_from e fc_exception = false → restored s t)
    end).
  unfold apply_block. xlwp_step. xlwp_step. apply (xlwp_mono _ Post).
  2:{ intros [[]|e] t H; [done|]. destruct H as [H1 H2]. split; intros He; repeat (xlwp_step; cbv beta);
        unfold fc_rethrow; rewrite He; auto. }
  assert (Hthrow : ∀ e t, derives_from e fc_exception = true → restored s (abort_block conf t) → Post (Throw e) t).
  { intros e t He Ht. split; [done|congruence]. }
  xlwp_step. xlwp_step.
  2:{ apply Hthrow; [apply thrown_fc|]. apply abort_restored, restored_refl. done. }
  apply negb_true_iff in H. xlwp_step.
  intros r1 t1. rewrite start_block_run by done. intros [= <- <-].
  xlwp_step. xlwp_step. xlwp_step. xlwp_step.
  destruct a as [[d' trxs] r]. cbn in H0. do 6 xlwp_step. cbn. set (m := foldr delete (c_unapplied s) trxs.2).
  match goal with |- xlwp _ _ ?t => change t with (started (put_unapplied m s) d' None trxs.1) end.
  assert (Habort : ∀ q, restored s (abort_block conf (started (put_unapplied m s) d' q trxs.1)))
    by (intros q; by eapply restored_unapplied, abort_started).
  xlwp_step. xlwp_step. destruct r as [p|e]; cbv beta iota.
  2:{ apply Hthrow; [by eapply run_block_throws|apply Habort]. }
  xlwp_step. xlwp_step. 2:{ apply Hthrow; [apply thrown_fc|apply Habort]. }
  apply bool_decide_eq_true in H1. xlwp_step. xlwp_step. cbn.
  match goal with |- xlwp _ _ ?t => change t with (started (put_unapplied m s) d' (Some (fill_signature p blk)) trxs.1) end.
  eapply xlwp_mono; [apply commit_block_run; [by eapply restored_consistent; [by exists m|]|]|].
  { cbn. apply run_block_num in H0 as [H0 _]. transitivity (u32 (bs_num (object s (c_head s)) + 1)); [exact H0|].
    rewrite Hnum. apply wrap_id. pose proof (ho_block _ _ (co_head s Hs)).
    unfold block_ok, is_unsigned in *. lia. }
  intros [[]|e] t Ht; cbv beta iota in Ht.
  - exists d'. split; [|by eapply advanced_unapplied]. split; [done|]. by do 2 eexists.
  - apply restored_unapplied in Ht. split; [by apply abort_restored|done].
Qed.
End chain.
