(* ===== verification/ForkSwitch.v ===== *)
(** * Pushing blocks and switching forks keeps the database in step

    The invariant of ControllerTheorems.v through a fork switch: blocks are
    popped, the blocks of the other fork are applied, and when one of them is
    refused the first fork is put back. *)

From S2P Require Import Prelude Exceptions Config Merkle Database BlockHeaderState ForkDatabase ForkFacts ErrorState Controller ControllerTheorems.

Section switching.
Context {K Sig B T D : Type}.
Context {rules : @header_rules K Sig} {container : multi_index}.
Context {execution : @block_execution K Sig B T D}.
Abbreviation block_state := (@ForkDatabase.block_state K Sig B).
Abbreviation fork_database := (@ForkDatabase.fork_database K Sig B).
Abbreviation controller_state := (@Controller.controller_state K Sig B T D).
Abbreviation bs_id b := (bhs_id (bs_header_state b)).
Abbreviation bs_num b := (bhs_block_num (bs_header_state b)).
Implicit Types (f : fork_database) (b p : block_state) (d : D) (s : controller_state) (l : list block_state).

Variable conf : controller_config.
Variable replaying : bool.
Variable first_block_num : Z.
Variable b0 : block_state.
Variable d0 : D.
Abbreviation consistent := (ControllerTheorems.consistent b0 d0).

(** ** Moving the head *)

(** [b] can be applied on top of the head. *)
Record follows s b : Prop := {
  fw_prev : prev b = bs_id (c_head s);
  fw_num : bs_num b = bs_num (c_head s) + 1;
  fw_ok : head_ok (c_fork s) b }.

Lemma follows_member s x b :
  consistent s → get_block (c_fork s) x = Some b → prev b = bs_id (c_head s) → follows s b.
Proof.
  intros Hs Hb Hp. split; [done| |by eapply head_ok_member; [apply Hs|]]. by eapply ho_child; [apply Hs|..].
Qed.

(** The block that was executed becomes the head, in a fork database that has
    the same blocks. *)
Lemma advanced_head s s' d' b blk f' :
  consistent s → follows s b → bs_block b = Some blk →
  executed (bs_id (c_head s)) blk (c_db s) d' → advanced s s' d' → fdb_wf f' → similar (c_fork s) f' →
  consistent (put_head b (put_fork f' s')).
Proof.
  intros Hs [Hp Hn Hok] Hblk He Ha Hwf Hsim. pose proof (similar_kept _ _ Hsim) as Hkept.
  destruct (supports_similar b0 d0 b _ _ (co_fork _ _ s Hs) Hwf Hok Hsim) as [Hf' Hok' Happ].
  split; cbn; try done.
  - apply Ha.
  - rewrite (ad_revision _ _ _ Ha), (co_revision _ _ s Hs). lia.
  - rewrite (ad_db _ _ _ Ha), (ad_undo _ _ _ Ha). apply Happ. rewrite <- Hp in He.
    pose proof (co_applied _ _ s Hs) as Hap.
    destruct (get_block (c_fork s) (prev b)) as [p|] eqn:Hpb.
    + assert (Hsame : same_block p (c_head s)) by (apply (ho_same _ _ (co_head _ _ s Hs)); by rewrite <- Hp).
      pose proof Hsame as (Hi & Hnum & _). apply (applied_block b0 d0 _ b p blk (c_db s)); try done.
      * eapply applied_same; [by symmetry|done].
      * congruence.
      * lia.
    + apply applied_base; [|done]. eapply reached_block; [by eapply applied_reached|done..].
  - intros n Hrev. apply (ad_reversible _ _ _ Ha) in Hrev. lia.
Qed.

(** ** Branches *)

(** [climb i n l]: the blocks of [l] build on block [i] of number [n] and on
    one another. *)
Fixpoint climb (i : digest_type) (n : Z) l : Prop :=
  match l with
  | [] => True
  | b :: l => prev b = i ∧ bs_num b = n + 1 ∧ climb (bs_id b) (n + 1) l
  end.

Lemma climb_app i n l b :
  climb i n l → prev b = from_option (λ c, bs_id c) i (last l) → bs_num b = n + 1 + Z.of_nat (length l) → climb i n (l ++ [b]).
Proof.
  revert i n. induction l as [|c l IH]; intros i n; cbn [app climb length].
  - cbn. intros _ -> ->. split_and!; [done|lia|done].
  - intros (H1 & H2 & H3) Hp Hn. split_and!; [done..|]. apply IH; [done| |lia].
    rewrite last_cons in Hp. by destruct (last l).
Qed.

Lemma branch_climb f b l a n :
  fork_ok f → (∃ x, get_block f x = Some b) → branch f b l a → bs_num a = n + 1 →
  climb (prev a) n (reverse l) ∧ bs_num b = n + Z.of_nat (length l) ∧ last (reverse l) = Some b.
Proof.
  intros Hf Hb Hl Ha. revert Hb. induction Hl as [b|b p l a Hp Hl IH]; intros [x Hx].
  { cbn. split_and!; [done|done|done|lia|done]. }
  destruct IH as (IH & Hn & Hlast); [done|eauto|]. rewrite reverse_cons, last_snoc. pose proof (fo_linked f Hf _ _ _ Hx Hp).
  cbn [length]. split_and!; [|lia|done]. apply climb_app; [done| |rewrite length_reverse; lia].
  rewrite Hlast. cbn. symmetry. by apply (wf_ids f (fo_wf f Hf)).
Qed.

(** ** Popping *)

Lemma consistent_similar s f' :
  consistent s → fdb_wf f' → similar (c_fork s) f' → consistent (put_fork f' s).
Proof. intros Hs Hwf Hsim. apply consistent_put_fork; [done|]. apply supports_similar; [apply Hs|done|apply Hs|done]. Qed.

Lemma mark_consistent b flag s :
  consistent s →
  xlwp (mark first_block_num b flag)
    (λ r s', consistent s' ∧ (∃ f', s' = put_fork f' s ∧ similar (c_fork s) f') ∧
             (is_Some (get_block (c_fork s) (bs_id b)) → r = Ok tt)) s.
Proof.
  intros Hs r s'. destruct (mark_run first_block_num b flag s (fo_wf _ (co_fork _ _ s Hs))) as (f' & r' & -> & Hwf & Hsim & Hr).
  intros [= <- <-]. split_and!; [by apply consistent_similar|by eexists|done].
Qed.

Lemma pop_branch_consistent l s :
  consistent s →
  xlwp (pop_branch conf first_block_num l)
    (λ r s', consistent s' ∧ similar (c_fork s) (c_fork s') ∧
             (r = Ok tt → bs_num (c_head s) = bs_num (c_head s') + Z.of_nat (length l))) s.
Proof.
  revert s. induction l as [|b l IH]; intros s Hs; unfold pop_branch; cbn.
  { apply xlwp_ret. split_and!; [done|reflexivity|lia]. }
  xlwp_step. xlwp_step. eapply xlwp_mono; [by apply mark_consistent|].
  cbn. intros [[]|e] s1 (Hs1 & (f' & -> & Hsim) & _); [|by split_and!]. eapply xlwp_mono; [by apply (pop_block_run _ b0 d0)|].
  cbn. intros [[]|e] s2 (Hs2 & Hf & _ & H); [|by rewrite Hf; split_and!]. destruct H as (_ & Hn & _).
  eapply xlwp_mono; [by apply IH|]. cbn. intros r s3 (Hs3 & Hsim3 & Hn3). rewrite Hf in Hsim3.
  split_and!; [done|by etrans|]. intros ->. specialize (Hn3 eq_refl). lia.
Qed.

(** ** Applying *)

Lemma apply_head_consistent b st s :
  consistent s → follows s b → skip_db_sessions conf st = false →
  xlwp (apply_head conf replaying first_block_num b st)
    (λ r s', consistent s' ∧ similar (c_fork s) (c_fork s') ∧
       match r with
       | Ok _ => c_head s' = b
       | Throw _ => is_Some (get_block (c_fork s) (bs_id b)) → c_head s' = c_head s
       end) s.
Proof.
  intros Hs Hb Hst. unfold apply_head. xlwp_step. xlwp_step. xlwp_step. eapply xlwp_mono; [by apply (apply_block_run _ _ _ b0 d0)|].
  cbn. intros [[]|e] s1.
  - intros (d' & He%(runs_executed b0 d0) & Ha); [|done]. xlwp_step. xlwp_step. pose proof (ad_fork _ _ _ Ha) as Hf.
    assert (H1 : consistent (put_head b s1)).
    { pose proof (advanced_head s s1 d' b a (c_fork s) Hs Hb H He Ha (fo_wf _ (co_fork _ _ s Hs)) ltac:(reflexivity)) as H1.
      rewrite <- Hf in H1. by destruct s1. }
    eapply xlwp_mono; [by apply mark_consistent|]. cbn. intros r s2 (Hs2 & (f' & -> & Hsim) & Hr). cbn in *.
    rewrite <- Hf. split_and!; [done|done|]. destruct r; [done|]. intros Hin. discriminate (Hr Hin).
  - intros (_ & m & ->). split_and!; [|reflexivity|done]. by eapply restored_consistent; [by eexists|].
Qed.

Lemma follows_similar s s' b :
  c_head s' = c_head s → similar (c_fork s) (c_fork s') → follows s b → follows s' b.
Proof.
  intros Hh Hsim [H1 H2 H3]. split; [by rewrite Hh..|]. eapply head_ok_kept; [by apply similar_kept|done].
Qed.

Lemma reapply_consistent l s :
  consistent s → climb (bs_id (c_head s)) (bs_num (c_head s)) l → Forall (head_ok (c_fork s)) l →
  xlwp (xfor_each l (reapply conf replaying first_block_num)) (λ _, consistent) s.
Proof.
  revert s. induction l as [|b l IH]; intros s Hs Hc Hok; cbn; [by xlwp_step|].
  destruct Hc as (Hp & Hn & Hc). apply Forall_cons in Hok as [Hb Hok]. xlwp_step.
  eapply xlwp_mono; [by apply apply_head_consistent|]. cbn. intros [[]|e] s1 (Hs1 & Hsim & H); [|done].
  apply IH; [done|by rewrite H, Hn|]. eapply Forall_impl; [exact Hok|]. intros c Hc1.
  eapply head_ok_kept; [by apply similar_kept|done].
Qed.

(** The fork database has a state of block [b]. *)
Definition member f b : Prop := ∃ b', get_block f (bs_id b) = Some b' ∧ same_block b b'.
Definition members f l : Prop := Forall (member f) l.

Lemma member_similar f f' b : similar f f' → member f b → member f' b.
Proof.
  intros Hsim (b' & Hb & Hs). destruct (similar_Some _ _ _ _ Hsim Hb) as (b2 & Hb2 & Hs2).
  exists b2. split; [done|by etrans].
Qed.

Lemma members_similar f f' l : similar f f' → members f l → members f' l.
Proof. intros Hsim H. eapply Forall_impl; [exact H|]. intros b. by apply member_similar. Qed.

Lemma head_ok_same f b b' : same_block b b' → head_ok f b' → head_ok f b.
Proof.
  intros Hs [Hok Hsame Hlink Hchild]. pose proof (same_block_prev _ _ Hs) as Hp. pose proof Hs as (Hi & Hn & _ & _). split.
  - unfold block_ok. by rewrite Hn.
  - intros c. rewrite Hi. intros Hc. etrans; [by apply Hsame|by symmetry].
  - intros p. rewrite Hp, Hn. apply Hlink.
  - intros x c. rewrite Hi, Hn. apply Hchild.
Qed.

Lemma members_head_ok f l : fork_ok f → members f l → Forall (head_ok f) l.
Proof.
  intros Hf H. eapply Forall_impl; [exact H|]. intros b (b' & Hb & Hs). eapply head_ok_same; [done|].
  by eapply head_ok_member.
Qed.

Lemma apply_new_consistent b s :
  consistent s → follows s b →
  xlwp (apply_new conf replaying first_block_num b)
    (λ r s', consistent s' ∧ similar (c_fork s) (c_fork s') ∧
       match r with
       | Ok _ => c_head s' = b
       | Throw _ => is_Some (get_block (c_fork s) (bs_id b)) → c_head s' = c_head s
       end) s.
Proof.
  intros Hs Hb. unfold apply_new. xlwp_step. xlwp_step. xlwp_step. eapply xlwp_mono; [apply apply_head_consistent; [done..|]|].
  { by destruct (bs_validated _). }
  cbn. intros [[]|e] s1 (Hs1 & Hsim & H); [|done]. xlwp_step.
  pose proof (write_similar (c_fork s1) (bs_id b) true) as Hw. split_and!; [|by etrans|done].
  apply consistent_similar; [done| |done]. apply fdb_write_wf; [done|apply Hs1].
Qed.

Lemma set_valid_false_consistent b s :
  consistent s →
  xlwp (set_valid first_block_num b false)
    (λ _ s', consistent s' ∧ c_head s' = c_head s ∧ kept (c_fork s) (c_fork s')) s.
Proof.
  intros Hs r s' H. destruct (set_valid_false_run _ b0 d0 _ _ _ _ Hs H) as (_ & f' & -> & Hr & Hsup).
  split_and!; [by apply consistent_put_fork|done|]. cbn.
  apply remove_trimmed in Hr as (Ht & _); [|apply Hs]. intros x b' Hb'. exists b'. split; [by apply Ht|done].
Qed.

(** A branch whose blocks [applied] are applied already, on top of the last
    block of [second]'s parent, which has number [n]. *)
Lemma apply_branch_consistent second c n todo applied s :
  consistent s → last second = Some c → climb (prev c) n (reverse second) → Forall (head_ok (c_fork s)) second →
  bs_num (c_head s) = n + Z.of_nat (length applied) →
  climb (bs_id (c_head s)) (bs_num (c_head s)) todo → members (c_fork s) todo →
  xlwp (apply_branch conf replaying first_block_num second applied todo) (λ _, consistent) s.
Proof.
  revert applied s. induction todo as [|b todo IH]; intros applied s Hs Hlast Hsec Hok Hn Hc Hm; cbn; [by xlwp_step|].
  destruct Hc as (Hp & Hbn & Hc). pose proof (members_head_ok _ _ (co_fork _ _ s Hs) Hm) as Hmok.
  apply Forall_cons in Hmok as [Hbok _]. apply Forall_cons in Hm as [Hb Hm]. destruct Hb as (b' & Hb & _).
  xlwp_step. xlwp_step. eapply xlwp_mono; [by apply apply_new_consistent|].
  cbn. intros [[]|e] s1 (Hs1 & Hsim & H).
  { apply IH; try done.
    - eapply Forall_impl; [exact Hok|]. intros x Hx. eapply head_ok_kept; [by apply similar_kept|done].
    - rewrite H. cbn [length]. lia.
    - by rewrite H, Hbn.
    - by eapply members_similar. }
  specialize (H ltac:(by eexists)). split; [intros _|done]. xlwp_step.
  eapply xlwp_mono; [by apply set_valid_false_consistent|]. cbn. intros [[]|e'] s2 (Hs2 & Hh2 & Hk2); [|done]. xlwp_step.
  eapply xlwp_mono; [by apply pop_branch_consistent|]. cbn. intros [[]|e'] s3 (Hs3 & Hk3 & Hn3); [|done].
  specialize (Hn3 eq_refl). xlwp_step. unfold check_parent. xlwp_step. xlwp_step. xlwp_step. xlwp_step. xlwp_step; [|done].
  apply bool_decide_eq_true in H1. rewrite Hlast in H0. injection H0 as <-. xlwp_step.
  eapply xlwp_mono; [apply reapply_consistent|].
  - done.
  - rewrite H1. replace (bs_num (c_head s3)) with n by (rewrite Hh2, H in Hn3; lia). done.
  - apply Forall_reverse. eapply Forall_impl; [exact Hok|]. intros x Hx.
    eapply head_ok_kept; [|exact Hx]. etrans; [by apply similar_kept|]. etrans; [exact Hk2|by apply similar_kept].
  - cbn. intros [[]|e'] s4 Hs4; [by xlwp_step|done].
Qed.

Lemma branch_members f b l a : fork_ok f → (∃ x, get_block f x = Some b) → branch f b l a → members f l.
Proof.
  intros Hf [x Hx] Hl. apply Forall_forall. intros c Hc. exists c. split; [|done].
  eapply branch_states; [|apply Hf|exact Hl|done]. by rewrite (wf_ids f (fo_wf f Hf) _ _ Hx).
Qed.

Lemma maybe_switch_forks_consistent st s :
  consistent s → skip_db_sessions conf st = false →
  xlwp (maybe_switch_forks conf replaying first_block_num st) (λ _, consistent) s.
Proof.
  intros Hs Hst. pose proof (co_fork _ _ s Hs) as Hf. unfold maybe_switch_forks. xlwp_step. xlwp_step. xlwp_step. xlwp_step.
  apply bind_Some in H as (i & Hi & Hb). case_bool_decide as Hprev.
  - pose proof (follows_member s i a Hs Hb Hprev) as Hfol. pose proof (wf_ids _ (fo_wf _ Hf) _ _ Hb) as Hid.
    xlwp_step. xlwp_step. xlwp_step. xlwp_step. eapply xlwp_mono; [by apply (apply_block_run _ _ _ b0 d0)|].
    cbn. intros [[]|e] s1.
    + intros (d' & He%(runs_executed b0 d0) & Ha); [|done]. pose proof (ad_fork _ _ _ Ha) as Hf1.
      assert (Hwf1 : fdb_wf (c_fork s1)) by (rewrite Hf1; apply Hf).
      xlwp_step. intros r s2. destruct (mark_run first_block_num a true s1 Hwf1) as (f2 & r2 & -> & Hwf2 & Hsim2 & Hr2).
      rewrite Hr2 by (rewrite Hf1, Hid; by eexists). intros [= <- <-]. xlwp_step. intros r s3.
      destruct (set_valid_true first_block_num a (put_fork f2 s1) Hwf2) as (f3 & -> & Hwf3 & Hsim3).
      intros [= <- <-]. xlwp_step. rewrite Hf1 in Hsim2. change (consistent (put_head a (put_fork f3 s1))).
      eapply (advanced_head s s1); try done. by etrans.
    + intros (He & Hre). split; [intros _|congruence]. xlwp_step.
      eapply xlwp_mono; [apply set_valid_false_consistent; by eapply restored_consistent|].
      cbn. intros [[]|e'] s2 (Hs2 & _ & _); [by xlwp_step|done].
  - case_bool_decide as Hne; [|by xlwp_step]. xlwp_step. xlwp_step. destruct a0 as [l1 l2].
    destruct (fetch_branch_sound _ _ _ _ _ H) as (b1 & b2 & c1 & c2 & Hb1 & Hb2 & Hl1 & Hl2 & Hc). clear H.
    pose proof (ho_same _ _ (co_head _ _ s Hs) _ Hb2) as (_ & Hn2 & _).
    destruct (branch_climb _ b2 l2 c2 (bs_num c2 - 1) Hf (ex_intro _ _ Hb2) Hl2 ltac:(lia)) as (Hclimb2 & Hlen2 & _).
    pose proof (branch_members _ _ _ _ Hf (ex_intro _ _ Hb1) Hl1) as Hm1.
    pose proof (branch_members _ _ _ _ Hf (ex_intro _ _ Hb2) Hl2) as Hm2.
    xlwp_step. eapply xlwp_mono; [by apply pop_branch_consistent|]. cbn. intros [[]|e] s1 (Hs1 & Hsim & Hn); [|done].
    specialize (Hn eq_refl). xlwp_step. unfold check_parent. xlwp_step. xlwp_step. xlwp_step. xlwp_step. xlwp_step; [|done].
    rewrite (branch_last _ _ _ _ Hl2) in H. injection H as <-. apply bool_decide_eq_true in H0.
    assert (Hn1 : bs_num (c_head s1) = bs_num c2 - 1) by lia.
    assert (Hc1 : bs_num c1 = bs_num c2).
    { pose proof (members_similar _ _ _ Hsim Hm1) as Hm. apply Forall_forall with (x := c1) in Hm as (c' & Hc' & Hsc).
      - pose proof Hsc as (_ & -> & _). rewrite (ho_child _ _ (co_head _ _ s1 Hs1) _ _ Hc'); [lia|].
        by rewrite <- (same_block_prev _ _ Hsc), Hc.
      - eapply last_Some_elem_of. by eapply branch_last. }
    destruct (branch_climb _ b1 l1 c1 (bs_num c2 - 1) Hf (ex_intro _ _ Hb1) Hl1 ltac:(lia)) as (Hclimb1 & _ & _).
    apply (apply_branch_consistent l2 c2 (bs_num c2 - 1)); try done.
    + by eapply branch_last.
    + apply members_head_ok; [apply Hs1|]. by eapply members_similar.
    + cbn. lia.
    + by rewrite Hn1, H0, <- Hc.
    + unfold members. apply Forall_reverse. by eapply members_similar.
Qed.

(** ** Histories *)

(** Numbers have room for another block. *)
Definition room f : Prop := ∀ x b, get_block f x = Some b → bs_num b < 2 ^ 32 - 2.

Lemma put_light_consistent s light : consistent s → consistent (put_light light s).
Proof. by intros []. Qed.

Lemma push_block_consistent (blk : B) st s :
  consistent s → skip_db_sessions conf st = false → room (c_fork s) →
  unseen (c_fork s) (c_head s) (rule_id (header_of blk)) →
  xlwp (push_block conf replaying first_block_num blk st) (λ _, consistent) s.
Proof.
  intros Hs Hst Hroom Hun. unfold push_block. xlwp_step. xlwp_step. xlwp_step. xlwp_step; [|done].
  xlwp_step. xlwp_step. apply (xlwp_mono _ (λ _, consistent)).
  2:{ intros [[]|e] s1 Hs1; repeat (xlwp_step; cbv beta); by apply put_light_consistent. }
  xlwp_step. xlwp_step; [|done]. xlwp_step. eapply xlwp_mono; [apply fork_operation_consistent; [done|]|].
  { intros f' r Ha. eapply supports_add_block; [apply Hs..|exact Hroom|exact Hun|exact Ha]. }
  cbn. intros [[]|e] s1 Hs1; [|done]. xlwp_step. apply (xlwp_mono _ (λ _, consistent)).
  { destruct (bool_decide (producer _ ∈ _)); xlwp_step; [by apply put_light_consistent|done]. }
  intros [[]|e] s2 Hs2; [|done]. by apply maybe_switch_forks_consistent.
Qed.

Lemma push_confirmation_consistent c s :
  consistent s → xlwp (push_confirmation conf replaying first_block_num c) (λ _, consistent) s.
Proof.
  intros Hs. unfold push_confirmation. xlwp_step. xlwp_step. xlwp_step. xlwp_step; [|done]. xlwp_step.
  eapply xlwp_mono; [apply fork_operation_consistent; [done|]|].
  { intros f' r Ha. pose proof (fo_wf _ (co_fork _ _ s Hs)) as Hwf.
    destruct (confirmation_similar _ _ _ _ Hwf Ha) as [Hsim Hirr].
    split; [|by apply announced_none]. apply supports_similar; [apply Hs| |apply Hs|done].
    by eapply add_header_confirmation_wf. }
  cbn. intros [[]|e] s1 Hs1; [|done]. by apply maybe_switch_forks_consistent.
Qed.

(** The controller of a new chain: the fork database has the genesis block only. *)
Definition initialize_fork_db (log : list B) : controller_state :=
  ControllerState b0 (set fdb_empty b0).1 d0 [] (bs_num b0) ∅ None ∅ ∅ false log.

(** What can happen to the controller afterwards. *)
Inductive history (log : list B) : controller_state → Prop :=
  | history_start : history log (initialize_fork_db log)
  | history_block blk st s r s' :
      history log s → skip_db_sessions conf st = false → room (c_fork s) →
      unseen (c_fork s) (c_head s) (rule_id (header_of blk)) →
      push_block conf replaying first_block_num blk st s = Some (r, s') → history log s'
  | history_confirmation c s r s' :
      history log s → push_confirmation conf replaying first_block_num c s = Some (r, s') → history log s'.

Lemma initialize_fork_db_consistent log :
  block_ok b0 → prev b0 ≠ bs_id b0 → consistent (initialize_fork_db log).
Proof.
  intros Hok Hprev.
  assert (Hget : ∀ x, get_block (set fdb_empty b0).1 x = if decide (x = bs_id b0) then Some b0 else None).
  { intros x. unfold set, fdb_insert. cbn. rewrite lookup_empty.
    assert (H1 : ∀ f, fdb_index f = <[bs_id b0 := b0]> ∅ → get_block f x = if decide (x = bs_id b0) then Some b0 else None).
    { intros f Hf. unfold get_block. rewrite Hf. case_decide as Hx; [subst; apply lookup_insert_eq|].
      rewrite lookup_insert_ne by done. apply lookup_empty. }
    destruct (set_guards b0 true); cbn; by apply H1. }
  assert (Hwf : fdb_wf (set fdb_empty b0).1).
  { destruct (set fdb_empty b0) as [f r] eqn:Hset. eapply set_wf; [apply fdb_empty_wf|exact Hset]. }
  split; cbn [initialize_fork_db c_pending c_fork c_head c_revision c_db c_undo c_reversible]; try done.
  - split; [done|..].
    + intros i b p. rewrite !Hget. do 2 case_decide; intros; simplify_eq; congruence.
    + intros x b. rewrite Hget. case_decide; intros; simplify_eq; done.
  - split; [done|..].
    + intros b. rewrite Hget. case_decide; intros; simplify_eq; done.
    + intros p. rewrite Hget. case_decide; intros; simplify_eq; congruence.
    + intros x b. rewrite Hget. case_decide; intros; simplify_eq; congruence.
  - apply applied_base; [by apply reached_start|]. by rewrite Hget, decide_False.
  - intros n. rewrite lookup_empty. by intros [? ?].
Qed.

Lemma history_consistent log s : block_ok b0 → prev b0 ≠ bs_id b0 → history log s → consistent s.
Proof.
  intros Hok Hprev. induction 1 as [|blk st s r s' _ IH Hst Hroom Hun Hpush|c s r s' _ IH Hpush].
  - by apply initialize_fork_db_consistent.
  - by eapply push_block_consistent.
  - by eapply push_confirmation_consistent.
Qed.

(** C3: Whatever blocks and confirmations are pushed, in whatever order and
    whether they are accepted or refused, there is no pending block left, the
    database is the one that executing the blocks of the chain of the head
    gives, its revision is the number of the head, and its undo stack has the
    contents before each of these blocks for as long as the parents are in the
    fork database. *)
Theorem database_follows_head log s :
  block_ok b0 → prev b0 ≠ bs_id b0 → history log s →
  c_pending s = None ∧ reached b0 d0 (c_head s) (c_db s) ∧ c_revision s = bs_num (c_head s) ∧
  applied b0 d0 (c_fork s) (c_head s) (c_db s) (c_undo s).
Proof.
  intros Hok Hprev Hs. pose proof (history_consistent log s Hok Hprev Hs) as Hc.
  split_and!; [apply Hc| |apply Hc|apply Hc]. eapply applied_reached, Hc.
Qed.
End switching.

(** ** A small chain *)

(** Blocks are their headers; a block is named by its slot.  Executing a block
    appends its slot to the database; producer 13 produces invalid blocks. *)
Module small.
Abbreviation header := (@signed_block_header Z Z).
Abbreviation hstate := (@block_header_state Z Z).
Abbreviation state := (@block_state Z Z header).

Definition id (n : Z) : digest_type := Digest n 0 0 0.
Definition header_state (i : digest_type) (num : Z) (h : header) (bft : Z) : hstate :=
  BlockHeaderState i num h 0 0 bft 0 digest_zero (ProducerSchedule 0 []) (ProducerSchedule 0 [])
    incremental_merkle_empty ∅ ∅ 0 [] [].

Definition confirm (s : hstate) (c : @header_confirmation Z) : hstate :=
  BlockHeaderState (bhs_id s) (bhs_block_num s) (bhs_header s) (bhs_proposed s) (bhs_irreversible s)
    (bhs_bft_irreversible s) (bhs_pending_lib_num s) (bhs_pending_hash s) (bhs_pending s) (bhs_active s)
    (bhs_merkle s) (bhs_last_produced s) (bhs_last_irb s) (bhs_signing_key s) (bhs_confirm_count s)
    (bhs_confirmations s ++ [c]).

#[refine, export] Instance rules : @header_rules Z Z := {
  rule_id h := id (timestamp h);
  rule_next s h _ :=
    Some (if bool_decide (previous h = bhs_id s)
          then Ok (header_state (id (timestamp h)) (u32 (bhs_block_num s + 1)) h (bhs_bft_irreversible s))
          else EOS_THROW unlinkable_block_exception);
  rule_add_confirmation s c := Ok (confirm s c) }.
Proof.
  - intros s h _ s'. case_bool_decide; [|done]. by intros [= <-].
  - by intros s c s' [= <-].
Defined.

#[refine, export] Instance index : multi_index := {
  index_insert := stable_insert; index_relink := stable_relink }.
Proof.
  - intros. apply stable_insert_perm.
  - intros. by apply ordered_stable_insert.
  - intros. by apply stable_relink_perm.
  - intros. by apply ordered_stable_relink.
Defined.

#[refine, export] Instance execution : @block_execution Z Z header unit (list Z) := {
  header_of h := h;
  block_num_of h := timestamp h;
  set_block_header _ h := h;
  has_extensions _ := false;
  run_block st light s h d :=
    Some (if producer h =? 13 then (d, ([], []), EOS_THROW block_validate_exception)
          else (d ++ [timestamp h], ([], []),
                Ok (BlockState (header_state (id (timestamp h)) (u32 (bhs_block_num s + 1)) h 0) (Some h) false false))) }.
Proof.
  - intros st light s h d d' trxs p. destruct (producer h =? 13); [done|]. intros [= <- <- <-]. by split; [|eexists].
  - intros st light s h d d' trxs e. destruct (producer h =? 13); [|done]. by intros [= <- <- <-].
Defined.

Definition block (slot prod prv : Z) : header :=
  SignedBlockHeader (BlockHeader slot prod 0 (id prv) digest_zero digest_zero 0 None []) 0.

Definition genesis : state := BlockState (header_state (id 1) 1 (block 1 0 0) 0) (Some (block 1 0 0)) true true.
Definition conf : controller_config := ControllerConfig SPECULATIVE false false ∅.
Abbreviation controller := (@controller_state Z Z header unit (list Z)).
Definition start : controller := initialize_fork_db genesis [1] [].

Definition push (blk : header) (s : controller) : controller :=
  match push_block conf false 1 blk complete s with Some (_, s') => s' | None => s end.

(** The premises of a push, checked by evaluation. *)
Definition parent_ok (s : controller) (i : digest_type) (b : state) : bool :=
  bool_decide (is_Some (get_block (c_fork s) (prev b)) ∨ prev b ≠ i) && (bs_num b <? 2 ^ 32 - 2).
Definition push_ok (s : controller) (blk : header) : bool :=
  bool_decide (id (timestamp blk) ≠ bs_id (c_head s)) && parent_ok s (id (timestamp blk)) (c_head s) &&
  forallb (λ '(_, b), parent_ok s (id (timestamp blk)) b) (map_to_list (fdb_index (c_fork s))) &&
  bool_decide (is_Some (push_block conf false 1 blk complete s)).

Abbreviation hist := (history conf false 1 genesis [1] []).

Lemma push_ok_premises blk s :
  push_ok s blk = true → room (c_fork s) ∧ unseen (c_fork s) (c_head s) (id (timestamp blk)) ∧
  is_Some (push_block conf false 1 blk complete s).
Proof.
  unfold push_ok. rewrite !andb_true_iff, !bool_decide_eq_true. intros [[[Hne Hh] Hall] Hp].
  assert (Hin : ∀ x b, get_block (c_fork s) x = Some b → parent_ok s (id (timestamp blk)) b = true).
  { intros x b Hb. rewrite forallb_forall in Hall. apply (Hall (x, b)).
    by apply list_elem_of_In, elem_of_map_to_list. }
  split_and!; [|intros _; split; [done|]|done].
  - intros x b Hb. apply Hin in Hb. unfold parent_ok in Hb. lia.
  - intros b Hb Hnone.
    assert (Hok : parent_ok s (id (timestamp blk)) b = true) by (destruct Hb as [->|[x Hb]]; [done|by eapply Hin]).
    unfold parent_ok in Hok. apply andb_true_iff in Hok as [Hok _]. apply bool_decide_eq_true in Hok as [Hok|Hok]; [|done].
    rewrite Hnone in Hok. by destruct Hok.
Qed.

Lemma push_history blk s : hist s → push_ok s blk = true → hist (push blk s).
Proof.
  intros Hs (Hroom & Hun & [[r s'] Hp])%push_ok_premises. unfold push. rewrite Hp.
  by apply (history_block _ _ _ _ _ _ blk complete s r s').
Qed.

(** The block is in the fork database, and the forks are not switched yet. *)
Definition offer (blk : header) (s : controller) : controller :=
  match fork_operation 1 (λ f, add_block header_of f blk false) s with Some (_, s') => s' | None => s end.

Lemma offer_consistent blk s : hist s → push_ok s blk = true → ControllerTheorems.consistent genesis [1] (offer blk s).
Proof.
  intros Hs (Hroom & Hun & _)%push_ok_premises. apply history_consistent in Hs; [|by vm_compute|by vm_compute].
  unfold offer. destruct (fork_operation _ _ _) as [[r s']|] eqn:Ho; [|done].
  eapply fork_operation_consistent; [exact Hs| |exact Ho]. intros f' r' Ha.
  eapply supports_add_block; [apply Hs..|exact Hroom|exact Hun|exact Ha].
Qed.

(** Two blocks on top of the genesis block, then a longer fork: 1 - 2 - 3 and 1 - 4 - 5 - 6. *)
Definition first_fork : controller := push (block 3 1 2) (push (block 2 1 1) start).
Definition two_forks : controller := push (block 5 1 4) (push (block 4 1 1) first_fork).
Definition second_fork : controller := push (block 6 1 5) two_forks.

Lemma two_forks_history : hist two_forks.
Proof. do 4 (apply push_history; [|by vm_compute]). apply history_start. Qed.

Lemma second_fork_history : hist second_fork.
Proof. apply push_history; [exact two_forks_history|by vm_compute]. Qed.

(** The same, with an invalid last block. *)
Definition refused_fork : controller := offer (block 6 13 5) two_forks.

Lemma refused_fork_consistent : ControllerTheorems.consistent genesis [1] refused_fork.
Proof. apply offer_consistent; [exact two_forks_history|by vm_compute]. Qed.
End small.

(** The database after a switch from one fork to another. *)
Lemma database_follows_head_witness :
  c_db small.second_fork = [1; 4; 5; 6] ∧
  reached (rules := small.rules) (execution := small.execution) small.genesis [1] (c_head small.second_fork) [1; 4; 5; 6] ∧ c_revision small.second_fork = 4.
Proof.
  destruct (database_follows_head (rules := small.rules) (container := small.index) (execution := small.execution)
    small.conf false 1 small.genesis [1] [] small.second_fork) as (_ & Hr & Hn & _);
    [by vm_compute|by vm_compute|exact small.second_fork_history|].
  assert (H : c_db small.second_fork = [1; 4; 5; 6]) by (vm_compute; reflexivity).
  rewrite H in Hr. rewrite Hn. split_and!; [done|done|by vm_compute].
Defined.
