(* ===== verification/SwitchOutcome.v ===== *)
(** * The outcome of a fork switch

    A switch to another fork either ends with the head of that fork, or finds
    a block that cannot be executed: then the first fork is put back with the
    same contents of the database and the same undo stack, and the refused
    block is gone from the fork database. *)

From S2P Require Import Prelude Exceptions Config Merkle Database BlockHeaderState ForkDatabase ForkFacts ErrorState Controller ControllerTheorems ForkSwitch.

Section outcome.
Context {K Sig B T D : Type}.
Context {rules : @header_rules K Sig} {container : multi_index}.
Context {execution : @block_execution K Sig B T D}.
Abbreviation block_state := (@ForkDatabase.block_state K Sig B).
Abbreviation fork_database := (@ForkDatabase.fork_database K Sig B).
Abbreviation controller_state := (@Controller.controller_state K Sig B T D).
Abbreviation bs_id b := (bhs_id (bs_header_state b)).
Abbreviation bs_num b := (bhs_block_num (bs_header_state b)).
Implicit Types (f : fork_database) (b p : block_state) (d : D) (u : list D) (s : controller_state) (l : list block_state).

(** Executing a block is defined, and a block that was executed can be
    executed again with the same outcome. *)
Class repeatable : Prop := {
  run_total st light h (blk : B) (d : D) : is_Some (run_block (T := T) st light h blk d);
  run_again i blk d d' light h :
    executed (T := T) i blk d d' → bhs_id h = i →
    ∃ trxs q, run_block (T := T) validated light h blk d = Some (d', trxs, Ok q) ∧
              rule_id (header_of blk) = rule_id (bhs_header q) }.
Context {again : repeatable}.

Variable conf : controller_config.
Variable replaying : bool.
Variable first_block_num : Z.
Variable b0 : block_state.
Variable d0 : D.
Abbreviation consistent := (ControllerTheorems.consistent b0 d0).

(** The contents of the database, before and after each block that can be undone. *)
Definition stack s : list D := c_db s :: c_undo s.

(** ** Single blocks *)

Lemma commit_block_ok s d p trxs :
  consistent s → bs_num p = bs_num (c_head s) + 1 → is_Some (bs_block p) →
  ∃ s', commit_block conf replaying first_block_num false (started s d (Some p) trxs) = Some (Ok tt, s').
Proof.
  intros Hs Hn [blk Hb]. unfold commit_block, mbind, X_bind, xget, xderef. cbn. unfold xcatch_all.
  destruct replaying; cbn; [by eexists|]. unfold create_reversible, mbind, X_bind, xget, xderef. rewrite Hb. cbn.
  unfold xlift, db_create. destruct (c_reversible s !! bs_num p) eqn:Hr; [|by eexists].
  pose proof (co_reversible _ _ s Hs (bs_num p) ltac:(by eexists)). lia.
Qed.

Lemma apply_block_eval (blk : B) st s :
  consistent s → skip_db_sessions conf st = false →
  ∃ r s', apply_block conf replaying first_block_num blk st s = Some (r, s') ∧
    ((∃ d', runs s blk st d') → r = Ok tt).
Proof.
  intros Hs Hst. set (Post := λ (r : res unit) (_ : controller_state), (∃ d', runs s blk st d') → r = Ok tt).
  enough (H : xwp (apply_block conf replaying first_block_num blk st) Post s).
  { unfold xwp in H. destruct (apply_block _ _ _ _ _ s) as [[r s']|]; [by exists r, s'|done]. }
  unfold apply_block. xwp_step. xwp_step. apply (xwp_mono _ Post).
  2:{ intros [[]|e] t Ht; [done|]. assert (Hno : ¬ ∃ d', runs s blk st d') by (intros H; discriminate (Ht H)).
      destruct (derives_from e fc_exception); repeat (xwp_step; cbv beta); by intros ?. }
  assert (Hthrow : ∀ e t, ¬ (∃ d', runs s blk st d') → Post (Throw e) t) by by intros e t Hno ?.
  xwp_step. apply xwp_asserts; intros Hext.
  2:{ apply Hthrow. intros (? & ? & _). by rewrite H in Hext. }
  apply negb_true_iff in Hext. xwp_step. unfold xwp at 1. rewrite (start_block_run conf b0 d0) by done.
  xwp_step. xwp_step. xwp_step.
  destruct (run_total st (c_light s) (object s (c_head s)) blk (c_db s)) as [[[d' trxs] r] Hrun].
  eapply xwp_deref; [exact Hrun|]. cbv beta iota. do 6 xwp_step. cbn. xwp_step. xwp_step. set (m := foldr delete (c_unapplied s) trxs.2).
  destruct r as [q|e]; cbv beta iota.
  2:{ apply Hthrow. intros (? & _ & ? & ? & ? & _). congruence. }
  xwp_step. apply xwp_asserts; intros Hid.
  2:{ apply Hthrow. intros (? & _ & ? & q' & Hrun' & Hid'). rewrite Hrun in Hrun'. injection Hrun' as -> -> <-.
      by rewrite bool_decide_true in Hid. }
  xwp_step. xwp_step. cbn.
  match goal with |- xwp _ _ ?t => change t with (started (put_unapplied m s) d' (Some (fill_signature q blk)) trxs.1) end.
  destruct (run_block_num _ _ _ _ _ _ _ _ Hrun) as [Hn [blk' Hblk]].
  destruct (commit_block_ok (put_unapplied m s) d' (fill_signature q blk) trxs.1) as [s' Hc];
    [by eapply restored_consistent; [by exists m|]| |by cbn; rewrite Hblk; eexists|].
  { cbn. rewrite Hn, (proj2 (object_header b0 d0 s Hs)). apply wrap_id. pose proof (ho_block _ _ (co_head _ _ s Hs)).
    unfold block_ok, is_unsigned in *. lia. }
  unfold xwp. rewrite Hc. by intros _.
Qed.

Lemma apply_head_eval b blk st s :
  consistent s → follows s b → skip_db_sessions conf st = false → bs_block b = Some blk →
  is_Some (get_block (c_fork s) (bs_id b)) →
  ∃ r s', apply_head conf replaying first_block_num b st s = Some (r, s') ∧
    consistent s' ∧ similar (c_fork s) (c_fork s') ∧ c_light s' = c_light s ∧
    match r with
    | Ok _ => c_head s' = b ∧ ∃ d', runs s blk st d' ∧ stack s' = d' :: stack s
    | Throw e => derives_from e fc_exception = true ∧ c_head s' = c_head s ∧ stack s' = stack s ∧
                 ¬ ∃ d', runs s blk st d'
    end.
Proof.
  intros Hs Hfol Hst Hblk Hin. destruct (apply_block_eval blk st s Hs Hst) as (r & s1 & Heval & Hruns).
  pose proof (apply_block_run conf replaying first_block_num b0 d0 blk st s Hs Hst r s1 Heval) as Hrun.
  pose proof (apply_head_consistent conf replaying first_block_num b0 d0 b st s Hs Hfol Hst) as Hcon.
  revert Hcon. unfold xlwp, apply_head, mbind, X_bind, xderef. rewrite Hblk. cbn -[apply_block mark]. rewrite Heval.
  destruct r as [[]|e]; cbn [xmodify].
  - destruct Hrun as (d' & Hr & [? ? ? ? ? ? ?]).
    assert (Hwf : fdb_wf (c_fork (put_head b s1))) by (cbn; rewrite ad_fork; apply Hs).
    destruct (mark_run first_block_num b true (put_head b s1) Hwf) as (f' & r' & -> & _ & _ & Hr').
    rewrite Hr' by (cbn; by rewrite ad_fork). intros Hcon. destruct (Hcon _ _ eq_refl) as (? & ? & ?).
    do 2 eexists. split; [done|]. split_and!; [done..|]. exists d'. split; [done|].
    unfold stack. cbn. by rewrite ad_db, ad_undo.
  - intros Hcon. destruct (Hcon _ _ eq_refl) as (? & ? & Hh). destruct Hrun as (? & m & ->).
    do 2 eexists. split; [done|]. split_and!; try done. intros H2. discriminate (Hruns H2).
Qed.

(** ** Popping *)

(** [down f b n p]: [n] blocks under [b], with its own, lead to [p]. *)
Inductive down f : block_state → nat → block_state → Prop :=
  | down_here b p : same_block b p → down f b 0 p
  | down_pop b q n p :
      is_Some (bs_block b) → get_block f (prev b) = Some q → down f q n p → down f b (S n) p.

Lemma down_same f b b' n p : same_block b b' → down f b n p → down f b' n p.
Proof.
  intros Hs H. pose proof (same_block_prev _ _ Hs) as Hp. destruct H as [b p H|b q n p Hb Hq H].
  - apply down_here. etrans; [by symmetry|done].
  - apply (down_pop f b' q); [|congruence|done]. destruct Hs as (_ & _ & _ & Hs). by rewrite <- Hs.
Qed.

Lemma down_similar f f' b n p : similar f f' → down f b n p → down f' b n p.
Proof.
  intros Hsim. induction 1 as [b p H|b q n p Hb Hq _ IH]; [by apply down_here|].
  destruct (similar_Some _ _ _ _ Hsim Hq) as (q' & Hq' & Hs). eapply down_pop; [done|exact Hq'|by eapply down_same].
Qed.

Lemma pop_block_ok s p :
  consistent s → get_block (c_fork s) (prev (c_head s)) = Some p → is_Some (bs_block (c_head s)) →
  ∃ s', pop_block conf s = Some (Ok tt, s') ∧ consistent s' ∧ c_fork s' = c_fork s ∧ c_light s' = c_light s ∧
    c_head s' = p ∧ stack s' = tail (stack s).
Proof.
  intros Hs Hp Hb. assert (Hok : ∃ s', pop_block conf s = Some (Ok tt, s')).
  { unfold pop_block, mbind, X_bind, xget, xlift. rewrite Hp. cbn. destruct (is_speculative conf); cbn; [|by eexists].
    unfold xasserts. rewrite bool_decide_true by done. by eexists. }
  destruct Hok as [s' Hok]. exists s'. split; [done|].
  destruct (pop_block_run conf b0 d0 s Hs _ _ Hok) as (? & ? & ? & Hh & _ & Hu).
  split_and!; try done; congruence.
Qed.

Lemma pop_branch_ok l s p :
  consistent s → members (c_fork s) l → down (c_fork s) (c_head s) (length l) p →
  ∃ s', pop_branch conf first_block_num l s = Some (Ok tt, s') ∧ consistent s' ∧
    similar (c_fork s) (c_fork s') ∧ c_light s' = c_light s ∧ same_block (c_head s') p ∧
    stack s' = drop (length l) (stack s).
Proof.
  revert s. induction l as [|b l IH]; intros s Hs Hm Hd; cbn [length] in Hd.
  { inversion Hd as [b p' Hsame|]; subst. exists s. split_and!; try done; reflexivity. }
  apply Forall_cons in Hm as [(b' & Hb & _) Hm].
  inversion Hd as [|h q n p' Hblk Hq Hd' Heq1 Heq2 Heq3]; subst.
  destruct (mark_run first_block_num b false s (fo_wf _ (co_fork _ _ s Hs))) as (f' & r & Hmark & Hwf & Hsim & Hr).
  rewrite Hr in Hmark by by eexists. pose proof (consistent_similar b0 d0 s f' Hs Hwf Hsim) as Hs1.
  destruct (similar_Some _ _ _ _ Hsim Hq) as (q' & Hq' & Hqs).
  destruct (pop_block_ok (put_fork f' s) q' Hs1 Hq' Hblk) as (s2 & Hpop & Hs2 & Hf2 & Hl2 & Hh2 & Hst2).
  destruct (IH s2) as (s3 & Hrun & Hs3 & Hsim3 & Hl3 & Hh3 & Hst3).
  - done.
  - rewrite Hf2. by eapply members_similar.
  - rewrite Hf2, Hh2. eapply down_similar; [exact Hsim|]. by eapply down_same.
  - exists s3. split_and!; try done.
    + unfold pop_branch. cbn. unfold mbind, X_bind. rewrite Hmark, Hpop. exact Hrun.
    + rewrite Hf2 in Hsim3. by etrans.
    + by rewrite Hl3, Hl2.
    + rewrite Hst3, Hst2. done.
Qed.

(** ** Applying again *)

(** Executing the blocks of [l] takes the database from one stack to another. *)
Inductive stacked : list block_state → list D → list D → Prop :=
  | stacked_nil u : stacked [] u u
  | stacked_cons b blk l d d' u u' :
      bs_block b = Some blk → executed (T := T) (prev b) blk d d' → stacked l (d' :: d :: u) u' → stacked (b :: l) (d :: u) u'.

Lemma stacked_snoc l u b blk d d' u' :
  stacked l u (d :: u') → bs_block b = Some blk → executed (T := T) (prev b) blk d d' →
  stacked (l ++ [b]) u (d' :: d :: u').
Proof.
  intros H Hb He. remember (d :: u') as v. induction H as [u|c blk' l d1 d2 u v Hc He' H IH]; subst; cbn.
  - eapply stacked_cons; [done|done|]. apply stacked_nil.
  - eapply stacked_cons; [done|done|]. by apply IH.
Qed.

(** The blocks of a branch are what was executed. *)
Lemma branch_stacked f b l a p d u :
  branch f b l a → get_block f (prev a) = Some p → applied b0 d0 f b d u →
  stacked (reverse l) (drop (length l) (d :: u)) (d :: u).
Proof.
  intros Hl Hp. revert d u. induction Hl as [b|b q l a Hq Hl IH]; intros d u Ha.
  - inversion Ha as [|? p' blk d1 ? u' H1 H2 H3 H4 H5 H6]; subst; [congruence|]. cbn.
    eapply stacked_cons; [done|done|]. apply stacked_nil.
  - inversion Ha as [|? p' blk d1 ? u' H1 H2 H3 H4 H5 H6]; subst; [congruence|].
    assert (p' = q) as -> by congruence. rewrite reverse_cons. cbn [length drop].
    eapply stacked_snoc; [by apply IH|done|done].
Qed.

Lemma reapply_ok l s u :
  consistent s → climb (bs_id (c_head s)) (bs_num (c_head s)) l → members (c_fork s) l → stacked l (stack s) u →
  ∃ s', xfor_each l (reapply conf replaying first_block_num) s = Some (Ok tt, s') ∧ consistent s' ∧
    c_head s' = default (c_head s) (last l) ∧ stack s' = u ∧ kept (c_fork s) (c_fork s').
Proof.
  revert s. induction l as [|b l IH]; intros s Hs Hc Hm Hu.
  { inversion Hu; subst. exists s. split_and!; try done; reflexivity. }
  destruct Hc as (Hp & Hn & Hc). pose proof (members_head_ok _ _ (co_fork _ _ s Hs) Hm) as Hok.
  apply Forall_cons in Hok as [Hbok _]. apply Forall_cons in Hm as [(b' & Hb & _) Hm].
  inversion Hu as [|? blk ? d d' v ? Hblk He Hu' Heq1 Heq2]; subst.
  destruct (apply_head_eval b blk validated s Hs ltac:(by split) eq_refl Hblk ltac:(by eexists))
    as (r & s1 & Heval & Hs1 & Hsim & _ & Hr).
  assert (Hruns : runs s blk validated d').
  { rewrite Hp in He. destruct (run_again _ _ _ _ (c_light s) (object s (c_head s)) He) as (trxs & q & Hrun & Hid).
    { by apply (object_header b0 d0). }
    split; [apply He|]. by do 2 eexists. }
  destruct r as [[]|e].
  2:{ destruct Hr as (_ & _ & _ & Hno). destruct Hno. by eexists. }
  destruct Hr as (Hh & d2 & Hruns2 & Hst).
  assert (d2 = d') as ->.
  { destruct Hruns as (_ & ? & ? & H1 & _), Hruns2 as (_ & ? & ? & H2 & _). congruence. }
  destruct (IH s1) as (s2 & Hrun2 & Hs2 & Hh2 & Hst2 & Hk2).
  - done.
  - by rewrite Hh, Hn.
  - by eapply members_similar.
  - by rewrite Hst.
  - exists s2. split_and!; try done.
    + cbn [xfor_each]. unfold mbind, X_bind, reapply at 1. rewrite Heval. exact Hrun2.
    + rewrite Hh2, Hh, last_cons. by destruct (last l).
    + etrans; [by apply similar_kept|done].
Qed.

(** ** Refusing a block *)

(** No block of [l] is [i] or builds on it. *)
Definition apart f l (i : digest_type) : Prop := ∀ x, x ∈ l → ¬ builds_on (fdb_index f) [i] (bs_id x).

Lemma builds_on_similar f f' roots x :
  similar f f' → builds_on (fdb_index f') roots x → builds_on (fdb_index f) roots x.
Proof.
  intros Hsim. induction 1 as [x Hx|x b Hb _ IH]; [by apply builds_root|].
  destruct (similar_back f f' _ _ Hsim Hb) as (b' & Hb' & Hs). eapply builds_step; [exact Hb'|].
  by rewrite (same_block_prev _ _ Hs).
Qed.

Lemma apart_similar f f' l i : similar f f' → apart f l i → apart f' l i.
Proof. intros Hsim Ha x Hx Hb. eapply Ha; [exact Hx|]. by eapply builds_on_similar. Qed.

Lemma set_valid_false_ok b s :
  consistent s → (∃ i, is_Some (get_block (c_fork s) i) ∧ ¬ builds_on (fdb_index (c_fork s)) [bs_id b] i) →
  ∃ f', set_valid first_block_num b false s = Some (Ok tt, put_fork f' s) ∧ consistent (put_fork f' s) ∧
    get_block f' (bs_id b) = None ∧
    ∀ x, ¬ builds_on (fdb_index (c_fork s)) [bs_id b] x → get_block f' x = get_block (c_fork s) x.
Proof.
  intros Hs Hi. pose proof (fo_wf _ (co_fork _ _ s Hs)) as Hwf.
  destruct (remove_cases (c_fork s) (bs_id b) Hwf) as [Hsome Hspec]. destruct (Hsome Hi) as [f' Hr].
  destruct (Hspec f' Hr) as (_ & Hirr & _ & Hx). exists f'. split_and!.
  - apply fork_operation_quiet; [|done]. cbn -[remove]. by rewrite Hr.
  - apply consistent_put_fork; [done|]. by eapply supports_remove; [apply Hs..|].
  - apply (Hx (bs_id b)), builds_root, list_elem_of_here.
  - intros x Hn. by apply Hx.
Qed.

Lemma members_keep f f' l : (∀ x, x ∈ l → get_block f' (bs_id x) = get_block f (bs_id x)) → members f l → members f' l.
Proof.
  intros Hk Hm. apply Forall_forall. intros x Hx. unfold member. rewrite Hk by done. by eapply (proj1 (Forall_forall _ _) Hm).
Qed.

(** The way down is not touched by the removal of a higher block. *)
Lemma down_keep f f' n b m p :
  (∀ x q, get_block f x = Some q → bs_num q < n → get_block f' x = Some q) →
  fork_ok f → head_ok f b → bs_num b <= n → down f b m p → down f' b m p.
Proof.
  intros Hk Hf Hb Hn H. revert Hb Hn. induction H as [b p H|b q m p Hblk Hq _ IH]; intros Hb Hn; [by apply down_here|].
  pose proof (ho_link _ _ Hb _ Hq). eapply down_pop; [done|apply Hk; [exact Hq|lia]|].
  apply IH; [by eapply head_ok_member|lia].
Qed.

Lemma not_on_higher f x y b c :
  fork_ok f → get_block f y = Some b → get_block f x = Some c → bs_num c < bs_num b →
  ¬ builds_on (fdb_index f) [y] x.
Proof.
  intros Hf Hb Hc Hn H. destruct (builds_on_higher f y b x c (fo_linked f Hf) Hb H Hc) as [->|?]; [|lia].
  assert (b = c) by congruence. subst. lia.
Qed.

(** The other fork is put back after block [b] was refused. *)
Lemma refuse_ok second c p u b applied (e : exception) s :
  consistent s → last second = Some c → prev c = bs_id p →
  climb (prev c) (bs_num p) (reverse second) → members (c_fork s) second →
  stacked (reverse second) (drop (length applied) (stack s)) u → apart (c_fork s) second (bs_id b) →
  members (c_fork s) applied → Forall (λ x, bs_num x < bs_num b) applied →
  down (c_fork s) (c_head s) (length applied) p → bs_num b = bs_num (c_head s) + 1 →
  member (c_fork s) b →
  ∃ s', (set_valid first_block_num b false;; pop_branch conf first_block_num applied;; check_parent second;;
         xfor_each (reverse second) (reapply conf replaying first_block_num);; xlift (Throw e : res unit)) s =
         Some (Throw e, s') ∧
    consistent s' ∧ Some (c_head s') = head second ∧ stack s' = u ∧ get_block (c_fork s') (bs_id b) = None.
Proof.
  intros Hs Hlast Hprev Hclimb Hsec Hu Hapart Happ Hlow Hdown Hn (b' & Hb' & (_ & Hbn & _)).
  pose proof (co_fork _ _ s Hs) as Hf.
  assert (Hc : c ∈ second) by by eapply last_Some_elem_of.
  destruct (set_valid_false_ok b s Hs) as (f1 & Hset & Hs1 & Hgone & Hkeep).
  { exists (bs_id c). split; [|by apply Hapart]. apply (proj1 (Forall_forall _ _) Hsec) in Hc as (? & ? & _). by eexists. }
  assert (Hlowkeep : ∀ x q, get_block (c_fork s) x = Some q → bs_num q < bs_num b → get_block f1 x = Some q).
  { intros x q Hq Hqn. rewrite Hkeep; [done|]. eapply not_on_higher; [done|exact Hb'|exact Hq|lia]. }
  destruct (pop_branch_ok applied (put_fork f1 s) p) as (s2 & Hpop & Hs2 & Hsim2 & _ & Hh2 & Hst2).
  - done.
  - eapply members_keep; [|exact Happ]. intros x Hx. cbn.
    apply (proj1 (Forall_forall _ _) Happ) in Hx as Hm. destruct Hm as (x' & Hx' & (_ & Hxn & _)).
    apply (proj1 (Forall_forall _ _) Hlow) in Hx. rewrite Hx'. apply Hlowkeep; [done|lia].
  - cbn. eapply (down_keep (c_fork s)); [exact Hlowkeep|done|apply Hs|lia|done].
  - destruct Hh2 as (Hid2 & Hnum2 & _). cbn in Hsim2.
    destruct (reapply_ok (reverse second) s2 u) as (s3 & Hre & Hs3 & Hh3 & Hst3 & Hk3).
    + done.
    + by rewrite Hid2, Hnum2, <- Hprev.
    + unfold members. apply Forall_reverse. eapply members_similar; [exact Hsim2|].
      eapply members_keep; [|exact Hsec]. intros x Hx. by apply Hkeep, Hapart.
    + rewrite Hst2. exact Hu.
    + exists s3. split_and!; try done.
      * unfold mbind, X_bind. rewrite Hset, Hpop. unfold check_parent, mbind, X_bind, xget, xderef.
        rewrite Hlast. cbn. unfold xasserts. rewrite bool_decide_true by congruence. cbn. by rewrite Hre.
      * rewrite Hh3. destruct second as [|x l]; [done|]. by rewrite reverse_cons, last_snoc.
      * destruct (get_block (c_fork s3) (bs_id b)) as [x|] eqn:Hx; [|done].
        apply Hk3 in Hx as (y & Hy & _). apply (similar_back _ _ _ _ Hsim2) in Hy as (z & Hz & _). congruence.
Qed.

(** ** The new branch *)

Lemma apply_new_eval b blk s :
  consistent s → follows s b → bs_block b = Some blk → is_Some (get_block (c_fork s) (bs_id b)) →
  ∃ r s', apply_new conf replaying first_block_num b s = Some (r, s') ∧
    consistent s' ∧ similar (c_fork s) (c_fork s') ∧
    match r with
    | Ok _ => c_head s' = b ∧ ∃ d', stack s' = d' :: stack s
    | Throw e => derives_from e fc_exception = true ∧ c_head s' = c_head s ∧ stack s' = stack s
    end.
Proof.
  intros Hs Hfol Hblk Hin. set (st := if bs_validated (object s b) then validated else complete).
  assert (Hst : skip_db_sessions conf st = false) by (subst st; by destruct (bs_validated _)).
  destruct (apply_head_eval b blk st s Hs Hfol Hst Hblk Hin) as (r & s1 & Heval & Hs1 & Hsim & _ & Hr).
  pose proof (apply_new_consistent conf replaying first_block_num b0 d0 b s Hs Hfol) as Hcon. revert Hcon.
  unfold xlwp, apply_new, mbind, X_bind, xget. fold st. rewrite Heval. destruct r as [[]|e]; intros Hcon.
  - destruct (Hcon _ _ eq_refl) as (? & ? & ?). destruct Hr as (? & d' & _ & Hst').
    do 2 eexists. split; [done|]. split_and!; [done..|]. by exists d'.
  - destruct Hr as (? & ? & ? & _). do 2 eexists. split; [done|]. by split_and!.
Qed.

Lemma apply_branch_eval second c p u todo applied s :
  consistent s → last second = Some c → prev c = bs_id p →
  climb (prev c) (bs_num p) (reverse second) → members (c_fork s) second →
  stacked (reverse second) (drop (length applied) (stack s)) u →
  (∀ y, y ∈ todo → apart (c_fork s) second (bs_id y)) →
  members (c_fork s) applied → Forall (λ x, bs_num x <= bs_num (c_head s)) applied →
  down (c_fork s) (c_head s) (length applied) p →
  climb (bs_id (c_head s)) (bs_num (c_head s)) todo → members (c_fork s) todo →
  Forall (λ x, is_Some (bs_block x)) todo → is_Some (get_block (c_fork s) (bs_id (c_head s))) →
  ∃ r s', apply_branch conf replaying first_block_num second applied todo s = Some (r, s') ∧ consistent s' ∧
    match r with
    | Ok _ => c_head s' = default (c_head s) (last todo)
    | Throw e => Some (c_head s') = head second ∧ stack s' = u ∧
                 ∃ bad, bad ∈ todo ∧ get_block (c_fork s') (bs_id bad) = None
    end.
Proof.
  revert applied s. induction todo as [|b todo IH];
    intros applied s Hs Hlast Hprev Hclimb Hsec Hu Hapart Happ Hlow Hdown Hc Hm Hdata Hhead.
  { by exists (Ok tt), s. }
  destruct Hc as (Hbp & Hbn & Hc). pose proof (members_head_ok _ _ (co_fork _ _ s Hs) Hm) as Hmok.
  apply Forall_cons in Hmok as [Hbok _]. apply Forall_cons in Hm as [Hb Hm]. apply Forall_cons in Hdata as [[blk Hblk] Hdata].
  pose proof Hb as (b' & Hb' & Hbs).
  destruct (apply_new_eval b blk s Hs ltac:(by split) Hblk ltac:(by eexists)) as (r & s1 & Heval & Hs1 & Hsim & Hr).
  destruct r as [[]|e].
  - destruct Hr as (Hh1 & d' & Hst1).
    destruct (similar_Some _ _ _ _ Hsim Hb') as (b1 & Hb1 & _).
    destruct (IH (b :: applied) s1) as (r & s' & Hrun & Hs' & Hr); try done.
    + by eapply members_similar.
    + by rewrite Hst1.
    + intros y Hy. eapply apart_similar; [exact Hsim|]. by apply Hapart, list_elem_of_further.
    + apply Forall_cons. split; [|by eapply members_similar].
      by eapply member_similar.
    + rewrite Hh1, Hbn. apply Forall_cons. split; [lia|]. eapply Forall_impl; [exact Hlow|]. intros; cbn in *; lia.
    + rewrite Hh1. destruct Hhead as [h Hh]. pose proof (ho_same _ _ (co_head _ _ s Hs) _ Hh) as Hhs.
      destruct (similar_Some _ _ _ _ Hsim Hh) as (h1 & Hh1' & Hhs1). eapply (down_pop _ b h1); [done| |].
      * by rewrite Hbp.
      * eapply down_similar; [exact Hsim|]. eapply down_same; [|exact Hdown]. etrans; [by symmetry|done].
    + by rewrite Hh1, Hbn.
    + by eapply members_similar.
    + rewrite Hh1. by eexists.
    + exists r, s'. split_and!; [|done|].
      * cbn [apply_branch]. unfold mbind, X_bind, xtry. rewrite Heval. exact Hrun.
      * destruct r as [[]|e]; [by rewrite Hr, Hh1, last_cons; destruct (last todo)|].
        destruct Hr as (? & ? & bad & ? & ?). split_and!; try done. exists bad. split; [by apply list_elem_of_further|done].
  - destruct Hr as (He & Hh1 & Hst1).
    destruct (refuse_ok second c p u b applied e s1) as (s' & Hrun & Hs' & Hh' & Hst' & Hgone); try done.
    + by eapply members_similar.
    + by rewrite Hst1.
    + eapply apart_similar; [exact Hsim|]. apply Hapart, list_elem_of_here.
    + by eapply members_similar.
    + eapply Forall_impl; [exact Hlow|]. intros; cbn in *; lia.
    + rewrite Hh1. by eapply down_similar.
    + by rewrite Hh1.
    + by eapply member_similar.
    + exists (Throw e), s'. split_and!; try done.
      * cbn [apply_branch]. unfold mbind at 1, X_bind at 1, xtry. rewrite Heval, He. exact Hrun.
      * exists b. split; [apply list_elem_of_here|done].
Qed.

(** ** Two forks *)

Lemma branch_suffix f b l a x : branch f b l a → x ∈ l → ∃ l', branch f x l' a.
Proof.
  induction 1 as [b|b p l a Hp H IH]; [intros ->%list_elem_of_singleton; eexists; apply branch_one|].
  intros [->|Hx]%elem_of_cons; [|by apply IH]. eexists. by eapply branch_cons.
Qed.

Lemma branch_unique f x l a l' a' : branch f x l a → branch f x l' a' → length l = length l' → a = a'.
Proof.
  intros H. revert l' a'. induction H as [b|b p l a Hp H IH]; intros l' a' H' Hlen;
    inversion H' as [|? q m ? Hq H2]; subst; cbn in Hlen; try done.
  - destruct m; [inversion H2|done].
  - destruct l; [inversion H|done].
  - assert (q = p) as -> by congruence. eapply IH; [exact H2|lia].
Qed.

Lemma branches_apart f b1 l1 c1 b2 l2 c2 p y :
  fork_ok f → get_block f (bs_id b1) = Some b1 → get_block f (bs_id b2) = Some b2 →
  branch f b1 l1 c1 → branch f b2 l2 c2 → prev c1 = prev c2 → get_block f (prev c2) = Some p → bs_id c1 ≠ bs_id c2 →
  y ∈ l1 → apart f l2 (bs_id y).
Proof.
  intros [Hwf Hl Hok] Hb1 Hb2 H1 H2 Hprev Hp Hne Hy x Hx.
  assert (Hc1 : get_block f (bs_id c1) = Some c1).
  { eapply branch_states; [exact Hb1|done|exact H1|]. by eapply last_Some_elem_of, branch_last. }
  assert (Hc2 : get_block f (bs_id c2) = Some c2).
  { eapply branch_states; [exact Hb2|done|exact H2|]. by eapply last_Some_elem_of, branch_last. }
  pose proof (Hl _ _ _ Hc2 Hp) as Hn2. rewrite <- Hprev in Hp. pose proof (Hl _ _ _ Hc1 Hp) as Hn1. rewrite Hprev in Hp.
  pose proof (branch_states _ _ _ _ _ Hb1 Hwf H1 Hy) as Hyb.
  destruct (branch_suffix _ _ _ _ _ H1 Hy) as [ly Hly]. pose proof (branch_num _ _ _ _ Hl Hyb Hwf Hly) as Hny.
  pose proof (branch_states _ _ _ _ _ Hb2 Hwf H2 Hx) as Hxb.
  destruct (branch_suffix _ _ _ _ _ H2 Hx) as [lx Hlx]. clear Hx H2.
  assert (Hpos : (length ly ≠ 0)%nat) by by destruct Hly.
  assert (Hroot : ∀ x lx, get_block f (bs_id x) = Some x → branch f x lx c2 → bs_id x ≠ bs_id y).
  { intros z lz Hz Hlz He. rewrite He, Hyb in Hz. injection Hz as ->.
    pose proof (branch_num _ _ _ _ Hl Hyb Hwf Hlz). apply Hne. f_equal. f_equal.
    eapply branch_unique; [exact Hly|exact Hlz|lia]. }
  induction Hlx as [c2|x q lx c2 Hq Hlx IH]; intros Hb.
  - pose proof (Hroot c2 [c2] Hc2 (branch_one _ _)) as Hr.
    inversion Hb as [? Hin|? b' Hb' Hb'']; subst; [by apply list_elem_of_singleton in Hin|].
    change (get_block f (bs_id c2) = Some b') in Hb'. rewrite Hc2 in Hb'. injection Hb' as <-.
    eapply not_on_higher; [split; done|exact Hyb|exact Hp| |exact Hb'']. lia.
  - pose proof (Hroot x (x :: lx) Hxb ltac:(by eapply branch_cons)) as Hr.
    inversion Hb as [? Hin|? b' Hb' Hb'']; subst; [by apply list_elem_of_singleton in Hin|].
    change (get_block f (bs_id x) = Some b') in Hb'. rewrite Hxb in Hb'. injection Hb' as <-.
    rewrite <- (wf_ids f Hwf _ _ Hq) in Hb''. apply IH; try done. by rewrite (wf_ids f Hwf _ _ Hq).
Qed.

Lemma branch_down f b l a p :
  branch f b l a → get_block f (prev a) = Some p → Forall (λ x, is_Some (bs_block x)) l → down f b (length l) p.
Proof.
  intros Hl Hp. induction Hl as [b|b q l a Hq _ IH]; intros [Hb Hd]%Forall_cons; cbn [length].
  - eapply down_pop; [done|exact Hp|by apply down_here].
  - eapply down_pop; [done|exact Hq|by apply IH].
Qed.


(** ** Committing a produced block *)

(** [commit_block] takes over the head of the fork database before it checks
    that this is the produced block.  When another fork is better, because a
    confirmation has raised it, the block is aborted and its database session
    undone, but the other block stays the head: the database is still that of
    the old head. *)
Theorem commit_block_moves_head s d p trxs f' h :
  c_pending s = None →
  add_state (c_fork s) (BlockState p (bs_block p) true (bs_in_current_chain p)) = Some (f', Ok tt) →
  fdb_irreversible f' = fdb_irreversible (c_fork s) → head_block f' = Some h → bs_id h ≠ bs_id p →
  ∃ s', commit_block conf replaying first_block_num true (started s d (Some p) trxs) =
      Some (Throw (fc_throw_exception fork_database_exception), s') ∧
    c_head s' = h ∧ c_db s' = c_db s ∧ c_undo s' = c_undo s ∧ c_revision s' = c_revision s ∧ c_pending s' = None.
Proof.
  intros Hpend Hadd Hirr Hh Hne. unfold commit_block, mbind, X_bind, xget, xderef. cbn -[fork_operation].
  unfold xcatch_all. rewrite (fork_operation_quiet _ _ _ f' (Ok tt)); [|exact Hadd|exact Hirr]. cbn. rewrite Hh. cbn.
  unfold xasserts. rewrite bool_decide_false by done. cbn. eexists. split; [done|].
  unfold abort_block, reset_pending, undo, keep_unapplied. cbn. destruct (is_speculative conf); cbn; split_and!; try done; lia.
Qed.
End outcome.

#[local] Existing Instances small.rules small.index small.execution.

#[local] Instance small_repeatable : repeatable (rules := small.rules) (execution := small.execution).
Proof.
  split; [by eexists|]. intros i h d d' light s (_ & st & light' & s' & trxs & q & _ & Hrun & _) _. cbn in *.
  destruct (producer h =? 13); [done|]. injection Hrun as <- _ _. by do 2 eexists.
Qed.


(** Block 4 is confirmed; then block 3 is produced on top of block 2. *)
Lemma commit_block_moves_head_witness :
  let s := match push_confirmation small.conf false 1 (HeaderConfirmation (small.id 4) 1 0)
             (small.push (small.block 4 1 1) (small.push (small.block 2 1 1) small.start)) with
           | Some (_, s) => s
           | None => small.start
           end in
  let p := BlockState (small.header_state (small.id 3) 3 (small.block 3 1 2) 0) (Some (small.block 3 1 2)) false false in
  bhs_id (c_head s) = small.id 2 ∧
  match commit_block small.conf false 1 true (started s [1; 2; 3] (Some p) []) with
  | Some (Throw _, s') => bhs_id (c_head s') = small.id 4 ∧ c_db s' = [1; 2]
  | _ => False
  end.
Proof.
  intros s p. split; [vm_compute; reflexivity|].
  set (f := match add_state (c_fork s) (BlockState p (bs_block p) true (bs_in_current_chain p)) with
            | Some (f, _) => f | None => c_fork s end).
  destruct (commit_block_moves_head small.conf false 1 s [1; 2; 3] p [] f (default small.genesis (head_block f)))
    as (s' & Hrun & Hh & Hd & _).
  - vm_compute. reflexivity.
  - vm_compute. reflexivity.
  - vm_compute. reflexivity.
  - vm_compute. reflexivity.
  - vm_compute. discriminate.
  - rewrite Hrun, Hh, Hd. vm_compute. split; reflexivity.
Defined.
