(* ===== verification/BlockLog.v ===== *)
(** * The block log (block_log.hpp, block_log.cpp)

    Two files: the blocks, each followed by its position, after a header with
    the genesis state; and an index of the positions by block number.  A file is
    a list of bytes; a stream that is opened for appending writes at its end.
    The theorems show that the log implements a list of blocks, that opening it
    restores a missing or outdated index, and that a repair keeps exactly the
    blocks before the damage. *)

From S2P Require Import Prelude Exceptions Merkle Transaction Bytes BlockHeaderState ErrorState Controller.

Abbreviation size l := (Z.of_nat (length l)).

(** [fc::raw::pack] and [fc::raw::unpack] of the blocks and the genesis state;
    unpacking returns what is left of the stream. *)
Class log_codec (G B : Type) : Type := {
  pack_genesis : G → bytes;
  unpack_genesis : bytes → res (G * bytes);
  pack_block : B → bytes;
  unpack_block : bytes → res (B * bytes) }.

(** What is packed is unpacked again; a stream is read forward. *)
Class log_codec_ok (G B : Type) {codec : log_codec G B} : Prop := {
  unpack_pack_genesis g l : unpack_genesis (pack_genesis g ++ l) = Ok (g, l);
  unpack_pack_block b l : unpack_block (pack_block b ++ l) = Ok (b, l);
  unpack_block_shorter l b l' : unpack_block l = Ok (b, l') → (length l' <= length l)%nat }.

Section log.
Context {G B : Type} {codec : log_codec G B}.
Variable block_num : B → Z.
Variable block_id : B → digest_type.
Variable num_from_id : digest_type → Z.

Record block_log : Type := BlockLog {
  bl_head : option B;
  bl_head_id : digest_type;
  bl_blocks : bytes;                        (* blocks.log *)
  bl_index : bytes;                         (* blocks.index *)
  bl_genesis_written : bool;
  bl_version : Z;                           (* uint32_t *)
  bl_first : Z }.                           (* uint32_t *)

Abbreviation XL := (X block_log).

Definition min_supported_version : Z := 1.
Definition max_supported_version : Z := 2.
Definition npos : Z := 2 ^ 64 - 1.

Definition put_blocks (f : bytes) (l : block_log) : block_log :=
  BlockLog (bl_head l) (bl_head_id l) f (bl_index l) (bl_genesis_written l) (bl_version l) (bl_first l).
Definition put_index (f : bytes) (l : block_log) : block_log :=
  BlockLog (bl_head l) (bl_head_id l) (bl_blocks l) f (bl_genesis_written l) (bl_version l) (bl_first l).
Definition put_log_head (b : option B) (id : digest_type) (l : block_log) : block_log :=
  BlockLog b id (bl_blocks l) (bl_index l) (bl_genesis_written l) (bl_version l) (bl_first l).
Definition put_header (written : bool) (version first : Z) (l : block_log) : block_log :=
  BlockLog (bl_head l) (bl_head_id l) (bl_blocks l) (bl_index l) written version first.

(** ** Reading *)

Definition stream_read (f : bytes) (pos : Z) (n : nat) : res bytes :=
  if (0 <=? pos) && (pos + Z.of_nat n <=? size f) then Ok (take n (drop (Z.to_nat pos) f)) else Throw std_ios_failure.

Definition read_int (f : bytes) (pos : Z) (n : nat) : res Z := d ← stream_read f pos n; mret (le_value d).

(** The last eight bytes. *)
Definition read_last (f : bytes) : res Z := read_int f (size f - 8) 8.

Definition stream_unpack {A} (unpack : bytes → res (A * bytes)) (f : bytes) (pos : Z) : res (A * bytes) :=
  if (0 <=? pos) && (pos <=? size f) then unpack (drop (Z.to_nat pos) f) else Throw std_ios_failure.

Definition read_block (l : block_log) (pos : Z) : res (B * Z) :=
  '(b, rest) ← stream_unpack unpack_block (bl_blocks l) pos;
  mret (b, u64 (size (bl_blocks l) - size rest + 8)).

Definition get_block_pos (l : block_log) (n : Z) : res Z :=
  match bl_head l with
  | Some _ =>
      if (n <=? num_from_id (bl_head_id l)) && (n >=? bl_first l)
      then read_int (bl_index l) (8 * u32 (n - bl_first l)) 8
      else mret npos
  | None => mret npos
  end.

(** [FC_LOG_AND_RETHROW]. *)
Definition log_and_rethrow {A} (r : res A) : res A := match r with Ok a => Ok a | Throw e => Throw (fc_rethrow e) end.

Definition read_block_by_num (l : block_log) (n : Z) : res (option B) :=
  log_and_rethrow (
    pos ← get_block_pos l n;
    if negb (pos =? npos) then
      '(b, _) ← read_block l pos;
      EOS_ASSERT (block_num b =? n) reversible_blocks_exception;;
      mret (Some b)
    else mret None).

Definition read_head (l : block_log) : res (option B) :=
  if size (bl_blocks l) <=? 8 then mret None
  else
    pos ← read_last (bl_blocks l);
    if negb (pos =? npos) then '(b, _) ← read_block l pos; mret (Some b) else mret None.

(** ** Writing *)

Definition append (b : B) : XL Z :=
  xcatch_all (
    l ← xget;
    xasserts (bl_genesis_written l) block_log_append_fail;;
    let pos := u64 (size (bl_blocks l)) in
    xasserts (size (bl_index l) =? 8 * u32 (block_num b - bl_first l)) block_log_append_fail;;
    xmodify (λ l, put_blocks (bl_blocks l ++ pack_block b ++ le64 pos) l);;
    xmodify (λ l, put_index (bl_index l ++ le64 pos) l);;
    xmodify (put_log_head (Some b) (block_id b));;
    mret pos)
  (λ e, xlift (Throw (fc_rethrow e))).

Definition reset (gs : G) (first_block : option B) (first_block_num : Z) : XL unit :=
  xmodify (put_blocks []);;
  xmodify (put_index []);;
  l ← xget;
  xmodify (put_header (bl_genesis_written l) 0 first_block_num);;
  xmodify (put_blocks (le32 0 ++ le32 first_block_num ++ pack_genesis gs));;
  xmodify (put_header true 0 first_block_num);;
  xmodify (λ l, put_blocks (bl_blocks l ++ le64 npos) l);;
  (match first_block with Some b => append b;; mret tt | None => mret tt end);;
  xmodify (put_header true max_supported_version first_block_num);;
  xmodify (λ l, put_blocks (le32 max_supported_version ++ drop 4 (bl_blocks l)) l).

(** ** The index *)

Fixpoint index_loop (fuel : nat) (end_pos pos : Z) (rest : bytes) : XL unit :=
  if pos <? end_pos then
    match fuel with
    | O => λ _, None
    | S fuel =>
        '(_, rest) ← xlift (unpack_block rest);
        '(pos, rest) ← xlift (take_int 8 rest);
        xmodify (λ l, put_index (bl_index l ++ le64 pos) l);;
        index_loop fuel end_pos pos rest
    end
  else mret tt.

Definition construct_index : XL unit :=
  xmodify (put_index []);;
  l ← xget;
  end_pos ← xlift (read_last (bl_blocks l));
  let pos := if bl_version l =? 1 then 4 else 8 in
  '(_, rest) ← xlift (stream_unpack unpack_genesis (bl_blocks l) pos);
  rest ← (if bl_version l >? 1 then '(_, rest) ← xlift (take_int 8 rest); mret rest else mret rest);
  index_loop (S (length rest)) end_pos pos rest.

(** [None]: a null pointer is dereferenced. *)
Definition open : XL unit :=
  l ← xget;
  if negb (size (bl_blocks l) =? 0) then
    xmodify (put_header (bl_genesis_written l) 0 (bl_first l));;
    version ← xlift (read_int (bl_blocks l) 0 4);
    xmodify (put_header (bl_genesis_written l) version (bl_first l));;
    xasserts (version >? 0) block_log_exception;;
    xasserts ((version >=? min_supported_version) && (version <=? max_supported_version)) block_log_unsupported_version;;
    (if version >? 1 then
       xmodify (put_header true version 0);;
       first_block_num ← xlift (read_int (bl_blocks l) 4 4);
       xmodify (put_header true version first_block_num);;
       xasserts (first_block_num >? 0) block_log_exception
     else xmodify (put_header true version 1));;
    head ← xlift (read_head l);
    b ← xderef head;
    xmodify (put_log_head (Some b) (block_id b));;
    if negb (size (bl_index l) =? 0) then
      block_pos ← xlift (read_last (bl_blocks l));
      index_pos ← xlift (read_last (bl_index l));
      if block_pos <? index_pos then construct_index
      else if block_pos >? index_pos then construct_index
      else mret tt
    else construct_index
  else if negb (size (bl_index l) =? 0) then xmodify (put_index [])
  else mret tt.

(** A new object for the files of a directory. *)
Definition closed (blocks index : bytes) : block_log := BlockLog None digest_zero blocks index false 0 0.

(** ** Repair *)

(** The loop of [repair_log]: [pos] is the position in both files, [rest] what
    is left of the old one.  A block that cannot be read, or that is not
    followed by its position, ends the loop. *)
Fixpoint repair_loop (fuel : nat) (truncate_at_block end_pos pos : Z) (rest new : bytes) : option bytes :=
  if pos <? end_pos then
    match fuel with
    | O => None
    | S fuel =>
        match unpack_block rest with
        | Throw _ => Some new
        | Ok (tmp, rest) =>
            match take_int 8 rest with
            | Ok (tmp_pos, rest) =>
                if negb (pos =? tmp_pos) then Some new
                else
                  let new := new ++ pack_block tmp ++ le64 pos in
                  if block_num tmp =? truncate_at_block then Some new
                  else repair_loop fuel truncate_at_block end_pos (size new) rest new
            | Throw _ => Some new
            end
        end
    end
  else Some new.

(** The blocks that the new blocks.log holds.  The streams do not throw: what
    cannot be read of the header stays as it was, which is [None] here. *)
Definition repair_log (old : bytes) (truncate_at_block : Z) : option (res bytes) :=
  let version := le_value (take 4 old) in
  if negb (version >? 0) then Some (EOS_THROW block_log_exception)
  else if negb ((version >=? min_supported_version) && (version <=? max_supported_version))
  then Some (EOS_THROW block_log_unsupported_version)
  else
    '(first_block_num, pos) ← (if negb (version =? 1)
                               then match read_int old 4 4 with Ok n => Some (le32 n, 8) | Throw _ => None end
                               else Some ([], 4));
    match stream_unpack unpack_genesis old pos with
    | Throw _ => None
    | Ok (gs, rest) =>
        let new := le32 version ++ first_block_num ++ pack_genesis gs in
        if negb (version =? 1) then
          match take_int 8 rest with
          | Throw _ => None
          | Ok (actual_totem, rest) =>
              if negb (actual_totem =? npos) then Some (EOS_THROW block_log_exception)
              else
                let new := new ++ le64 actual_totem in
                Ok <$> repair_loop (S (length rest)) truncate_at_block (size old) (size old - size rest) rest new
          end
        else Ok <$> repair_loop (S (length rest)) truncate_at_block (size old) (size old - size rest) rest new
    end.

Definition extract_genesis_state (f : bytes) : option (res G) :=
  let version := le_value (take 4 f) in
  if negb (version >? 0) then Some (EOS_THROW block_log_exception)
  else if negb ((version >=? min_supported_version) && (version <=? max_supported_version))
  then Some (EOS_THROW block_log_unsupported_version)
  else
    match stream_unpack unpack_genesis f (if negb (version =? 1) then 8 else 4) with
    | Ok (gs, _) => Some (Ok gs)
    | Throw _ => None
    end.
End log.

(** ** Reading integers *)

Lemma read_int_le f l1 n x l2 :
  f = l1 ++ le_bytes n x ++ l2 → 0 <= x < 2 ^ (8 * Z.of_nat n) → read_int f (size l1) n = Ok x.
Proof.
  intros -> Hx. unfold read_int, stream_read. rewrite !length_app, le_bytes_length.
  rewrite (proj2 (Z.leb_le 0 (size l1))), (proj2 (Z.leb_le _ _)) by lia. cbn [andb mbind result_bind].
  rewrite Nat2Z.id, drop_app_length, take_app_length' by (by rewrite le_bytes_length). by rewrite le_value_bytes.
Qed.

Lemma read_last_le l x : 0 <= x < 2 ^ 64 → read_last (l ++ le64 x) = Ok x.
Proof.
  intros Hx. unfold read_last. rewrite length_app, le_bytes_length. replace (Z.of_nat (length l + 8) - 8) with (size l) by lia.
  apply (read_int_le _ _ _ _ []); [by rewrite app_nil_r|done].
Qed.

Section correctness.
Context {G B : Type} {codec : log_codec G B} {codec_ok : log_codec_ok G B}.
Variable block_num : B → Z.
Variable block_id : B → digest_type.
Variable num_from_id : digest_type → Z.
(** The id of a block carries its number, which is a [uint32_t]. *)
Hypothesis num_from_block_id : ∀ b, num_from_id (block_id b) = block_num b.
Hypothesis block_num_range : ∀ b, is_unsigned 32 (block_num b).
Implicit Types (bs : list B).


(** ** The contents of the files *)

Definition log_header (gs : G) (first : Z) : bytes := le32 max_supported_version ++ le32 first ++ pack_genesis gs ++ le64 npos.

Fixpoint entries (pos : Z) (bs : list B) : bytes :=
  match bs with
  | [] => []
  | b :: bs => pack_block b ++ le64 pos ++ entries (pos + size (pack_block b) + 8) bs
  end.

Fixpoint positions (pos : Z) (bs : list B) : list Z :=
  match bs with
  | [] => []
  | b :: bs => pos :: positions (pos + size (pack_block b) + 8) bs
  end.

Definition log_file (gs : G) (first : Z) (bs : list B) : bytes :=
  log_header gs first ++ entries (size (log_header gs first)) bs.
Definition index_file (gs : G) (first : Z) (bs : list B) : bytes :=
  concat (le64 <$> positions (size (log_header gs first)) bs).

(** The log [l] holds the blocks [bs], whose numbers start with [first]. *)
Record holds (gs : G) (first : Z) (bs : list B) (l : @block_log B) : Prop := {
  ho_blocks : bl_blocks l = log_file gs first bs;
  ho_index : bl_index l = index_file gs first bs;
  ho_head : bl_head l = last bs;
  ho_head_id b : last bs = Some b → bl_head_id l = block_id b;
  ho_written : bl_genesis_written l = true;
  ho_version : bl_version l = max_supported_version;
  ho_first : bl_first l = first;
  ho_first_range : 0 < first < 2 ^ 32;
  ho_numbers i b : bs !! i = Some b → block_num b = first + Z.of_nat i;
  ho_size : size (bl_blocks l) < npos }.

Lemma entries_app pos bs1 bs2 : entries pos (bs1 ++ bs2) = entries pos bs1 ++ entries (pos + size (entries pos bs1)) bs2.
Proof.
  revert pos. induction bs1 as [|b bs1 IH]; intros pos; cbn [entries app]; [f_equal; cbn; lia|].
  rewrite IH, <- !app_assoc. do 3 f_equal. rewrite !length_app, le_bytes_length. f_equal. lia.
Qed.

Lemma positions_app pos bs1 bs2 : positions pos (bs1 ++ bs2) = positions pos bs1 ++ positions (pos + size (entries pos bs1)) bs2.
Proof.
  revert pos. induction bs1 as [|b bs1 IH]; intros pos; cbn [entries positions app]; [f_equal; cbn; lia|].
  rewrite IH. do 2 f_equal. rewrite !length_app, le_bytes_length. f_equal. lia.
Qed.

Lemma positions_length pos bs : length (positions pos bs) = length bs.
Proof. revert pos. induction bs as [|b bs IH]; intros pos; cbn; [done|by rewrite IH]. Qed.

Lemma index_file_length gs first bs : length (index_file gs first bs) = (8 * length bs)%nat.
Proof.
  unfold index_file. rewrite <- (positions_length (size (log_header gs first)) bs).
  induction (positions _ bs) as [|p ps IH]; cbn [fmap list_fmap concat length]; [done|].
  rewrite length_app, le_bytes_length, IH. lia.
Qed.

(** A block in the middle of the file, and where it starts. *)
Lemma log_file_split gs first bs i b :
  (bs !! i : option B) = Some b → ∃ l1 l2 : bytes,
    log_file gs first bs = l1 ++ pack_block b ++ le64 (size l1) ++ l2 ∧
    positions (size (log_header gs first)) bs !! i = Some (size l1) ∧
    l1 = log_file gs first (take i bs).
Proof.
  intros Hb. pose proof (take_drop_middle bs i b Hb) as Hbs. exists (log_file gs first (take i bs)). eexists.
  assert (Hi : length (take i bs) = i) by (rewrite length_take; apply lookup_lt_Some in Hb; lia).
  split_and!; [| |done].
  - rewrite <- Hbs at 1. unfold log_file. rewrite entries_app. cbn [entries]. rewrite <- !app_assoc. rewrite length_app, Nat2Z.inj_add. done.
  - rewrite <- Hbs at 1. unfold log_file. rewrite positions_app, lookup_app_r by (by rewrite positions_length, Hi). rewrite positions_length, Hi, Nat.sub_diag.
    cbn [positions]. rewrite (length_app (log_header gs first)), Nat2Z.inj_add. done.
Qed.

Lemma concat_le64_length ps : length (concat (le64 <$> ps)) = (8 * length ps)%nat.
Proof. induction ps as [|p ps IH]; cbn [fmap list_fmap concat length]; [done|]. rewrite length_app, le_bytes_length, IH. lia. Qed.

Lemma read_index ps i p :
  (ps !! i : option Z) = Some p → 0 <= p < 2 ^ 64 → read_int (concat (le64 <$> ps)) (8 * Z.of_nat i) 8 = Ok p.
Proof.
  intros Hp Hr. pose proof (take_drop_middle ps i p Hp) as Hps.
  assert (Hi : length (take i ps) = i) by (rewrite length_take; apply lookup_lt_Some in Hp; lia).
  replace (8 * Z.of_nat i) with (size (concat (le64 <$> take i ps))) by (rewrite concat_le64_length, Hi; lia).
  eapply read_int_le; [|done]. rewrite <- Hps at 1. rewrite fmap_app, concat_app. cbn [fmap list_fmap concat]. done.
Qed.

Lemma read_block_holds gs first bs (l : @block_log B) i b :
  holds gs first bs l → (bs !! i : option B) = Some b →
  ∃ p, positions (size (log_header gs first)) bs !! i = Some p ∧ 0 <= p < npos ∧ ∃ next, read_block l p = Ok (b, next).
Proof.
  intros Hl Hb. destruct (log_file_split gs first bs i b Hb) as (l1 & l2 & Hf & Hp & _). exists (size l1).
  pose proof (ho_size _ _ _ _ Hl) as Hs. rewrite (ho_blocks _ _ _ _ Hl), Hf, !length_app in Hs.
  split_and!; [done|lia|lia|]. unfold read_block, stream_unpack. rewrite (ho_blocks _ _ _ _ Hl), Hf.
  rewrite (proj2 (Z.leb_le 0 _)), (proj2 (Z.leb_le (size l1) _)) by (rewrite ?length_app; lia). cbn [andb].
  rewrite Nat2Z.id, drop_app_length, unpack_pack_block. cbn [mbind result_bind]. by eexists.
Qed.

(** *** Looking up a block *)

Lemma head_number gs first bs (l : @block_log B) b :
  holds gs first bs l → last bs = Some b → num_from_id (bl_head_id l) = first + Z.of_nat (length bs) - 1.
Proof.
  intros Hl Hb. rewrite (ho_head_id _ _ _ _ Hl b Hb), num_from_block_id. rewrite last_lookup in Hb.
  pose proof (lookup_lt_Some _ _ _ Hb). rewrite (ho_numbers _ _ _ _ Hl _ _ Hb). lia.
Qed.

Lemma read_block_by_num_holds gs first bs (l : @block_log B) n :
  holds gs first bs l → 0 <= n < 2 ^ 32 →
  read_block_by_num block_num num_from_id l n = Ok (if n <? first then None else bs !! Z.to_nat (n - first)).
Proof.
  intros Hl Hn. unfold read_block_by_num, get_block_pos. rewrite (ho_head _ _ _ _ Hl).
  destruct (last bs) as [h|] eqn:Hh.
  2:{ apply last_None in Hh as ->. cbn. by destruct (n <? first). }
  rewrite (head_number _ _ _ _ _ Hl Hh), (ho_first _ _ _ _ Hl).
  assert (Hlen : (0 < length bs)%nat) by (destruct bs; [done|cbn; lia]).
  rewrite Z.geb_leb. destruct (Z.ltb_spec n first) as [Hlt|Hge].
  { rewrite (proj2 (Z.leb_gt first n)), andb_false_r by done. cbn. by rewrite Z.eqb_refl. }
  rewrite (proj2 (Z.leb_le first n)), andb_true_r by done. destruct (Z.leb_spec n (first + size bs - 1)) as [Hle|Hgt].
  2:{ cbn. rewrite Z.eqb_refl. cbn. f_equal. symmetry. apply lookup_ge_None_2. lia. }
  rewrite (wrap_id 32) by (pose proof (ho_first_range _ _ _ _ Hl); unfold is_unsigned; lia).
  destruct (lookup_lt_is_Some_2 bs (Z.to_nat (n - first))) as [b Hb]; [lia|].
  destruct (read_block_holds _ _ _ _ _ _ Hl Hb) as (q & Hq & Hr & next & Hread).
  rewrite (ho_index _ _ _ _ Hl). unfold index_file. replace (n - first) with (Z.of_nat (Z.to_nat (n - first))) at 1 by lia.
  unfold npos in Hr. rewrite (read_index _ _ q Hq) by lia. cbn [mbind result_bind].
  rewrite (proj2 (Z.eqb_neq q npos)) by (unfold npos; lia). cbn [negb]. rewrite Hread. cbn [mbind result_bind].
  rewrite (ho_numbers _ _ _ _ Hl _ _ Hb), (proj2 (Z.eqb_eq _ n)) by lia. rewrite EOS_ASSERT_pass by done. by rewrite Hb.
Qed.

(** The last eight bytes are the position of the last block, or the separator. *)
Lemma log_file_last gs first bs :
  size (log_file gs first bs) < npos →
  read_last (log_file gs first bs) = Ok (default npos (last (positions (size (log_header gs first)) bs))).
Proof.
  intros Hs. destruct bs as [|b bs _] using rev_ind.
  - unfold log_file, log_header. cbn [entries positions]. by rewrite app_nil_r, !app_assoc, read_last_le.
  - unfold log_file in *. rewrite positions_app, entries_app in *. cbn [positions entries]. rewrite last_snoc. cbn [default].
    rewrite app_nil_r, !app_assoc, read_last_le; [done|]. rewrite !length_app in Hs. unfold npos in Hs. lia.
Qed.

Lemma read_head_holds gs first bs (l : @block_log B) : holds gs first bs l → read_head l = Ok (last bs).
Proof.
  intros Hl. pose proof (ho_size _ _ _ _ Hl) as Hs. unfold read_head. rewrite (ho_blocks _ _ _ _ Hl) in *.
  assert (Hlong : 8 < size (log_file gs first bs)) by (unfold log_file, log_header; rewrite !length_app, !le_bytes_length; lia).
  rewrite (proj2 (Z.leb_gt _ 8)), log_file_last by done. cbn [mbind result_bind].
  destruct (last bs) as [b|] eqn:Hb; [|by apply last_None in Hb as ->].
  rewrite last_lookup in Hb. destruct (read_block_holds _ _ _ _ _ _ Hl Hb) as (q & Hq & Hr & next & Hread).
  rewrite last_lookup, positions_length, Hq. change (default npos (Some q)) with q. rewrite (proj2 (Z.eqb_neq _ npos)) by lia. cbn [negb]. by rewrite Hread.
Qed.

(** *** Appending a block *)

(** Where the index has as many entries as there are blocks before. *)
Lemma append_at b (l : @block_log B) :
  bl_genesis_written l = true → size (bl_index l) = 8 * u32 (block_num b - bl_first l) →
  let pos := u64 (size (bl_blocks l)) in
  append block_num block_id b l =
    Some (Ok pos, BlockLog (Some b) (block_id b) (bl_blocks l ++ pack_block b ++ le64 pos) (bl_index l ++ le64 pos)
                    true (bl_version l) (bl_first l)).
Proof.
  intros Hw Hi pos. unfold append, xcatch_all, xget, xasserts, xlift, xmodify, mbind, X_bind, mret, X_ret. fold pos.
  rewrite Hi, Z.eqb_refl, Hw. cbn [EOS_ASSERT]. do 2 f_equal. clearbody pos. destruct l. cbn in Hw. by subst.
Qed.

Lemma append_holds gs first bs (l : @block_log B) b :
  holds gs first bs l → block_num b = first + size bs → size (bl_blocks l) + size (pack_block b) + 8 < npos →
  ∃ l', append block_num block_id b l = Some (Ok (size (bl_blocks l)), l') ∧ holds gs first (bs ++ [b]) l'.
Proof.
  intros Hl Hb Hsz. pose proof (block_num_range b) as Hr. pose proof (ho_first_range _ _ _ _ Hl). unfold is_unsigned in Hr.
  rewrite append_at; [|apply Hl|].
  2:{ rewrite (ho_index _ _ _ _ Hl), index_file_length, (ho_first _ _ _ _ Hl), Hb, (wrap_id 32) by (unfold is_unsigned; lia). lia. }
  rewrite (wrap_id 64) by (unfold npos in Hsz; unfold is_unsigned; lia). eexists. split; [done|].
  constructor; cbn [bl_blocks bl_index bl_head bl_head_id bl_genesis_written bl_version bl_first].
  - rewrite (ho_blocks _ _ _ _ Hl). unfold log_file. rewrite entries_app. cbn [entries]. rewrite app_nil_r, <- app_assoc.
    by rewrite length_app, Nat2Z.inj_add.
  - rewrite (ho_index _ _ _ _ Hl), (ho_blocks _ _ _ _ Hl). unfold index_file. rewrite positions_app, fmap_app, concat_app. cbn [positions fmap list_fmap concat].
    unfold log_file. by rewrite app_nil_r, length_app, Nat2Z.inj_add.
  - by rewrite last_snoc.
  - intros b'. rewrite last_snoc. by intros [= ->].
  - done.
  - apply Hl.
  - apply Hl.
  - done.
  - intros i b'. rewrite lookup_app_Some. intros [Hi|[Hi Hi']]; [by apply (ho_numbers _ _ _ _ Hl)|].
    apply list_lookup_singleton_Some in Hi' as [Hi' ->]. lia.
  - rewrite !length_app, le_bytes_length. unfold npos in *. lia.
Qed.

Lemma append_refused gs first bs (l : @block_log B) b :
  holds gs first bs l → block_num b ≠ first + size bs → first + size bs < 2 ^ 32 → append block_num block_id b l = Some (Throw block_log_append_fail, l).
Proof.
  intros Hl Hb Hlen. pose proof (block_num_range b) as Hr. pose proof (ho_first_range _ _ _ _ Hl). unfold is_unsigned in Hr.
  unfold append, xcatch_all, xget, xasserts, xlift, mbind, X_bind.
  rewrite (ho_written _ _ _ _ Hl), (ho_index _ _ _ _ Hl), index_file_length, (ho_first _ _ _ _ Hl).
  rewrite (proj2 (Z.eqb_neq _ _)); [done|]. unfold wrap. div_lia.
Qed.

(** *** The index *)

Lemma put_index_same (l : @block_log B) : put_index (bl_index l) l = l.
Proof. by destruct l. Qed.

Lemma positions_last_le p bs q : last (positions p bs) = Some q → p <= q.
Proof.
  revert p. induction bs as [|b bs IH]; intros p; [done|]. cbn [positions]. rewrite last_cons.
  destruct (last (positions _ bs)) as [q'|] eqn:Hq; intros [= <-]; [|lia]. apply IH in Hq. lia.
Qed.

Lemma index_loop_entries bs fuel p prev (l : @block_log B) :
  (length bs <= fuel)%nat → prev < p → 0 <= p → p + size (entries p bs) < 2 ^ 64 →
  index_loop fuel (default prev (last (positions p bs))) prev (entries p bs) l =
  Some (Ok tt, put_index (bl_index l ++ concat (le64 <$> positions p bs)) l).
Proof.
  revert fuel p prev l. induction bs as [|b bs IH]; intros fuel p prev l Hfuel Hprev Hp Hsz.
  - destruct fuel; cbn; rewrite Z.ltb_irrefl, app_nil_r, put_index_same; done.
  - destruct fuel as [|fuel]; [cbn in Hfuel; lia|]. cbn [entries positions] in *. rewrite !length_app, le_bytes_length in Hsz.
    assert (Hend : default prev (last (p :: positions (p + size (pack_block b) + 8) bs)) =
                   default p (last (positions (p + size (pack_block b) + 8) bs))).
    { rewrite last_cons. by destruct (last _). }
    rewrite Hend. cbn [index_loop].
    assert (Hlt : prev < default p (last (positions (p + size (pack_block b) + 8) bs))).
    { clear Hend; destruct (last _) as [q|] eqn:Hq; cbn; [apply positions_last_le in Hq; lia|lia]. }
    rewrite (proj2 (Z.ltb_lt _ _) Hlt). unfold xlift, xmodify, mbind, X_bind. rewrite unpack_pack_block, take_int_le by lia.
    unfold mbind, X_bind in IH. rewrite IH; [|cbn in Hfuel; lia|lia|lia|lia]. cbn [put_index bl_index fmap list_fmap concat].
    by rewrite <- app_assoc.
Qed.

Lemma entries_length p bs : (length bs <= length (entries p bs))%nat.
Proof. revert p. induction bs as [|b bs IH]; intros p; cbn [entries length]; [lia|]. rewrite !length_app, le_bytes_length. specialize (IH (p + size (pack_block b) + 8)). lia. Qed.

Lemma construct_index_file gs first bs (l : @block_log B) :
  bs ≠ [] → bl_blocks l = log_file gs first bs → bl_version l = max_supported_version → size (bl_blocks l) < npos →
  construct_index (G := G) l = Some (Ok tt, put_index (index_file gs first bs) l).
Proof.
  intros Hne Hf Hv Hs. unfold construct_index, xmodify, xget, xlift, mbind, X_bind, mret, X_ret.
  cbn [put_index bl_blocks bl_version]. rewrite Hv, Hf in *. rewrite log_file_last by done. change (max_supported_version =? 1) with false. cbv iota.
  assert (Hgen : stream_unpack unpack_genesis (log_file gs first bs) 8 = Ok (gs, le64 npos ++ entries (size (log_header gs first)) bs)).
  { unfold stream_unpack. rewrite (proj2 (Z.leb_le 8 _)) by (unfold log_file, log_header; rewrite !length_app, !le_bytes_length; lia).
    cbn [Z.leb Z.compare andb]. unfold log_file, log_header. rewrite <- !app_assoc, app_assoc.
    rewrite (drop_app_length' (le32 _ ++ le32 _)) by (by rewrite length_app, !le_bytes_length). apply unpack_pack_genesis. }
  rewrite Hgen. change (max_supported_version >? 1) with true. cbv iota. rewrite take_int_le by done.
  assert (Hpos : 8 < size (log_header gs first)) by (unfold log_header; rewrite !length_app, !le_bytes_length; lia).
  assert (Hlast : default npos (last (positions (size (log_header gs first)) bs)) = default 8 (last (positions (size (log_header gs first)) bs))).
  { destruct bs as [|b bs]; [done|]. cbn [positions]. rewrite last_cons. by destruct (last _). }
  rewrite Hlast, index_loop_entries; [done| |done|lia|].
  - pose proof (entries_length (size (log_header gs first)) bs). lia.
  - unfold log_file in Hs. rewrite length_app in Hs. unfold npos in Hs. lia.
Qed.

(** *** Opening *)

(** The index file is up to date, empty, or ends with another position. *)
Definition recoverable (l : @block_log B) (index : bytes) : Prop :=
  index = bl_index l ∨ index = [] ∨ ∃ p q, read_last index = Ok p ∧ read_last (bl_blocks l) = Ok q ∧ p ≠ q.

Lemma index_file_last gs first bs p :
  last (positions (size (log_header gs first)) bs) = Some p → 0 <= p < 2 ^ 64 → read_last (index_file gs first bs) = Ok p.
Proof.
  intros Hp Hr. unfold index_file. apply last_Some in Hp as [ps ->]. rewrite fmap_app, concat_app. cbn [fmap list_fmap concat].
  by rewrite app_nil_r, read_last_le.
Qed.

Lemma log_file_version gs first bs : read_int (log_file gs first bs) 0 4 = Ok max_supported_version.
Proof. unfold log_file, log_header. rewrite <- !app_assoc. by eapply (read_int_le _ [] 4 max_supported_version). Qed.

Lemma log_file_first gs first bs : 0 < first < 2 ^ 32 → read_int (log_file gs first bs) 4 4 = Ok first.
Proof.
  intros Hf. unfold log_file, log_header. rewrite <- !app_assoc.
  eapply (read_int_le _ (le32 max_supported_version) 4 first); [done|cbn; lia].
Qed.

Lemma put_blocks_same (l : @block_log B) : put_blocks (bl_blocks l) l = l.
Proof. by destruct l. Qed.

Lemma holds_eq gs first bs (l : @block_log B) b :
  holds gs first bs l → last bs = Some b →
  l = BlockLog (Some b) (block_id b) (log_file gs first bs) (index_file gs first bs) true max_supported_version first.
Proof. intros [H1 H2 H3 H4 H5 H6 H7 _ _ _] Hb. destruct l. cbn in *. subst. by rewrite Hb, (H4 b Hb). Qed.

(** Opening a file that has a header goes on with its last block. *)
Lemma open_start gs first bs index :
  0 < first < 2 ^ 32 →
  let l := closed (log_file gs first bs) index in
  open block_id l =
    (head ← xlift (read_head l);
     b ← xderef head;
     xmodify (put_log_head (Some b) (block_id b));;
     if negb (size index =? 0) then
       block_pos ← xlift (read_last (log_file gs first bs));
       index_pos ← xlift (read_last index);
       if block_pos <? index_pos then construct_index
       else if block_pos >? index_pos then construct_index
       else mret tt
     else construct_index) (put_header true max_supported_version first l).
Proof.
  intros Hfirst l. subst l.
  assert (Hlong : 8 < size (log_file gs first bs)) by (unfold log_file, log_header; rewrite !length_app, !le_bytes_length; lia).
  unfold open, xasserts, xget, mbind at 1, X_bind at 1. cbn [closed bl_blocks bl_index].
  rewrite (proj2 (Z.eqb_neq (size (log_file gs first bs)) 0)) by lia. cbn [negb].
  unfold xlift, xmodify, mbind, X_bind, mret, X_ret. rewrite log_file_version. cbn [EOS_ASSERT Z.gtb Z.compare Pos.compare Pos.compare_cont max_supported_version].
  change (EOS_ASSERT _ block_log_unsupported_version) with (Ok tt : res unit) at 1. cbv iota. rewrite log_file_first by done.
  rewrite (proj2 (Z.gtb_lt first 0)) by lia. done.
Qed.

Lemma open_holds gs first bs (l : @block_log B) index :
  holds gs first bs l → bs ≠ [] → recoverable l index → open block_id (closed (bl_blocks l) index) = Some (Ok tt, l).
Proof.
  intros Hl Hne Hi. pose proof (ho_size _ _ _ _ Hl) as Hs.
  destruct (last bs) as [b|] eqn:Hb; [|by apply last_None in Hb].
  pose proof (read_head_holds _ _ _ _ Hl) as Hread. rewrite <- (put_blocks_same l), (ho_blocks _ _ _ _ Hl) in Hread.
  rewrite (ho_blocks _ _ _ _ Hl), open_start by apply Hl.
  change (read_head (closed (log_file gs first bs) index)) with (read_head (put_blocks (log_file gs first bs) l)). rewrite Hread, Hb.
  unfold xlift, xmodify, xderef, mbind, X_bind, mret, X_ret. cbn [fmap option_fmap option_map].
  set (o := put_log_head (Some b) (block_id b) (put_header true max_supported_version first (closed (log_file gs first bs) index))).
  rewrite (ho_blocks _ _ _ _ Hl) in Hs.
  assert (Hc : construct_index o = Some (Ok tt, l)).
  { rewrite (construct_index_file gs first bs) by done. by rewrite (holds_eq _ _ _ _ _ Hl Hb). }
  destruct (Z.eqb_spec (size index) 0) as [H0|H0]; cbn [negb]; [exact Hc|]. rewrite log_file_last by done.
  destruct Hi as [Hi|[->|(p & q & Hp & Hq & Hpq)]]; [|done|].
  - destruct (last (positions (size (log_header gs first)) bs)) as [p|] eqn:Hp.
    2:{ apply last_None in Hp. apply (f_equal length) in Hp. rewrite positions_length in Hp. by destruct bs. }
    rewrite Hi, (ho_index _ _ _ _ Hl), (index_file_last _ _ _ p Hp).
    2:{ rewrite last_lookup, positions_length in Hp. rewrite last_lookup in Hb.
        destruct (read_block_holds _ _ _ _ _ _ Hl Hb) as (q & Hq & Hr & _). rewrite Hq in Hp. injection Hp as ->. unfold npos in Hr. lia. }
    change (default npos (Some p)) with p. rewrite Z.gtb_ltb, Z.ltb_irrefl. unfold o. rewrite Hi, (ho_index _ _ _ _ Hl).
    by rewrite (holds_eq _ _ _ _ _ Hl Hb).
  - rewrite (ho_blocks _ _ _ _ Hl), log_file_last in Hq by done.
    assert (default npos (last (positions (size (log_header gs first)) bs)) = q) as -> by congruence. rewrite Hp.
    rewrite Z.gtb_ltb. destruct (Z.ltb_spec q p); [exact Hc|]. by rewrite (proj2 (Z.ltb_lt p q)) by lia.
Qed.

(** A log without blocks cannot be opened: the head is null. *)
Lemma open_without_blocks gs first (l : @block_log B) index :
  holds gs first [] l → open block_id (closed (bl_blocks l) index) = None.
Proof.
  intros Hl. pose proof (read_head_holds _ _ _ _ Hl) as Hread. rewrite <- (put_blocks_same l), (ho_blocks _ _ _ _ Hl) in Hread.
  rewrite (ho_blocks _ _ _ _ Hl), open_start by apply Hl.
  change (read_head (closed (log_file gs first []) index)) with (read_head (put_blocks (log_file gs first []) l)). by rewrite Hread.
Qed.

(** *** A new log *)

Definition log_with (gs : G) (first : Z) (bs : list B) (id : digest_type) : @block_log B :=
  BlockLog (last bs) id (log_file gs first bs) (index_file gs first bs) true max_supported_version first.

Lemma log_with_holds gs first bs id :
  0 < first < 2 ^ 32 → (∀ i b, bs !! i = Some b → block_num b = first + Z.of_nat i) → size (log_file gs first bs) < npos →
  (∀ b, last bs = Some b → id = block_id b) → holds gs first bs (log_with gs first bs id).
Proof. intros Hf Hn Hs Hid. by constructor. Qed.

(** The header while the log is being set up. *)
Lemma header_rewritten gs first (f : bytes) :
  le32 max_supported_version ++ drop 4 (((le32 0 ++ le32 first ++ pack_genesis gs) ++ le64 npos) ++ f) = log_header gs first ++ f.
Proof. unfold log_header. by rewrite <- !app_assoc, (drop_app_length' (le32 0)) by done. Qed.

Lemma reset_holds gs first (b : option B) (l : @block_log B) :
  0 < first < 2 ^ 32 → (b = None → bl_head l = None) → (∀ x, b = Some x → block_num x = first) →
  size (log_file gs first (option_list b)) < npos →
  ∃ l', reset block_num block_id gs b first l = Some (Ok tt, l') ∧ holds gs first (option_list b) l'.
Proof.
  intros Hf Hn Hb Hs. unfold reset, xget, xmodify, mbind, X_bind, mret, X_ret.
  exists (log_with gs first (option_list b) (match b with Some b => block_id b | None => bl_head_id l end)). split.
  - destruct b as [b|]; [change (option_list (Some b)) with [b] in *|change (option_list None) with ([] : list B) in *].
    + assert (Hsz : size ((le32 0 ++ le32 first ++ pack_genesis gs) ++ le64 npos) = size (log_header gs first)).
      { unfold log_header. rewrite !length_app, !le_bytes_length. lia. }
      rewrite append_at; [|done|cbn; by rewrite (Hb b eq_refl), Z.sub_diag].
      cbn [put_blocks put_index put_header bl_genesis_written bl_index bl_blocks bl_first bl_head bl_head_id bl_version].
      rewrite Hsz, (wrap_id 64) by (unfold log_file in Hs; rewrite length_app in Hs; unfold npos in Hs; unfold is_unsigned; lia).
      rewrite header_rewritten. unfold log_with, log_file, index_file. cbn [entries positions fmap list_fmap concat app last].
      by rewrite !app_nil_r.
    + unfold put_blocks, put_index, put_header, log_with.
      cbn [bl_genesis_written bl_index bl_blocks bl_first bl_head bl_head_id bl_version last]. rewrite Hn by done.
      pose proof (header_rewritten gs first []) as He. rewrite !app_nil_r in He. rewrite He. unfold log_file. cbn [entries]. by rewrite app_nil_r.
  - apply log_with_holds; [done| |done|].
    + intros i x Hx. destruct b as [b|]; [|done]. apply list_lookup_singleton_Some in Hx as [-> ->]. rewrite (Hb x eq_refl). lia.
    + destruct b as [b|]; [|done]. by intros b' [= ->].
Qed.

(** ** The log as a list of blocks *)

(** Anything that happens to a log after it was set up: blocks are appended or
    refused, and the node is started again with an index that is complete,
    missing or out of date.  The files have less than 2^64 - 1 bytes. *)
Inductive log_history (gs : G) (first : Z) : list B → @block_log B → Prop :=
  | history_reset (b : option B) (l l' : @block_log B) :
      (b = None → bl_head l = None) → (∀ x, b = Some x → block_num x = first) →
      reset block_num block_id gs b first l = Some (Ok tt, l') →
      size (log_file gs first (option_list b)) < npos → log_history gs first (option_list b) l'
  | history_append bs (l l' : @block_log B) b r :
      log_history gs first bs l → first + size bs < 2 ^ 32 → append block_num block_id b l = Some (r, l') →
      size (bl_blocks l) + size (pack_block b) + 8 < npos →
      log_history gs first (match r with Ok _ => bs ++ [b] | Throw _ => bs end) l'
  | history_open bs (l l' : @block_log B) index r :
      log_history gs first bs l → bs ≠ [] → recoverable l index →
      open block_id (closed (bl_blocks l) index) = Some (r, l') → log_history gs first bs l'.

Lemma log_history_holds gs first bs (l : @block_log B) : 0 < first < 2 ^ 32 → log_history gs first bs l → holds gs first bs l.
Proof.
  intros Hf. induction 1 as [b l l' Hn Hb Hr Hs|bs l l' b r _ IH Hlen Ha Hs|bs l l' index r _ IH Hne Hi Ho].
  - destruct (reset_holds gs first b l Hf Hn Hb Hs) as (l2 & Hr2 & Hl2). congruence.
  - destruct (decide (block_num b = first + size bs)) as [Heq|Hneq].
    + destruct (append_holds _ _ _ _ _ IH Heq Hs) as (l2 & Ha2 & Hl2). rewrite Ha in Ha2. by injection Ha2 as -> ->.
    + rewrite (append_refused _ _ _ _ _ IH Hneq Hlen) in Ha. by injection Ha as <- <-.
  - rewrite (open_holds _ _ _ _ _ IH Hne Hi) in Ho. by injection Ho as <- <-.
Qed.


(** ** Repair *)

(** The blocks up to the one with the given number. *)
Fixpoint upto (n : Z) (bs : list B) : list B :=
  match bs with
  | [] => []
  | b :: bs => b :: (if block_num b =? n then [] else upto n bs)
  end.

(** At the position there is no block followed by the position. *)
Definition damaged (pos : Z) (tail : bytes) : Prop :=
  match unpack_block tail with
  | Ok (_, rest) => match take_int 8 rest with Ok (p, _) => p ≠ pos | Throw _ => True end
  | Throw _ => True
  end.

Lemma repair_loop_entries bs fuel n tail p (new : bytes) :
  (length bs < fuel)%nat → size new = p → (tail = [] ∨ damaged (p + size (entries p bs)) tail) →
  p + size (entries p bs ++ tail) < 2 ^ 64 →
  repair_loop block_num fuel n (p + size (entries p bs ++ tail)) p (entries p bs ++ tail) new = Some (new ++ entries p (upto n bs)).
Proof.
  revert fuel p new. induction bs as [|b bs IH]; intros fuel p new Hfuel Hp Ht Hs; (destruct fuel as [|fuel]; [lia|]).
  - cbn [entries upto app] in *. rewrite app_nil_r. cbn [repair_loop]. destruct Ht as [->|Ht]; [cbn; by rewrite Z.add_0_r, Z.ltb_irrefl|].
    destruct (_ <? _); [|done]. unfold damaged in Ht. destruct (unpack_block tail) as [[b rest]|]; [|done].
    destruct (take_int 8 rest) as [[q rest']|]; [|done]. cbn [length] in Ht. by rewrite (proj2 (Z.eqb_neq p q)) by lia.
  - cbn [entries upto] in *. set (p' := p + size (pack_block b) + 8) in *.
    assert (Hsz : ∀ t : bytes, p + size ((pack_block b ++ le64 p ++ entries p' bs) ++ t) = p' + size (entries p' bs ++ t)).
    { intros t. rewrite !length_app, le_bytes_length. unfold p'. lia. }
    pose proof (Hsz []) as Hsz0. rewrite !app_nil_r in Hsz0. rewrite Hsz in *. rewrite Hsz0 in Ht.
    assert (Hlt : p < p') by (unfold p'; lia).
    cbn [repair_loop]. rewrite (proj2 (Z.ltb_lt p _)) by lia. rewrite <- !app_assoc, unpack_pack_block, take_int_le by lia.
    rewrite Z.eqb_refl. cbn [negb]. assert (Hnew : size (new ++ pack_block b ++ le64 p) = p').
    { rewrite !length_app, le_bytes_length. unfold p'. lia. }
    destruct (block_num b =? n); [cbn [entries]; by rewrite app_nil_r|].
    rewrite Hnew, IH; [by rewrite <- !app_assoc|cbn in Hfuel; lia|done|done|done].
Qed.

Lemma upto_prefix n bs : upto n bs `prefix_of` bs.
Proof.
  induction bs as [|b bs IH]; cbn [upto]; [done|]. destruct (_ =? _); [by apply prefix_cons, prefix_nil|by apply prefix_cons].
Qed.

Lemma log_file_parts gs first bs (tail : bytes) :
  log_file gs first bs ++ tail =
  le32 max_supported_version ++ le32 first ++ pack_genesis gs ++ le64 npos ++ (entries (size (log_header gs first)) bs ++ tail).
Proof. unfold log_file. unfold log_header at 1. by rewrite <- !app_assoc. Qed.

(** C22: a repair keeps exactly the good blocks: from a log with damaged data at
    its end, or with none, it makes the log of the same genesis state and blocks,
    up to the requested block, and opening that, which builds a new index, gives
    a log that holds these blocks. *)
Theorem repair_keeps_good_blocks gs first bs (l : @block_log B) tail n :
  0 < first < 2 ^ 32 → log_history gs first bs l → (tail = [] ∨ damaged (size (bl_blocks l)) tail) →
  size (bl_blocks l ++ tail) < npos →
  repair_log block_num (bl_blocks l ++ tail) n = Some (Ok (log_file gs first (upto n bs))) ∧
  (bs ≠ [] → ∃ l', open block_id (closed (log_file gs first (upto n bs)) []) = Some (Ok tt, l') ∧ holds gs first (upto n bs) l').
Proof.
  intros Hf Hh Ht Hs. pose proof (log_history_holds _ _ _ _ Hf Hh) as Hl. rewrite (ho_blocks _ _ _ _ Hl) in *. split.
  - set (h := size (log_header gs first)) in *.
    assert (Hh0 : 4 < h) by (unfold h, log_header; rewrite !length_app, !le_bytes_length; lia).
    assert (Hlen : size (log_file gs first bs ++ tail) = h + size (entries h bs ++ tail)).
    { unfold log_file. rewrite <- app_assoc, length_app. unfold h. lia. }
    pose proof (log_file_parts gs first bs tail) as Hparts. fold h in Hparts.
    unfold repair_log. rewrite Hlen, Hparts in *. rewrite (take_app_length' (le32 max_supported_version)) by done.
    change (le_value (le32 max_supported_version)) with 2. cbn [Z.gtb Z.compare Z.eqb Pos.eqb negb andb]. 
    change (negb ((2 >=? min_supported_version) && (2 <=? max_supported_version))) with false. cbv iota.
    rewrite (read_int_le _ (le32 max_supported_version) 4 first _ eq_refl) by (cbn; lia). cbn [mbind option_bind].
    unfold stream_unpack. rewrite app_assoc, (drop_app_length' (le32 _ ++ le32 _)) by done.
    rewrite (proj2 (Z.leb_le 8 _)) by (rewrite !length_app, !le_bytes_length; lia). cbn [Z.leb Z.compare andb].
    rewrite unpack_pack_genesis, take_int_le by done. rewrite Z.eqb_refl. cbn [negb].
    replace (h + size (entries h bs ++ tail) - size (entries h bs ++ tail)) with h by lia.
    rewrite repair_loop_entries.
    + cbn [fmap option_fmap option_map]. do 2 f_equal.
    + rewrite length_app. pose proof (entries_length h bs). lia.
    + unfold h, log_header. by rewrite <- !app_assoc.
    + destruct Ht as [->|Ht]; [by left|right]. unfold log_file in Ht. rewrite length_app, Nat2Z.inj_add in Ht. exact Ht.
    + unfold npos in Hs. lia.
  - intros Hne. destruct (upto_prefix n bs) as [bs' Hbs]. set (us := upto n bs) in *.
    assert (Hus : us ≠ []) by (unfold us; by destruct bs).
    destruct (last us) as [b|] eqn:Hb; [|by apply last_None in Hb].
    assert (Hw : holds gs first us (log_with gs first us (block_id b))).
    { apply log_with_holds; [done| | |].
      - intros i x Hx. apply (ho_numbers _ _ _ _ Hl). rewrite Hbs. by apply lookup_app_l_Some.
      - unfold log_file in *. rewrite Hbs, entries_app, !length_app in Hs. rewrite length_app. lia.
      - intros b'. rewrite Hb. by intros [= ->]. }
    eexists. split; [|exact Hw]. apply (open_holds gs first us (log_with gs first us (block_id b)) []); [done|done|]. by right; left.
Qed.

(** The loops over a file end, whatever it holds. *)
Lemma index_loop_ends fuel end_pos pos rest (l : @block_log B) :
  (length rest < fuel)%nat → is_Some (index_loop fuel end_pos pos rest l).
Proof.
  revert pos rest l. induction fuel as [|fuel IH]; intros pos rest l Hf; [lia|]. cbn [index_loop]. destruct (_ <? _); [|by eexists].
  unfold xlift, xmodify, mbind, X_bind. destruct (unpack_block rest) as [[b rest']|] eqn:Hu; [|by eexists].
  apply unpack_block_shorter in Hu. unfold take_int. destruct (Nat.leb_spec 8 (length rest')); [|by eexists].
  apply IH. rewrite length_drop. lia.
Qed.

Lemma repair_loop_ends fuel n end_pos pos rest new :
  (length rest < fuel)%nat → is_Some (repair_loop block_num fuel n end_pos pos rest new).
Proof.
  revert pos rest new. induction fuel as [|fuel IH]; intros pos rest new Hf; [lia|]. cbn [repair_loop]. destruct (_ <? _); [|by eexists].
  destruct (unpack_block rest) as [[b rest']|] eqn:Hu; [|by eexists]. apply unpack_block_shorter in Hu. unfold take_int.
  destruct (Nat.leb_spec 8 (length rest')); [|by eexists]. destruct (negb _); [by eexists|]. destruct (block_num b =? n); [by eexists|].
  apply IH. rewrite length_drop. lia.
Qed.
End correctness.

(** ** An example *)

Module small_log.
(** A block is its number, packed in one byte; the genesis state is empty. *)
#[export] Instance codec : log_codec unit Z := {|
  pack_genesis _ := [];
  unpack_genesis l := Ok (tt, l);
  pack_block b := [b];
  unpack_block l := match l with b :: l => Ok (b, l) | [] => Throw std_ios_failure end |}.

#[export] Instance codec_ok : log_codec_ok unit Z.
Proof. split; [by intros []|done|]. intros [|x l] b l' H; [done|]. injection H as <- <-. cbn. lia. Qed.

Definition num (b : Z) : Z := u32 b.
Definition id (b : Z) : digest_type := Digest (u32 b) 0 0 0.
Lemma num_id b : _hash0 (id b) = num b.
Proof. done. Qed.
Lemma num_range b : is_unsigned 32 (num b).
Proof. apply wrap_range. lia. Qed.

Definition run (m : X (@block_log Z) unit) (l : @block_log Z) : @block_log Z := match m l with Some (_, l) => l | None => l end.
Definition log1 : @block_log Z := run (reset num id tt (Some 5) 5) (closed [] []).
Definition log2 : @block_log Z := run (append num id 6;; mret tt) log1.

Lemma history2 : log_history num id tt 5 [5; 6] log2.
Proof.
  apply (history_append num id tt 5 [5] log1 log2 6 (Ok 25)); [|done|vm_compute; reflexivity|vm_compute; reflexivity].
  apply (history_reset num id tt 5 (Some 5) (closed [] []) log1); [done|by intros x [= <-]|vm_compute; reflexivity|vm_compute; reflexivity].
Qed.
End small_log.

#[local] Existing Instances small_log.codec small_log.codec_ok.


Lemma repair_keeps_good_blocks_witness :
  repair_log small_log.num (bl_blocks small_log.log2 ++ [7; 0]) 0 = Some (Ok (log_file tt 5 [5; 6])).
Proof.
  apply (repair_keeps_good_blocks small_log.num small_log.id small_log.num_range tt 5 [5; 6] small_log.log2 [7; 0] 0);
    [done|exact small_log.history2|right; vm_compute; exact I|vm_compute; reflexivity].
Defined.
