(* ===== verification/SnapshotStream.v ===== *)
(** * Binary snapshots (snapshot.hpp, snapshot.cpp)

    A snapshot is a file of named sections of rows.  The writer goes back at the
    end of a section to fill in its size and its number of rows; the reader
    looks a section up by walking over the sizes.  The theorems show that the
    reader finds what was written, rows that failed to be written excluded, and
    that the validation of a file with a wrapped size never ends. *)

From S2P Require Import Prelude Exceptions Transaction Bytes ErrorState.

Abbreviation zlen l := (Z.of_nat (length l)).

(** ** Streams *)

(** [std::ostream] on a file: writing replaces what is there. *)
Record ostream : Set := OStream { os_data : bytes; os_pos : Z }.

Definition os_write (d : bytes) (o : ostream) : ostream :=
  OStream (take (Z.to_nat (os_pos o)) (os_data o) ++ d ++ drop (Z.to_nat (os_pos o) + length d) (os_data o))
    (os_pos o + zlen d).
Definition seekp (p : Z) (o : ostream) : ostream := OStream (os_data o) p.

(** [std::istream] on a file: once an operation fails all others do. *)
Record istream : Set := IStream { is_data : bytes; is_pos : Z; is_fail : bool }.

Definition tellg (s : istream) : Z := if is_fail s then -1 else is_pos s.

Definition seekg (p : Z) (s : istream) : istream :=
  if is_fail s then s
  else if p <? 0 then IStream (is_data s) (is_pos s) true
  else IStream (is_data s) p false.

(** What can be read of [n] bytes. *)
Definition is_read (n : nat) (s : istream) : bytes * istream :=
  if is_fail s then ([], s)
  else
    let d := take n (drop (Z.to_nat (is_pos s)) (is_data s)) in
    (d, IStream (is_data s) (is_pos s + zlen d) (negb (length d =? n)%nat)).

(** Reading into an integer that was set to zero. *)
Definition read_uint (n : nat) (s : istream) : Z * istream :=
  let '(d, s) := is_read n s in (le_value d, s).

(** [get]: -1 at the end of the file. *)
Definition get (s : istream) : Z * istream :=
  match is_read 1 s with
  | ([c], s) => (c, s)
  | (_, s) => (-1, s)
  end.

(** With [exceptions(failbit|eofbit)] a failure throws. *)
Definition throwing (s : istream) : res istream := if is_fail s then Throw std_ios_failure else Ok s.

(** ** The writer *)

Definition current_snapshot_version : Z := 1.
Definition magic_number : Z := 0x30510550.

Record ostream_snapshot_writer : Set := OstreamSnapshotWriter {
  ow_snapshot : ostream;
  ow_header_pos : Z;
  ow_section_pos : Z;
  ow_row_count : Z }.                       (* uint64_t *)

Abbreviation XW := (X ostream_snapshot_writer).

Definition on_stream (f : ostream → ostream) : XW unit :=
  xmodify (λ w, OstreamSnapshotWriter (f (ow_snapshot w)) (ow_header_pos w) (ow_section_pos w) (ow_row_count w)).
Definition put_section (pos count : Z) : XW unit :=
  xmodify (λ w, OstreamSnapshotWriter (ow_snapshot w) (ow_header_pos w) pos count).
Definition tellp : XW Z := w ← xget; mret (os_pos (ow_snapshot w)).

Definition new_writer (snapshot : ostream) : ostream_snapshot_writer :=
  OstreamSnapshotWriter (os_write (le32 current_snapshot_version) (os_write (le32 magic_number) snapshot))
    (os_pos snapshot) (-1) 0.

Definition write_start_section (section_name : bytes) : XW unit :=
  w ← xget;
  xasserts (ow_section_pos w =? -1) snapshot_exception;;
  pos ← tellp;
  put_section pos 0;;
  on_stream (os_write (le64 uint64_max));;
  on_stream (os_write (le64 uint64_max));;
  on_stream (os_write section_name);;
  on_stream (os_write [0]).

(** What a row writer does to the stream: the bytes it writes, and what it
    throws after them, if it does. *)
Abbreviation row_writer := (bytes * option exception)%type.

Definition write_row (row : row_writer) : XW unit :=
  restore ← tellp;
  on_stream (os_write row.1);;
  match row.2 with
  | Some e => on_stream (seekp restore);; xlift (Throw e)
  | None => xmodify (λ w, OstreamSnapshotWriter (ow_snapshot w) (ow_header_pos w) (ow_section_pos w) (u64 (ow_row_count w + 1)))
  end.

Definition write_end_section : XW unit :=
  restore ← tellp;
  w ← xget;
  let section_size := u64 (restore - ow_section_pos w - 8) in
  on_stream (seekp (ow_section_pos w));;
  on_stream (os_write (le64 section_size));;
  on_stream (os_write (le64 (ow_row_count w)));;
  on_stream (seekp restore);;
  put_section (-1) 0.

Definition finalize : XW unit := on_stream (os_write (le64 uint64_max)).

(** [snapshot_writer::write_section]. *)
Definition write_section (section_name : bytes) (f : XW unit) : XW unit :=
  write_start_section section_name;; f;; write_end_section.

(** [fc::raw::pack] and [fc::raw::unpack] of a type of rows; unpacking returns
    what is left of the stream. *)
Class row_codec (A : Type) : Type := {
  pack_row : A → bytes;
  unpack_row : bytes → res (A * bytes) }.

(** What is packed is unpacked again. *)
Class row_codec_ok (A : Type) {codec : row_codec A} : Prop :=
  unpack_pack_row (a : A) rest : unpack_row (pack_row a ++ rest) = Ok (a, rest).

(** [section_writer::add_row]. *)
Definition add_row {A} `{row_codec A} (a : A) : XW unit := write_row (pack_row a, None).

(** ** The reader *)

Record istream_snapshot_reader : Set := IstreamSnapshotReader {
  ir_snapshot : istream;
  ir_header_pos : Z;
  ir_num_rows : Z;                          (* uint64_t *)
  ir_cur_row : Z }.                         (* uint64_t *)

Definition new_reader (snapshot : istream) : istream_snapshot_reader :=
  IstreamSnapshotReader snapshot (tellg snapshot) 0 0.

(** The position after the section, or nothing at the end marker. *)
Definition validate_section (s : istream) : res (option istream) :=
  let '(section_size, s) := read_uint 8 s in
  s ← throwing s;
  if section_size =? uint64_max then mret None
  else s ← throwing (seekg (tellg s + i64 section_size) s); mret (Some s).

(** [None]: the loop does not end. *)
Fixpoint validate_sections (fuel : nat) (s : istream) : option (res unit) :=
  match fuel with
  | O => None
  | S fuel =>
      match validate_section s with
      | Ok (Some s) => validate_sections fuel s
      | Ok None => Some (Ok tt)
      | Throw e => Some (Throw e)
      end
  end.

Definition validate_header (s : istream) : res istream :=
  let '(actual_totem, s) := read_uint 4 s in
  s ← throwing s;
  EOS_ASSERT (actual_totem =? magic_number) snapshot_exception;;
  let '(actual_version, s) := read_uint 4 s in
  s ← throwing s;
  EOS_ASSERT (actual_version =? current_snapshot_version) snapshot_exception;;
  mret s.

(** [catch( const std::exception& e )]. *)
Definition io_failure {A} (r : res A) : res A :=
  match r with Throw std_ios_failure => Throw snapshot_exception | r => r end.

(** A walk that visits more positions than the file has bytes visits one of
    them again. *)
Definition walk_fuel (r : istream_snapshot_reader) : nat := S (length (is_data (ir_snapshot r))).

Definition validate (r : istream_snapshot_reader) : option (res unit) :=
  match validate_header (ir_snapshot r) with
  | Ok s => io_failure <$> validate_sections (walk_fuel r) s
  | Throw e => Some (io_failure (Throw e))
  end.

(** The loop over the characters of the name; a [char] is signed. *)
Fixpoint match_name (section_name : bytes) (s : istream) : bool * istream :=
  match section_name with
  | [] => let '(c, s) := get s in (c =? 0, s)
  | c :: section_name =>
      let '(d, s) := get s in
      if negb (d =? swrap 8 c) then (false, s) else match_name section_name s
  end.

Definition header_size : Z := 4 + 4.

(** The loop of [has_section] and [set_section]: the row count of the section
    and the stream at its first row. *)
Fixpoint search_section (fuel : nat) (section_name : bytes) (next_section_pos : Z) (s : istream) :
    option (option (Z * istream)) :=
  match fuel with
  | O => None
  | S fuel =>
      let '(section_size, s) := read_uint 8 (seekg next_section_pos s) in
      if section_size =? uint64_max then Some None
      else
        let next_section_pos := tellg s + i64 section_size in
        let '(row_count, s) := read_uint 8 s in
        let '(found, s) := match_name section_name s in
        if found then Some (Some (row_count, s)) else search_section fuel section_name next_section_pos s
  end.

Definition has_section (section_name : bytes) (r : istream_snapshot_reader) : option bool :=
  (λ o, bool_decide (is_Some o)) <$> search_section (walk_fuel r) section_name (ir_header_pos r + header_size) (ir_snapshot r).

Definition set_section (section_name : bytes) (r : istream_snapshot_reader) : option (res istream_snapshot_reader) :=
  found ← search_section (walk_fuel r) section_name (ir_header_pos r + header_size) (ir_snapshot r);
  Some (match found with
        | Some (row_count, s) => Ok (IstreamSnapshotReader s (ir_header_pos r) row_count 0)
        | None => EOS_THROW snapshot_exception
        end).

(** [row_reader.provide]: the row that [unpack] finds at the position. *)
Definition read_row {A} (unpack : bytes → res (A * bytes)) (r : istream_snapshot_reader) :
    res (A * bool * istream_snapshot_reader) :=
  let s := ir_snapshot r in
  '(row, rest) ← unpack (drop (Z.to_nat (is_pos s)) (is_data s));
  let cur_row := u64 (ir_cur_row r + 1) in
  mret (row, cur_row <? ir_num_rows r,
        IstreamSnapshotReader (IStream (is_data s) (zlen (is_data s) - zlen rest) (is_fail s)) (ir_header_pos r)
          (ir_num_rows r) cur_row).

Definition empty (r : istream_snapshot_reader) : bool := ir_num_rows r =? 0.

Definition clear_section (r : istream_snapshot_reader) : istream_snapshot_reader :=
  IstreamSnapshotReader (ir_snapshot r) (ir_header_pos r) 0 0.

(** [snapshot_reader::read_section]. *)
Definition read_section {A} (section_name : bytes) (f : istream_snapshot_reader → res (A * istream_snapshot_reader))
    (r : istream_snapshot_reader) : option (res (A * istream_snapshot_reader)) :=
  set ← set_section section_name r;
  Some (r ← set; '(a, r) ← f r; mret (a, clear_section r)).

(** The loop with which an index is read from a section: [create] puts a row into
    the database. *)
Fixpoint read_loop {A D} (unpack : bytes → res (A * bytes)) (create : A → D → res D) (fuel : nat) (more : bool)
    (r : istream_snapshot_reader) (db : D) : res (D * istream_snapshot_reader) :=
  match fuel with
  | O => mret (db, r)
  | S fuel =>
      if more then
        '(row, more, r) ← read_row unpack r;
        db ← create row db;
        read_loop unpack create fuel more r db
      else mret (db, r)
  end.

(** The loop runs at most once for each row that is left. *)
Definition read_rows {A D} (unpack : bytes → res (A * bytes)) (create : A → D → res D) (db : D)
    (r : istream_snapshot_reader) : res (D * istream_snapshot_reader) :=
  read_loop unpack create (S (Z.to_nat (ir_num_rows r))) (negb (empty r)) r db.

(** ** The integrity hash *)

(** [integrity_hash_snapshot_writer]: the encoder gets the bytes of the rows. *)
Definition hash_row (row : row_writer) : X bytes unit :=
  xmodify (λ enc, enc ++ row.1);;
  match row.2 with Some e => xlift (Throw e) | None => mret tt end.

(** ** The contents of a snapshot *)

(** A section: its name and the bytes of its rows. *)
Abbreviation section := (bytes * list bytes)%type.

Definition section_body (x : section) : bytes := x.1 ++ [0] ++ mjoin x.2.
Definition section_bytes (x : section) : bytes :=
  le64 (u64 (8 + zlen (section_body x))) ++ le64 (u64 (zlen x.2)) ++ section_body x.
Definition snapshot_bytes (pre : bytes) (secs : list section) : bytes :=
  pre ++ le32 magic_number ++ le32 current_snapshot_version ++ mjoin (section_bytes <$> secs).

(** What a writer has done on a stream that held [pre]: complete sections, and
    the section that is open.  Rows that failed are caught and left out. *)
Inductive snapshot_history (pre : bytes) : ostream_snapshot_writer → list section → option section → Prop :=
  | history_new : snapshot_history pre (new_writer (OStream pre (zlen pre))) [] None
  | history_start w secs n w' :
      snapshot_history pre w secs None → write_start_section n w = Some (Ok tt, w') →
      snapshot_history pre w' secs (Some (n, []))
  | history_row w secs n rows d w' :
      snapshot_history pre w secs (Some (n, rows)) → write_row (d, None) w = Some (Ok tt, w') →
      snapshot_history pre w' secs (Some (n, rows ++ [d]))
  | history_failed w secs n rows d e w' :
      snapshot_history pre w secs (Some (n, rows)) → write_row (d, Some e) w = Some (Throw e, w') →
      snapshot_history pre w' secs (Some (n, rows))
  | history_end w secs x w' :
      snapshot_history pre w secs (Some x) → write_end_section w = Some (Ok tt, w') →
      snapshot_history pre w' (secs ++ [x]) None.

(** ** Writing *)

Lemma os_write_end (P d stale : bytes) :
  os_write d (OStream (P ++ stale) (zlen P)) = OStream ((P ++ d) ++ drop (length d) stale) (zlen (P ++ d)).
Proof.
  unfold os_write. cbn [os_data os_pos]. rewrite Nat2Z.id, take_app_length, drop_app_ge by lia.
  rewrite length_app, Nat2Z.inj_add, <- app_assoc. do 4 f_equal. lia.
Qed.

Lemma seekp_over (P Q stale : bytes) :
  seekp (zlen P) (OStream ((P ++ Q) ++ stale) (zlen (P ++ Q))) = OStream (P ++ Q ++ stale) (zlen P).
Proof. unfold seekp. cbn. by rewrite app_assoc. Qed.

(** The stream holds [P] up to its position. *)
Definition written (w : ostream_snapshot_writer) (P : bytes) : Prop :=
  ∃ stale, ow_snapshot w = OStream (P ++ stale) (zlen P).

Definition open_bytes (P : bytes) (x : section) : bytes := P ++ le64 uint64_max ++ le64 uint64_max ++ section_body x.

Definition history_state (pre : bytes) (w : ostream_snapshot_writer) (secs : list section) (cur : option section) : Prop :=
  match cur with
  | None => ow_section_pos w = -1 ∧ written w (snapshot_bytes pre secs)
  | Some x =>
      ow_section_pos w = zlen (snapshot_bytes pre secs) ∧ ow_row_count w = u64 (zlen x.2) ∧
      written w (open_bytes (snapshot_bytes pre secs) x)
  end.

Lemma section_body_snoc n rows d : section_body (n, rows ++ [d]) = section_body (n, rows) ++ d.
Proof.
  unfold section_body. cbn [fst snd]. rewrite join_app. cbn. by rewrite app_nil_r, <- !app_assoc.
Qed.

Lemma snapshot_bytes_snoc pre secs x : snapshot_bytes pre (secs ++ [x]) = snapshot_bytes pre secs ++ section_bytes x.
Proof. unfold snapshot_bytes. rewrite fmap_app, join_app. cbn. by rewrite app_nil_r, <- !app_assoc. Qed.

Lemma end_section_state pre w secs x w' :
  history_state pre w secs (Some x) → write_end_section w = Some (Ok tt, w') → history_state pre w' (secs ++ [x]) None.
Proof.
  intros (Hp & Hr & stale & Hs). destruct w as [o h p r]. cbn in Hp, Hr, Hs. subst o p r.
  set (P := snapshot_bytes pre secs) in *. unfold write_end_section, tellp, on_stream, put_section, xget, xmodify, mbind, X_bind, mret, X_ret.
  cbn [ow_snapshot ow_section_pos ow_row_count ow_header_pos os_pos]. intros [= <-]. split; [done|].
  exists stale. cbn [ow_snapshot]. rewrite snapshot_bytes_snoc. fold P. unfold open_bytes.
  rewrite seekp_over, <- !(app_assoc (le64 _)), os_write_end, drop_app_length' by (by rewrite !le_bytes_length).
  rewrite os_write_end, drop_app_length' by (by rewrite !le_bytes_length). unfold seekp. cbn [os_data].
  assert (Hsz : zlen (P ++ le64 uint64_max ++ le64 uint64_max ++ section_body x) - zlen P - 8 = 8 + zlen (section_body x)).
  { rewrite !length_app, !le_bytes_length. lia. }
  rewrite Hsz. f_equal; [unfold section_bytes; by rewrite <- !app_assoc|].
  unfold section_bytes. rewrite !length_app, !le_bytes_length. done.
Qed.

Lemma row_state pre w secs n rows d w' :
  history_state pre w secs (Some (n, rows)) → write_row (d, None) w = Some (Ok tt, w') →
  history_state pre w' secs (Some (n, rows ++ [d])).
Proof.
  intros (Hp & Hr & stale & Hs). destruct w as [o h p r]. cbn in Hp, Hr, Hs. subst o p r.
  unfold write_row, tellp, on_stream, xget, xmodify, mbind, X_bind, mret, X_ret. cbn [ow_snapshot ow_section_pos ow_row_count ow_header_pos fst snd].
  intros [= <-]. split_and!; [done| |].
  - cbn [ow_row_count snd]. unfold wrap. rewrite Zplus_mod_idemp_l, length_app. f_equal. cbn. lia.
  - exists (drop (length d) stale). cbn [ow_snapshot]. rewrite os_write_end. unfold open_bytes. rewrite section_body_snoc.
    by rewrite !app_assoc.
Qed.

Lemma failed_state pre w secs n rows d e w' :
  history_state pre w secs (Some (n, rows)) → write_row (d, Some e) w = Some (Throw e, w') →
  history_state pre w' secs (Some (n, rows)).
Proof.
  intros (Hp & Hr & stale & Hs). destruct w as [o h p r]. cbn in Hp, Hr, Hs. subst o p r.
  unfold write_row, tellp, on_stream, xget, xmodify, xlift, mbind, X_bind, mret, X_ret. cbn [ow_snapshot ow_section_pos ow_row_count ow_header_pos os_pos fst snd].
  intros [= <-]. split_and!; [done|done|]. exists (d ++ drop (length d) stale). cbn [ow_snapshot].
  rewrite os_write_end. unfold seekp. cbn [os_data]. by rewrite <- app_assoc.
Qed.

Lemma start_section_state pre w secs n w' :
  history_state pre w secs None → write_start_section n w = Some (Ok tt, w') → history_state pre w' secs (Some (n, [])).
Proof.
  intros (Hp & stale & Hs). destruct w as [o h p r]. cbn in Hp, Hs. subst o p.
  unfold write_start_section, tellp, on_stream, put_section, xget, xasserts, xlift, xmodify, mbind, X_bind, mret, X_ret.
  cbn [ow_snapshot ow_section_pos ow_row_count ow_header_pos os_pos Z.eqb Pos.eqb EOS_ASSERT].
  intros [= <-]. split_and!; [done|done|].
  assert (Ho : open_bytes (snapshot_bytes pre secs) (n, []) = (((snapshot_bytes pre secs ++ le64 uint64_max) ++ le64 uint64_max) ++ n) ++ [0]).
  { unfold open_bytes, section_body. cbn [fst snd mjoin list_join]. by rewrite app_nil_r, <- !app_assoc. }
  unfold written. rewrite Ho. eexists. cbn [ow_snapshot]. by rewrite !os_write_end.
Qed.

Lemma new_writer_state pre : history_state pre (new_writer (OStream pre (zlen pre))) [] None.
Proof.
  split; [done|]. exists []. unfold new_writer. cbn [ow_snapshot].
  replace (OStream pre (zlen pre)) with (OStream (pre ++ []) (zlen pre)) by by rewrite app_nil_r.
  rewrite !os_write_end. unfold snapshot_bytes. cbn [fmap list_fmap mjoin list_join]. by rewrite !drop_nil, !app_nil_r, <- app_assoc.
Qed.

Lemma snapshot_history_state pre w secs cur : snapshot_history pre w secs cur → history_state pre w secs cur.
Proof.
  induction 1; [apply new_writer_state|by eapply start_section_state|by eapply row_state|by eapply failed_state|by eapply end_section_state].
Qed.

(** [m] adds the rows [l] to the open section. *)
Definition adds (m : XW unit) (l : list bytes) : Prop :=
  ∀ pre w secs n rows, snapshot_history pre w secs (Some (n, rows)) →
    ∃ w', m w = Some (Ok tt, w') ∧ snapshot_history pre w' secs (Some (n, rows ++ l)).

Lemma adds_nil : adds (mret tt) [].
Proof. intros pre w secs n rows H. exists w. by rewrite app_nil_r. Qed.

Lemma adds_bind m k l1 l2 : adds m l1 → adds k l2 → adds (m;; k) (l1 ++ l2).
Proof.
  intros Hm Hk pre w secs n rows H. destruct (Hm _ _ _ _ _ H) as (w1 & Hm1 & H1). destruct (Hk _ _ _ _ _ H1) as (w2 & Hk1 & H2).
  exists w2. unfold mbind, X_bind. rewrite Hm1, app_assoc. done.
Qed.

Lemma adds_row {A} `{row_codec A} (a : A) : adds (add_row a) [pack_row a].
Proof. intros pre w secs n rows H0. eexists. split; [done|]. by eapply history_row. Qed.

Lemma adds_for_each {A} (f : A → XW unit) (g : A → list bytes) l :
  (∀ a, adds (f a) (g a)) → adds (xfor_each l f) (mjoin (g <$> l)).
Proof. intros Hf. induction l as [|a l IH]; cbn [xfor_each]; [apply adds_nil|]. apply adds_bind; [apply Hf|done]. Qed.

Lemma write_section_adds n m l pre w secs :
  adds m l → snapshot_history pre w secs None →
  ∃ w', write_section n m w = Some (Ok tt, w') ∧ snapshot_history pre w' (secs ++ [(n, l)]) None.
Proof.
  intros Hm H. pose proof (snapshot_history_state _ _ _ _ H) as [Hp _].
  assert (Hs : ∃ w1, write_start_section n w = Some (Ok tt, w1)).
  { unfold write_start_section, xget, xasserts, xlift, mbind, X_bind. rewrite Hp. by eexists. }
  destruct Hs as [w1 Hs]. pose proof (history_start _ _ _ _ _ H Hs) as H1.
  destruct (Hm _ _ _ _ _ H1) as (w2 & Hm2 & H2). cbn [app] in H2.
  assert (He : ∃ w3, write_end_section w2 = Some (Ok tt, w3)) by (eexists; unfold write_end_section, tellp, on_stream, put_section, xget, xmodify, mbind, X_bind, mret, X_ret; reflexivity). destruct He as [w3 He].
  exists w3. unfold write_section, mbind, X_bind. rewrite Hs, Hm2.
  split; [done|]. by eapply history_end.
Qed.

(** ** Reading *)

(** What a file holds from a position on. *)
Definition from (data : bytes) (p : Z) (l : bytes) : Prop := 0 <= p <= zlen data ∧ drop (Z.to_nat p) data = l.

Lemma from_app data p d l : from data p (d ++ l) → from data (p + zlen d) l.
Proof.
  intros [Hp Hd]. pose proof (f_equal length Hd) as Hl. rewrite length_drop, length_app in Hl.
  split; [lia|]. replace (Z.to_nat (p + zlen d)) with (Z.to_nat p + length d)%nat by lia.
  by rewrite <- drop_drop, Hd, drop_app_length.
Qed.

Lemma is_read_from data p d l :
  from data p (d ++ l) → is_read (length d) (IStream data p false) = (d, IStream data (p + zlen d) false).
Proof.
  intros [_ Hd]. unfold is_read. cbn [is_fail is_data is_pos]. rewrite Hd, take_app_length. by rewrite Nat.eqb_refl.
Qed.

Lemma read_uint_from data p n x l :
  from data p (le_bytes n x ++ l) → 0 <= x < 2 ^ (8 * Z.of_nat n) →
  read_uint n (IStream data p false) = (x, IStream data (p + Z.of_nat n) false) ∧ from data (p + Z.of_nat n) l.
Proof.
  intros H Hx. pose proof (from_app _ _ _ _ H) as H'. apply is_read_from in H. unfold read_uint.
  rewrite le_bytes_length in H, H'. by rewrite H, le_value_bytes.
Qed.

Lemma get_from data p c l :
  from data p (c :: l) → get (IStream data p false) = (c, IStream data (p + 1) false) ∧ from data (p + 1) l.
Proof.
  intros H. split; [|by apply (from_app _ _ [c])]. unfold get. by rewrite (is_read_from _ _ [c] l).
Qed.

Lemma throwing_good data p : throwing (IStream data p false) = Ok (IStream data p false).
Proof. done. Qed.

(** Characters of names. *)
Definition name_ok (n : bytes) : Prop := Forall (λ c, 0 < c < 128) n.

Lemma match_name_from n n' data p l :
  name_ok n → name_ok n' → from data p (n' ++ [0] ++ l) →
  ∃ q, match_name n (IStream data p false) = (bool_decide (n' = n), IStream data q false) ∧
    (n' = n → q = p + zlen n + 1).
Proof.
  intros Hn. revert n' p. induction n as [|c n IH]; intros n' p Hn' H; cbn [match_name].
  - destruct n' as [|d n']; cbn [app] in H; destruct (get_from _ _ _ _ H) as [-> _]; exists (p + 1).
    + cbn. by rewrite Z.add_0_r.
    + apply Forall_cons in Hn' as [Hd _]. rewrite bool_decide_eq_false_2, (proj2 (Z.eqb_neq d 0)) by (done || lia). done.
  - apply Forall_cons in Hn as [Hc Hn]. specialize (IH Hn).
    assert (Hw : swrap 8 c = c) by (apply swrap_id; unfold is_signed; cbn; lia). rewrite Hw.
    destruct n' as [|d n']; cbn [app] in H; destruct (get_from _ _ _ _ H) as [-> H'].
    + exists (p + 1). by rewrite (proj2 (Z.eqb_neq 0 c)) by lia.
    + apply Forall_cons in Hn' as [Hd Hn']. destruct (Z.eqb_spec d c) as [->|Hne]; cbn [negb].
      * destruct (IH n' _ Hn' H') as (q & -> & Hq). exists q. split.
        { f_equal. apply bool_decide_ext. split; [by intros ->|congruence]. }
        intros [= ->]. rewrite (Hq eq_refl). cbn [length]. lia.
      * exists (p + 1). rewrite bool_decide_eq_false_2 by congruence. split; [done|congruence].
Qed.

Record section_ok (x : section) : Prop := {
  so_name : name_ok x.1;
  so_rows : zlen x.2 < 2 ^ 64;
  so_size : 8 + zlen (section_body x) < 2 ^ 63 }.

(** The parts of a section at a position. *)
Lemma section_from data p x l :
  section_ok x → from data p (section_bytes x ++ l) →
  ∃ p1 p2, read_uint 8 (IStream data p false) = (8 + zlen (section_body x), IStream data p1 false) ∧
    read_uint 8 (IStream data p1 false) = (zlen x.2, IStream data p2 false) ∧
    from data p2 (section_body x ++ l) ∧ from data (p1 + (8 + zlen (section_body x))) l.
Proof.
  intros [_ Hr Hs] H. unfold section_bytes in H. rewrite <- !app_assoc in H.
  rewrite !wrap_id in H by (unfold is_unsigned; lia).
  destruct (read_uint_from _ _ _ _ _ H ltac:(lia)) as [H1 F1].
  destruct (read_uint_from _ _ _ _ _ F1 ltac:(lia)) as [H2 F2].
  eexists _, _. split_and!; [exact H1|exact H2|exact F2|]. apply from_app in F2.
  replace (p + Z.of_nat 8 + (8 + zlen (section_body x))) with (p + Z.of_nat 8 + Z.of_nat 8 + zlen (section_body x)) by lia. done.
Qed.

Definition find_section (n : bytes) (secs : list section) : option (list bytes) :=
  snd <$> (snd <$> list_find (λ x, x.1 = n) secs).

Lemma search_section_from n secs data p q l fuel :
  name_ok n → Forall section_ok secs → from data p (mjoin (section_bytes <$> secs) ++ le64 uint64_max ++ l) →
  (length secs < fuel)%nat →
  match find_section n secs with
  | Some rows => ∃ p' l', search_section fuel n p (IStream data q false) = Some (Some (zlen rows, IStream data p' false)) ∧
                  from data p' (mjoin rows ++ l')
  | None => search_section fuel n p (IStream data q false) = Some None
  end.
Proof.
  intros Hn. revert p q fuel. induction secs as [|x secs IH]; intros p q [|fuel] Hok H Hf; cbn [length] in Hf; try lia;
    cbn [search_section]; unfold seekg; cbn [is_fail is_data]; rewrite (proj2 (Z.ltb_ge p 0)) by apply H.
  - cbn [find_section list_find fmap option_fmap option_map]. destruct (read_uint_from data p 8 uint64_max l H ltac:(done)) as [-> _]. done.
  - apply Forall_cons in Hok as [Hx Hok]. cbn [fmap list_fmap] in H. change (mjoin (?a :: ?b)) with (a ++ mjoin b) in H.
    rewrite <- app_assoc in H. destruct (section_from _ _ _ _ Hx H) as (p1 & p2 & -> & Hc & Hb & Hnext).
    rewrite (proj2 (Z.eqb_neq _ uint64_max)) by (pose proof (so_size _ Hx); unfold uint64_max; lia).
    rewrite Hc. unfold tellg. cbn [is_fail is_pos].
    assert (Hi : i64 (8 + zlen (section_body x)) = 8 + zlen (section_body x)).
    { pose proof (so_size _ Hx). apply swrap_id; [unfold is_signed|]; lia. }
    rewrite Hi. unfold section_body in Hb. rewrite <- !app_assoc in Hb.
    destruct (match_name_from n x.1 data p2 _ Hn (so_name _ Hx) Hb) as (q' & -> & Hq).
    unfold find_section. cbn [list_find]. destruct (decide (x.1 = n)) as [He|Hne].
    + rewrite bool_decide_eq_true_2 by done. cbn [fmap option_fmap option_map snd]. rewrite (Hq He), <- He.
      exists (p2 + zlen x.1 + 1), (mjoin (section_bytes <$> secs) ++ le64 uint64_max ++ l). split; [done|].
      apply from_app in Hb. by apply from_app in Hb.
    + rewrite bool_decide_eq_false_2 by done. specialize (IH _ q' fuel Hok Hnext ltac:(lia)).
      unfold find_section in IH. by destruct (list_find _ secs) as [[k y]|].
Qed.

Lemma validate_sections_from secs data p l fuel :
  Forall section_ok secs → from data p (mjoin (section_bytes <$> secs) ++ le64 uint64_max ++ l) →
  (length secs < fuel)%nat → validate_sections fuel (IStream data p false) = Some (Ok tt).
Proof.
  revert p fuel. induction secs as [|x secs IH]; intros p [|fuel] Hok H Hf; cbn [length] in Hf; try lia; cbn [validate_sections]; unfold validate_section.
  - by destruct (read_uint_from data p 8 uint64_max l H ltac:(done)) as [-> _].
  - apply Forall_cons in Hok as [Hx Hok]. cbn [fmap list_fmap] in H. change (mjoin (?a :: ?b)) with (a ++ mjoin b) in H.
    rewrite <- app_assoc in H. destruct (section_from _ _ _ _ Hx H) as (p1 & p2 & -> & _ & _ & Hnext).
    pose proof (so_size _ Hx). rewrite throwing_good. cbn [mbind result_bind].
    rewrite (proj2 (Z.eqb_neq _ uint64_max)) by (unfold uint64_max; lia).
    rewrite swrap_id by (lia || (unfold is_signed; lia)). unfold tellg, seekg. cbn [is_fail is_pos is_data].
    rewrite (proj2 (Z.ltb_ge _ 0)) by apply Hnext. rewrite throwing_good. cbn [mbind result_bind mret result_ret].
    apply IH; [done|done|lia].
Qed.

Lemma sections_length secs : (length secs <= length (mjoin (section_bytes <$> secs)))%nat.
Proof.
  induction secs as [|x secs IH]; cbn [fmap list_fmap length]; [lia|]. change (mjoin (?a :: ?b)) with (a ++ mjoin b).
  assert (16 <= length (section_bytes x))%nat by (unfold section_bytes; rewrite !length_app, !le_bytes_length; lia).
  rewrite length_app. lia.
Qed.

(** The reader is in a section of which the rows [l] are left. *)
Definition at_rows (r : istream_snapshot_reader) (l : list bytes) : Prop :=
  is_fail (ir_snapshot r) = false ∧ 0 <= ir_cur_row r ∧ ir_num_rows r < 2 ^ 64 ∧
  ir_num_rows r - ir_cur_row r = zlen l ∧
  ∃ rest, from (is_data (ir_snapshot r)) (is_pos (ir_snapshot r)) (mjoin l ++ rest).

Lemma read_row_at {A} (pack : A → bytes) unpack a l r :
  (∀ rest, unpack (pack a ++ rest) = Ok (a, rest)) → at_rows r (pack a :: l) →
  ∃ r', read_row unpack r = Ok (a, bool_decide (l ≠ []), r') ∧ at_rows r' l ∧ ir_num_rows r' = ir_num_rows r ∧
    ir_cur_row r' = ir_cur_row r + 1.
Proof.
  intros Hc (Hf & Hcur & Hn & Hleft & rest & Hp & Hd). change (mjoin (?a :: ?b)) with (a ++ mjoin b) in Hd.
  rewrite <- app_assoc in Hd. unfold read_row. rewrite Hd, Hc. cbn [mbind result_bind].
  cbn [length] in Hleft. rewrite wrap_id by (unfold is_unsigned; lia).
  assert (Hb : (ir_cur_row r + 1 <? ir_num_rows r) = bool_decide (l ≠ [])).
  { destruct l; cbn [length] in Hleft; cbn; lia. }
  rewrite Hb. eexists. split; [done|]. split; [|done]. unfold at_rows. cbn [ir_snapshot is_fail ir_cur_row ir_num_rows is_data is_pos].
  split_and!; [done|lia|lia|lia|]. exists rest.
  assert (Hfrom : from (is_data (ir_snapshot r)) (is_pos (ir_snapshot r) + zlen (pack a)) (mjoin l ++ rest)) by (apply from_app; done).
  enough (zlen (is_data (ir_snapshot r)) - zlen (mjoin l ++ rest) = is_pos (ir_snapshot r) + zlen (pack a)) as -> by done.
  apply (f_equal length) in Hd. rewrite length_drop, !length_app in Hd. rewrite length_app. lia.
Qed.

(** The rows put into the database one after the other. *)
Fixpoint create_all {A D} (create : A → D → res D) (l : list A) (db : D) : res D :=
  match l with
  | [] => mret db
  | a :: l => db ← create a db; create_all create l db
  end.

Lemma read_loop_at {A D} (pack : A → bytes) unpack (create : A → D → res D) (l : list A) fuel r db :
  (∀ a rest, unpack (pack a ++ rest) = Ok (a, rest)) → at_rows r (pack <$> l) → (length l < fuel)%nat →
  fst <$> read_loop unpack create fuel (bool_decide (l ≠ [])) r db = create_all create l db.
Proof.
  intros Hc. revert fuel r db. induction l as [|a l IH]; intros [|fuel] r db Hr Hf; cbn [length] in Hf; try lia; [done|].
  cbn [create_all read_loop fmap list_fmap] in *. destruct (read_row_at pack unpack a _ r (Hc a) Hr) as (r' & Hrow & Hr' & _).
  change (bool_decide (a :: l ≠ [])) with true. cbv iota. rewrite Hrow. cbn [mbind result_bind].
  destruct (create a db) as [db1|e]; cbn [mbind result_bind]; [|done].
  replace (bool_decide ((pack <$> l) ≠ [])) with (bool_decide (l ≠ [])) by (by destruct l). apply IH; [done|lia].
Qed.

(** Reading a section row by row. *)
Lemma read_rows_at {A D} (pack : A → bytes) unpack (create : A → D → res D) (l : list A) r db :
  (∀ a rest, unpack (pack a ++ rest) = Ok (a, rest)) → at_rows r (pack <$> l) → ir_cur_row r = 0 →
  fst <$> read_rows unpack create db r = create_all create l db.
Proof.
  intros Hc Hr H0. pose proof Hr as (_ & _ & _ & Hn & _). rewrite length_fmap in Hn. unfold read_rows.
  assert (He : negb (empty r) = bool_decide (l ≠ [])).
  { unfold empty. destruct l; cbn [length] in Hn; cbn; lia. }
  rewrite He. apply (read_loop_at pack); [done|done|lia].
Qed.

(** The file of a finished snapshot. *)
Definition snapshot_file (pre : bytes) (secs : list section) (tail : bytes) : bytes :=
  snapshot_bytes pre secs ++ le64 uint64_max ++ tail.

Lemma snapshot_file_from pre secs tail :
  let data := snapshot_file pre secs tail in
  from data (zlen pre) (le32 magic_number ++ le32 current_snapshot_version ++ mjoin (section_bytes <$> secs) ++ le64 uint64_max ++ tail) ∧
  from data (zlen pre + header_size) (mjoin (section_bytes <$> secs) ++ le64 uint64_max ++ tail) ∧
  (length secs < S (length data))%nat.
Proof.
  intros data.
  assert (H : from data (zlen pre) (le32 magic_number ++ le32 current_snapshot_version ++ mjoin (section_bytes <$> secs) ++ le64 uint64_max ++ tail)).
  { unfold data, snapshot_file, snapshot_bytes. rewrite <- !app_assoc. split; [rewrite !length_app; lia|].
    by rewrite Nat2Z.id, drop_app_length. }
  split_and!; [done| |].
  - do 2 apply from_app in H. rewrite !le_bytes_length in H. unfold header_size. by rewrite <- Z.add_assoc in H.
  - pose proof (sections_length secs). unfold data, snapshot_file, snapshot_bytes. rewrite !length_app. lia.
Qed.

(** A reader of that file, wherever it stands. *)
Definition on_file (data pre : bytes) (r : istream_snapshot_reader) : Prop :=
  ir_header_pos r = zlen pre ∧ is_data (ir_snapshot r) = data ∧ is_fail (ir_snapshot r) = false.

Lemma read_row_on_file {A} (unpack : bytes → res (A * bytes)) data pre r a more r' :
  read_row unpack r = Ok (a, more, r') → on_file data pre r → on_file data pre r'.
Proof. unfold read_row. intros H. destruct (unpack _) as [[b rest]|]; [|done]. injection H as <- <- <-. done. Qed.

Lemma set_section_file pre secs tail n r :
  name_ok n → Forall section_ok secs → on_file (snapshot_file pre secs tail) pre r →
  match find_section n secs with
  | Some rows => ∃ r', set_section n r = Some (Ok r') ∧ at_rows r' rows ∧ ir_cur_row r' = 0 ∧
                   on_file (snapshot_file pre secs tail) pre r'
  | None => set_section n r = Some (EOS_THROW snapshot_exception)
  end.
Proof.
  intros Hn Hok (Hp & Hd & Hfail). destruct r as [[data p fl] h num cur]. cbn in Hp, Hd, Hfail. subst h data fl.
  destruct (snapshot_file_from pre secs tail) as (_ & H & Hf).
  pose proof (search_section_from n secs _ _ p _ _ Hn Hok H Hf) as Hs. unfold set_section, walk_fuel.
  cbn [ir_snapshot is_data is_fail is_pos ir_header_pos]. destruct (find_section n secs) as [rows|] eqn:Hfind.
  - destruct Hs as (p' & l' & -> & Hp). cbn [mbind option_bind]. eexists. split; [done|]. split; [|done].
    unfold at_rows. cbn [ir_snapshot is_fail ir_cur_row ir_num_rows is_data is_pos]. split_and!; [done|lia| |lia|by exists l'].
    unfold find_section in Hfind. apply fmap_Some in Hfind as (x & Hx & ->). apply fmap_Some in Hx as ([k y] & Hy & ->).
    apply list_find_Some in Hy as (Hy & _). cbn. eapply so_rows, Forall_lookup_1; eauto.
  - by rewrite Hs.
Qed.

Lemma read_loop_on_file {A D} (unpack : bytes → res (A * bytes)) (create : A → D → res D) fuel more data pre r db db' r' :
  read_loop unpack create fuel more r db = Ok (db', r') → on_file data pre r → on_file data pre r'.
Proof.
  revert more r db. induction fuel as [|fuel IH]; intros more r db; cbn [read_loop]; [by intros [= _ <-]|].
  destruct more; [|by intros [= _ <-]]. destruct (read_row unpack r) as [[[a m] r1]|] eqn:Hr; cbn [mbind result_bind]; [|done].
  destruct (create a db) as [db1|]; cbn [mbind result_bind]; [|done]. intros H Hf. eapply IH; [done|]. by eapply read_row_on_file.
Qed.

Lemma read_rows_ok {A D} {codec : row_codec A} {ok : row_codec_ok A} (create : A → D → res D) (l : list A) data pre r db db' :
  create_all create l db = Ok db' → at_rows r (pack_row <$> l) → ir_cur_row r = 0 → on_file data pre r →
  ∃ r', read_rows unpack_row create db r = Ok (db', r') ∧ on_file data pre r'.
Proof.
  intros Hc Hr H0 Hf. pose proof (read_rows_at pack_row unpack_row create l r db unpack_pack_row Hr H0) as H. rewrite Hc in H.
  destruct (read_rows unpack_row create db r) as [[db1 r']|] eqn:Hl; [|done]. injection H as ->.
  exists r'. split; [done|]. by eapply read_loop_on_file.
Qed.

(** Reading a section that is there. *)
Lemma read_section_file {A} pre secs tail n rows (f : istream_snapshot_reader → res (A * istream_snapshot_reader)) a r :
  name_ok n → Forall section_ok secs → find_section n secs = Some rows → on_file (snapshot_file pre secs tail) pre r →
  (∀ r1, at_rows r1 rows → ir_cur_row r1 = 0 → on_file (snapshot_file pre secs tail) pre r1 →
     ∃ r2, f r1 = Ok (a, r2) ∧ on_file (snapshot_file pre secs tail) pre r2) →
  ∃ r', read_section n f r = Some (Ok (a, r')) ∧ on_file (snapshot_file pre secs tail) pre r'.
Proof.
  intros Hn Hok Hs Hr Hf. pose proof (set_section_file pre secs tail n r Hn Hok Hr) as Hset. rewrite Hs in Hset.
  destruct Hset as (r1 & Hset & Hat & H0 & H1). destruct (Hf r1 Hat H0 H1) as (r2 & Hf2 & H2).
  exists (clear_section r2). unfold read_section. rewrite Hset. cbn [mbind option_bind result_bind]. by rewrite Hf2.
Qed.

Lemma find_section_is_Some n secs : is_Some (find_section n secs) ↔ n ∈ secs.*1.
Proof.
  unfold find_section. rewrite !fmap_is_Some. split.
  - intros [[k x] (Hx & He & _)%list_find_Some]. apply list_elem_of_fmap. exists x. split; [done|by eapply list_elem_of_lookup_2].
  - intros (x & -> & Hx)%list_elem_of_fmap. by eapply list_find_elem_of.
Qed.

(** The file of a finished snapshot is valid. *)
Lemma snapshot_file_valid pre w secs :
  snapshot_history pre w secs None → Forall section_ok secs →
  ∃ w' tail, finalize w = Some (Ok tt, w') ∧ os_data (ow_snapshot w') = snapshot_file pre secs tail ∧
    validate (new_reader (IStream (snapshot_file pre secs tail) (zlen pre) false)) = Some (Ok tt).
Proof.
  intros Hh Hok. destruct (snapshot_history_state _ _ _ _ Hh) as [_ [stale Hs]].
  eexists _, (drop (length (le64 uint64_max)) stale). split; [done|]. cbn [ow_snapshot].
  rewrite Hs, os_write_end, <- app_assoc. split; [done|]. set (tail := drop (length (le64 uint64_max)) stale).
  destruct (snapshot_file_from pre secs tail) as (H0 & H & Hf).
  unfold validate, validate_header, new_reader, walk_fuel. cbn [ir_snapshot is_data].
  destruct (read_uint_from _ _ _ _ _ H0 ltac:(done)) as [-> H1]. rewrite throwing_good. cbn [mbind result_bind].
  rewrite Z.eqb_refl. cbn [EOS_ASSERT mbind result_bind].
  destruct (read_uint_from _ _ _ _ _ H1 ltac:(done)) as [-> H2]. rewrite throwing_good. cbn [mbind result_bind].
  rewrite Z.eqb_refl. cbn [EOS_ASSERT mbind result_bind mret result_ret]. by erewrite validate_sections_from.
Qed.

(** What was read, without the reader. *)
Definition section_result {D} (o : option (res (D * istream_snapshot_reader))) : option (res D) :=
  match o with
  | Some (Ok (db, _)) => Some (Ok db)
  | Some (Throw e) => Some (Throw e)
  | None => None
  end.

(** C20: A snapshot holds what was written.  After any number of sections, with
    rows that failed and were caught among the others, the finished file is
    valid; a section is found exactly if one of its name was written; and
    reading it, with the loop that reads every index, puts exactly the rows that
    were written into the database, one by one and in order, while other names
    are refused. *)
Theorem snapshot_roundtrip pre w secs :
  snapshot_history pre w secs None → Forall section_ok secs →
  ∃ w', finalize w = Some (Ok tt, w') ∧
    let r := new_reader (IStream (os_data (ow_snapshot w')) (zlen pre) false) in
    validate r = Some (Ok tt) ∧
    ∀ n, name_ok n →
      has_section n r = Some (bool_decide (n ∈ secs.*1)) ∧
      ∀ (A D : Type) (pack : A → bytes) unpack (create : A → D → res D) db,
        (∀ a rest, unpack (pack a ++ rest) = Ok (a, rest)) →
        match find_section n secs with
        | Some rows => ∀ l : list A, rows = pack <$> l →
            section_result (read_section n (read_rows unpack create db) r) = Some (create_all create l db)
        | None => read_section n (read_rows unpack create db) r = Some (EOS_THROW snapshot_exception)
        end.
Proof.
  intros Hh Hok. destruct (snapshot_file_valid pre w secs Hh Hok) as (w' & tail & Hfin & Hd & Hv). exists w'. split; [done|]. cbv zeta. rewrite Hd.
  destruct (snapshot_file_from pre secs tail) as (H0 & H & Hf). split; [done|].
  intros n Hn. split.
  - pose proof (search_section_from n secs _ _ (zlen pre) _ _ Hn Hok H Hf) as Hse. unfold has_section, walk_fuel, new_reader, tellg.
    cbn [ir_snapshot is_data is_fail is_pos ir_header_pos]. rewrite (bool_decide_ext _ _ (symmetry (find_section_is_Some n secs))).
    destruct (find_section n secs); [destruct Hse as (p' & l' & -> & _)|rewrite Hse]; done.
  - intros A D pack unpack create db Hc. pose proof (set_section_file pre secs tail n (new_reader (IStream (snapshot_file pre secs tail) (zlen pre) false)) Hn Hok) as Hset.
    specialize (Hset ltac:(done)). unfold read_section.
    destruct (find_section n secs) as [rows|].
    + intros l ->. destruct Hset as (r' & -> & Hat & H0' & _). cbn [mbind option_bind result_bind]. rewrite <- (read_rows_at pack unpack create l r' db Hc Hat H0').
      by destruct (read_rows unpack create db r') as [[]|].
    + by rewrite Hset.
Qed.

(** The size of a section is not checked to lead forward: a file whose section
    is eight less than zero bytes long is validated over and over again. *)
Lemma validate_never_ends fuel data p :
  0 <= p → take 8 (drop (Z.to_nat p) data) = le64 (2 ^ 64 - 8) → validate_sections fuel (IStream data p false) = None.
Proof.
  intros Hp Hd. induction fuel as [|fuel IH]; [done|]. cbn [validate_sections].
  enough (validate_section (IStream data p false) = Ok (Some (IStream data p false))) as -> by done.
  unfold validate_section, read_uint, is_read. cbn [is_fail is_data is_pos]. rewrite Hd.
  change (length (le64 (2 ^ 64 - 8)) =? 8)%nat with true. cbn [negb]. rewrite throwing_good. cbn [mbind result_bind].
  change (le_value (le64 (2 ^ 64 - 8))) with (2 ^ 64 - 8). change (2 ^ 64 - 8 =? uint64_max) with false. cbv iota.
  change (i64 (2 ^ 64 - 8)) with (-8). unfold tellg, seekg. cbn [is_fail is_pos is_data].
  change (length (le64 (2 ^ 64 - 8))) with 8%nat. replace (p + Z.of_nat 8 + -8) with p by lia.
  by rewrite (proj2 (Z.ltb_ge p 0) Hp).
Qed.

(** ** An instance *)

(** A snapshot of one section with two rows of one byte, between which a row
    failed after two bytes. *)
Module small_snapshot.
Definition unpack (l : bytes) : res (Z * bytes) :=
  match l with [] => Throw fc_out_of_range_exception | b :: l => Ok (b, l) end.

Definition run (m : X ostream_snapshot_writer unit) (w : ostream_snapshot_writer) : ostream_snapshot_writer :=
  match m w with Some (_, w) => w | None => w end.

Definition w0 : ostream_snapshot_writer := new_writer (OStream [7] 1).
Definition w1 : ostream_snapshot_writer := run (write_start_section [97; 98]) w0.
Definition w2 : ostream_snapshot_writer := run (write_row ([1], None)) w1.
Definition w3 : ostream_snapshot_writer := run (write_row ([9; 9], Some fc_out_of_range_exception)) w2.
Definition w4 : ostream_snapshot_writer := run (write_row ([2], None)) w3.
Definition w5 : ostream_snapshot_writer := run write_end_section w4.

Lemma history : snapshot_history [7] w5 [([97; 98], [[1]; [2]])] None.
Proof.
  apply (history_end [7] w4 [] ([97; 98], [[1]; [2]])); [|by vm_compute].
  apply (history_row [7] w3 [] [97; 98] [[1]] [2]); [|by vm_compute].
  apply (history_failed [7] w2 [] [97; 98] [[1]] [9; 9] fc_out_of_range_exception); [|by vm_compute].
  apply (history_row [7] w1 [] [97; 98] [] [1]); [|by vm_compute].
  apply (history_start [7] w0); [|by vm_compute]. apply history_new.
Qed.
End small_snapshot.

Lemma snapshot_roundtrip_witness :
  ∃ w', finalize small_snapshot.w5 = Some (Ok tt, w') ∧
    let r := new_reader (IStream (os_data (ow_snapshot w')) 1 false) in
    validate r = Some (Ok tt) ∧ has_section [97; 98] r = Some true ∧
    section_result (read_section [97; 98] (read_rows small_snapshot.unpack (λ a l, Ok (l ++ [a])) []) r) = Some (Ok [1; 2]).
Proof.
  destruct (snapshot_roundtrip [7] small_snapshot.w5 [([97; 98], [[1]; [2]])]) as (w' & Hf & Hv & Hn).
  - apply small_snapshot.history.
  - apply Forall_singleton. split; [repeat constructor|by vm_compute|by vm_compute].
  - exists w'. split; [done|]. split; [done|].
    destruct (Hn [97; 98] ltac:(repeat constructor)) as [Hh Hr]. split; [done|].
    apply (Hr Z (list Z) (λ z, [z]) small_snapshot.unpack (λ a l, Ok (l ++ [a])) [] ltac:(done) [1; 2] eq_refl).
Defined.
