(* ===== verification/TransactionContext.v ===== *)
(** * The transaction context (transaction_context.hpp/.cpp, and the checks of
      controller.cpp that it calls)

    What surrounds the execution of a transaction: the limits on its network,
    CPU and RAM use, the deadline and the billing timer, the record that makes
    duplicates detectable, and the final bill.  The fields of the context are
    grouped by the resource they account for.  The clock and the timer signal
    are arguments of the functions that read them; times are microseconds, and
    [time_point()] is 0. *)

From S2P Require Import Prelude Exceptions Config Merkle Database ResourceLimits Authority Transaction ChainConfig AuthorizationManager ChainDatabase BlockHeaderState.

(** [E::code_value]. *)
Definition code_value (e : exception) : Z := default 0 (chain_code e).

(** ** What the contexts ask the controller *)

Record controller_view : Type := ControllerView {
  skip_trx_checks : bool;
  skip_auth_check : bool;
  is_producing_block : bool;
  is_resource_greylisted : Z → bool;
  is_ram_billing_in_notify_allowed : bool;
  pending_block_time : Z;
  head_block_id : digest_type;
  block_summary : Z → digest_type }.   (* the block_summary_object of each uint16_t *)

(** ** Fields *)

(** What the controller sets before it executes the transaction. *)
Record trx_input : Set := TrxInput {
  ti_trx : transaction;
  ti_id : digest_type;
  ti_start : Z;
  ti_delay : Z;
  ti_deadline : Z;
  ti_leeway : Z;
  ti_explicit_billed_cpu_time : bool;
  ti_can_subjectively_fail : bool }.

Record net_accounting : Set := Net {
  tc_net_usage : Z;                   (* uint64_t *)
  net_limit : Z;                      (* uint64_t *)
  eager_net_limit : Z;                (* uint64_t *)
  net_limit_due_to_block : bool;
  net_limit_due_to_greylist : bool }.

Record cpu_accounting : Set := Cpu {
  billed_cpu_time_us : Z;             (* int64_t *)
  initial_objective_duration_limit : Z;
  objective_duration_limit : Z;
  cpu_limit_due_to_greylist : bool;
  billing_timer_exception_code : Z }.

Record timer : Set := Timer {
  _deadline : Z;
  deadline_exception_code : Z;
  pseudo_start : Z;
  billed_time : Z;
  billing_timer_duration_limit : Z }.

Record ram_accounting : Type := Ram {
  validate_ram_usage : gset Z;
  tc_ram_usage : Z }.                 (* int32_t *)

Record action_receipt : Type := ActionReceipt {
  rc_receiver : Z;
  rc_act_digest : digest_type;
  rc_global_sequence : Z;
  rc_recv_sequence : Z;
  rc_auth_sequence : gmap Z Z;
  rc_code_sequence : Z;               (* fc::unsigned_int *)
  rc_abi_sequence : Z }.

Record transaction_context : Type := TransactionContext {
  tc_net : net_accounting;
  tc_cpu : cpu_accounting;
  tc_timer : timer;
  tc_ram : ram_accounting;
  bill_to_accounts : gset Z;
  executed : list action_receipt;
  published : Z;
  is_input : bool;
  apply_context_free : bool;
  is_initialized : bool }.

Definition with_net (tc : transaction_context) (x : net_accounting) : transaction_context :=
  TransactionContext x (tc_cpu tc) (tc_timer tc) (tc_ram tc) (bill_to_accounts tc) (executed tc)
    (published tc) (is_input tc) (apply_context_free tc) (is_initialized tc).
Definition with_cpu (tc : transaction_context) (x : cpu_accounting) : transaction_context :=
  TransactionContext (tc_net tc) x (tc_timer tc) (tc_ram tc) (bill_to_accounts tc) (executed tc)
    (published tc) (is_input tc) (apply_context_free tc) (is_initialized tc).
Definition with_timer (tc : transaction_context) (x : timer) : transaction_context :=
  TransactionContext (tc_net tc) (tc_cpu tc) x (tc_ram tc) (bill_to_accounts tc) (executed tc)
    (published tc) (is_input tc) (apply_context_free tc) (is_initialized tc).
Definition with_ram (tc : transaction_context) (x : ram_accounting) : transaction_context :=
  TransactionContext (tc_net tc) (tc_cpu tc) (tc_timer tc) x (bill_to_accounts tc) (executed tc)
    (published tc) (is_input tc) (apply_context_free tc) (is_initialized tc).
Definition with_bill_to (tc : transaction_context) (x : gset Z) : transaction_context :=
  TransactionContext (tc_net tc) (tc_cpu tc) (tc_timer tc) (tc_ram tc) x (executed tc)
    (published tc) (is_input tc) (apply_context_free tc) (is_initialized tc).
Definition with_executed (tc : transaction_context) (x : list action_receipt) : transaction_context :=
  TransactionContext (tc_net tc) (tc_cpu tc) (tc_timer tc) (tc_ram tc) (bill_to_accounts tc) x
    (published tc) (is_input tc) (apply_context_free tc) (is_initialized tc).
Definition with_entry (tc : transaction_context) (p : Z) (input context_free : bool) : transaction_context :=
  TransactionContext (tc_net tc) (tc_cpu tc) (tc_timer tc) (tc_ram tc) (bill_to_accounts tc) (executed tc)
    p input context_free (is_initialized tc).
Definition with_initialized (tc : transaction_context) : transaction_context :=
  TransactionContext (tc_net tc) (tc_cpu tc) (tc_timer tc) (tc_ram tc) (bill_to_accounts tc) (executed tc)
    (published tc) (is_input tc) (apply_context_free tc) true.

Definition time_point_maximum : Z := int64_max.

(** The constructor, with the billed time that the controller sets after it. *)
Definition make_transaction_context (ti : trx_input) (billed_cpu_time_us : Z) : res transaction_context :=
  EOS_ASSERT (match transaction_extensions (ti_trx ti) with [] => true | _ => false end) unsupported_feature;;
  mret (TransactionContext (Net 0 0 0 true false)
          (Cpu billed_cpu_time_us 0 0 false (code_value block_cpu_usage_exceeded))
          (Timer time_point_maximum (code_value block_cpu_usage_exceeded) (ti_start ti) 0 0)
          (Ram ∅ 0) ∅ [] 0 false true false).

(** A [flat_set] is traversed in ascending order. *)
Definition flat_set_elements (s : gset Z) : list Z := merge_sort Z.le (elements s).

Section transaction_context.
Context {K : Type} `{EqDecision K}.
(** [fc::endian_reverse_u32] and [fc::raw::pack] of a transaction. *)
Variable endian_reverse_u32 : Z → Z.
Variable pack_transaction : transaction → bytes.
Variable control : controller_view.
Variable ti : trx_input.

Abbreviation cfg db := (ch_configuration db).
Abbreviation pending_slot := (slot_of_time_point (pending_block_time control)).

(** ** Network *)

Definition check_net_usage (n : net_accounting) : res unit :=
  if skip_trx_checks control then mret ()
  else if tc_net_usage n >? eager_net_limit n then
    if net_limit_due_to_block n then EOS_THROW block_net_usage_exceeded
    else if net_limit_due_to_greylist n then EOS_THROW greylist_net_usage_exceeded
    else EOS_THROW tx_net_usage_exceeded
  else mret ().

Definition add_net_usage (n : net_accounting) (u : Z) : res net_accounting :=
  let n := Net (u64 (tc_net_usage n + u)) (net_limit n) (eager_net_limit n) (net_limit_due_to_block n)
             (net_limit_due_to_greylist n) in
  check_net_usage n;;
  mret n.

(** ** Deadlines *)

(** [expired] is the flag of the timer and [now] the clock. *)
Definition checktime (cpu : cpu_accounting) (t : timer) (expired : bool) (now : Z) : res unit :=
  if negb expired then mret ()
  else if now >? _deadline t then
    if ti_explicit_billed_cpu_time ti || (deadline_exception_code t =? code_value deadline_exception)
    then EOS_THROW deadline_exception
    else if deadline_exception_code t =? code_value block_cpu_usage_exceeded
    then EOS_THROW block_cpu_usage_exceeded
    else if deadline_exception_code t =? code_value tx_cpu_usage_exceeded then
      if cpu_limit_due_to_greylist cpu then EOS_THROW greylist_cpu_usage_exceeded
      else EOS_THROW tx_cpu_usage_exceeded
    else if deadline_exception_code t =? code_value leeway_deadline_exception
    then EOS_THROW leeway_deadline_exception
    else EOS_THROW transaction_exception
  else mret ().

Definition pause_billing_timer (t : timer) (now : Z) : timer :=
  if ti_explicit_billed_cpu_time ti || (pseudo_start t =? 0) then t
  else Timer (_deadline t) (code_value deadline_exception) 0 (now - pseudo_start t)
         (billing_timer_duration_limit t).

Definition resume_billing_timer (cpu : cpu_accounting) (t : timer) (now : Z) : timer :=
  if ti_explicit_billed_cpu_time ti || negb (pseudo_start t =? 0) then t
  else
    let start := now - billed_time t in
    if start + billing_timer_duration_limit t <=? ti_deadline ti
    then Timer (start + billing_timer_duration_limit t) (billing_timer_exception_code cpu) start
           (billed_time t) (billing_timer_duration_limit t)
    else Timer (ti_deadline ti) (code_value deadline_exception) start (billed_time t)
           (billing_timer_duration_limit t).

(** ** CPU *)

Definition validate_cpu_usage_to_bill (db : chain_db K) (cpu : cpu_accounting) (billed_us : Z)
    (check_minimum : bool) : res unit :=
  if skip_trx_checks control then mret ()
  else
    (if check_minimum
     then EOS_ASSERT (billed_us >=? min_transaction_cpu_usage (cfg db)) transaction_exception
     else mret ());;
    if billing_timer_exception_code cpu =? code_value block_cpu_usage_exceeded
    then EOS_ASSERT (billed_us <=? objective_duration_limit cpu) block_cpu_usage_exceeded
    else if cpu_limit_due_to_greylist cpu
    then EOS_ASSERT (billed_us <=? objective_duration_limit cpu) greylist_cpu_usage_exceeded
    else EOS_ASSERT (billed_us <=? objective_duration_limit cpu) tx_cpu_usage_exceeded.

Definition update_billed_cpu_time (db : chain_db K) (cpu : cpu_accounting) (t : timer) (now : Z)
    : Z * cpu_accounting :=
  if ti_explicit_billed_cpu_time ti then (u32 (billed_cpu_time_us cpu), cpu)
  else
    let billed := Z.max (now - pseudo_start t) (min_transaction_cpu_usage (cfg db)) in
    (u32 billed,
     Cpu billed (initial_objective_duration_limit cpu) (objective_duration_limit cpu)
       (cpu_limit_due_to_greylist cpu) (billing_timer_exception_code cpu)).

(** ** RAM *)

(** [ram_usage += ram_delta] converts the 64-bit sum to an [int32_t]. *)
Definition trx_add_ram_usage (db : chain_db K) (r : ram_accounting) (account ram_delta : Z)
    : res (chain_db K * ram_accounting) :=
  rl ← add_pending_ram_usage (ch_limits db) account ram_delta;
  let db := with_ch_limits db rl in
  if ram_delta >? 0
  then mret (db, Ram ({[account]} ∪ validate_ram_usage r) (i32 (tc_ram_usage r + ram_delta)))
  else mret (db, r).

(** ** What the billed accounts can pay *)

Definition large_number_no_overflow : Z := int64_max / 2.

Record bandwidth : Set := Bandwidth {
  account_net_limit : Z; account_cpu_limit : Z; greylisted_net : bool; greylisted_cpu : bool }.

Definition can_pay (force_elastic_limits : bool) (rl : resource_limits_db) (b : bandwidth) (a : Z)
    : res bandwidth :=
  let elastic :=
    force_elastic_limits || negb (is_producing_block control && is_resource_greylisted control a) in
  net_limit ← get_account_net_limit rl a elastic;
  cpu_limit ← get_account_cpu_limit rl a elastic;
  mret (Bandwidth
    (if net_limit >=? 0 then Z.min (account_net_limit b) net_limit else account_net_limit b)
    (if cpu_limit >=? 0 then Z.min (account_cpu_limit b) cpu_limit else account_cpu_limit b)
    (greylisted_net b || ((net_limit >=? 0) && negb elastic))
    (greylisted_cpu b || ((cpu_limit >=? 0) && negb elastic))).

Definition max_bandwidth_billed_accounts_can_pay (rl : resource_limits_db) (bill_to : gset Z)
    (force_elastic_limits : bool) : res bandwidth :=
  foldM (can_pay force_elastic_limits rl)
    (Bandwidth large_number_no_overflow large_number_no_overflow false false) (flat_set_elements bill_to).

(** ** Initialisation *)

Definition lower_net_limit (n : net_accounting) (limit : Z) : net_accounting :=
  if limit <=? net_limit n
  then Net (tc_net_usage n) limit (eager_net_limit n) false (net_limit_due_to_greylist n)
  else n.

(** The limits of the block, the configuration and the header. *)
Definition init_net_limit (db : chain_db K) (n : net_accounting) : net_accounting :=
  let n := Net (tc_net_usage n) (get_block_net_limit (ch_limits db)) (eager_net_limit n)
             (net_limit_due_to_block n) (net_limit_due_to_greylist n) in
  let n := lower_net_limit n (max_transaction_net_usage (cfg db)) in
  let trx_specified_net_usage_limit := u64 (max_net_usage_words (header (ti_trx ti)) * 8) in
  if trx_specified_net_usage_limit >? 0 then lower_net_limit n trx_specified_net_usage_limit else n.

Definition lower_duration_limit (cpu : cpu_accounting) (limit : Z) : cpu_accounting :=
  if limit <=? objective_duration_limit cpu
  then Cpu (billed_cpu_time_us cpu) (initial_objective_duration_limit cpu) limit
         (cpu_limit_due_to_greylist cpu) (code_value tx_cpu_usage_exceeded)
  else cpu.

Definition init_duration_limit (db : chain_db K) (cpu : cpu_accounting) : cpu_accounting :=
  let cpu := Cpu (billed_cpu_time_us cpu) (initial_objective_duration_limit cpu)
               (i64 (get_block_cpu_limit (ch_limits db))) (cpu_limit_due_to_greylist cpu)
               (billing_timer_exception_code cpu) in
  let cpu := lower_duration_limit cpu (max_transaction_cpu_usage (cfg db)) in
  let cpu :=
    if max_cpu_usage_ms (header (ti_trx ti)) >? 0
    then lower_duration_limit cpu (max_cpu_usage_ms (header (ti_trx ti)) * 1000) else cpu in
  Cpu (billed_cpu_time_us cpu) (objective_duration_limit cpu) (objective_duration_limit cpu)
    (cpu_limit_due_to_greylist cpu) (billing_timer_exception_code cpu).

Definition actors_of (l : list action) : gset Z :=
  list_to_set (actor <$> concat (act_authorization <$> l)).

(** The limits lowered to what the accounts can pay, plus a leeway. *)
Definition init_eager_net_limit (db : chain_db K) (b : bandwidth) (n : net_accounting) : net_accounting :=
  let n := Net (tc_net_usage n) (net_limit n) (net_limit n) (net_limit_due_to_block n)
             (net_limit_due_to_greylist n || greylisted_net b) in
  let new_eager_net_limit :=
    Z.min (eager_net_limit n) (u64 (i64 (account_net_limit b + net_usage_leeway (cfg db)))) in
  if new_eager_net_limit <? eager_net_limit n
  then Net (tc_net_usage n) (net_limit n) new_eager_net_limit false (net_limit_due_to_greylist n)
  else n.

Definition init_timer (b : bandwidth) (cpu : cpu_accounting) (t : timer) : cpu_accounting * timer :=
  let deadline := ti_start ti + objective_duration_limit cpu in
  let '(deadline, code) :=
    if account_cpu_limit b + ti_leeway ti <=? deadline - ti_start ti
    then (ti_start ti + account_cpu_limit b + ti_leeway ti, code_value leeway_deadline_exception)
    else (deadline, billing_timer_exception_code cpu) in
  let cpu := Cpu (billed_cpu_time_us cpu) (initial_objective_duration_limit cpu)
               (objective_duration_limit cpu) (cpu_limit_due_to_greylist cpu || greylisted_cpu b) code in
  let duration := deadline - ti_start ti in
  (cpu,
   if ti_explicit_billed_cpu_time ti || (ti_deadline ti <? deadline)
   then Timer (ti_deadline ti) (code_value deadline_exception) (pseudo_start t) (billed_time t) duration
   else Timer deadline code (pseudo_start t) (billed_time t) duration).

Definition round_down_to_words (n : net_accounting) : net_accounting :=
  Net (tc_net_usage n) (net_limit n) (eager_net_limit n / 8 * 8) (net_limit_due_to_block n)
    (net_limit_due_to_greylist n).

Definition init (db : chain_db K) (tc : transaction_context) (initial_net_usage : Z) (expired : bool) (now : Z)
    : res (chain_db K * transaction_context) :=
  EOS_ASSERT (negb (is_initialized tc)) transaction_exception;;
  let n := init_net_limit db (tc_net tc) in
  let cpu := init_duration_limit db (tc_cpu tc) in
  (if billed_cpu_time_us cpu >? 0
   then validate_cpu_usage_to_bill db cpu (billed_cpu_time_us cpu) false else mret ());;
  let bill_to := actors_of (actions (ti_trx ti)) ∪ bill_to_accounts tc in
  rl ← update_account_usage (ch_limits db) (flat_set_elements bill_to) pending_slot;
  let db := with_ch_limits db rl in
  b ← max_bandwidth_billed_accounts_can_pay rl bill_to false;
  let n := init_eager_net_limit db b n in
  let '(cpu, t) := init_timer b cpu (tc_timer tc) in
  let n := round_down_to_words n in
  n ← (if initial_net_usage >? 0 then add_net_usage n initial_net_usage else mret n);
  checktime cpu t expired now;;
  mret (db, with_initialized (with_bill_to (with_timer (with_cpu (with_net tc n) cpu) t) bill_to)).

Definition init_for_implicit_trx (db : chain_db K) (tc : transaction_context) (initial_net_usage : Z)
    (expired : bool) (now : Z) : res (chain_db K * transaction_context) :=
  init db (with_entry tc (pending_block_time control) (is_input tc) (apply_context_free tc))
    initial_net_usage expired now.

Definition init_for_deferred_trx (db : chain_db K) (tc : transaction_context) (p : Z)
    (expired : bool) (now : Z) : res (chain_db K * transaction_context) :=
  init db (with_entry tc p (is_input tc) false) 0 expired now.

(** ** Checks of an input transaction (controller.cpp) *)

Definition is_account (db : chain_db K) (a : Z) : bool :=
  match ch_accounts db !! a with Some _ => true | None => false end.

(** The permission exists; a level without a name is refused. *)
Definition permission_exists (db : chain_db K) (auth : permission_level) : res bool :=
  p ← find_permission (ch_authorization db) auth;
  mret (match p with Some _ => true | None => false end).

Definition check_referenced_auth (db : chain_db K) (_ : unit) (auth : permission_level) : res unit :=
  EOS_ASSERT (is_account db (actor auth)) transaction_exception;;
  found ← permission_exists db auth;
  EOS_ASSERT found transaction_exception.

Definition validate_referenced_accounts (db : chain_db K) (t : transaction) : res unit :=
  foldM (λ _ a,
    EOS_ASSERT (is_account db (act_account a)) transaction_exception;;
    EOS_ASSERT (Z.of_nat (length (act_authorization a)) =? 0) transaction_exception)
    () (context_free_actions t);;
  one_auth ← foldM (λ one_auth a,
    EOS_ASSERT (is_account db (act_account a)) transaction_exception;;
    foldM (check_referenced_auth db) () (act_authorization a);;
    mret (one_auth || negb (Z.of_nat (length (act_authorization a)) =? 0)))
    false (actions t);
  EOS_ASSERT one_auth tx_no_auths.

Definition validate_expiration (db : chain_db K) (t : transaction) : res unit :=
  let expiration_us := expiration (header t) * 1000000 in
  EOS_ASSERT (expiration_us >=? pending_block_time control) expired_tx_exception;;
  EOS_ASSERT (expiration_us <=? pending_block_time control + max_transaction_lifetime (cfg db) * 1000000)
    tx_exp_too_far_exception.

Definition validate_tapos (t : transaction) : res unit :=
  EOS_ASSERT (verify_reference_block endian_reverse_u32 (header t)
                (block_summary control (ref_block_num (header t))))
    invalid_ref_block_exception.

(** A transaction object of the same id is a duplicate. *)
Definition record_transaction (db : chain_db K) (id : digest_type) (expire : Z) : res (chain_db K) :=
  match db_create (ch_transactions db) id expire with
  | Ok m => mret (with_transactions db m)
  | Throw _ => EOS_THROW tx_duplicate
  end.

(** The part of the prunable data that is charged, rounded up. *)
Definition discounted_size_for_pruned_data (c : chain_config) (packed_trx_prunable_size : Z) : Z :=
  let num := context_free_discount_net_usage_num c in
  let den := context_free_discount_net_usage_den c in
  if (den >? 0) && (num <? den)
  then u64 (u64 (u64 (packed_trx_prunable_size * num) + den) - 1) / den
  else packed_trx_prunable_size.

(** The network usage charged for retiring a delayed or deferred transaction. *)
Definition retire_net_usage (c : chain_config) : Z :=
  u64 (base_per_transaction_net_usage c + config.transaction_id_net_usage).

Definition input_net_usage (c : chain_config) (unprunable prunable : Z) : Z :=
  let initial_net_usage :=
    u64 (u64 (base_per_transaction_net_usage c + unprunable) + discounted_size_for_pruned_data c prunable) in
  if delay_sec (header (ti_trx ti)) >? 0 then u64 (initial_net_usage + retire_net_usage c)
  else initial_net_usage.

Definition init_for_input_trx (db : chain_db K) (tc : transaction_context)
    (packed_trx_unprunable_size packed_trx_prunable_size : Z) (skip_recording expired : bool) (now : Z)
    : res (chain_db K * transaction_context) :=
  let initial_net_usage := input_net_usage (cfg db) packed_trx_unprunable_size packed_trx_prunable_size in
  let tc := with_entry tc (pending_block_time control) true (apply_context_free tc) in
  (if skip_trx_checks control then mret ()
   else
     validate_expiration db (ti_trx ti);;
     validate_tapos (ti_trx ti);;
     validate_referenced_accounts db (ti_trx ti));;
  '(db, tc) ← init db tc initial_net_usage expired now;
  if skip_recording then mret (db, tc)
  else
    db ← record_transaction db (ti_id ti) (expiration (header (ti_trx ti)));
    mret (db, tc).

(** ** Delayed transactions *)

Definition transaction_id_to_sender_id (tid : digest_type) : Z := _hash3 tid * 2 ^ 64 + _hash2 tid.

Definition schedule_transaction (db : chain_db K) (tc : transaction_context)
    : res (chain_db K * transaction_context) :=
  n ← (if delay_sec (header (ti_trx ti)) =? 0
       then add_net_usage (tc_net tc) (retire_net_usage (cfg db)) else mret (tc_net tc));
  let first_auth := first_authorizor (ti_trx ti) in
  let delay_until := pending_block_time control + ti_delay ti in
  let packed := pack_transaction (ti_trx ti) in
  let trx_size := u32 (Z.of_nat (length packed)) in
  db ← create_generated db
    (GeneratedTransaction (ti_id ti) 0 (transaction_id_to_sender_id (ti_id ti)) first_auth delay_until
       (delay_until + deferred_trx_expiration_window (cfg db) * 1000000)
       (pending_block_time control) packed);
  '(db, r) ← trx_add_ram_usage db (tc_ram tc) first_auth (i64 (billable.generated_transaction + trx_size));
  mret (db, with_ram (with_net tc n) r).

(** ** The bill *)

(** Every permission that authorized the transaction has been used. *)
Definition update_permission_usages (db : chain_db K) : res (chain_db K) :=
  foldM (λ db auth,
    p ← get_permission (ch_authorization db) auth;
    a ← update_permission_usage (ch_authorization db) (pending_block_time control) p;
    mret (with_authorization db a)) db (concat (act_authorization <$> actions (ti_trx ti))).

Definition round_up_to_words (n : net_accounting) : net_accounting :=
  Net (u64 (u64 (tc_net_usage n + 7) / 8 * 8)) (net_limit n) (net_limit n) (net_limit_due_to_block n)
    (net_limit_due_to_greylist n).

(** Everything that [finalize] does before it bills the accounts. *)
Definition finalize_checks (db : chain_db K) (tc : transaction_context) (now : Z)
    : res (chain_db K * transaction_context) :=
  EOS_ASSERT (is_initialized tc) transaction_exception;;
  EOS_ASSERT (tc_ram_usage (tc_ram tc) <? max_ram_usage (header (ti_trx ti))) transaction_exception;;
  db ← (if is_input tc then update_permission_usages db else mret db);
  foldM (λ _ a, verify_account_ram_usage (ch_limits db) a) ()
    (flat_set_elements (validate_ram_usage (tc_ram tc)));;
  b ← max_bandwidth_billed_accounts_can_pay (ch_limits db) (bill_to_accounts tc) false;
  let n := tc_net tc in
  let n := Net (tc_net_usage n) (net_limit n) (eager_net_limit n) (net_limit_due_to_block n)
             (net_limit_due_to_greylist n || greylisted_net b) in
  let n := lower_net_limit n (u64 (account_net_limit b)) in
  let cpu := tc_cpu tc in
  let cpu := Cpu (billed_cpu_time_us cpu) (initial_objective_duration_limit cpu)
               (objective_duration_limit cpu) (cpu_limit_due_to_greylist cpu || greylisted_cpu b)
               (billing_timer_exception_code cpu) in
  let cpu := lower_duration_limit cpu (account_cpu_limit b) in
  let n := round_up_to_words n in
  check_net_usage n;;
  let '(_, cpu) := update_billed_cpu_time db cpu (tc_timer tc) now in
  validate_cpu_usage_to_bill db cpu (billed_cpu_time_us cpu) true;;
  mret (db, with_cpu (with_net tc n) cpu).

Definition finalize (db : chain_db K) (tc : transaction_context) (now : Z)
    : res (chain_db K * transaction_context) :=
  '(db, tc) ← finalize_checks db tc now;
  rl ← add_transaction_usage (ch_limits db) (flat_set_elements (bill_to_accounts tc))
         (u64 (billed_cpu_time_us (tc_cpu tc))) (tc_net_usage (tc_net tc)) pending_slot;
  mret (with_ch_limits db rl, tc).
End transaction_context.

(** ** Limits and the bill *)

Lemma flat_set_elements_elem_of s a : a ∈ flat_set_elements s ↔ a ∈ s.
Proof. unfold flat_set_elements. by rewrite merge_sort_Permutation, elem_of_elements. Qed.

Lemma flat_set_elements_NoDup s : NoDup (flat_set_elements s).
Proof. unfold flat_set_elements. rewrite merge_sort_Permutation. apply NoDup_elements. Qed.

Lemma account_limit_available m u l : account_limit m u = Ok l → 0 <= arl_available l.
Proof.
  unfold account_limit, downgrade_cast_int64. intros H. simplify_res. cbn.
  repeat case_match; simplify_res; lia.
Qed.

Lemma get_account_net_limit_range rl a elastic x :
  get_account_net_limit rl a elastic = Ok x → x = -1 ∨ 0 <= x.
Proof.
  unfold get_account_net_limit, get_account_net_limit_ex. intros H. simplify_res.
  destruct (_ || _); simplify_res; [by left|right; by eapply account_limit_available].
Qed.

Lemma get_account_cpu_limit_range rl a elastic x :
  get_account_cpu_limit rl a elastic = Ok x → x = -1 ∨ 0 <= x.
Proof.
  unfold get_account_cpu_limit, get_account_cpu_limit_ex. intros H. simplify_res.
  destruct (_ || _); simplify_res; [by left|right; by eapply account_limit_available].
Qed.

Section limits.
Context {K : Type} `{EqDecision K}.
Implicit Types (control : controller_view) (ti : trx_input) (db : chain_db K).

(** The limit of one account bounds the common limit. *)
Definition bounded_by (control : controller_view) (force : bool) (rl : resource_limits_db) (b : bandwidth)
    (a : Z) : Prop :=
  let elastic := force || negb (is_producing_block control && is_resource_greylisted control a) in
  ∃ net cpu, get_account_net_limit rl a elastic = Ok net ∧ get_account_cpu_limit rl a elastic = Ok cpu ∧
    (net = -1 ∨ account_net_limit b <= net) ∧ (cpu = -1 ∨ account_cpu_limit b <= cpu).

Definition bandwidth_wf (b : bandwidth) : Prop :=
  0 <= account_net_limit b <= large_number_no_overflow ∧
  0 <= account_cpu_limit b <= large_number_no_overflow.

Lemma max_bandwidth_spec control rl s force b :
  max_bandwidth_billed_accounts_can_pay control rl s force = Ok b →
  bandwidth_wf b ∧ ∀ a, a ∈ s → bounded_by control force rl b a.
Proof.
  unfold max_bandwidth_billed_accounts_can_pay. intros H.
  enough (Hl : ∀ l b0, bandwidth_wf b0 → foldM (can_pay control force rl) b0 l = Ok b →
    bandwidth_wf b ∧ account_net_limit b <= account_net_limit b0 ∧
    account_cpu_limit b <= account_cpu_limit b0 ∧ ∀ a, a ∈ l → bounded_by control force rl b a).
  { apply Hl in H as (Hwf & _ & _ & Hb); [|by vm_compute]. split; [done|]. intros a Ha. apply Hb.
    by apply flat_set_elements_elem_of. }
  clear H. induction l as [|a l IH]; intros b0 Hwf H; cbn in H.
  { simplify_res. split; [done|]. split; [lia|]. split; [lia|]. by intros ? ?%not_elem_of_nil. }
  simplify_res. match goal with H : can_pay _ _ _ _ _ = _ |- _ => unfold can_pay in H end. simplify_res.
  match goal with H : get_account_net_limit _ _ _ = Ok ?x |- _ => rename H into Hn; rename x into net end.
  match goal with H : get_account_cpu_limit _ _ _ = Ok ?x |- _ => rename H into Hc; rename x into cpu end.
  pose proof (get_account_net_limit_range _ _ _ _ Hn). pose proof (get_account_cpu_limit_range _ _ _ _ Hc).
  match goal with H : foldM _ _ l = _ |- _ => apply IH in H as (Hwf' & Hnl & Hcl & Hall) end.
  - cbn in Hnl, Hcl. assert (account_net_limit b <= account_net_limit b0 ∧
      account_cpu_limit b <= account_cpu_limit b0) by (repeat case_match; lia).
    split; [done|]. split; [lia|]. split; [lia|]. intros a' [->|Ha']%elem_of_cons; [|by apply Hall].
    exists net, cpu. split_and!; [done|done| |]; repeat case_match; lia.
  - destruct Hwf. split; cbn; repeat case_match; lia.
Qed.

(** What holds between the initialisation of a transaction and its bill: the
    averages of the billed accounts are current and the limits are within
    those of the block. *)
Record billing_ready (control : controller_view) (db : chain_db K) (tc : transaction_context) : Prop := {
  ready_block : ∃ n, block_inv (ch_limits db) n;
  ready_windows : windows_ok (db_config (ch_limits db));
  ready_usage : ∀ a u, db_usage (ch_limits db) !! a = Some u → usage_wf u;
  ready_current : ∀ a, a ∈ bill_to_accounts tc → ∃ u,
    db_usage (ch_limits db) !! a = Some u ∧ current (slot_of_time_point (pending_block_time control)) u;
  ready_net : net_limit (tc_net tc) <= get_block_net_limit (ch_limits db);
  ready_cpu : objective_duration_limit (tc_cpu tc) <= get_block_cpu_limit (ch_limits db) }.

Lemma params_max_small p : params_ok p → 0 <= elp_max p <= max_raw_value.
Proof.
  intros (HW & HM & _ & Hcap & _). rewrite max_raw_value_eq, Precision_eq in *.
  unfold uint64_max in Hcap. nia.
Qed.

Lemma block_limits_exact rl n :
  block_inv rl n →
  get_block_net_limit rl = elp_max (net_limit_parameters (db_config rl)) - pending_net_usage (db_state rl) ∧
  get_block_cpu_limit rl = elp_max (cpu_limit_parameters (db_config rl)) - pending_cpu_usage (db_state rl) ∧
  0 <= get_block_net_limit rl <= max_raw_value ∧ 0 <= get_block_cpu_limit rl <= max_raw_value.
Proof.
  intros [Hcp Hnp _ _ _ _ Hc Hn]. apply params_max_small in Hcp, Hnp. rewrite max_raw_value_eq in *.
  unfold get_block_net_limit, get_block_cpu_limit. rewrite !wrap_id by (unfold is_unsigned; lia). lia.
Qed.

Lemma lower_net_limit_le n limit :
  net_limit (lower_net_limit n limit) = Z.min (net_limit n) limit ∧
  tc_net_usage (lower_net_limit n limit) = tc_net_usage n ∧
  net_limit_due_to_greylist (lower_net_limit n limit) = net_limit_due_to_greylist n.
Proof. unfold lower_net_limit. destruct (Z.leb_spec limit (net_limit n)); cbn; split_and!; lia || done. Qed.

Lemma lower_duration_limit_le cpu limit :
  objective_duration_limit (lower_duration_limit cpu limit) = Z.min (objective_duration_limit cpu) limit ∧
  billed_cpu_time_us (lower_duration_limit cpu limit) = billed_cpu_time_us cpu.
Proof.
  unfold lower_duration_limit. destruct (Z.leb_spec limit (objective_duration_limit cpu)); cbn; split; lia || done.
Qed.

(** The network limit of a transaction is the least of the three that apply. *)
Definition trx_net_limit (ti : trx_input) (db : chain_db K) : Z :=
  let words := max_net_usage_words (header (ti_trx ti)) in
  let l := Z.min (get_block_net_limit (ch_limits db)) (max_transaction_net_usage (ch_configuration db)) in
  if words =? 0 then l else Z.min l (words * 8).

Definition trx_duration_limit (ti : trx_input) (db : chain_db K) : Z :=
  let ms := max_cpu_usage_ms (header (ti_trx ti)) in
  let l := Z.min (get_block_cpu_limit (ch_limits db)) (max_transaction_cpu_usage (ch_configuration db)) in
  if ms =? 0 then l else Z.min l (ms * 1000).

Lemma init_net_limit_spec ti db n :
  is_unsigned 32 (max_net_usage_words (header (ti_trx ti))) →
  net_limit (init_net_limit ti db n) = trx_net_limit ti db ∧
  tc_net_usage (init_net_limit ti db n) = tc_net_usage n.
Proof.
  intros Hw. unfold is_unsigned in Hw. unfold init_net_limit, trx_net_limit.
  rewrite (wrap_id 64) by (unfold is_unsigned; lia).
  destruct (Z.gtb_spec (max_net_usage_words (header (ti_trx ti)) * 8) 0) as [H|H];
    destruct (Z.eqb_spec (max_net_usage_words (header (ti_trx ti))) 0); try lia;
    rewrite !(proj1 (lower_net_limit_le _ _)), !(proj1 (proj2 (lower_net_limit_le _ _))); done.
Qed.

Lemma init_duration_limit_spec ti db cpu n :
  block_inv (ch_limits db) n → 0 <= max_cpu_usage_ms (header (ti_trx ti)) →
  objective_duration_limit (init_duration_limit ti db cpu) = trx_duration_limit ti db ∧
  initial_objective_duration_limit (init_duration_limit ti db cpu) = trx_duration_limit ti db ∧
  billed_cpu_time_us (init_duration_limit ti db cpu) = billed_cpu_time_us cpu.
Proof.
  intros Hinv Hms. pose proof (block_limits_exact _ _ Hinv) as (_ & _ & _ & Hr). rewrite max_raw_value_eq in Hr.
  unfold init_duration_limit, trx_duration_limit. rewrite swrap_id by (unfold is_signed; lia).
  destruct (Z.gtb_spec (max_cpu_usage_ms (header (ti_trx ti))) 0) as [H|H];
    destruct (Z.eqb_spec (max_cpu_usage_ms (header (ti_trx ti))) 0); try lia; cbn;
    rewrite !(proj1 (lower_duration_limit_le _ _)), !(proj2 (lower_duration_limit_le _ _)); done.
Qed.

Lemma block_inv_usage rl m n : block_inv rl n → block_inv (with_usage rl m) n.
Proof. intros [H1 H2 H3 H4 H5 H6 H7 H8]. by constructor. Qed.

Lemma init_eager_net_limit_le db b n :
  net_limit (init_eager_net_limit db b n) = net_limit n ∧
  eager_net_limit (init_eager_net_limit db b n) <= net_limit n ∧
  tc_net_usage (init_eager_net_limit db b n) = tc_net_usage n.
Proof.
  unfold init_eager_net_limit. cbn.
  destruct (Z.ltb_spec (Z.min (net_limit n) (u64 (i64 (account_net_limit b + net_usage_leeway (ch_configuration db)))))
              (net_limit n)); cbn; lia.
Qed.

Lemma init_timer_cpu ti b cpu t :
  objective_duration_limit (init_timer ti b cpu t).1 = objective_duration_limit cpu ∧
  billed_cpu_time_us (init_timer ti b cpu t).1 = billed_cpu_time_us cpu.
Proof. unfold init_timer. destruct (_ <=? _); done. Qed.

Lemma add_net_usage_spec control n u n' :
  add_net_usage control n u = Ok n' →
  n' = Net (u64 (tc_net_usage n + u)) (net_limit n) (eager_net_limit n) (net_limit_due_to_block n)
         (net_limit_due_to_greylist n) ∧
  (skip_trx_checks control = false → tc_net_usage n' <= eager_net_limit n).
Proof.
  unfold add_net_usage, check_net_usage. cbn. intros H. simplify_res. split; [done|]. intros Hs. rewrite Hs in *.
  cbn. destruct (_ >? _) eqn:Hgt; [|lia]. repeat case_match; simplify_res.
Qed.

Lemma words_le z : z / 8 * 8 <= z ∧ (z / 8 * 8) mod 8 = 0.
Proof. split; [div_lia|apply Z_mod_mult]. Qed.

(** What the initialisation of a transaction establishes. *)
Lemma init_inv control ti db tc initial expired now db' tc' n :
  block_inv (ch_limits db) n → windows_ok (db_config (ch_limits db)) →
  (∀ a u, db_usage (ch_limits db) !! a = Some u → usage_wf u) →
  is_unsigned 32 (max_net_usage_words (header (ti_trx ti))) → 0 <= max_cpu_usage_ms (header (ti_trx ti)) →
  init control ti db tc initial expired now = Ok (db', tc') →
  billing_ready control db' tc' ∧
  net_limit (tc_net tc') = trx_net_limit ti db ∧
  objective_duration_limit (tc_cpu tc') = trx_duration_limit ti db ∧
  eager_net_limit (tc_net tc') <= net_limit (tc_net tc') ∧ eager_net_limit (tc_net tc') mod 8 = 0 ∧
  (skip_trx_checks control = false → 0 < initial →
   tc_net_usage (tc_net tc') = u64 (tc_net_usage (tc_net tc) + initial) ∧
   tc_net_usage (tc_net tc') <= eager_net_limit (tc_net tc')) ∧
  bill_to_accounts tc' = actors_of (actions (ti_trx ti)) ∪ bill_to_accounts tc ∧
  is_initialized tc = false ∧ is_initialized tc' = true.
Proof.
  intros Hinv Hwin Hwf Hwords Hms H. unfold init in H.
  pose proof (init_net_limit_spec ti db (tc_net tc) Hwords) as [Hnl Hnu].
  pose proof (init_duration_limit_spec ti db (tc_cpu tc) n Hinv Hms) as (Hdl & _ & _).
  simplify_res. zbool.
  match goal with H : update_account_usage _ _ _ = Ok ?x |- _ =>
    apply update_account_usage_inv in H as (Heq & Hwf' & Hcur & _);
      [rename x into rl|done|by apply wrap_range|done] end.
  match goal with H : max_bandwidth_billed_accounts_can_pay _ _ _ _ = Ok ?x |- _ => rename x into b; clear H end.
  set (n1 := init_net_limit ti db (tc_net tc)) in *. set (c1 := init_duration_limit ti db (tc_cpu tc)) in *.
  destruct (init_eager_net_limit_le (with_ch_limits db rl) b n1) as (He1 & He2 & He3).
  destruct (init_timer ti b c1 (tc_timer tc)) as [cpu t] eqn:Ht.
  pose proof (init_timer_cpu ti b c1 (tc_timer tc)) as [Hobj _]. rewrite Ht in Hobj. cbn [fst] in Hobj.
  simplify_res. match goal with H : (if initial >? 0 then _ else _) = Ok ?x |- _ =>
    rename H into Hadd; rename x into n2 end.
  set (n3 := round_down_to_words (init_eager_net_limit (with_ch_limits db rl) b n1)) in *.
  assert (Hn2 : net_limit n2 = net_limit n3 ∧ eager_net_limit n2 = eager_net_limit n3 ∧
    (skip_trx_checks control = false → 0 < initial →
     tc_net_usage n2 = u64 (tc_net_usage n3 + initial) ∧ tc_net_usage n2 <= eager_net_limit n3)).
  { destruct (Z.gtb_spec initial 0); [|simplify_res; split_and!; [done..|lia]].
    apply add_net_usage_spec in Hadd as [-> Hle]. split_and!; [done|done|]. intros Hs _. auto. }
  destruct Hn2 as (Hn2 & Hn2e & Hn2u). cbn in Hn2, Hn2e, Hn2u.
  destruct (words_le (eager_net_limit (init_eager_net_limit (with_ch_limits db rl) b n1))) as [Hr1 Hr2].
  cbn. rewrite Hn2, Hn2e, He1, Hnl, Hobj, Hdl.
  split; [|split_and!; try done; [lia|]; intros Hs Hi; destruct (Hn2u Hs Hi) as [-> ?]; rewrite He3, Hnu in *; done].
  assert (Hbn : get_block_net_limit rl = get_block_net_limit (ch_limits db)) by (by rewrite Heq).
  assert (Hbc : get_block_cpu_limit rl = get_block_cpu_limit (ch_limits db)) by (by rewrite Heq).
  constructor; cbn.
  - exists n. rewrite Heq. by apply block_inv_usage.
  - by rewrite Heq.
  - done.
  - intros a Ha. apply Hcur. by apply flat_set_elements_elem_of.
  - change (net_limit n2 <= get_block_net_limit rl). rewrite Hn2, He1, Hnl, Hbn.
    unfold trx_net_limit. destruct (_ =? 0); lia.
  - change (objective_duration_limit cpu <= get_block_cpu_limit rl). rewrite Hobj, Hdl, Hbc.
    unfold trx_duration_limit. destruct (_ =? 0); lia.
Qed.

(** Initialising a transaction sets its network limit to the least of what is
    left of the block, the configured maximum and the header's own limit, and
    its CPU limit likewise; the eager limit is a multiple of eight within it,
    usage that the transaction starts with has been checked against it, and
    everything is ready for the bill. *)
Theorem init_spec control ti db tc initial expired now db' tc' n :
  block_inv (ch_limits db) n → windows_ok (db_config (ch_limits db)) →
  (∀ a u, db_usage (ch_limits db) !! a = Some u → usage_wf u) →
  is_unsigned 32 (max_net_usage_words (header (ti_trx ti))) → 0 <= max_cpu_usage_ms (header (ti_trx ti)) →
  init control ti db tc initial expired now = Ok (db', tc') →
  billing_ready control db' tc' ∧
  net_limit (tc_net tc') = trx_net_limit ti db ∧
  objective_duration_limit (tc_cpu tc') = trx_duration_limit ti db ∧
  eager_net_limit (tc_net tc') <= net_limit (tc_net tc') ∧ eager_net_limit (tc_net tc') mod 8 = 0 ∧
  (skip_trx_checks control = false → 0 < initial →
   tc_net_usage (tc_net tc') = u64 (tc_net_usage (tc_net tc) + initial) ∧
   tc_net_usage (tc_net tc') <= eager_net_limit (tc_net tc')) ∧
  bill_to_accounts tc' = actors_of (actions (ti_trx ti)) ∪ bill_to_accounts tc ∧
  is_initialized tc = false ∧ is_initialized tc' = true.
Proof. apply init_inv. Qed.

Lemma update_permission_usages_keep control ti db db' :
  update_permission_usages control ti db = Ok db' →
  ch_limits db' = ch_limits db ∧ ch_configuration db' = ch_configuration db ∧
  ch_contracts db' = ch_contracts db ∧ ch_accounts db' = ch_accounts db.
Proof.
  unfold update_permission_usages. intros H.
  eapply (foldM_invariant (λ d, ch_limits d = ch_limits db ∧ ch_configuration d = ch_configuration db ∧
    ch_contracts d = ch_contracts db ∧ ch_accounts d = ch_accounts db)) in H; [done| |done].
  intros t a t' _ Ht Hb. by simplify_res.
Qed.

Lemma check_net_usage_Ok control n :
  check_net_usage control n = Ok () → skip_trx_checks control = false → tc_net_usage n <= eager_net_limit n.
Proof.
  unfold check_net_usage. intros H Hs. rewrite Hs in H. destruct (_ >? _) eqn:Hgt; [|lia].
  repeat case_match; simplify_res.
Qed.

Lemma validate_cpu_Ok control db cpu u :
  validate_cpu_usage_to_bill control db cpu u true = Ok () → skip_trx_checks control = false →
  min_transaction_cpu_usage (ch_configuration db) <= u <= objective_duration_limit cpu.
Proof.
  unfold validate_cpu_usage_to_bill. intros H Hs. rewrite Hs in H. simplify_res.
  repeat case_match; simplify_res; zbool; lia.
Qed.

(** What the checks of [finalize] establish. *)
Lemma finalize_checks_inv control ti db tc now db' tc' :
  finalize_checks control ti db tc now = Ok (db', tc') →
  ch_limits db' = ch_limits db ∧ bill_to_accounts tc' = bill_to_accounts tc ∧
  tc_ram_usage (tc_ram tc) < max_ram_usage (header (ti_trx ti)) ∧
  (∀ a, a ∈ validate_ram_usage (tc_ram tc) → verify_account_ram_usage (ch_limits db) a = Ok ()) ∧
  tc_net_usage (tc_net tc') = u64 (u64 (tc_net_usage (tc_net tc) + 7) / 8 * 8) ∧
  ∃ b, max_bandwidth_billed_accounts_can_pay control (ch_limits db) (bill_to_accounts tc) false = Ok b ∧
    (skip_trx_checks control = false →
     tc_net_usage (tc_net tc') <= Z.min (net_limit (tc_net tc)) (u64 (account_net_limit b)) ∧
     min_transaction_cpu_usage (ch_configuration db) <= billed_cpu_time_us (tc_cpu tc') <=
       Z.min (objective_duration_limit (tc_cpu tc)) (account_cpu_limit b)).
Proof.
  unfold finalize_checks. intros H. simplify_res.
  match goal with H : (if is_input tc then _ else _) = Ok ?x |- _ => rename x into db1;
    assert (Hk : ch_limits db1 = ch_limits db ∧ ch_configuration db1 = ch_configuration db)
      by (destruct (is_input tc); simplify_res; [apply update_permission_usages_keep in H; tauto|done]);
    clear H end.
  destruct Hk as [Hl Hcfg].
  match goal with H : max_bandwidth_billed_accounts_can_pay _ _ _ _ = Ok ?x |- _ =>
    rename x into b; rename H into Hb end.
  match goal with H : (let '(_, _) := ?u in _) = Ok _ |- _ => destruct u as [u32 cpu] eqn:Hu end.
  simplify_res. cbn. split; [done|]. split; [done|]. split; [lia|].
  split.
  { intros a Ha. apply flat_set_elements_elem_of in Ha.
    match goal with H : foldM _ _ (flat_set_elements (validate_ram_usage _)) = _ |- _ => revert H end.
    rewrite Hl. clear -Ha. induction (flat_set_elements _) as [|x l IH]; [by apply not_elem_of_nil in Ha|].
    cbn. intros H. simplify_res. repeat match goal with x : unit |- _ => destruct x end.
    apply elem_of_cons in Ha as [->|Ha]; auto. }
  rewrite !(proj1 (proj2 (lower_net_limit_le _ _))). cbn. split; [done|].
  exists b. split; [by rewrite <- Hl|]. intros Hs.
  repeat match goal with x : unit |- _ => destruct x end.
  match goal with H : check_net_usage _ _ = _ |- _ => apply check_net_usage_Ok in H as Hn; [|done] end.
  match goal with H : validate_cpu_usage_to_bill _ _ _ _ _ = _ |- _ => apply validate_cpu_Ok in H as Hc; [|done] end.
  cbn in Hn. rewrite !(proj1 (lower_net_limit_le _ _)), !(proj1 (proj2 (lower_net_limit_le _ _))) in Hn. cbn in Hn.
  split; [exact Hn|]. rewrite <- Hcfg.
  assert (Hobj : objective_duration_limit cpu =
    Z.min (objective_duration_limit (tc_cpu tc)) (account_cpu_limit b)); [|by rewrite <- Hobj].
  unfold update_billed_cpu_time in Hu. destruct (ti_explicit_billed_cpu_time ti); injection Hu as <- <-; cbn;
    by rewrite !(proj1 (lower_duration_limit_le _ _)).
Qed.

Lemma checked_can_be_billed control db tc b cpu net a :
  billing_ready control db tc → a ∈ bill_to_accounts tc →
  max_bandwidth_billed_accounts_can_pay control (ch_limits db) (bill_to_accounts tc) false = Ok b →
  is_producing_block control && is_resource_greylisted control a = false →
  net <= account_net_limit b → cpu <= account_cpu_limit b →
  can_be_billed (ch_limits db) cpu net (slot_of_time_point (pending_block_time control)) a.
Proof.
  intros Hr Ha Hb Hg Hn Hc. destruct (ready_current _ _ _ Hr a Ha) as (u & Hu & Hwf & Hoc & Hon).
  apply max_bandwidth_spec in Hb as [_ Hb]. destruct (Hb a Ha) as (nl & cl & Hnl & Hcl & Hln & Hlc).
  rewrite Hg in Hnl, Hcl. exists u, cl, nl. split_and!; try done; [destruct Hlc; lia|destruct Hln; lia].
Qed.

(** The bill at the end of a transaction never fails, as the comment on it
    says: once the checks of [finalize] have passed, with some network usage to
    bill, a minimum for CPU and no billed account on the producer's greylist,
    charging the accounts and the block succeeds, unless a 64-bit total of an
    account overflows. *)
Theorem finalize_never_fails control ti db tc now db' tc' :
  billing_ready control db tc → skip_trx_checks control = false →
  (∀ a, a ∈ bill_to_accounts tc → is_producing_block control && is_resource_greylisted control a = false) →
  0 < min_transaction_cpu_usage (ch_configuration db) →
  finalize_checks control ti db tc now = Ok (db', tc') → 0 < tc_net_usage (tc_net tc') →
  (∃ rl, finalize control ti db tc now = Ok (with_ch_limits db' rl, tc')) ∨
  finalize control ti db tc now = Throw rate_limiting_state_inconsistent.
Proof.
  intros Hr Hs Hg Hmin Hf Hnet. unfold finalize. rewrite Hf. cbn [mbind result_bind].
  apply finalize_checks_inv in Hf as (Hl & Hbill & _ & _ & _ & b & Hb & Hle).
  destruct (Hle Hs) as [Hn Hc]. rewrite Hl, Hbill.
  destruct (ready_block _ _ _ Hr) as [n Hinv].
  destruct (block_limits_exact _ _ Hinv) as (Hbn & Hbc & Hbn' & Hbc'). rewrite max_raw_value_eq in *.
  pose proof (ready_net _ _ _ Hr). pose proof (ready_cpu _ _ _ Hr).
  pose proof (max_bandwidth_spec _ _ _ _ _ Hb) as [[Hwn Hwc] _].
  assert (Hlarge : large_number_no_overflow < 2 ^ 62) by done.
  rewrite (wrap_id 64 (account_net_limit b)) in Hn by (unfold is_unsigned; lia).
  rewrite (wrap_id 64 (billed_cpu_time_us _)) by (unfold is_unsigned; lia).
  set (cpu := billed_cpu_time_us (tc_cpu tc')) in *. set (net := tc_net_usage (tc_net tc')) in *.
  destruct (bill_accounts_total cpu net (slot_of_time_point (pending_block_time control))
    (flat_set_elements (bill_to_accounts tc)) (ch_limits db)) as [[rl Hrl]|Hrl];
    [apply flat_set_elements_NoDup|apply Hr|lia|done| | |].
  { intros a Ha%flat_set_elements_elem_of. eapply checked_can_be_billed; [done..|by apply Hg|lia|lia]. }
  - left. unfold add_transaction_usage. rewrite Hrl. cbn [mbind result_bind].
    apply bill_accounts_inv in Hrl as (Heq & _ & _); [|apply flat_set_elements_NoDup]. rewrite Heq.
    cbn [with_usage db_state db_config pending_cpu_usage pending_net_usage].
    destruct Hinv as [Hcp Hnp _ _ _ _ Hpc Hpn]. apply params_max_small in Hcp, Hnp.
    rewrite max_raw_value_eq in *. rewrite !wrap_id by (unfold is_unsigned; lia).
    pass_assert. pass_assert. by eexists.
  - right. unfold add_transaction_usage. by rewrite Hrl.
Qed.

(** ** RAM of a transaction *)

(** The RAM that a sequence of charges adds to the counter of a transaction. *)
Definition charged (deltas : list Z) : Z := foldr (λ d acc, Z.max 0 d + acc) 0 deltas.

Lemma charged_nonneg deltas : 0 <= charged deltas.
Proof. induction deltas as [|d l IH]; [done|]. unfold charged in *. cbn. lia. Qed.

Definition charge_all (db : chain_db K) (r : ram_accounting) (account : Z) (deltas : list Z)
    : res (chain_db K * ram_accounting) :=
  foldM (λ '(db, r) d, trx_add_ram_usage db r account d) (db, r) deltas.

Lemma swrap_add w a b : 0 < w → swrap w (swrap w a + b) = swrap w (a + b).
Proof.
  intros Hw. unfold swrap. f_equal.
  replace ((a + 2 ^ (w - 1)) mod 2 ^ w - 2 ^ (w - 1) + b + 2 ^ (w - 1))
    with ((a + 2 ^ (w - 1)) mod 2 ^ w + b) by lia.
  rewrite Zplus_mod_idemp_l. f_equal. lia.
Qed.

(** The counter that is compared with the header's [max_ram_usage] is the sum
    of the positive charges as an [int32_t]: it is exact below 2^31 bytes, and
    beyond that it wraps around, so that a transaction may use far more RAM than
    its header allows and still pass the check. *)
Theorem trx_ram_usage_wraps db r account deltas db' r' :
  charge_all db r account deltas = Ok (db', r') → is_signed 32 (tc_ram_usage r) →
  tc_ram_usage r' = i32 (tc_ram_usage r + charged deltas) ∧
  (0 <= tc_ram_usage r → tc_ram_usage r + charged deltas < 2 ^ 31 →
     tc_ram_usage r' = tc_ram_usage r + charged deltas) ∧
  (tc_ram_usage r = 0 → 2 ^ 31 <= charged deltas < 2 ^ 32 → tc_ram_usage r' < 0).
Proof.
  intros H Hs. pose proof (charged_nonneg deltas) as Hc.
  enough (Hr : tc_ram_usage r' = i32 (tc_ram_usage r + charged deltas)).
  { rewrite Hr. split; [done|]. unfold is_signed in Hs. split; intros.
    - apply swrap_id; [unfold is_signed|]; lia.
    - unfold swrap. div_lia. }
  clear Hc. revert db r H Hs. induction deltas as [|d l IH]; intros db r H Hs; cbn in H.
  { simplify_res. cbn. rewrite Z.add_0_r, swrap_id; [done|done|lia]. }
  simplify_res. match goal with H : trx_add_ram_usage _ _ _ _ = Ok ?x |- _ =>
    destruct x as [db1 r1]; rename H into Ht end.
  match goal with H : foldM _ _ l = _ |- _ => apply IH in H end.
  - unfold trx_add_ram_usage in Ht. simplify_res. cbn [charged foldr]. fold (charged l).
    destruct (Z.gtb_spec d 0) as [Hd|Hd]; simplify_res.
    + match goal with H : tc_ram_usage r' = _ |- _ => rewrite H end. cbn. rewrite swrap_add by lia. f_equal. lia.
    + match goal with H : tc_ram_usage r' = _ |- _ => rewrite H end. f_equal. lia.
  - unfold trx_add_ram_usage in Ht. simplify_res. destruct (d >? 0); simplify_res; [|done].
    apply swrap_range. lia.
Qed.

(** ** The billing timer *)

(** Pausing the billing timer and resuming it later takes exactly the time in
    between out of the time that is billed, whatever the deadline. *)
Theorem paused_time_is_not_billed ti db cpu t paused resumed now :
  ti_explicit_billed_cpu_time ti = false → pseudo_start t ≠ 0 →
  resumed - (paused - pseudo_start t) ≠ 0 →
  let t' := resume_billing_timer ti cpu (pause_billing_timer ti t paused) resumed in
  pseudo_start t' = pseudo_start t + (resumed - paused) ∧
  billed_cpu_time_us (update_billed_cpu_time (K:=K) ti db cpu t' now).2 =
    Z.max (now - pseudo_start t - (resumed - paused)) (min_transaction_cpu_usage (ch_configuration db)) ∧
  (_deadline t' <= ti_deadline ti) ∧
  (pseudo_start t' + billing_timer_duration_limit t <= ti_deadline ti →
     _deadline t' = pseudo_start t' + billing_timer_duration_limit t ∧
     deadline_exception_code t' = billing_timer_exception_code cpu).
Proof.
  intros He Hp Hr. cbn zeta. unfold pause_billing_timer, resume_billing_timer, update_billed_cpu_time.
  rewrite He, (proj2 (Z.eqb_neq (pseudo_start t) 0)) by done. cbn.
  destruct (Z.leb_spec (resumed - (paused - pseudo_start t) + billing_timer_duration_limit t) (ti_deadline ti));
    cbn; split_and!; lia || (intros; split; lia || done).
Qed.
End limits.

(** ** Instances *)

Module bills.
Definition run {A} (d : A) (r : res A) : A := match r with Ok a => a | Throw _ => d end.

(** Accounts 7 and 8 have the same limits; account 7 has used some bandwidth. *)
Definition two_accounts : resource_limits_db :=
  run ResourceLimits.initialize_database
    (db ← initialize_account ResourceLimits.initialize_database 7;
     db ← initialize_account db 8;
     '(_, db) ← set_account_limits db 7 1000000 10 10;
     '(_, db) ← set_account_limits db 8 1000000 10 10;
     db ← process_account_limit_updates db;
     add_transaction_usage db [7] 1000 800 0).

(** The network weight of account 7 has been taken away in the same block. *)
Definition unstaked : resource_limits_db :=
  (run (false, two_accounts) (set_account_limits two_accounts 7 1000000 0 10)).2.

Definition chain (rl : resource_limits_db) : chain_db Z :=
  ChainDb contract_db_empty rl AuthorizationManager.initialize_database ∅ ∅ ∅ ∅ 0 default_chain_config None.

(** Slot 0, validating, with nobody greylisted. *)
Definition control : controller_view :=
  ControllerView false false false (λ _, false) true (config.block_timestamp_epoch * 1000) digest_zero
    (λ _, digest_zero).

Definition trx_of (a : Z) : transaction :=
  Transaction (TransactionHeader 1000 0 (2 ^ 31 - 1) 0 0 0 0) []
    [Action 7 7 [PermissionLevel a 1] []] [].

Definition input (a : Z) : trx_input := TrxInput (trx_of a) digest_zero 100 0 time_point_maximum 3000 false true.

Definition fresh : transaction_context :=
  TransactionContext (Net 0 0 0 true false) (Cpu 0 0 0 false (code_value block_cpu_usage_exceeded))
    (Timer time_point_maximum (code_value block_cpu_usage_exceeded) 100 0 0) (Ram ∅ 0) ∅ [] 0 false true false.

Definition started (rl : resource_limits_db) (initial_net_usage : Z) : chain_db Z * transaction_context :=
  run (chain rl, fresh) (init control (input 7) (chain rl) fresh initial_net_usage false 100).
End bills.

Lemma two_accounts_wf :
  block_inv bills.two_accounts 0 ∧ windows_ok (db_config bills.two_accounts) ∧
  (∀ a u, db_usage bills.two_accounts !! a = Some u → usage_wf u).
Proof.
  split; [split; vm_compute; repeat split; intros; congruence|].
  split; [split; vm_compute; split; congruence|].
  intros a u Hu%elem_of_map_to_list. revert Hu.
  let l := eval vm_compute in (map_to_list (db_usage bills.two_accounts)) in
  replace (map_to_list (db_usage bills.two_accounts)) with l by (vm_compute; reflexivity).
  intros [[= -> ->]|[[= -> ->]|Hu%not_elem_of_nil]%elem_of_cons]%elem_of_cons; [..|done];
    unfold usage_wf, accumulator_wf, is_unsigned; cbn; lia.
Qed.

Lemma init_spec_witness :
  init bills.control (bills.input 7) (bills.chain bills.two_accounts) bills.fresh 120 false 100 =
    Ok (bills.started bills.two_accounts 120) ∧
  net_limit (tc_net (bills.started bills.two_accounts 120).2) = 524288.
Proof.
  split; [vm_compute; reflexivity|].
  destruct two_accounts_wf as (H1 & H2 & H3).
  destruct (init_spec bills.control (bills.input 7) (bills.chain bills.two_accounts) bills.fresh 120 false 100
    (bills.started bills.two_accounts 120).1 (bills.started bills.two_accounts 120).2 0 H1 H2 H3)
    as (_ & Hn & _); [vm_compute; split; congruence|vm_compute; congruence|vm_compute; reflexivity|].
  rewrite Hn. vm_compute. reflexivity.
Defined.

Lemma started_ready :
  billing_ready bills.control (bills.started bills.two_accounts 120).1 (bills.started bills.two_accounts 120).2.
Proof.
  destruct two_accounts_wf as (H1 & H2 & H3).
  apply (init_inv bills.control (bills.input 7) (bills.chain bills.two_accounts) bills.fresh 120 false 100
    (bills.started bills.two_accounts 120).1 (bills.started bills.two_accounts 120).2 0 H1 H2 H3);
    [vm_compute; split; congruence|vm_compute; congruence|vm_compute; reflexivity].
Qed.

(** The state after the checks of a transaction that used 120 bytes and 400 us. *)
Definition checked : chain_db Z * transaction_context :=
  bills.run (bills.started bills.two_accounts 120)
    (finalize_checks bills.control (bills.input 7) (bills.started bills.two_accounts 120).1
       (bills.started bills.two_accounts 120).2 500).

Lemma finalize_never_fails_witness :
  (∃ rl, finalize bills.control (bills.input 7) (bills.started bills.two_accounts 120).1
           (bills.started bills.two_accounts 120).2 500 = Ok (with_ch_limits checked.1 rl, checked.2)) ∨
  finalize bills.control (bills.input 7) (bills.started bills.two_accounts 120).1
    (bills.started bills.two_accounts 120).2 500 = Throw rate_limiting_state_inconsistent.
Proof.
  apply (finalize_never_fails bills.control (bills.input 7) (bills.started bills.two_accounts 120).1
    (bills.started bills.two_accounts 120).2 500 checked.1 checked.2);
    [exact started_ready|reflexivity|reflexivity|vm_compute; reflexivity|vm_compute; reflexivity|
     vm_compute; reflexivity].
Defined.

(** The bill can fail when there is no network usage to bill, as for a
    deferred transaction: an account whose network weight was lowered below
    what it has used passes the checks of [finalize] with a usage of 0, and is
    then refused by [add_transaction_usage], which the comment on the call says
    never fails. *)
Theorem finalize_refuses_after_checks :
  is_ok (finalize_checks bills.control (bills.input 7) (bills.started bills.unstaked 0).1
           (bills.started bills.unstaked 0).2 500) = true ∧
  finalize bills.control (bills.input 7) (bills.started bills.unstaked 0).1
    (bills.started bills.unstaked 0).2 500 = Throw tx_net_usage_exceeded.
Proof. split; vm_compute; reflexivity. Qed.

(** A transaction that allows itself 1000 bytes of RAM and takes 3 GB. *)
Lemma trx_ram_usage_wraps_witness :
  ∃ db' r', charge_all (bills.chain bills.two_accounts) (Ram ∅ 0) 7 [1500000000; 1500000000] = Ok (db', r') ∧
    tc_ram_usage r' < 0 ∧ (tc_ram_usage r' <? 1000) = true.
Proof.
  destruct (charge_all (bills.chain bills.two_accounts) (Ram ∅ 0) 7 [1500000000; 1500000000]) as [[db' r']|e] eqn:H;
    [|vm_compute in H; discriminate H].
  exists db', r'. split; [reflexivity|].
  destruct (trx_ram_usage_wraps _ _ _ _ _ _ H) as (_ & _ & Hn); [vm_compute; split; congruence|].
  assert (Hneg : tc_ram_usage r' < 0) by (apply Hn; [reflexivity|vm_compute; split; congruence]).
  split; [exact Hneg|]. apply Z.ltb_lt. lia.
Defined.

Lemma paused_time_is_not_billed_witness :
  let t := Timer 1000000 0 100 0 5000 in
  billed_cpu_time_us (update_billed_cpu_time (K:=Z) (bills.input 7) (bills.chain bills.two_accounts)
    (tc_cpu bills.fresh)
    (resume_billing_timer (bills.input 7) (tc_cpu bills.fresh) (pause_billing_timer (bills.input 7) t 300) 900)
    2000).2 = Z.max (2000 - 100 - (900 - 300)) 100.
Proof.
  cbn zeta.
  destruct (paused_time_is_not_billed (bills.input 7) (bills.chain bills.two_accounts) (tc_cpu bills.fresh)
    (Timer 1000000 0 100 0 5000) 300 900 2000) as (_ & H & _);
    [reflexivity|discriminate|vm_compute; discriminate|]. exact H.
Defined.
