(* ===== verification/ApplyContext.v ===== *)
(** * The apply context: authorization, RAM and tables (apply_context.hpp/.cpp)

    What a contract can do while it runs: require authorizations, notify
    accounts, and read and write the rows of tables through iterators, with the
    RAM of every row billed to its payer.  The seven kinds of rows share their
    code: the functions for [i64] and [i256] are the value operations at two
    indices, and the members of [generic_index] are the secondary operations at
    the five others.  References to objects are their ids; following one whose
    object was removed is undefined. *)

From S2P Require Import Prelude Exceptions Config Name Merkle Database ResourceLimits Authority Transaction ChainConfig AuthorizationManager StateMonad IteratorCache ChainDatabase TransactionContext.

(** [setcode] of contract_types.hpp. *)
Record setcode : Set := SetCode {
  sc_account : Z; sc_vmtype : Z; sc_vmversion : Z; sc_code : bytes }.
Definition setcode_name : Z := N_ "setcode".

Record apply_context : Type := ApplyContext {
  ac_receiver : Z;
  ac_privileged : bool;
  used_authorizations : list bool;
  notified : list Z;
  inline_actions : list action;
  cfa_inline_actions : list action;
  account_ram_deltas : gmap Z Z;               (* flat_set<account_delta> *)
  caches : table_index → iterator_cache }.

Definition put_cache (c : table_index → iterator_cache) (i : table_index) (x : iterator_cache)
    : table_index → iterator_cache :=
  λ j, if decide (i = j) then x else c j.

Definition with_used (c : apply_context) (x : list bool) : apply_context :=
  ApplyContext (ac_receiver c) (ac_privileged c) x (notified c) (inline_actions c) (cfa_inline_actions c)
    (account_ram_deltas c) (caches c).
Definition with_notified (c : apply_context) (x : list Z) : apply_context :=
  ApplyContext (ac_receiver c) (ac_privileged c) (used_authorizations c) x (inline_actions c)
    (cfa_inline_actions c) (account_ram_deltas c) (caches c).
Definition with_inline (c : apply_context) (x : list action) : apply_context :=
  ApplyContext (ac_receiver c) (ac_privileged c) (used_authorizations c) (notified c) x
    (cfa_inline_actions c) (account_ram_deltas c) (caches c).
Definition with_cfa_inline (c : apply_context) (x : list action) : apply_context :=
  ApplyContext (ac_receiver c) (ac_privileged c) (used_authorizations c) (notified c) (inline_actions c) x
    (account_ram_deltas c) (caches c).
Definition with_ram_deltas (c : apply_context) (x : gmap Z Z) : apply_context :=
  ApplyContext (ac_receiver c) (ac_privileged c) (used_authorizations c) (notified c) (inline_actions c)
    (cfa_inline_actions c) x (caches c).
Definition with_caches (c : apply_context) (x : table_index → iterator_cache) : apply_context :=
  ApplyContext (ac_receiver c) (ac_privileged c) (used_authorizations c) (notified c) (inline_actions c)
    (cfa_inline_actions c) (account_ram_deltas c) x.
Definition with_receiver (c : apply_context) (r : Z) (p : bool) : apply_context :=
  ApplyContext r p (used_authorizations c) (notified c) (inline_actions c) (cfa_inline_actions c)
    (account_ram_deltas c) (caches c).

(** The constructor, with the receiver that [dispatch_action] sets. *)
Definition make_apply_context (act : action) (receiver : Z) : apply_context :=
  ApplyContext receiver false (replicate (length (act_authorization act)) false) [] [] [] ∅
    (λ _, cache_empty).

(** The database, the transaction context and the apply context. *)
Record world (K : Type) : Type := World {
  w_db : chain_db K;
  w_trx : transaction_context;
  w_ctx : apply_context }.
Arguments World {K}.
Arguments w_db {K}.
Arguments w_trx {K}.
Arguments w_ctx {K}.

Section apply_context.
Context {K : Type} `{EqDecision K}.
Variable control : controller_view.
Variable act : action.
Variable unpack_setcode : bytes → res setcode.

Abbreviation MW := (M (world K)).

Definition put_db (db : chain_db K) : MW unit := modify (λ w, World db (w_trx w) (w_ctx w)).
Definition put_ctx (c : apply_context) : MW unit := modify (λ w, World (w_db w) (w_trx w) c).
Definition put_trx (tc : transaction_context) : MW unit := modify (λ w, World (w_db w) tc (w_ctx w)).
Definition put_contracts (c : contract_db) : MW unit :=
  modify (λ w, World (with_contracts (w_db w) c) (w_trx w) (w_ctx w)).

Definition with_cache {A} (i : table_index) (m : M iterator_cache A) : MW A :=
  zoom (λ w, caches (w_ctx w) i)
       (λ c w, World (w_db w) (w_trx w) (with_caches (w_ctx w) (put_cache (caches (w_ctx w)) i c))) m.

(** ** Authorization *)

Definition has_authorization (account : Z) : bool :=
  existsb (λ auth, actor auth =? account) (act_authorization act).

(** The first authorization of the account is marked as used. *)
Definition mark_used (p : permission_level → Prop) `{∀ x, Decision (p x)} : MW unit :=
  match list_find p (act_authorization act) with
  | Some (i, _) => w ← get; put_ctx (with_used (w_ctx w) (<[i := true]> (used_authorizations (w_ctx w))))
  | None => throws missing_auth_exception
  end.

Definition require_authorization (account : Z) : MW unit := mark_used (λ auth, actor auth = account).

Definition require_authorization2 (account permission : Z) : MW unit :=
  mark_used (λ auth, actor auth = account ∧ Authority.permission auth = permission).

Definition has_recipient (code : Z) : MW bool :=
  gets (λ w, existsb (λ a, a =? code) (notified (w_ctx w))).

Definition require_recipient (recipient : Z) : MW unit :=
  found ← has_recipient recipient;
  if (found : bool) then mret tt
  else w ← get; put_ctx (with_notified (w_ctx w) (notified (w_ctx w) ++ [recipient])).

(** ** RAM *)

Definition add_ram_usage (account ram_delta : Z) : MW unit :=
  w ← get;
  '(db, r) ← lift (trx_add_ram_usage (w_db w) (tc_ram (w_trx w)) account ram_delta);
  let deltas := account_ram_deltas (w_ctx w) in
  let delta := match deltas !! account with Some d => i64 (d + ram_delta) | None => ram_delta end in
  modify (λ w, World db (with_ram (w_trx w) r) (with_ram_deltas (w_ctx w) (<[account := delta]> deltas))).

Definition update_db_usage (payer delta : Z) : MW unit :=
  w ← get;
  let receiver := ac_receiver (w_ctx w) in
  (if (delta >? 0) && negb (ac_privileged (w_ctx w) || (payer =? receiver)) then
     asserts (is_ram_billing_in_notify_allowed control || (receiver =? act_account act))
       subjective_block_production_exception;;
     require_authorization payer
   else mret tt);;
  add_ram_usage payer delta.

(** ** Tables *)

(** While code is being set, its account stands in for the receiver. *)
Definition get_receiver : MW Z :=
  if (act_account act =? config.system_account_name) && (act_name act =? setcode_name)
  then a ← lift (data_as config.system_account_name setcode_name unpack_setcode act); mret (sc_account a)
  else gets (λ w, ac_receiver (w_ctx w)).

Abbreviation contracts w := (ch_contracts (w_db w)).

Definition find_table (code scope table : Z) : MW (option Z) :=
  gets (λ w, find_table_id (contracts w) code scope table).

Definition find_or_create_table (code scope table payer : Z) : MW Z :=
  existing_tid ← find_table code scope table;
  match existing_tid with
  | Some t => mret t
  | None =>
      update_db_usage payer billable.table_id;;
      w ← get;
      let t := next_table_id (contracts w) in
      put_contracts (with_tables (contracts w)
        (<[t := TableId code scope table payer 0]> (tables (contracts w))) (t + 1));;
      mret t
  end.

Definition get_table_object (t : Z) : MW table_id_object :=
  w ← get; deref (tables (contracts w) !! t).

Definition set_table_count (t : Z) (f : Z → Z) : MW unit :=
  tab ← get_table_object t;
  w ← get;
  put_contracts (with_tables (contracts w) (<[t := with_count tab (f (tb_count tab))]> (tables (contracts w)))
                   (next_table_id (contracts w))).

(** [-x] of a [uint64_t] as an [int64_t]. *)
Definition refund (x : Z) : Z := i64 (u64 (- x)).

Definition remove_table (t : Z) : MW unit :=
  tab ← get_table_object t;
  update_db_usage (tb_payer tab) (refund billable.table_id);;
  w ← get;
  put_contracts (with_tables (contracts w) (delete t (tables (contracts w))) (next_table_id (contracts w))).

Definition get_table_item_count (code scope table : Z) : MW Z :=
  table_obj ← find_table code scope table;
  match table_obj with
  | None => mret 0
  | Some t => tab ← get_table_object t; mret (i32 (tb_count tab))
  end.

(** ** Rows *)

Section rows.
Variable i : table_index.

Abbreviation this_rows w := (index_rows (contracts w) i).

(** The order of [by_scope_primary] and [by_primary]. *)
Definition scope_primary_lt (a b : Z * primary_key_type i) : bool :=
  (a.1 <? b.1) || ((a.1 =? b.1) && primary_key_lt i a.2 b.2).

Definition primary_of (r : index_row i) : Z * primary_key_type i := (r_t_id r, r_primary r).

Definition row_lt (a b : index_row i) : bool := scope_primary_lt (primary_of a) (primary_of b).

(** [db.find] by table and primary key. *)
Definition find_row (rs : index_rows_type i) (t : Z) (p : primary_key_type i) : option (index_row i) :=
  snd <$> (snd <$> list_find (λ '(_, r), r_t_id r = t ∧ r_primary r = p) (map_to_list (by_id rs))).

Definition get_row (o : Z) : MW (index_row i) := w ← get; deref (by_id (this_rows w) !! o).

(** [db.create]: the primary key is unique in its table. *)
Definition create_row (t : Z) (id : primary_key_type i) (payer : Z) (data : data_type i) : MW Z :=
  w ← get;
  let rs := this_rows w in
  match find_row rs t id with
  | Some _ => lift (Throw std_logic_error)
  | None =>
      let o := next_row_id rs in
      put_contracts (put_rows (contracts w) i (Rows (<[o := Row o t id payer data]> (by_id rs)) (o + 1)));;
      mret o
  end.

Definition modify_row (o : Z) (f : index_row i → index_row i) : MW unit :=
  w ← get;
  let rs := this_rows w in
  put_contracts (put_rows (contracts w) i (Rows (alter f o (by_id rs)) (next_row_id rs))).

Definition remove_row (o : Z) : MW unit :=
  w ← get;
  let rs := this_rows w in
  put_contracts (put_rows (contracts w) i (Rows (delete o (by_id rs)) (next_row_id rs))).

Definition with_row (r : index_row i) (payer : Z) (data : data_type i) : index_row i :=
  Row (r_id r) (r_t_id r) (r_primary r) payer data.

(** The RAM billed for a row, as the code computes it for its payer. *)
Definition billed_size (data : data_type i) : Z := i64 (u64 (value_size i data + billable.of_index i)).

(** A row is taken out of its table, which goes with its last row. *)
Definition drop_row (t o : Z) : MW unit :=
  set_table_count t (λ c, u32 (c - 1));;
  remove_row o;;
  tab ← get_table_object t;
  if tb_count tab =? 0 then remove_table t else mret tt.

(** ** Rows with a value ([db_*_i64] and [db_*_i256]) *)

Definition db_store (code scope table payer : Z) (id : primary_key_type i) (buffer : data_type i) : MW Z :=
  tab ← find_or_create_table code scope table payer;
  asserts (negb (payer =? 0)) invalid_table_payer;;
  obj ← create_row tab id payer buffer;
  set_table_count tab (λ c, u32 (c + 1));;
  update_db_usage payer (billed_size buffer);;
  with_cache i (cache_table tab);;
  with_cache i (cache_add obj).

Definition check_access (check_code : bool) (table_obj : table_id_object) : MW unit :=
  if check_code
  then r ← get_receiver; asserts (tb_code table_obj =? r) table_access_violation
  else mret tt.

Definition db_update (iterator payer : Z) (buffer : data_type i) (check_code : bool) : MW unit :=
  o ← with_cache i (cache_get iterator);
  obj ← get_row o;
  t ← with_cache i (get_table (r_t_id obj));
  table_obj ← get_table_object t;
  check_access check_code table_obj;;
  let old_size := billed_size (r_data obj) in
  let new_size := billed_size buffer in
  let payer := if payer =? 0 then r_payer obj else payer in
  (if negb (r_payer obj =? payer) then
     update_db_usage (r_payer obj) (i64 (- old_size));;
     update_db_usage payer new_size
   else if negb (old_size =? new_size) then update_db_usage (r_payer obj) (i64 (new_size - old_size))
   else mret tt);;
  modify_row o (λ r, with_row r payer buffer).

Definition db_remove (iterator : Z) (check_code : bool) : MW unit :=
  o ← with_cache i (cache_get iterator);
  obj ← get_row o;
  t ← with_cache i (get_table (r_t_id obj));
  table_obj ← get_table_object t;
  check_access check_code table_obj;;
  update_db_usage (r_payer obj) (refund (value_size i (r_data obj) + billable.of_index i));;
  drop_row t o;;
  with_cache i (cache_remove iterator).

Definition value_bytes : data_type i → bytes :=
  match i with
  | key_value_index | key256_value_index => λ v : bytes, v
  | index256_index => λ _, []
  | _ => λ _, []
  end.

(** The result and what is copied to the buffer. *)
Definition db_get (iterator buffer_size : Z) : MW (Z * bytes) :=
  o ← with_cache i (cache_get iterator);
  obj ← get_row o;
  let s := value_size i (r_data obj) in
  if buffer_size =? 0 then mret (i32 s, [])
  else
    let copy_size := Z.min buffer_size s in
    mret (i32 copy_size, take (Z.to_nat copy_size) (value_bytes (r_data obj))).

(** [db_get_i64_ex]: the size of the value, its primary key and the copied bytes. *)
Definition db_get_ex (iterator buffer_size : Z) : MW (Z * primary_key_type i * bytes) :=
  o ← with_cache i (cache_get iterator);
  obj ← get_row o;
  let s := value_size i (r_data obj) in
  mret (i32 s, r_primary obj, take (Z.to_nat (Z.min s buffer_size)) (value_bytes (r_data obj))).

(** [db_get_i64_exex]: the size and the bytes in place. *)
Definition db_get_exex (iterator : Z) : MW (Z * bytes) :=
  o ← with_cache i (cache_get iterator);
  obj ← get_row o;
  mret (value_size i (r_data obj), value_bytes (r_data obj)).

(** ** Traversal in the order of the primary keys *)

(** The iterator of the row that a search has found, and its primary key. *)
Definition add_iterator (r : index_row i) : MW (Z * option (primary_key_type i)) :=
  itr ← with_cache i (cache_add (r_id r));
  mret (itr, Some (r_primary r)).

Definition db_end (code scope table : Z) : MW Z :=
  tab ← find_table code scope table;
  match tab with None => mret (-1) | Some t => with_cache i (cache_table t) end.

(** A search in a table by [find]: -1 without the table, its end iterator
    without a row, and the iterator of the row otherwise. *)
Definition search (code scope table : Z) (find : index_rows_type i → Z → option (index_row i))
    : MW (Z * option (index_row i)) :=
  tab ← find_table code scope table;
  match tab with
  | None => mret (-1, None)
  | Some t =>
      table_end_itr ← with_cache i (cache_table t);
      w ← get;
      match find (this_rows w) t with
      | None => mret (table_end_itr, None)
      | Some obj => itr ← with_cache i (cache_add (r_id obj)); mret (itr, Some obj)
      end
  end.

(** A bound of an ordered index is in the table or past its end. *)
Definition in_table (t : Z) (r : option (index_row i)) : option (index_row i) :=
  match r with Some r => if negb (r_t_id r =? t) then None else Some r | None => None end.

Definition lower_bound_row (id : primary_key_type i) (rs : index_rows_type i) (t : Z) : option (index_row i) :=
  in_table t (first_by row_lt (λ r, negb (scope_primary_lt (primary_of r) (t, id))) (by_id rs)).

Definition upper_bound_row (id : primary_key_type i) (rs : index_rows_type i) (t : Z) : option (index_row i) :=
  in_table t (first_by row_lt (λ r, scope_primary_lt (t, id) (primary_of r)) (by_id rs)).

Definition db_find (code scope table : Z) (id : primary_key_type i) : MW Z :=
  r ← search code scope table (λ rs t, find_row rs t id); mret r.1.

Definition db_lowerbound (code scope table : Z) (id : primary_key_type i) : MW Z :=
  r ← search code scope table (lower_bound_row id); mret r.1.

Definition db_upperbound (code scope table : Z) (id : primary_key_type i) : MW Z :=
  r ← search code scope table (upper_bound_row id); mret r.1.

(** The row after [obj] in the order [lt]; past the table, its end iterator. *)
Definition next_in (lt : index_row i → index_row i → bool) (iterator : Z)
    : MW (Z * option (primary_key_type i)) :=
  if iterator <? -1 then mret (-1, None)
  else
    o ← with_cache i (cache_get iterator);
    obj ← get_row o;
    w ← get;
    match first_by lt (lt obj) (by_id (this_rows w)) with
    | Some r =>
        if negb (r_t_id r =? r_t_id obj)
        then ei ← with_cache i (get_end_iterator_by_table_id (r_t_id obj)); mret (ei, None)
        else add_iterator r
    | None => ei ← with_cache i (get_end_iterator_by_table_id (r_t_id obj)); mret (ei, None)
    end.

(** The row before, where an end iterator stands after the last row of its
    table; [tab->id] reads the table object. *)
Definition previous_in (lt : index_row i → index_row i → bool) (iterator : Z)
    : MW (Z * option (primary_key_type i)) :=
  if iterator <? -1 then
    tab ← with_cache i (find_table_by_end_iterator iterator);
    match tab with
    | None => throws invalid_table_iterator
    | Some t =>
        _ ← get_table_object t;
        w ← get;
        match last_by lt (λ r, r_t_id r <=? t) (by_id (this_rows w)) with
        | None => mret (-1, None)
        | Some r => if negb (r_t_id r =? t) then mret (-1, None) else add_iterator r
        end
    end
  else
    o ← with_cache i (cache_get iterator);
    obj ← get_row o;
    w ← get;
    match last_by lt (λ r, lt r obj) (by_id (this_rows w)) with
    | None => mret (-1, None)
    | Some r => if negb (r_t_id r =? r_t_id obj) then mret (-1, None) else add_iterator r
    end.

Definition db_next (iterator : Z) : MW (Z * option (primary_key_type i)) := next_in row_lt iterator.
Definition db_previous (iterator : Z) : MW (Z * option (primary_key_type i)) := previous_in row_lt iterator.

(** ** Secondary indices ([generic_index]) *)

(** The comparison of secondary keys; the ones of floating-point numbers
    belong to the softfloat library.  [find_equal] is the lookup by a part of
    the key, which may find any row that matches. *)
Variable secondary_key_lt : data_type i → data_type i → bool.
Variable find_equal : (index_row i → bool) → gmap Z (index_row i) → option (index_row i).

(** The order of [by_secondary]. *)
Definition secondary_lt (a b : index_row i) : bool :=
  (r_t_id a <? r_t_id b) ||
  ((r_t_id a =? r_t_id b) &&
   (secondary_key_lt (r_data a) (r_data b) ||
    (negb (secondary_key_lt (r_data b) (r_data a)) && primary_key_lt i (r_primary a) (r_primary b)))).

(** The comparison of a row with the table and a secondary key. *)
Definition before_secondary (t : Z) (k : data_type i) (r : index_row i) : bool :=
  (r_t_id r <? t) || ((r_t_id r =? t) && secondary_key_lt (r_data r) k).
Definition after_secondary (t : Z) (k : data_type i) (r : index_row i) : bool :=
  (t <? r_t_id r) || ((r_t_id r =? t) && secondary_key_lt k (r_data r)).

Definition store (scope table payer : Z) (id : primary_key_type i) (value : data_type i) : MW Z :=
  asserts (negb (payer =? 0)) invalid_table_payer;;
  code ← get_receiver;
  tab ← find_or_create_table code scope table payer;
  obj ← create_row tab id payer value;
  set_table_count tab (λ c, u32 (c + 1));;
  update_db_usage payer (i64 (billable.of_index i));;
  with_cache i (cache_table tab);;
  with_cache i (cache_add obj).

Definition idx_remove (iterator : Z) : MW unit :=
  o ← with_cache i (cache_get iterator);
  obj ← get_row o;
  update_db_usage (r_payer obj) (refund (billable.of_index i));;
  t ← with_cache i (get_table (r_t_id obj));
  table_obj ← get_table_object t;
  check_access true table_obj;;
  drop_row t o;;
  with_cache i (cache_remove iterator).

Definition idx_update (iterator payer : Z) (secondary : data_type i) : MW unit :=
  o ← with_cache i (cache_get iterator);
  obj ← get_row o;
  t ← with_cache i (get_table (r_t_id obj));
  table_obj ← get_table_object t;
  check_access true table_obj;;
  let payer := if payer =? 0 then r_payer obj else payer in
  let billing_size := i64 (billable.of_index i) in
  (if negb (r_payer obj =? payer) then
     update_db_usage (r_payer obj) (i64 (- billing_size));;
     update_db_usage payer billing_size
   else mret tt);;
  modify_row o (λ r, with_row r payer secondary).

Definition find_secondary (code scope table : Z) (secondary : data_type i)
    : MW (Z * option (primary_key_type i)) :=
  r ← search code scope table (λ rs t,
        find_equal (λ r, (r_t_id r =? t) && negb (secondary_key_lt (r_data r) secondary) &&
                         negb (secondary_key_lt secondary (r_data r))) (by_id rs));
  mret (r.1, r_primary <$> r.2).

Definition lowerbound_secondary (code scope table : Z) (secondary : data_type i)
    : MW (Z * option (primary_key_type i * data_type i)) :=
  r ← search code scope table (λ rs t,
        in_table t (first_by secondary_lt (λ r, negb (before_secondary t secondary r)) (by_id rs)));
  mret (r.1, (λ x, (r_primary x, r_data x)) <$> r.2).

Definition upperbound_secondary (code scope table : Z) (secondary : data_type i)
    : MW (Z * option (primary_key_type i * data_type i)) :=
  r ← search code scope table (λ rs t,
        in_table t (first_by secondary_lt (after_secondary t secondary) (by_id rs)));
  mret (r.1, (λ x, (r_primary x, r_data x)) <$> r.2).

Definition next_secondary (iterator : Z) : MW (Z * option (primary_key_type i)) := next_in secondary_lt iterator.
Definition previous_secondary (iterator : Z) : MW (Z * option (primary_key_type i)) :=
  previous_in secondary_lt iterator.

Definition find_primary (code scope table : Z) (primary : primary_key_type i) : MW (Z * option (data_type i)) :=
  r ← search code scope table (λ rs t, find_row rs t primary); mret (r.1, r_data <$> r.2).

Definition idx_get (iterator : Z) : MW (primary_key_type i * data_type i) :=
  o ← with_cache i (cache_get iterator);
  obj ← get_row o;
  mret (r_primary obj, r_data obj).
End rows.

(** ** The calls of contracts *)

Definition db_store_i64 (code scope table payer id : Z) (buffer : bytes) : MW Z :=
  db_store key_value_index code scope table payer id buffer.
Definition db_store_i64_receiver (scope table payer id : Z) (buffer : bytes) : MW Z :=
  code ← get_receiver; db_store_i64 code scope table payer id buffer.
Definition db_update_i64 (iterator payer : Z) (buffer : bytes) (check_code : bool) : MW unit :=
  db_update key_value_index iterator payer buffer check_code.
Definition db_remove_i64 (iterator : Z) (check_code : bool) : MW unit :=
  db_remove key_value_index iterator check_code.
Definition db_get_i64 (iterator buffer_size : Z) : MW (Z * bytes) := db_get key_value_index iterator buffer_size.
Definition db_get_i64_ex (iterator buffer_size : Z) : MW (Z * Z * bytes) :=
  db_get_ex key_value_index iterator buffer_size.
Definition db_get_i64_exex (itr : Z) : MW (Z * bytes) := db_get_exex key_value_index itr.
Definition db_next_i64 (iterator : Z) : MW (Z * option Z) := db_next key_value_index iterator.
Definition db_previous_i64 (iterator : Z) : MW (Z * option Z) := db_previous key_value_index iterator.
Definition db_find_i64 (code scope table id : Z) : MW Z := db_find key_value_index code scope table id.
Definition db_lowerbound_i64 (code scope table id : Z) : MW Z := db_lowerbound key_value_index code scope table id.
Definition db_upperbound_i64 (code scope table id : Z) : MW Z := db_upperbound key_value_index code scope table id.
Definition db_end_i64 (code scope table : Z) : MW Z := db_end key_value_index code scope table.

Definition db_store_i256 (code scope table payer : Z) (id : key256_t) (buffer : bytes) : MW Z :=
  db_store key256_value_index code scope table payer id buffer.
Definition db_store_i256_receiver (scope table payer : Z) (id : key256_t) (buffer : bytes) : MW Z :=
  code ← get_receiver; db_store_i256 code scope table payer id buffer.
Definition db_update_i256 (iterator payer : Z) (buffer : bytes) (check_code : bool) : MW unit :=
  db_update key256_value_index iterator payer buffer check_code.
Definition db_remove_i256 (iterator : Z) (check_code : bool) : MW unit :=
  db_remove key256_value_index iterator check_code.
Definition db_get_i256 (iterator buffer_size : Z) : MW (Z * bytes) :=
  db_get key256_value_index iterator buffer_size.
Definition db_find_i256 (code scope table : Z) (id : key256_t) : MW Z :=
  db_find key256_value_index code scope table id.
Definition db_previous_i256 (iterator : Z) : MW (Z * option key256_t) :=
  db_previous key256_value_index iterator.
Definition db_end_i256 (code scope table : Z) : MW Z := db_end key256_value_index code scope table.
End apply_context.
