(* ===== verification/EosioContract.v ===== *)
(** * Native actions of the system account (eosio_contract.cpp)

    The handlers that the controller runs for the actions of [eosio]: creating
    accounts, setting code and ABIs, changing permissions and links, and
    cancelling delayed transactions, with the RAM of what they create billed to
    its account.  Unpacking, hashing and the virtual machines are parameters. *)

From S2P Require Import Prelude Exceptions Config Name Merkle Database ResourceLimits Authority Transaction ChainConfig AuthorizationManager StateMonad IteratorCache ChainDatabase BlockHeaderState TransactionContext ApplyContext.

(** ** Actions (contract_types.hpp) *)

Record newaccount (K : Type) : Type := NewAccount {
  na_creator : Z; na_name : Z; na_owner : authority K; na_active : authority K }.
Arguments NewAccount {K}.
Arguments na_creator {K}.
Arguments na_name {K}.
Arguments na_owner {K}.
Arguments na_active {K}.
Record setabi : Set := SetAbi { sa_account : Z; sa_abi : bytes }.
Record activatevm : Set := ActivateVm { av_vm_name : Z; av_type : Z; av_version : Z }.

Definition newaccount_name : Z := N_ "newaccount".
Definition setabi_name : Z := N_ "setabi".
Definition activatevm_name : Z := N_ "activatevm".

(** ** Lists of the configuration (controller.cpp) *)

Record controller_lists (K : Type) : Type := ControllerLists {
  actor_whitelist : gset Z;
  actor_blacklist : gset Z;
  contract_whitelist : gset Z;
  contract_blacklist : gset Z;
  action_blacklist : gset (Z * Z);
  key_blacklist : list K }.
Arguments ControllerLists {K}.
Arguments actor_whitelist {K}.
Arguments actor_blacklist {K}.
Arguments contract_whitelist {K}.
Arguments contract_blacklist {K}.
Arguments action_blacklist {K}.
Arguments key_blacklist {K}.

Section lists.
Context {K : Type} `{EqDecision K}.
Variable conf : controller_lists K.

Definition check_actor_list (actors : gset Z) : res unit :=
  if decide (actor_whitelist conf ≠ ∅) then
    EOS_ASSERT (bool_decide (actors ∖ actor_whitelist conf = ∅)) actor_whitelist_exception
  else if decide (actor_blacklist conf ≠ ∅) then
    EOS_ASSERT (bool_decide (actors ∩ actor_blacklist conf = ∅)) actor_blacklist_exception
  else mret tt.

Definition check_contract_list (code : Z) : res unit :=
  if decide (contract_whitelist conf ≠ ∅) then
    EOS_ASSERT (bool_decide (code ∈ contract_whitelist conf)) contract_whitelist_exception
  else if decide (contract_blacklist conf ≠ ∅) then
    EOS_ASSERT (bool_decide (code ∉ contract_blacklist conf)) contract_blacklist_exception
  else mret tt.

Definition check_action_list (code action : Z) : res unit :=
  if decide (action_blacklist conf ≠ ∅) then
    EOS_ASSERT (bool_decide ((code, action) ∉ action_blacklist conf)) action_blacklist_exception
  else mret tt.

Definition check_key_list (key : K) : res unit :=
  if decide (key_blacklist conf ≠ []) then
    EOS_ASSERT (bool_decide (key ∉ key_blacklist conf)) key_blacklist_exception
  else mret tt.
End lists.

(** ** Parameters *)

(** [fc::raw::unpack] of the actions, [pack_size] and [operator<] of keys, and
    [fc::sha256::hash]. *)
Class native_codec (K : Type) : Type := {
  unpack_newaccount : bytes → res (newaccount K);
  unpack_setcode : bytes → res setcode;
  unpack_setabi : bytes → res setabi;
  unpack_updateauth : bytes → res (updateauth K);
  unpack_deleteauth : bytes → res deleteauth;
  unpack_linkauth : bytes → res linkauth;
  unpack_unlinkauth : bytes → res unlinkauth;
  unpack_canceldelay : bytes → res canceldelay;
  unpack_activatevm : bytes → res activatevm;
  key_pack_size : K → Z;
  public_key_lt : K → K → bool;
  code_hash : bytes → digest_type;
  unpack_producers : bytes → res (list (@producer_key K));
  key_valid : K → bool }.

(** The options of the application that the handlers read. *)
Record app_mode : Set := AppMode { is_eos_main_net : bool; is_unittest_mode : bool; debug_mode : bool }.

(** [billable_size_v<permission_object>]. *)
Definition billable_permission : Z := config.billable_size_v (billable_shared_authority + 64 + billable.rows_overhead 5).

(** [s.find(prefix) == 0]. *)
Definition starts_with (prefix s : list ascii) : bool := bool_decide (take (length prefix) s = prefix).
Definition eosio_prefix : list ascii := list_ascii_of_string "eosio.".

(** The bytes of a [uint64_t] in memory. *)
Definition bytes_of_uint64 (x : Z) : bytes := (λ i, x / 2 ^ (8 * Z.of_nat i) mod 256) <$> seq 0 8.

Section handlers.
Context {K : Type} `{EqDecision K} {codec : native_codec K}.
Variable control : controller_view.
Variable lists : controller_lists K.
Variable mode : app_mode.
Variable act : action.
(** [vm_manager::apply], [vm_manager::setcode] and [load_vm_from_ram]. *)
Variable vm_apply : Z → Z → Z → Z → M (world K) unit.
Variable vm_setcode : Z → Z → res unit.
Variable load_vm_from_ram : Z → Z → res unit.

Abbreviation MW := (M (world K)).
Abbreviation native n u := (lift (data_as config.system_account_name n u act)).

Definition put_authorization (a : @authorization_db K) : MW unit :=
  modify (λ w, World (with_authorization (w_db w) a) (w_trx w) (w_ctx w)).
Definition put_accounts (a : gmap Z account_object) : MW unit :=
  modify (λ w, World (with_accounts (w_db w) a) (w_trx w) (w_ctx w)).
Definition put_sequences (s : gmap Z account_sequence_object) : MW unit :=
  modify (λ w, World (with_sequences (w_db w) s) (w_trx w) (w_ctx w)).
Definition put_limits (l : resource_limits_db) : MW unit :=
  modify (λ w, World (with_ch_limits (w_db w) l) (w_trx w) (w_ctx w)).
Definition put_generated (g : gmap digest_type generated_transaction_object) : MW unit :=
  modify (λ w, World (with_generated (w_db w) g) (w_trx w) (w_ctx w)).

Abbreviation auth_size a := (get_billable_size key_pack_size a).

(** ** Accounts *)

Definition check_account_permission (db : chain_db K) (_ : unit) (a : permission_level_weight) : res unit :=
  let level := plw_permission a in
  EOS_ASSERT (is_account db (actor level)) action_validate_exception;;
  if (permission level =? config.owner_name) || (permission level =? config.active_name) then mret tt
  else if permission level =? config.eosio_code_name then mret tt
  else
    match get_permission (ch_authorization db) (PermissionLevel (actor level) (permission level)) with
    | Ok _ => mret tt
    | Throw e => if derives_from e permission_query_exception then EOS_THROW action_validate_exception else Throw e
    end.

Definition validate_authority_precondition (db : chain_db K) (auth : authority K) : res unit :=
  foldM (check_account_permission db) tt (accounts auth);;
  if is_producing_block control
  then foldM (λ _ p, check_key_list lists (kw_key p)) tt (keys auth)
  else mret tt.

Definition new_account_object (creation_date : Z) : account_object :=
  AccountObject 0 0 false false 0 digest_zero creation_date [] [].

Definition apply_eosio_newaccount : MW unit :=
  create ← native newaccount_name unpack_newaccount;
  require_authorization act (na_creator create);;
  asserts (validate public_key_lt (na_owner create)) action_validate_exception;;
  asserts (validate public_key_lt (na_active create)) action_validate_exception;;
  let name_str := name_to_string (na_name create) in
  asserts (negb (na_name create =? 0)) action_validate_exception;;
  asserts (Z.of_nat (length name_str) <=? 12) action_validate_exception;;
  w ← get;
  creator ← lift (Database.db_get (ch_accounts (w_db w)) (na_creator create));
  (if ao_privileged creator then mret tt
   else asserts (negb (starts_with eosio_prefix name_str)) action_validate_exception);;
  asserts (negb (is_account (w_db w) (na_name create))) account_name_exists_exception;;
  accounts ← lift (db_create (ch_accounts (w_db w)) (na_name create)
                     (new_account_object (slot_of_time_point (pending_block_time control))));
  put_accounts accounts;;
  sequences ← lift (db_create (ch_sequences (w_db w)) (na_name create) account_sequence_default);
  put_sequences sequences;;
  w ← get;
  lift (foldM (λ _, validate_authority_precondition (w_db w)) tt [na_owner create; na_active create]);;
  '(owner, a) ← lift (create_permission (ch_authorization (w_db w)) (pending_block_time control)
                        (na_name create) config.owner_name 0 (na_owner create) 0);
  '(active, a) ← lift (create_permission a (pending_block_time control)
                         (na_name create) config.active_name (po_id owner) (na_active create) 0);
  put_authorization a;;
  l ← lift (initialize_account (ch_limits (w_db w)) (na_name create));
  put_limits l;;
  add_ram_usage (na_name create)
    (i64 (i64 (i64 (config.overhead_per_account_ram_bytes + 2 * billable_permission) + auth_size (po_auth owner)) +
          auth_size (po_auth active))).

(** ** Code and ABI *)

Definition with_code (a : account_object) (vm_type updated : Z) (version : digest_type) (code : bytes) : account_object :=
  AccountObject vm_type (ao_vm_version a) (ao_privileged a) (ao_code_activated a) updated version
    (ao_creation_date a) code (ao_abi a).
Definition with_abi (a : account_object) (abi : bytes) : account_object :=
  AccountObject (ao_vm_type a) (ao_vm_version a) (ao_privileged a) (ao_code_activated a) (ao_last_code_update a)
    (ao_code_version a) (ao_creation_date a) (ao_code a) abi.
Definition next_code (s : account_sequence_object) : account_sequence_object :=
  AccountSequence (recv_sequence s) (auth_sequence s) (u64 (code_sequence s + 1)) (abi_sequence s).
Definition next_abi (s : account_sequence_object) : account_sequence_object :=
  AccountSequence (recv_sequence s) (auth_sequence s) (code_sequence s) (u64 (abi_sequence s + 1)).

(** [sec_since_epoch] of a time in microseconds. *)
Definition sec_since_epoch (t : Z) : Z := u32 (t / 1000000).

Definition setcode_size (code : bytes) : Z := i64 (Z.of_nat (length code) * config.setcode_ram_bytes_multiplier).

(** Off the main net code is updated at most every ten minutes, and the old
    code may refuse the update. *)
Definition ask_old_code (account : Z) (a : account_object) : MW unit :=
  if is_eos_main_net mode || is_unittest_mode mode then mret tt
  else
    (if negb (debug_mode mode) &&
        (u32 (sec_since_epoch (pending_block_time control) - sec_since_epoch (ao_last_code_update a)) <? 10 * 60)
     then lift (Throw fc_exception) else mret tt);;
    if (0 <? length (ao_code a))%nat then vm_apply (ao_vm_type a) account account 0 else mret tt.

Definition apply_eosio_setcode : MW unit :=
  c ← native setcode_name unpack_setcode;
  w ← get;
  a ← lift (Database.db_get (ch_accounts (w_db w)) (sc_account c));
  require_authorization act (sc_account c);;
  ask_old_code (sc_account c) a;;
  asserts (sc_vmversion c =? 0) invalid_contract_vm_version;;
  let code_id := if (0 <? length (sc_code c))%nat then code_hash (sc_code c) else digest_zero in
  w ← get;
  a ← deref (ch_accounts (w_db w) !! sc_account c);
  let old_size := setcode_size (ao_code a) in
  let new_size := setcode_size (sc_code c) in
  asserts (negb (bool_decide (ao_code_version a = code_id))) set_exact_code;;
  put_accounts (<[sc_account c := with_code a (sc_vmtype c) (pending_block_time control) code_id (sc_code c)]>
                  (ch_accounts (w_db w)));;
  s ← lift (Database.db_get (ch_sequences (w_db w)) (sc_account c));
  put_sequences (<[sc_account c := next_code s]> (ch_sequences (w_db w)));;
  (if negb (new_size =? old_size) then add_ram_usage (sc_account c) (i64 (new_size - old_size)) else mret tt);;
  lift (vm_setcode (sc_vmtype c) (sc_account c)).

Definition apply_eosio_setabi : MW unit :=
  c ← native setabi_name unpack_setabi;
  require_authorization act (sa_account c);;
  w ← get;
  a ← lift (Database.db_get (ch_accounts (w_db w)) (sa_account c));
  let old_size := Z.of_nat (length (ao_abi a)) in
  let new_size := Z.of_nat (length (sa_abi c)) in
  put_accounts (<[sa_account c := with_abi a (sa_abi c)]> (ch_accounts (w_db w)));;
  s ← lift (Database.db_get (ch_sequences (w_db w)) (sa_account c));
  put_sequences (<[sa_account c := next_abi s]> (ch_sequences (w_db w)));;
  if negb (new_size =? old_size) then add_ram_usage (sa_account c) (i64 (new_size - old_size)) else mret tt.

(** ** Permissions *)

Definition check_waits (db : chain_db K) (auth : authority K) : res unit :=
  match last (waits auth) with
  | Some w => EOS_ASSERT (wait_sec w <=? max_transaction_delay (ch_configuration db)) action_validate_exception
  | None => mret tt
  end.

Definition permission_size (auth : authority K) : Z := i64 (u64 (billable_permission + auth_size auth)).

Definition apply_eosio_updateauth : MW unit :=
  update ← native updateauth_name unpack_updateauth;
  require_authorization act (ua_account update);;
  asserts (negb (ua_permission update =? 0)) action_validate_exception;;
  asserts (negb (starts_with eosio_prefix (name_to_string (ua_permission update)))) action_validate_exception;;
  asserts (negb (ua_permission update =? ua_parent update)) action_validate_exception;;
  w ← get;
  lift (Database.db_get (ch_accounts (w_db w)) (ua_account update));;
  asserts (validate public_key_lt (ua_auth update)) action_validate_exception;;
  (if ua_permission update =? config.active_name
   then asserts (ua_parent update =? config.owner_name) action_validate_exception else mret tt);;
  (if ua_permission update =? config.owner_name
   then asserts (ua_parent update =? 0) action_validate_exception
   else asserts (negb (ua_parent update =? 0)) action_validate_exception);;
  lift (check_waits (w_db w) (ua_auth update));;
  lift (validate_authority_precondition (w_db w) (ua_auth update));;
  let adb := ch_authorization (w_db w) in
  permission ← lift (find_permission adb (PermissionLevel (ua_account update) (ua_permission update)));
  parent_id ←
    (if negb (ua_permission update =? config.owner_name)
     then parent ← lift (get_permission adb (PermissionLevel (ua_account update) (ua_parent update))); mret (po_id parent)
     else mret 0);
  match permission with
  | Some p =>
      asserts (parent_id =? po_parent p) action_validate_exception;;
      put_authorization (modify_permission adb (pending_block_time control) p (ua_auth update));;
      add_ram_usage (po_owner p) (i64 (permission_size (ua_auth update) - permission_size (po_auth p)))
  | None =>
      '(p, adb) ← lift (create_permission adb (pending_block_time control) (ua_account update)
                          (ua_permission update) parent_id (ua_auth update) 0);
      put_authorization adb;;
      add_ram_usage (ua_account update) (permission_size (po_auth p))
  end.

(** [equal_range] of [by_permission_name] is not empty. *)
Definition is_linked (adb : @authorization_db K) (account permission : Z) : bool :=
  existsb (λ '(k, required), (k.1.1 =? account) && (required =? permission)) (map_to_list (links adb)).

Definition apply_eosio_deleteauth : MW unit :=
  remove ← native deleteauth_name unpack_deleteauth;
  require_authorization act (da_account remove);;
  asserts (negb (da_permission remove =? config.active_name)) action_validate_exception;;
  asserts (negb (da_permission remove =? config.owner_name)) action_validate_exception;;
  w ← get;
  let adb := ch_authorization (w_db w) in
  asserts (negb (is_linked adb (da_account remove) (da_permission remove))) action_validate_exception;;
  p ← lift (get_permission adb (PermissionLevel (da_account remove) (da_permission remove)));
  let old_size := permission_size (po_auth p) in
  adb ← lift (remove_permission adb p);
  put_authorization adb;;
  add_ram_usage (da_account remove) (i64 (- old_size)).

(** ** Links *)

Definition with_links (adb : @authorization_db K) (l : gmap (Z * Z * Z) Z) : authorization_db :=
  AuthorizationDb (permissions adb) (next_permission_id adb) (usages adb) (next_usage_id adb) l.

(** [db.find<permission_object, by_name>]: a permission of any account. *)
Definition permission_named (adb : @authorization_db K) (n : Z) : bool :=
  existsb (λ p, po_name p =? n) (permissions adb).

Definition apply_eosio_linkauth : MW unit :=
  r ← native linkauth_name unpack_linkauth;
  asserts (negb (la_requirement r =? 0)) action_validate_exception;;
  require_authorization act (la_account r);;
  w ← get;
  asserts (is_account (w_db w) (la_account r)) account_query_exception;;
  asserts (is_account (w_db w) (la_code r)) account_query_exception;;
  let adb := ch_authorization (w_db w) in
  (if negb (la_requirement r =? config.eosio_any_name)
   then asserts (permission_named adb (la_requirement r)) permission_query_exception else mret tt);;
  let link_key := (la_account r, la_code r, la_type r) in
  match links adb !! link_key with
  | Some required =>
      asserts (negb (required =? la_requirement r)) action_validate_exception;;
      put_authorization (with_links adb (<[link_key := la_requirement r]> (links adb)))
  | None =>
      put_authorization (with_links adb (<[link_key := la_requirement r]> (links adb)));;
      add_ram_usage (la_account r) billable.permission_link
  end.

Definition apply_eosio_unlinkauth : MW unit :=
  u ← native unlinkauth_name unpack_unlinkauth;
  require_authorization act (ul_account u);;
  w ← get;
  let adb := ch_authorization (w_db w) in
  let link_key := (ul_account u, ul_code u, ul_type u) in
  match links adb !! link_key with
  | None => throws action_validate_exception
  | Some _ =>
      add_ram_usage (ul_account u) (- billable.permission_link);;
      put_authorization (with_links adb (delete link_key (links adb)))
  end.

(** ** Delayed transactions and machines *)

(** [cancel_deferred_transaction] of apply_context.cpp. *)
Definition cancel_deferred_transaction (sender_id sender : Z) : MW bool :=
  w ← get;
  match find_generated (w_db w) sender sender_id with
  | Some gto =>
      add_ram_usage (gto_payer gto)
        (refund (billable.generated_transaction + Z.of_nat (length (gto_packed_trx gto))));;
      w ← get;
      put_generated (delete (gto_trx_id gto) (ch_generated (w_db w)));;
      mret true
  | None => mret false
  end.

Definition apply_eosio_canceldelay : MW unit :=
  cancel ← native canceldelay_name unpack_canceldelay;
  require_authorization act (actor (cd_canceling_auth cancel));;
  cancel_deferred_transaction (transaction_id_to_sender_id (cd_trx_id cancel)) 0;;
  mret tt.

Definition apply_eosio_activatevm : MW unit :=
  vm ← native activatevm_name unpack_activatevm;
  let eosio := config.system_account_name in
  let data := bytes_of_uint64 (av_vm_name vm) ++ bytes_of_uint64 (av_type vm) ++ bytes_of_uint64 (av_version vm) in
  require_authorization act eosio;;
  itr ← db_find_i64 eosio eosio eosio (av_vm_name vm);
  (if itr >=? 0 then db_update_i64 control act unpack_setcode itr eosio data true
   else db_store_i64_receiver control act unpack_setcode eosio eosio eosio (av_vm_name vm) data;; mret tt);;
  lift (load_vm_from_ram (av_type vm) (av_vm_name vm)).

(** [find_apply_handler]: the constructor of the controller sets the handlers
    of [eosio]. *)
Definition find_apply_handler (receiver scope name : Z) : option (MW unit) :=
  if negb ((receiver =? config.system_account_name) && (scope =? config.system_account_name)) then None
  else if name =? newaccount_name then Some apply_eosio_newaccount
  else if name =? setcode_name then Some apply_eosio_setcode
  else if name =? setabi_name then Some apply_eosio_setabi
  else if name =? updateauth_name then Some apply_eosio_updateauth
  else if name =? deleteauth_name then Some apply_eosio_deleteauth
  else if name =? linkauth_name then Some apply_eosio_linkauth
  else if name =? unlinkauth_name then Some apply_eosio_unlinkauth
  else if name =? canceldelay_name then Some apply_eosio_canceldelay
  else if name =? activatevm_name then Some apply_eosio_activatevm
  else None.
End handlers.
