(* ===== verification/ContractTables.v ===== *)
(** * Correctness of the table interface of contracts

    Theorems on the operations of ApplyContext.v: whatever sequence of calls a
    contract makes, every table counts its rows and exists as long as it has
    one, iterators denote live rows, and the RAM billed to every account is
    exactly the size of the rows and tables it pays for. *)

From S2P Require Import Prelude Exceptions Config Name Merkle Database ResourceLimits Authority Transaction ChainConfig AuthorizationManager StateMonad IteratorCache ChainDatabase TransactionContext ApplyContext.

Abbreviation contracts w := (ch_contracts (w_db w)).

(** ** Counting and billing rows *)

Definition sum_indices (f : table_index → Z) : Z := foldr (λ i acc, f i + acc) 0 table_indices.

Lemma sum_indices_update f g i :
  (∀ j, i ≠ j → f j = g j) → sum_indices f = sum_indices g - g i + f i.
Proof.
  intros H. unfold sum_indices. cbn.
  destruct i; repeat match goal with |- context [f ?j] => first [rewrite (H j) by discriminate | generalize (f j); intros ?] end;
    lia.
Qed.

Lemma sum_indices_ext f g : (∀ j, f j = g j) → sum_indices f = sum_indices g.
Proof. intros H. unfold sum_indices. cbn. by rewrite !H. Qed.

Lemma sum_indices_nonneg f : (∀ j, 0 <= f j) → 0 <= sum_indices f.
Proof.
  intros H. unfold sum_indices. cbn.
  pose proof (H key_value_index). pose proof (H key256_value_index). pose proof (H index64_index).
  pose proof (H index128_index). pose proof (H index256_index). pose proof (H index_double_index).
  pose proof (H index_long_double_index). lia.
Qed.

Lemma sum_indices_ge f i : (∀ j, 0 <= f j) → f i <= sum_indices f.
Proof.
  intros H. pose proof (sum_indices_update f (λ j, if decide (i = j) then 0 else f j) i) as Hu.
  rewrite Hu; [|intros j Hj; by rewrite decide_False].
  rewrite decide_True by done. enough (0 <= sum_indices (λ j, if decide (i = j) then 0 else f j)) by lia.
  apply sum_indices_nonneg. intros j. case_decide; [done|apply H].
Qed.

(** The rows of table [t], and the bytes that account [a] pays for. *)
Definition rows_in {i} (rs : index_rows_type i) (t : Z) : Z :=
  map_sum (λ _ r, if r_t_id r =? t then 1 else 0) (by_id rs).
Definition table_rows (db : contract_db) (t : Z) : Z := sum_indices (λ i, rows_in (index_rows db i) t).

Definition row_size (i : table_index) (r : index_row i) : Z := value_size i (r_data r) + billable.of_index i.
Definition billed_rows {i} (rs : index_rows_type i) (a : Z) : Z :=
  map_sum (λ _ r, if r_payer r =? a then row_size i r else 0) (by_id rs).
Definition billed_tables (ts : gmap Z table_id_object) (a : Z) : Z :=
  map_sum (λ _ t, if tb_payer t =? a then billable.table_id else 0) ts.
Definition billed_to (db : contract_db) (a : Z) : Z :=
  billed_tables (tables db) a + sum_indices (λ i, billed_rows (index_rows db i) a).

#[global] Arguments sum_indices : simpl never.
#[global] Arguments table_rows : simpl never.
#[global] Arguments billed_to : simpl never.

Lemma put_rows_table_rows db i rs t :
  table_rows (put_rows db i rs) t = table_rows db t - rows_in (index_rows db i) t + rows_in rs t.
Proof.
  unfold table_rows. rewrite (sum_indices_update _ (λ j, rows_in (index_rows db j) t) i).
  - by rewrite index_rows_put_eq.
  - intros j Hj. by rewrite index_rows_put_ne.
Qed.

Lemma put_rows_billed_to db i rs a :
  billed_to (put_rows db i rs) a = billed_to db a - billed_rows (index_rows db i) a + billed_rows rs a.
Proof.
  unfold billed_to. change (tables (put_rows db i rs)) with (tables db).
  rewrite (sum_indices_update _ (λ j, billed_rows (index_rows db j) a) i).
  - rewrite index_rows_put_eq. lia.
  - intros j Hj. by rewrite index_rows_put_ne.
Qed.

Lemma rows_in_nonneg {i} (rs : index_rows_type i) t : 0 <= rows_in rs t.
Proof. apply map_sum_nonneg. intros k r _. destruct (_ =? _); lia. Qed.

Lemma table_rows_nonneg db t : 0 <= table_rows db t.
Proof. apply sum_indices_nonneg. intros j. apply rows_in_nonneg. Qed.

(** A table without rows is not the table of a row. *)
Lemma rows_in_pos {i} (rs : index_rows_type i) o r :
  by_id rs !! o = Some r → 1 <= rows_in rs (r_t_id r).
Proof.
  intros Hr. unfold rows_in.
  pose proof (map_sum_lookup_le (λ _ r', if r_t_id r' =? r_t_id r then 1 else 0) (by_id rs) o r) as H.
  cbn in H. rewrite Z.eqb_refl in H. apply H; [|done]. intros k a. cbn. destruct (_ =? _); lia.
Qed.

Lemma table_rows_pos db i o r :
  by_id (index_rows db i) !! o = Some r → 1 <= table_rows db (r_t_id r).
Proof.
  intros Hr. pose proof (rows_in_pos _ _ _ Hr). unfold table_rows.
  pose proof (sum_indices_ge (λ i, rows_in (index_rows db i) (r_t_id r)) i
    (λ j, rows_in_nonneg _ _)) as Hs. cbn beta in Hs. lia.
Qed.

(** ** The world *)

Section world.
Context {K : Type} `{EqDecision K}.
Implicit Types w : world K.

Definition ram_of w (a : Z) : Z := ram_used (ch_limits (w_db w)) a.

(** The RAM of an account that is not used by rows and tables. *)
Definition unbilled w (a : Z) : Z := ram_of w a - billed_to (contracts w) a.

Definition usage_ok w : Prop := ∀ a u, db_usage (ch_limits (w_db w)) !! a = Some u → usage_wf u.

(** The averages of the accounts and the rest of the limits are not touched. *)
Definition limits_kept (rl rl' : resource_limits_db) : Prop :=
  rl' = with_usage rl (db_usage rl') ∧
  ∀ a u, db_usage rl !! a = Some u → ∃ u', db_usage rl' !! a = Some u' ∧
    net_usage u' = net_usage u ∧ cpu_usage u' = cpu_usage u.

#[export] Instance limits_kept_preorder : PreOrder limits_kept.
Proof.
  split.
  - intros rl. split; [by destruct rl|eauto].
  - intros rl1 rl2 rl3 [H1 H2] [H3 H4]. split; [rewrite H3, H1; done|].
    intros a u Hu. destruct (H2 a u Hu) as (u' & Hu' & Hn & Hc).
    destruct (H4 a u' Hu') as (u'' & Hu'' & Hn' & Hc'). exists u''. split_and!; congruence.
Qed.

(** What the operations on tables leave alone: everything but the tables, the
    RAM, the used authorizations and the caches. *)
Record frame w w' : Prop := {
  fr_db : w_db w' = with_contracts (with_ch_limits (w_db w) (ch_limits (w_db w'))) (contracts w');
  fr_limits : limits_kept (ch_limits (w_db w)) (ch_limits (w_db w'));
  fr_trx : w_trx w' = with_ram (w_trx w) (tc_ram (w_trx w'));
  fr_ctx : w_ctx w' = with_caches (with_ram_deltas (with_used (w_ctx w) (used_authorizations (w_ctx w')))
                                     (account_ram_deltas (w_ctx w'))) (caches (w_ctx w')) }.

#[export] Instance frame_preorder : PreOrder frame.
Proof.
  split.
  - intros [[] [] []]. by constructor.
  - intros w1 w2 w3 [H1 H2 H3 H4] [H5 H6 H7 H8]. constructor.
    + rewrite H5, H1. done.
    + by etrans.
    + rewrite H7, H3. done.
    + rewrite H8, H4. done.
Qed.

Lemma frame_receiver w w' : frame w w' → ac_receiver (w_ctx w') = ac_receiver (w_ctx w).
Proof. intros [_ _ _ ->]. done. Qed.

Lemma frame_privileged w w' : frame w w' → ac_privileged (w_ctx w') = ac_privileged (w_ctx w).
Proof. intros [_ _ _ ->]. done. Qed.

(** The accounts that an action may charge. *)
Definition may_charge (act : action) w (a : Z) : Prop :=
  ac_privileged (w_ctx w) = true ∨ a = ac_receiver (w_ctx w) ∨ has_authorization act a = true.

(** A change of the RAM of an account. *)
Record charged_ram (act : action) w w' (payer delta : Z) : Prop := {
  cr_frame : frame w w';
  cr_contracts : contracts w' = contracts w;
  cr_caches : caches (w_ctx w') = caches (w_ctx w);
  cr_usage : usage_ok w';
  cr_ram : ∀ a, ram_of w' a = ram_of w a + (if a =? payer then delta else 0);
  cr_allowed : 0 < delta → may_charge act w payer }.

Lemma mark_used_spec act (p : permission_level → Prop) `{∀ x, Decision (p x)} w Q :
  (∀ auth, auth ∈ act_authorization act → p auth → ∀ used,
     Q tt (World (w_db w) (w_trx w) (with_used (w_ctx w) used))) →
  wp (mark_used (K:=K) act p) Q w.
Proof.
  intros HQ. unfold mark_used. destruct (list_find p (act_authorization act)) as [[n auth]|] eqn:Hf; [|wp_step].
  apply list_find_Some in Hf as (Hn & Hp & _). repeat wp_step. eapply HQ; [|done]. by eapply list_elem_of_lookup_2.
Qed.

Lemma add_ram_usage_spec w account delta :
  usage_ok w → is_signed 64 delta →
  wp (add_ram_usage account delta) (λ _ w',
    frame w w' ∧ contracts w' = contracts w ∧ caches (w_ctx w') = caches (w_ctx w) ∧ usage_ok w' ∧
    ∀ a, ram_of w' a = ram_of w a + (if a =? account then delta else 0)) w.
Proof.
  intros Hu Hd. unfold add_ram_usage. do 2 wp_step. wp_step. apply wp_lift. intros [db r] H.
  unfold trx_add_ram_usage in H. simplify_res.
  match goal with H : add_pending_ram_usage _ _ _ = Ok ?x |- _ => rename x into rl;
    apply add_pending_ram_usage_Ok in H as (Heq & Hwf & Hram & Hav); [|done|done] end.
  wp_step. assert (∃ r', r = r' ∧ db = with_ch_limits (w_db w) rl) as (r' & <- & ->).
  { destruct (delta >? 0); simplify_res; eauto. }
  cbn. split_and!; [|done|done|done|done].
  constructor; cbn; [by destruct w as [[] ? ?]|done| |]; by destruct w as [? [] []].
Qed.

Lemma update_db_usage_spec control act w payer delta :
  usage_ok w → is_signed 64 delta →
  wp (update_db_usage control act payer delta) (λ _ w', charged_ram act w w' payer delta) w.
Proof.
  intros Hu Hd. unfold update_db_usage. do 2 wp_step. wp_step.
  assert (Hgo : ∀ used, (0 < delta → may_charge act w payer) →
    wp (add_ram_usage payer delta) (λ _ w', charged_ram act w w' payer delta)
      (World (w_db w) (w_trx w) (with_used (w_ctx w) used))).
  { intros used Hm. eapply wp_mono; [by apply add_ram_usage_spec|]. cbn.
    intros _ w' (Hf & Hc & Hca & Hus & Hr). constructor; try done. etrans; [|exact Hf].
    constructor; cbn; [by destruct w as [[] ? ?]|done| |]; by destruct w as [? [] []]. }
  destruct ((delta >? 0) && _) eqn:Hg.
  - wp_step. wp_step. apply mark_used_spec. intros auth Hin Hp used. cbn. apply Hgo. intros _. right; right.
    unfold has_authorization. apply existsb_exists. exists auth. split; [by apply list_elem_of_In|]. by apply Z.eqb_eq.
  - wp_step. destruct w as [db tc ctx]. cbn in *. specialize (Hgo (used_authorizations ctx)).
    replace (with_used ctx (used_authorizations ctx)) with ctx in Hgo by (by destruct ctx). apply Hgo.
    intros Hpos. apply andb_false_iff in Hg as [Hg|Hg]; [lia|]. apply negb_false_iff, orb_true_iff in Hg.
    destruct Hg as [Hg|Hg]; [by left|right; left; cbn; lia].
Qed.
End world.

(** ** Well-formed tables *)

(** Every table counts its rows, and has one unless it is [hole]; keys are
    unique; every row is in a table. *)
Record tables_wf (hole : option Z) (db : contract_db) : Prop := {
  tw_tables t tab : tables db !! t = Some tab →
    0 <= t < next_table_id db ∧ tb_count tab = table_rows db t ∧ (hole ≠ Some t → 0 < tb_count tab);
  tw_keys t t' tab tab' : tables db !! t = Some tab → tables db !! t' = Some tab' →
    tb_key tab = tb_key tab' → t = t';
  tw_rows i o r : by_id (index_rows db i) !! o = Some r →
    r_id r = o ∧ 0 <= o < next_row_id (index_rows db i) ∧ is_Some (tables db !! r_t_id r) ∧
    value_size i (r_data r) < 2 ^ 32;
  tw_unique i o o' r r' : by_id (index_rows db i) !! o = Some r → by_id (index_rows db i) !! o' = Some r' →
    primary_of i r = primary_of i r' → o = o';
  tw_next : 0 <= next_table_id db ∧ ∀ i, 0 <= next_row_id (index_rows db i) }.

Lemma tables_wf_hole t db : tables_wf None db → tables_wf (Some t) db.
Proof. intros [H1 H2 H3 H4 H5]. constructor; try done. intros t' tab Ht. destruct (H1 _ _ Ht) as (? & ? & ?). auto. Qed.

Lemma value_size_nonneg i d : 0 <= value_size i d.
Proof. destruct i; cbn; lia. Qed.

Lemma find_table_id_Some db code scope table t :
  find_table_id db code scope table = Some t →
  ∃ tab, tables db !! t = Some tab ∧ tb_key tab = (code, scope, table).
Proof.
  unfold find_table_id. intros H. apply fmap_Some in H as ([t' tab] & H & ->).
  apply fmap_Some in H as ([n x] & H & Hx). cbn in Hx. subst x.
  apply find_in_map_Some in H as [H1 H2]. eauto.
Qed.

Lemma find_table_id_None db code scope table t tab :
  find_table_id db code scope table = None → tables db !! t = Some tab → tb_key tab ≠ (code, scope, table).
Proof.
  unfold find_table_id. intros H. apply fmap_None, fmap_None in H. by apply (find_in_map_None _ _ _ _ H).
Qed.

Lemma find_row_Some i (rs : index_rows_type i) t p r :
  find_row i rs t p = Some r → ∃ o, by_id rs !! o = Some r ∧ primary_of i r = (t, p).
Proof.
  unfold find_row. intros H. apply fmap_Some in H as ([o r'] & H & ->).
  apply fmap_Some in H as ([n x] & H & Hx). cbn in Hx. subst x.
  apply find_in_map_Some in H as [H1 [H2 H3]]. exists o. split; [done|]. unfold primary_of. cbn in *. by subst.
Qed.

Lemma find_row_None i (rs : index_rows_type i) t p o r :
  find_row i rs t p = None → by_id rs !! o = Some r → primary_of i r ≠ (t, p).
Proof.
  unfold find_row. intros H Hr Hp. apply fmap_None, fmap_None in H.
  apply (find_in_map_None _ _ _ _ H Hr). unfold primary_of in Hp. by injection Hp.
Qed.

(** Rows that are still there, except [hole], with their table in the cache. *)
Record cache_live (hole : option Z) (db : contract_db) (i : table_index) (c : iterator_cache) : Prop := {
  cl_wf : cache_wf c;
  cl_live it o : denotes c it o → hole ≠ Some o → ∃ r ei,
    by_id (index_rows db i) !! o = Some r ∧ table_cache c !! r_t_id r = Some (r_t_id r, ei) }.

(** *** A new table *)

Definition create_table_db (db : contract_db) (code scope table payer : Z) : contract_db :=
  with_tables db (<[next_table_id db := TableId code scope table payer 0]> (tables db)) (next_table_id db + 1).

Section table_changes.
Context (db : contract_db).

Lemma next_table_fresh hole : tables_wf hole db → tables db !! next_table_id db = None.
Proof. intros Hwf. destruct (tables db !! _) eqn:H; [|done]. apply (tw_tables _ _ Hwf) in H. lia. Qed.

Lemma fresh_table_rows hole t : tables_wf hole db → tables db !! t = None → table_rows db t = 0.
Proof.
  intros Hwf Ht. unfold table_rows. rewrite (sum_indices_ext _ (λ _, 0)); [done|].
  intros j. apply map_sum_zero. intros o r Hr. destruct (Z.eqb_spec (r_t_id r) t) as [<-|]; [|done].
  destruct (tw_rows _ _ Hwf j o r Hr) as (_ & _ & [? H] & _). congruence.
Qed.

Lemma create_table_wf code scope table payer :
  tables_wf None db → find_table_id db code scope table = None →
  tables_wf (Some (next_table_id db)) (create_table_db db code scope table payer).
Proof.
  intros Hwf Hf. pose proof (next_table_fresh _ Hwf) as Hn. destruct (tw_next _ _ Hwf) as [Hp Hrp].
  constructor; cbn.
  - intros t tab [[<- <-]|[Hne Ht]]%lookup_insert_Some.
    + split; [lia|]. split; [|done]. symmetry. by eapply (fresh_table_rows None).
    + destruct (tw_tables _ _ Hwf _ _ Ht) as (? & ? & Hc). split; [lia|]. split; [done|]. intros _. by apply Hc.
  - intros t t' tab tab' [[<- <-]|[Hne Ht]]%lookup_insert_Some [[<- <-]|[Hne' Ht']]%lookup_insert_Some Hk.
    + done.
    + exfalso. by apply (find_table_id_None _ _ _ _ _ _ Hf Ht').
    + exfalso. by apply (find_table_id_None _ _ _ _ _ _ Hf Ht).
    + by apply (tw_keys _ _ Hwf t t' tab tab').
  - intros i o r Hr. destruct (tw_rows _ _ Hwf i o r Hr) as (? & ? & [tab Ht] & ?). split_and!; try lia; try done.
    rewrite lookup_insert_ne; [by exists tab|]. intros Heq. rewrite <- Heq in Ht. congruence.
  - apply Hwf.
  - split; [lia|done].
Qed.

Lemma create_table_billed code scope table payer a :
  tables_wf None db →
  billed_to (create_table_db db code scope table payer) a =
  billed_to db a + (if a =? payer then billable.table_id else 0).
Proof.
  intros Hwf. unfold billed_to, billed_tables. cbn [create_table_db with_tables tables index_rows].
  rewrite map_sum_insert_fresh by (by eapply next_table_fresh). cbn [tb_payer].
  rewrite (Z.eqb_sym payer a). lia.
Qed.

(** *** A new row *)

Definition insert_row_db (i : table_index) (t : Z) (tab : table_id_object) (p : primary_key_type i)
    (payer : Z) (d : data_type i) : contract_db :=
  let rs := index_rows db i in
  let o := next_row_id rs in
  with_tables (put_rows db i (Rows (<[o := Row o t p payer d]> (by_id rs)) (o + 1)))
    (<[t := with_count tab (u32 (tb_count tab + 1))]> (tables db)) (next_table_id db).

Section insert_row.
Context (i : table_index) (t : Z) (tab : table_id_object) (p : primary_key_type i) (payer : Z) (d : data_type i).
Context (Hwf : tables_wf (Some t) db) (Ht : tables db !! t = Some tab).

Lemma next_row_fresh : by_id (index_rows db i) !! next_row_id (index_rows db i) = None.
Proof.
  destruct (by_id _ !! _) as [r|] eqn:H; [|done]. apply (tw_rows _ _ Hwf) in H. lia.
Qed.

Lemma insert_row_rows t' :
  table_rows (insert_row_db i t tab p payer d) t' = table_rows db t' + (if t' =? t then 1 else 0).
Proof.
  change (table_rows (insert_row_db i t tab p payer d) t') with
    (table_rows (put_rows db i (Rows (<[next_row_id (index_rows db i) := Row (next_row_id (index_rows db i)) t p payer d]>
       (by_id (index_rows db i))) (next_row_id (index_rows db i) + 1))) t').
  rewrite put_rows_table_rows. unfold rows_in at 2. cbn [by_id].
  rewrite map_sum_insert_fresh by apply next_row_fresh. cbn [r_t_id]. fold (rows_in (index_rows db i) t').
  rewrite (Z.eqb_sym t t'). lia.
Qed.

Lemma insert_row_billed a :
  billed_to (insert_row_db i t tab p payer d) a =
  billed_to db a + (if a =? payer then value_size i d + billable.of_index i else 0).
Proof.
  unfold insert_row_db. cbn zeta.
  match goal with |- billed_to (with_tables ?db' ?ts ?n) a = _ =>
    assert (billed_to (with_tables db' ts n) a = billed_to db' a) as -> end.
  { unfold billed_to, billed_tables. cbn [with_tables tables index_rows put_rows].
    rewrite (map_sum_insert _ _ _ tab) by done. cbn. lia. }
  rewrite put_rows_billed_to. unfold billed_rows at 2. cbn [by_id].
  rewrite map_sum_insert_fresh by apply next_row_fresh. cbn [r_payer]. unfold row_size at 1. cbn [r_data].
  fold (billed_rows (index_rows db i) a). rewrite (Z.eqb_sym payer a). lia.
Qed.

Lemma insert_row_lookup j o r :
  by_id (index_rows db j) !! o = Some r → by_id (index_rows (insert_row_db i t tab p payer d) j) !! o = Some r.
Proof.
  intros Hr. unfold insert_row_db. cbn zeta. change (index_rows (with_tables ?x _ _)) with (index_rows x).
  destruct (decide (i = j)) as [<-|Hne]; [|by rewrite index_rows_put_ne].
  rewrite index_rows_put_eq. cbn. rewrite lookup_insert_ne; [done|]. intros Heq.
  rewrite <- Heq, next_row_fresh in Hr. done.
Qed.

Lemma insert_row_inv j o r :
  by_id (index_rows (insert_row_db i t tab p payer d) j) !! o = Some r →
  by_id (index_rows db j) !! o = Some r ∨
  (i = j ∧ o = next_row_id (index_rows db i) ∧ r_id r = o ∧ r_t_id r = t ∧
   next_row_id (index_rows (insert_row_db i t tab p payer d) j) = o + 1 ∧
   value_size j (r_data r) = value_size i d ∧ r_payer r = payer).
Proof.
  unfold insert_row_db. cbn zeta. change (index_rows (with_tables ?x _ _)) with (index_rows x).
  destruct (decide (i = j)) as [<-|Hne]; [|rewrite index_rows_put_ne by done; by left].
  rewrite index_rows_put_eq. cbn. intros [[<- <-]|[_ H]]%lookup_insert_Some; [right|by left]. done.
Qed.

Lemma insert_row_wf :
  find_row i (index_rows db i) t p = None → value_size i d < 2 ^ 32 → tb_count tab < 2 ^ 32 - 1 →
  tables_wf None (insert_row_db i t tab p payer d).
Proof.
  intros Hf Hsize Hcount. destruct (tw_tables _ _ Hwf _ _ Ht) as (Hid & Hc & _).
  assert (Hu : u32 (tb_count tab + 1) = tb_count tab + 1).
  { apply wrap_id. pose proof (table_rows_nonneg db t). unfold is_unsigned. lia. }
  pose proof (table_rows_nonneg db t) as Hnn.
  constructor.
  - intros t' tab' Ht'. rewrite insert_row_rows.
    change (next_table_id (insert_row_db _ _ _ _ _ _)) with (next_table_id db).
    change (tables (insert_row_db _ _ _ _ _ _)) with (<[t := with_count tab (u32 (tb_count tab + 1))]> (tables db)) in Ht'.
    apply lookup_insert_Some in Ht' as [[<- <-]|[Hne Ht']].
    + rewrite Z.eqb_refl. cbn. split; [done|]. split; [lia|]. intros _. lia.
    + destruct (tw_tables _ _ Hwf _ _ Ht') as (? & ? & Hpos).
      rewrite (proj2 (Z.eqb_neq t' t)) by done. split; [done|]. split; [lia|]. intros _. apply Hpos. congruence.
  - cbn. intros t1 t2 tab1 tab2 H1 H2 Hk.
    assert (Hold : ∀ t' tab', <[t := with_count tab (u32 (tb_count tab + 1))]> (tables db) !! t' = Some tab' →
      ∃ tab0, tables db !! t' = Some tab0 ∧ tb_key tab0 = tb_key tab').
    { intros t' tab' [[<- <-]|[_ ?]]%lookup_insert_Some; eauto. }
    destruct (Hold _ _ H1) as (x1 & Hx1 & Hk1), (Hold _ _ H2) as (x2 & Hx2 & Hk2).
    apply (tw_keys _ _ Hwf t1 t2 x1 x2); congruence.
  - intros j o r Hr. assert (Hmono : ∀ t', is_Some (tables db !! t') →
      is_Some (tables (insert_row_db i t tab p payer d) !! t')).
    { intros t' H. cbn. rewrite lookup_insert_is_Some. destruct (decide (t = t')); [by left|by right]. }
    apply insert_row_inv in Hr as [Hr|(<- & -> & -> & -> & -> & -> & _)].
    + destruct (tw_rows _ _ Hwf j o r Hr) as (? & [? ?] & ? & ?).
      split; [done|]. split; [|split; [by apply Hmono|done]]. split; [done|].
      unfold insert_row_db. cbn zeta. change (index_rows (with_tables ?x _ _)) with (index_rows x).
      destruct (decide (i = j)) as [<-|Hij]; [rewrite index_rows_put_eq; cbn; lia|by rewrite index_rows_put_ne].
    + pose proof (proj2 (tw_next _ _ Hwf) i). split; [done|]. split; [lia|]. split; [|done]. apply Hmono. by rewrite Ht.
  - intros j o o' r r'. unfold insert_row_db. cbn zeta. change (index_rows (with_tables ?x _ _)) with (index_rows x).
    destruct (decide (i = j)) as [<-|Hij]; [|rewrite index_rows_put_ne by done; apply Hwf].
    rewrite index_rows_put_eq. cbn.
    intros [[<- <-]|[Hne Hr]]%lookup_insert_Some [[<- <-]|[Hne' Hr']]%lookup_insert_Some Hk.
    + done.
    + exfalso. by apply (find_row_None _ _ _ _ _ _ Hf Hr').
    + exfalso. by apply (find_row_None _ _ _ _ _ _ Hf Hr).
    + by apply (tw_unique _ _ Hwf i o o' r r').
  - destruct (tw_next _ _ Hwf) as [H1 H2]. split; [done|]. intros j. unfold insert_row_db. cbn zeta.
    change (index_rows (with_tables ?x _ _)) with (index_rows x).
    destruct (decide (i = j)) as [<-|Hij]; [rewrite index_rows_put_eq; cbn; specialize (H2 i); lia|].
    by rewrite index_rows_put_ne.
Qed.
End insert_row.

(** *** Fewer rows *)

Definition erase_row_db (i : table_index) (t : Z) (tab : table_id_object) (o : Z) : contract_db :=
  let rs := index_rows db i in
  with_tables (put_rows db i (Rows (delete o (by_id rs)) (next_row_id rs)))
    (<[t := with_count tab (u32 (tb_count tab - 1))]> (tables db)) (next_table_id db).

Section erase_row.
Context (i : table_index) (o : Z) (r : index_row i) (tab : table_id_object).
Context (Hwf : tables_wf None db) (Hr : by_id (index_rows db i) !! o = Some r).
Context (Ht : tables db !! r_t_id r = Some tab).

Lemma erase_row_rows t' :
  table_rows (erase_row_db i (r_t_id r) tab o) t' = table_rows db t' - (if t' =? r_t_id r then 1 else 0).
Proof.
  change (table_rows (erase_row_db i (r_t_id r) tab o) t') with
    (table_rows (put_rows db i (Rows (delete o (by_id (index_rows db i))) (next_row_id (index_rows db i)))) t').
  rewrite put_rows_table_rows. unfold rows_in at 2. cbn [by_id]. rewrite (map_sum_delete _ _ _ _ Hr). cbn beta.
  fold (rows_in (index_rows db i) t'). rewrite (Z.eqb_sym (r_t_id r) t'). lia.
Qed.

Lemma erase_row_billed a :
  billed_to (erase_row_db i (r_t_id r) tab o) a =
  billed_to db a - (if a =? r_payer r then row_size i r else 0).
Proof.
  unfold erase_row_db. cbn zeta.
  match goal with |- billed_to (with_tables ?db' ?ts ?n) a = _ =>
    assert (billed_to (with_tables db' ts n) a = billed_to db' a) as -> end.
  { unfold billed_to, billed_tables. cbn [with_tables tables index_rows put_rows].
    rewrite (map_sum_insert _ _ _ tab) by done. cbn. lia. }
  rewrite put_rows_billed_to. unfold billed_rows at 2. cbn [by_id]. rewrite (map_sum_delete _ _ _ _ Hr). cbn beta.
  fold (billed_rows (index_rows db i) a). rewrite (Z.eqb_sym (r_payer r) a). lia.
Qed.

Lemma erase_row_lookup j o' r' :
  by_id (index_rows (erase_row_db i (r_t_id r) tab o) j) !! o' = Some r' →
  by_id (index_rows db j) !! o' = Some r' ∧ (i = j → o' ≠ o).
Proof.
  unfold erase_row_db. cbn zeta. change (index_rows (with_tables ?x _ _)) with (index_rows x).
  destruct (decide (i = j)) as [<-|Hne]; [|by rewrite index_rows_put_ne].
  rewrite index_rows_put_eq. cbn. intros [? ?]%lookup_delete_Some. auto.
Qed.

Lemma erase_row_keep j o' r' :
  by_id (index_rows db j) !! o' = Some r' → (i = j → o' ≠ o) →
  by_id (index_rows (erase_row_db i (r_t_id r) tab o) j) !! o' = Some r'.
Proof.
  intros Hr' Hne. unfold erase_row_db. cbn zeta. change (index_rows (with_tables ?x _ _)) with (index_rows x).
  destruct (decide (i = j)) as [<-|Hij]; [|by rewrite index_rows_put_ne].
  rewrite index_rows_put_eq. cbn. rewrite lookup_delete_ne; [done|]. intros ->. by apply Hne.
Qed.

Lemma erase_row_next j : next_row_id (index_rows (erase_row_db i (r_t_id r) tab o) j) = next_row_id (index_rows db j).
Proof.
  unfold erase_row_db. cbn zeta. change (index_rows (with_tables ?x _ _)) with (index_rows x).
  destruct (decide (i = j)) as [<-|Hij]; [by rewrite index_rows_put_eq|by rewrite index_rows_put_ne].
Qed.

Lemma erase_row_wf :
  tb_count tab < 2 ^ 32 → tables_wf (Some (r_t_id r)) (erase_row_db i (r_t_id r) tab o) ∧
  u32 (tb_count tab - 1) = tb_count tab - 1.
Proof.
  intros Hcount. destruct (tw_tables _ _ Hwf _ _ Ht) as (Hid & Hc & Hpos).
  assert (Hu : u32 (tb_count tab - 1) = tb_count tab - 1).
  { apply wrap_id. assert (0 < tb_count tab) by (by apply Hpos). unfold is_unsigned. lia. }
  split; [|done]. constructor.
  - intros t' tab' Ht'. rewrite erase_row_rows.
    change (next_table_id (erase_row_db _ _ _ _)) with (next_table_id db).
    change (tables (erase_row_db _ _ _ _)) with (<[r_t_id r := with_count tab (u32 (tb_count tab - 1))]> (tables db)) in Ht'.
    apply lookup_insert_Some in Ht' as [[<- <-]|[Hne Ht']].
    + rewrite Z.eqb_refl. cbn. split; [done|]. split; [lia|done].
    + destruct (tw_tables _ _ Hwf _ _ Ht') as (? & ? & Hp). rewrite (proj2 (Z.eqb_neq t' _)) by done.
      split; [done|]. split; [lia|]. intros _. by apply Hp.
  - cbn. intros t1 t2 tab1 tab2 H1 H2 Hk.
    assert (Hold : ∀ t' tab', <[r_t_id r := with_count tab (u32 (tb_count tab - 1))]> (tables db) !! t' = Some tab' →
      ∃ tab0, tables db !! t' = Some tab0 ∧ tb_key tab0 = tb_key tab').
    { intros t' tab' [[<- <-]|[_ ?]]%lookup_insert_Some; eauto. }
    destruct (Hold _ _ H1) as (x1 & Hx1 & Hk1), (Hold _ _ H2) as (x2 & Hx2 & Hk2).
    apply (tw_keys _ _ Hwf t1 t2 x1 x2); congruence.
  - intros j o' r' [Hr' _]%erase_row_lookup. rewrite erase_row_next.
    destruct (tw_rows _ _ Hwf j o' r' Hr') as (? & ? & ? & ?). split; [done|]. split; [done|]. split; [|done].
    cbn. rewrite lookup_insert_is_Some. destruct (decide (r_t_id r = r_t_id r')); [by left|by right].
  - intros j o1 o2 r1 r2 [H1 _]%erase_row_lookup [H2 _]%erase_row_lookup. by apply (tw_unique _ _ Hwf j).
  - destruct (tw_next _ _ Hwf) as [H1 H2]. split; [done|]. intros j. by rewrite erase_row_next.
Qed.
End erase_row.

(** *** A table without rows *)

Definition drop_table_db (t : Z) : contract_db := with_tables db (delete t (tables db)) (next_table_id db).

Section drop_table.
Context (t : Z) (tab : table_id_object).
Context (Hwf : tables_wf (Some t) db) (Ht : tables db !! t = Some tab).

Lemma drop_table_billed a :
  billed_to (drop_table_db t) a = billed_to db a - (if a =? tb_payer tab then billable.table_id else 0).
Proof.
  unfold billed_to, billed_tables. cbn [drop_table_db with_tables tables index_rows].
  rewrite (map_sum_delete _ _ _ _ Ht). rewrite (Z.eqb_sym (tb_payer tab) a). lia.
Qed.

Lemma drop_table_wf : tb_count tab = 0 → tables_wf None (drop_table_db t).
Proof.
  intros H0. destruct (tw_tables _ _ Hwf _ _ Ht) as (_ & Hc & _). constructor; cbn.
  - intros t' tab' [Hne Ht']%lookup_delete_Some. destruct (tw_tables _ _ Hwf _ _ Ht') as (? & ? & Hp).
    split; [done|]. split; [done|]. intros _. apply Hp. congruence.
  - intros t1 t2 tab1 tab2 [_ H1]%lookup_delete_Some [_ H2]%lookup_delete_Some. by apply (tw_keys _ _ Hwf).
  - intros j o r Hr. destruct (tw_rows _ _ Hwf j o r Hr) as (? & ? & ? & ?). split_and!; try lia; try done.
    rewrite lookup_delete_ne; [done|]. intros ->. pose proof (table_rows_pos _ _ _ _ Hr). lia.
  - apply Hwf.
  - apply Hwf.
Qed.

Lemma tables_wf_fill : tb_count tab ≠ 0 → tables_wf None db.
Proof.
  intros H0. destruct Hwf as [H1 H2 H3 H4 H5]. constructor; try done. intros t' tab' Ht'.
  destruct (H1 _ _ Ht') as (? & Hc & Hp). split; [done|]. split; [done|]. intros _.
  destruct (decide (t = t')) as [->|Hne]; [|apply Hp; congruence].
  rewrite Ht in Ht'. injection Ht' as <-. pose proof (table_rows_nonneg db t'). lia.
Qed.
End drop_table.

(** *** A changed row *)

Definition modify_row_db (i : table_index) (o payer : Z) (d : data_type i) : contract_db :=
  let rs := index_rows db i in
  put_rows db i (Rows (alter (λ r, with_row i r payer d) o (by_id rs)) (next_row_id rs)).

Section modify_row.
Context (i : table_index) (o : Z) (r : index_row i) (payer : Z) (d : data_type i).
Context (Hwf : tables_wf None db) (Hr : by_id (index_rows db i) !! o = Some r).

Lemma modify_row_by_id j o' r' :
  by_id (index_rows (modify_row_db i o payer d) j) !! o' = Some r' →
  ∃ r0, by_id (index_rows db j) !! o' = Some r0 ∧ r_id r' = r_id r0 ∧ r_t_id r' = r_t_id r0 ∧
    r_primary r' = r_primary r0 ∧
    (r' = r0 ∨ (i = j ∧ o' = o ∧ value_size j (r_data r') = value_size i d ∧ r_payer r' = payer)).
Proof.
  unfold modify_row_db. cbn zeta. destruct (decide (i = j)) as [<-|Hne].
  - rewrite index_rows_put_eq. cbn. intros [(-> & r0 & H0 & ->)|[_ H]]%lookup_alter_Some; eauto 10.
  - rewrite index_rows_put_ne by done. eauto 10.
Qed.

Lemma modify_row_lookup j o' r' :
  by_id (index_rows db j) !! o' = Some r' →
  ∃ r1, by_id (index_rows (modify_row_db i o payer d) j) !! o' = Some r1 ∧ r_t_id r1 = r_t_id r'.
Proof.
  intros Hr'. unfold modify_row_db. cbn zeta. destruct (decide (i = j)) as [<-|Hne].
  - rewrite index_rows_put_eq. cbn. destruct (decide (o = o')) as [<-|Ho].
    + rewrite lookup_alter_eq, Hr'. by eexists.
    + rewrite lookup_alter_ne by done. eauto.
  - rewrite index_rows_put_ne by done. eauto.
Qed.

Lemma modify_row_next j : next_row_id (index_rows (modify_row_db i o payer d) j) = next_row_id (index_rows db j).
Proof.
  unfold modify_row_db. cbn zeta.
  destruct (decide (i = j)) as [<-|Hij]; [by rewrite index_rows_put_eq|by rewrite index_rows_put_ne].
Qed.

Lemma modify_row_insert (f : Z → index_row i → Z) :
  map_sum f (alter (λ r, with_row i r payer d) o (by_id (index_rows db i))) =
  map_sum f (by_id (index_rows db i)) - f o r + f o (with_row i r payer d).
Proof.
  assert (alter (λ r, with_row i r payer d) o (by_id (index_rows db i)) =
    <[o := with_row i r payer d]> (by_id (index_rows db i))) as ->.
  { apply map_eq. intros k. destruct (decide (k = o)) as [->|Hk].
    - by rewrite lookup_alter_eq, lookup_insert_eq, Hr.
    - by rewrite lookup_alter_ne, lookup_insert_ne. }
  by apply map_sum_insert.
Qed.

Lemma modify_row_rows t' : table_rows (modify_row_db i o payer d) t' = table_rows db t'.
Proof.
  unfold modify_row_db. cbn zeta. rewrite put_rows_table_rows. unfold rows_in at 2. cbn [by_id].
  rewrite modify_row_insert. cbn. fold (rows_in (index_rows db i) t'). lia.
Qed.

Lemma modify_row_billed a :
  billed_to (modify_row_db i o payer d) a =
  billed_to db a - (if a =? r_payer r then row_size i r else 0)
    + (if a =? payer then value_size i d + billable.of_index i else 0).
Proof.
  unfold modify_row_db. cbn zeta. rewrite put_rows_billed_to. unfold billed_rows at 2. cbn [by_id].
  rewrite modify_row_insert. cbn beta. fold (billed_rows (index_rows db i) a). unfold row_size at 2. cbn.
  rewrite (Z.eqb_sym (r_payer r) a), (Z.eqb_sym payer a). lia.
Qed.

Lemma modify_row_wf : value_size i d < 2 ^ 32 → tables_wf None (modify_row_db i o payer d).
Proof.
  intros Hs. constructor.
  - intros t tab Ht. rewrite modify_row_rows. by apply (tw_tables _ _ Hwf).
  - apply Hwf.
  - intros j o' r' (r0 & H0 & Hid & Htid & _ & Hc)%modify_row_by_id. rewrite modify_row_next, Hid, Htid.
    destruct (tw_rows _ _ Hwf j o' r0 H0) as (? & ? & ? & ?). split; [done|]. split; [done|]. split; [done|].
    destruct Hc as [->|(<- & _ & -> & _)]; done.
  - intros j o1 o2 r1 r2 (x1 & H1 & _ & Ht1 & Hp1 & _)%modify_row_by_id (x2 & H2 & _ & Ht2 & Hp2 & _)%modify_row_by_id.
    unfold primary_of. rewrite Ht1, Ht2, Hp1, Hp2. by apply (tw_unique _ _ Hwf j).
  - destruct (tw_next _ _ Hwf) as [H1 H2]. split; [done|]. intros j. by rewrite modify_row_next.
Qed.
End modify_row.
End table_changes.

(** ** The operations *)

Section operations.
Context {K : Type} `{EqDecision K}.
Context (control : controller_view) (act : action) (unpack_setcode : bytes → res setcode).
Implicit Types w : world K.

Record world_wf w : Prop := {
  ww_tables : tables_wf None (contracts w);
  ww_caches i : cache_live None (contracts w) i (caches (w_ctx w) i);
  ww_usage : usage_ok w }.

(** Iterators and counts have not run out of range. *)
Definition world_small w : Prop :=
  (∀ i, cache_small (caches (w_ctx w) i)) ∧
  (∀ t tab, tables (contracts w) !! t = Some tab → tb_count tab < 2 ^ 32 - 1).

(** What every operation guarantees: the RAM that is not used by rows and
    tables stays the same, and only accounts that may be charged pay more. *)
Record sound_step w w' : Prop := {
  ss_frame : frame w w';
  ss_conserved a : unbilled w' a = unbilled w a;
  ss_lawful a : ram_of w' a <= ram_of w a ∨ may_charge act w a }.

#[export] Instance sound_step_preorder : PreOrder sound_step.
Proof.
  split.
  - intros w. constructor; [done|done|]. intros a. left. lia.
  - intros w1 w2 w3 [F1 C1 L1] [F2 C2 L2]. constructor; [by etrans|intros a; by rewrite C2|].
    intros a. destruct (L2 a) as [H2|H2].
    + destruct (L1 a); [left; lia|by right].
    + right. unfold may_charge in *. by rewrite (frame_receiver _ _ F1), (frame_privileged _ _ F1) in H2.
Qed.

Lemma may_charge_frame w w' a : frame w w' → may_charge act w' a → may_charge act w a.
Proof. intros F. unfold may_charge. by rewrite (frame_receiver _ _ F), (frame_privileged _ _ F). Qed.

Lemma charged_ram_may w w' payer delta a :
  charged_ram act w w' payer delta → ram_of w' a <= ram_of w a ∨ may_charge act w a.
Proof.
  intros H. rewrite (cr_ram _ _ _ _ _ H). destruct (Z.eqb_spec a payer) as [->|]; [|left; lia].
  destruct (Z.lt_ge_cases 0 delta); [right; by apply H|left; lia].
Qed.

(** Replacing the tables. *)
Definition set_contracts w (db : contract_db) : world K :=
  World (with_contracts (w_db w) db) (w_trx w) (w_ctx w).

Lemma frame_set_contracts w db : frame w (set_contracts w db).
Proof.
  constructor; cbn; [by destruct w as [[] ? ?]|done|by destruct w as [? [] ?]|by destruct w as [? ? []]].
Qed.

Lemma wp_put_contracts w db (Q : unit → world K → Prop) :
  Q tt (set_contracts w db) → wp (put_contracts db) Q w.
Proof. done. Qed.

Lemma table_id_size : is_signed 64 billable.table_id ∧ refund billable.table_id = - billable.table_id ∧
  is_signed 64 (- billable.table_id).
Proof. vm_compute. split_and!; congruence. Qed.

Lemma of_index_bounds i : 0 < billable.of_index i < 2 ^ 20.
Proof. destruct i; vm_compute; split; congruence. Qed.

(** *** Tables *)

Definition table_for (db : contract_db) (code scope table payer : Z) (t : Z) (db1 : contract_db) : Prop :=
  (find_table_id db code scope table = Some t ∧ db1 = db) ∨
  (find_table_id db code scope table = None ∧ t = next_table_id db ∧
   db1 = create_table_db db code scope table payer).

Lemma table_for_key db code scope table payer t db1 :
  table_for db code scope table payer t db1 →
  ∃ tab, tables db1 !! t = Some tab ∧ tb_key tab = (code, scope, table) ∧
    (tables db !! t = Some tab ∨ tb_count tab = 0).
Proof.
  intros [[Hf ->]|(Hf & -> & ->)].
  - apply find_table_id_Some in Hf as (tab & Ht & Hk). eauto.
  - eexists. cbn. rewrite lookup_insert_eq. split; [done|]. auto.
Qed.

Lemma table_for_rows db code scope table payer t db1 :
  table_for db code scope table payer t db1 → index_rows db1 = index_rows db.
Proof. by intros [[Hf ->]|(Hf & -> & ->)]. Qed.

Lemma find_or_create_table_spec w code scope table payer :
  tables_wf None (contracts w) → usage_ok w →
  wp (find_or_create_table control act code scope table payer) (λ t w',
    sound_step w w' ∧ caches (w_ctx w') = caches (w_ctx w) ∧ usage_ok w' ∧
    tables_wf (Some t) (contracts w') ∧ table_for (contracts w) code scope table payer t (contracts w')) w.
Proof.
  intros Hwf Hu. unfold find_or_create_table, find_table. do 2 wp_step.
  destruct (find_table_id (contracts w) code scope table) as [t|] eqn:Hf.
  - wp_step. split; [done|]. split; [done|]. split; [done|]. split; [by apply tables_wf_hole|by left].
  - wp_step. eapply wp_mono; [apply update_db_usage_spec; [done|apply table_id_size]|].
    intros [] w1 Hc. do 3 wp_step. apply wp_put_contracts. wp_step. rewrite (cr_contracts _ _ _ _ _ Hc).
    fold (create_table_db (contracts w) code scope table payer).
    split; [|split; [apply Hc|split; [apply Hc|split]]].
    + constructor.
      * etrans; [apply Hc|]. apply (frame_set_contracts w1).
      * intros a. unfold unbilled. change (ram_of (set_contracts _ _) a) with (ram_of w1 a).
        change (contracts (set_contracts w1 ?d)) with d. rewrite create_table_billed by done. rewrite (cr_ram _ _ _ _ _ Hc). lia.
      * intros a. by eapply (charged_ram_may w w1).
    + by apply create_table_wf.
    + right. done.
Qed.

(** *** Caches *)

Definition set_cache w (i : table_index) (c : iterator_cache) : world K :=
  World (w_db w) (w_trx w) (with_caches (w_ctx w) (put_cache (caches (w_ctx w)) i c)).

Lemma frame_set_cache w i c : frame w (set_cache w i c).
Proof.
  constructor; cbn; [by destruct w as [[] ? ?]|done|by destruct w as [? [] ?]|by destruct w as [? ? []]].
Qed.

Lemma sound_set_cache w i c : sound_step w (set_cache w i c).
Proof. constructor; [apply frame_set_cache|done|]. intros a. left. done. Qed.

Lemma put_cache_eq c i x : put_cache c i x i = x.
Proof. unfold put_cache. by rewrite decide_True. Qed.

Lemma put_cache_ne c i j x : i ≠ j → put_cache c i x j = c j.
Proof. intros. unfold put_cache. by rewrite decide_False. Qed.

Lemma wp_with_cache {A} i (m : M iterator_cache A) Q w :
  wp m (λ a c, Q a (set_cache w i c)) (caches (w_ctx w) i) → wp (with_cache i m) Q w.
Proof. intros H. unfold with_cache. apply wp_zoom. exact H. Qed.

(** Only the cache of index [i] has changed. *)
Record cache_step (i : table_index) w w' : Prop := {
  cs_db : w_db w' = w_db w;
  cs_sound : sound_step w w';
  cs_other j : i ≠ j → caches (w_ctx w') j = caches (w_ctx w) j }.

Lemma cache_step_set w i c : cache_step i w (set_cache w i c).
Proof. constructor; [done|apply sound_set_cache|]. intros j Hj. cbn. by rewrite put_cache_ne. Qed.

Lemma cache_step_trans i w1 w2 w3 : cache_step i w1 w2 → cache_step i w2 w3 → cache_step i w1 w3.
Proof.
  intros [D1 S1 O1] [D2 S2 O2]. constructor; [congruence|by etrans|]. intros j Hj. by rewrite O2, O1.
Qed.

Lemma cache_live_rows hole db db' i c :
  (∀ o r, by_id (index_rows db i) !! o = Some r → hole ≠ Some o →
     ∃ r', by_id (index_rows db' i) !! o = Some r' ∧ r_t_id r' = r_t_id r) →
  cache_live hole db i c → cache_live hole db' i c.
Proof.
  intros Hr [Hwf Hl]. constructor; [done|]. intros it o Hd Ho.
  destruct (Hl it o Hd Ho) as (r & ei & H1 & H2). destruct (Hr o r H1 Ho) as (r' & H3 & H4).
  exists r', ei. by rewrite H4.
Qed.

Lemma cache_live_hole hole db i c : cache_live None db i c → cache_live hole db i c.
Proof. intros [Hwf Hl]. constructor; [done|]. intros it o Hd _. by apply (Hl it). Qed.

Definition caches_live (hole : option (table_index * Z)) w : Prop :=
  ∀ j, cache_live (match hole with Some (i, o) => if decide (i = j) then Some o else None | None => None end)
         (contracts w) j (caches (w_ctx w) j).

Lemma caches_live_None w j : caches_live None w → cache_live None (contracts w) j (caches (w_ctx w) j).
Proof. intros H. apply H. Qed.

(** A table enters the cache. *)
Lemma cache_table_step w i t :
  caches_live None w → Z.of_nat (length (end_iterator_to_table (caches (w_ctx w) i))) < 2 ^ 31 - 2 →
  wp (with_cache i (cache_table t)) (λ ei w',
    cache_step i w w' ∧ caches_live None w' ∧ ei < -1 ∧
    table_cache (caches (w_ctx w') i) !! t = Some (t, ei) ∧
    iterator_to_object (caches (w_ctx w') i) = iterator_to_object (caches (w_ctx w) i)) w.
Proof.
  intros Hl Hs. apply wp_with_cache. eapply wp_mono; [apply cache_table_spec; [apply (Hl i)|done]|].
  intros ei c (Hwf & [Ho1 Ho2] & Htc & Hother & Hei). split; [apply cache_step_set|].
  cbn. rewrite !put_cache_eq. split; [|done]. intros j. cbn.
  destruct (decide (i = j)) as [<-|Hne]; [rewrite put_cache_eq|rewrite put_cache_ne by done; apply Hl].
  constructor; [done|]. intros it o Hd _. destruct (cl_live _ _ _ _ (Hl i) it o) as (r & ei' & Hr & Hc).
  { unfold denotes in *. by rewrite Ho1 in Hd. }
  { done. }
  destruct (decide (r_t_id r = t)) as [<-|Hne]; [by eauto|]. exists r, ei'. by rewrite Hother.
Qed.

(** A row of a cached table enters the cache. *)
Lemma cache_add_step w i o r ei :
  caches_live None w → Z.of_nat (length (iterator_to_object (caches (w_ctx w) i))) < 2 ^ 31 - 2 →
  by_id (index_rows (contracts w) i) !! o = Some r →
  table_cache (caches (w_ctx w) i) !! r_t_id r = Some (r_t_id r, ei) →
  wp (with_cache i (cache_add o)) (λ it w',
    cache_step i w w' ∧ caches_live None w' ∧ denotes (caches (w_ctx w') i) it o ∧
    (∀ it' o', denotes (caches (w_ctx w) i) it' o' → denotes (caches (w_ctx w') i) it' o')) w.
Proof.
  intros Hl Hs Hr Hc. apply wp_with_cache. eapply wp_mono; [apply cache_add_spec; [apply (Hl i)|done]|].
  intros it c (Hwf & [Ht1 Ht2] & Hd & Hiff). split; [apply cache_step_set|]. cbn. rewrite !put_cache_eq.
  split; [|split; [done|intros it' o' ?; apply Hiff; by left]]. intros j. cbn.
  destruct (decide (i = j)) as [<-|Hne]; [rewrite put_cache_eq|rewrite put_cache_ne by done; apply Hl].
  constructor; [done|]. intros it' o' [Hd'|[-> ->]]%Hiff _.
  - destruct (cl_live _ _ _ _ (Hl i) it' o' Hd') as (r' & ei' & Hr' & Hc'); [done|]. exists r', ei'. by rewrite Ht1.
  - exists r, ei. by rewrite Ht1.
Qed.

(** The row an iterator denotes; reading it changes nothing. *)
Lemma cache_get_step w i iterator :
  caches_live None w →
  wp (with_cache i (cache_get iterator)) (λ o w',
    cache_step i w w' ∧ (∀ j, caches (w_ctx w') j = caches (w_ctx w) j) ∧
    denotes (caches (w_ctx w) i) iterator o ∧
    ∃ r ei, by_id (index_rows (contracts w) i) !! o = Some r ∧
      table_cache (caches (w_ctx w) i) !! r_t_id r = Some (r_t_id r, ei)) w.
Proof.
  intros Hl. apply wp_with_cache. eapply wp_mono; [apply cache_get_spec|]. intros o c [-> Hd].
  split; [apply cache_step_set|]. split.
  - intros j. cbn. destruct (decide (i = j)) as [<-|Hne]; [by rewrite put_cache_eq|by rewrite put_cache_ne].
  - split; [done|]. destruct (cl_live _ _ _ _ (Hl i) iterator o Hd) as (r & ei & Hr & Hc); [done|]. eauto.
Qed.

Lemma caches_live_step w w' :
  caches_live None w → w_db w' = w_db w → (∀ j, caches (w_ctx w') j = caches (w_ctx w) j) → caches_live None w'.
Proof. intros Hl Hdb Hc j. rewrite Hdb, Hc. apply Hl. Qed.

(** *** Storing a row *)

Lemma set_contracts_idem w db1 db2 : set_contracts (set_contracts w db1) db2 = set_contracts w db2.
Proof. done. Qed.

Lemma wp_create_counted {A} w i t tab id payer d (k : Z → M (world K) A) Q :
  tables (contracts w) !! t = Some tab →
  (find_row i (index_rows (contracts w) i) t id = None →
   wp (k (next_row_id (index_rows (contracts w) i))) Q
      (set_contracts w (insert_row_db (contracts w) i t tab id payer d))) →
  wp (obj ← create_row i t id payer d; set_table_count t (λ c, u32 (c + 1));; k obj) Q w.
Proof.
  intros Ht HQ. wp_step. unfold create_row. do 2 wp_step.
  destruct (find_row i (index_rows (contracts w) i) t id) as [r|] eqn:Hf.
  { apply wp_lift. done. }
  wp_step. apply wp_put_contracts. wp_step. wp_step. unfold set_table_count. wp_step. unfold get_table_object.
  do 2 wp_step. apply (wp_deref _ tab); [done|]. do 2 wp_step. apply wp_put_contracts. by apply HQ.
Qed.

(** The row [o] is new; everything that was cached still is. *)
Record stored_row w w' (i : table_index) (t : Z) (tab : table_id_object) (id : primary_key_type i)
    (payer : Z) (d : data_type i) (it : Z) : Prop := {
  sr_fresh : find_row i (index_rows (contracts w) i) t id = None;
  sr_contracts : contracts w' = insert_row_db (contracts w) i t tab id payer d;
  sr_denotes : denotes (caches (w_ctx w') i) it (next_row_id (index_rows (contracts w) i));
  sr_old it' o' : denotes (caches (w_ctx w) i) it' o' → denotes (caches (w_ctx w') i) it' o' }.

Lemma store_tail_spec w i t tab id payer d size :
  tables_wf (Some t) (contracts w) → caches_live None w → usage_ok w → cache_small (caches (w_ctx w) i) →
  tables (contracts w) !! t = Some tab → tb_count tab < 2 ^ 32 - 1 → value_size i d < 2 ^ 32 →
  size = value_size i d + billable.of_index i →
  wp (obj ← create_row i t id payer d; set_table_count t (λ c, u32 (c + 1));;
      update_db_usage control act payer size;;
      with_cache i (cache_table t);; with_cache i (cache_add obj))
    (λ it w', sound_step w w' ∧ world_wf w' ∧ stored_row w w' i t tab id payer d it) w.
Proof.
  intros Hwf Hl Hu [Hs1 Hs2] Ht Hcnt Hd Hsize. apply wp_create_counted with tab; [done|]. intros Hf.
  set (db' := insert_row_db (contracts w) i t tab id payer d).
  set (o := next_row_id (index_rows (contracts w) i)).
  pose proof (of_index_bounds i). pose proof (value_size_nonneg i d).
  wp_step. eapply wp_mono; [apply update_db_usage_spec; [done|unfold is_signed; lia]|].
  intros [] w1 Hc. pose proof (cr_contracts _ _ _ _ _ Hc) as Hdb. change (contracts (set_contracts w db')) with db' in Hdb.
  assert (Hl1 : caches_live None w1).
  { intros j. rewrite Hdb, (cr_caches _ _ _ _ _ Hc). eapply cache_live_rows; [|apply Hl].
    intros o' r Hr _. exists r. split; [|done]. unfold db'. by apply insert_row_lookup. }
  assert (Hca : caches (w_ctx w1) = caches (w_ctx w)) by apply Hc.
  wp_step. eapply wp_mono; [apply cache_table_step; [done|by rewrite Hca]|].
  intros ei w2 (Hs & Hl2 & _ & Htc & Hobj).
  assert (Hrow : by_id (index_rows (contracts w2) i) !! o = Some (Row o t id payer d)).
  { rewrite (cs_db _ _ _ Hs), Hdb. unfold db', insert_row_db. cbn zeta.
    change (index_rows (with_tables ?x _ _)) with (index_rows x). rewrite index_rows_put_eq. apply lookup_insert_eq. }
  eapply wp_mono; [eapply cache_add_step; [done|by rewrite Hobj, Hca|exact Hrow|exact Htc]|].
  intros it w3 (Hs3 & Hl3 & Hden & Hold). cbn in Hden.
  assert (Hdb3 : contracts w3 = db') by (by rewrite (cs_db _ _ _ Hs3), (cs_db _ _ _ Hs)).
  split; [|split].
  - etrans; [|apply Hs3]. etrans; [|apply Hs]. constructor.
    + etrans; [apply (frame_set_contracts w db')|apply Hc].
    + intros a. unfold unbilled. rewrite Hdb. unfold db'. rewrite (insert_row_billed _ _ _ _ _ _ _ Hwf Ht).
      rewrite (cr_ram _ _ _ _ _ Hc). change (ram_of (set_contracts w _) a) with (ram_of w a). rewrite Hsize. lia.
    + intros a. by apply (charged_ram_may (set_contracts w db') w1 payer size).
  - constructor; [|done|].
    + rewrite Hdb3. by apply insert_row_wf.
    + unfold usage_ok. rewrite (cs_db _ _ _ Hs3), (cs_db _ _ _ Hs). apply Hc.
  - constructor; [done|done|done|]. intros it' o' Hd'. apply Hold. unfold denotes in *. by rewrite Hobj, Hca.
Qed.

(** What a store does to the tables. *)
Definition stored (db db' : contract_db) (i : table_index) (code scope table payer : Z)
    (id : primary_key_type i) (d : data_type i) (o : Z) : Prop :=
  ∃ t db1 tab, table_for db code scope table payer t db1 ∧ tables db1 !! t = Some tab ∧
    find_row i (index_rows db1 i) t id = None ∧ o = next_row_id (index_rows db i) ∧
    db' = insert_row_db db1 i t tab id payer d.

Lemma billed_size_id i d : value_size i d < 2 ^ 32 → billed_size i d = value_size i d + billable.of_index i.
Proof.
  intros Hd. unfold billed_size. pose proof (of_index_bounds i). pose proof (value_size_nonneg i d).
  rewrite wrap_id by (unfold is_unsigned; lia). apply swrap_id; [unfold is_signed|]; lia.
Qed.

Lemma db_store_spec w i code scope table payer id d :
  world_wf w → world_small w → value_size i d < 2 ^ 32 →
  wp (db_store control act i code scope table payer id d) (λ it w',
    sound_step w w' ∧ world_wf w' ∧ payer ≠ 0 ∧
    ∃ o, stored (contracts w) (contracts w') i code scope table payer id d o ∧
      denotes (caches (w_ctx w') i) it o ∧
      ∀ it' o', denotes (caches (w_ctx w) i) it' o' → denotes (caches (w_ctx w') i) it' o') w.
Proof.
  intros [Hwf Hl Hu] [Hsc Hst] Hd. unfold db_store. wp_step.
  eapply wp_mono; [by apply find_or_create_table_spec|]. intros t w1 (S1 & Hc1 & Hu1 & Hwf1 & Htf).
  wp_step. wp_step. destruct (table_for_key _ _ _ _ _ _ _ Htf) as (tab & Ht & Hk & Hcount).
  pose proof (billed_size_id i d Hd) as Hsz.
  eapply wp_mono; [apply (store_tail_spec w1 i t tab)|]; try done.
  - intros j. rewrite Hc1. eapply cache_live_rows; [|apply Hl]. intros o r Hr _. exists r.
    by rewrite (table_for_rows _ _ _ _ _ _ _ Htf).
  - rewrite Hc1. apply Hsc.
  - destruct Hcount as [Hold| ->]; [by eapply Hst|lia].
  - intros it w2 (S2 & Hwf2 & [Hf Hdb Hden Hold]). split; [by etrans|]. split; [done|]. split; [zbool; lia|].
    exists (next_row_id (index_rows (contracts w) i)). split.
    + exists t, (contracts w1), tab. split_and!; done.
    + rewrite (table_for_rows _ _ _ _ _ _ _ Htf) in Hden. split; [done|]. intros it' o' Hd'.
      apply Hold. by rewrite Hc1.
Qed.

(** *** Calls that only read *)

Record reads w w' : Prop := {
  rd_db : w_db w' = w_db w;
  rd_caches j : caches (w_ctx w') j = caches (w_ctx w) j;
  rd_sound : sound_step w w' }.

#[export] Instance reads_preorder : PreOrder reads.
Proof.
  split.
  - intros w. constructor; done.
  - intros w1 w2 w3 [D1 C1 S1] [D2 C2 S2]. constructor; [congruence|intros j; by rewrite C2|by etrans].
Qed.

Lemma reads_caches_live w w' : reads w w' → caches_live None w → caches_live None w'.
Proof. intros [D C _] H. by eapply caches_live_step. Qed.

Lemma reads_usage w w' : reads w w' → usage_ok w → usage_ok w'.
Proof. intros [D _ _]. unfold usage_ok. by rewrite D. Qed.

Lemma reads_set_cache w i : reads w (set_cache w i (caches (w_ctx w) i)).
Proof.
  constructor; [done| |apply sound_set_cache]. intros j. cbn.
  destruct (decide (i = j)) as [<-|Hne]; [apply put_cache_eq|by apply put_cache_ne].
Qed.

(** The account whose tables the contract may write. *)
Definition runs_as w (r : Z) : Prop := get_receiver act unpack_setcode w = Done r w.

Lemma wp_get_receiver w Q : (∀ r, runs_as w r → Q r w) → wp (get_receiver act unpack_setcode) Q w.
Proof.
  unfold runs_as, get_receiver. intros HQ. destruct (_ && _).
  - wp_step. wp_step. wp_step. apply HQ. by erewrite bind_run by (apply lift_Done; done).
  - wp_step. by apply HQ.
Qed.

Lemma runs_as_frame w w' r : frame w w' → runs_as w r ↔ runs_as w' r.
Proof.
  intros F. unfold runs_as, get_receiver. destruct (_ && _).
  - rewrite !bind_Done. setoid_rewrite lift_Done. split; intros (a & s & [Ha ->] & [= <-]); by eexists _, _.
  - unfold gets. rewrite (frame_receiver _ _ F). naive_solver.
Qed.

Lemma runs_as_inj w r r' : runs_as w r → runs_as w r' → r = r'.
Proof. unfold runs_as. congruence. Qed.

(** The row of an iterator. *)
Lemma wp_locate {A} w i iterator (k : Z → index_row i → M (world K) A) Q :
  caches_live None w →
  (∀ o r ei w1, reads w w1 → denotes (caches (w_ctx w) i) iterator o →
     by_id (index_rows (contracts w) i) !! o = Some r →
     table_cache (caches (w_ctx w) i) !! r_t_id r = Some (r_t_id r, ei) → wp (k o r) Q w1) →
  wp (o ← with_cache i (cache_get iterator); obj ← get_row i o; k o obj) Q w.
Proof.
  intros Hl HQ. wp_step. apply wp_with_cache. eapply wp_mono; [apply cache_get_spec|]. intros o c [-> Hd].
  destruct (cl_live _ _ _ _ (Hl i) iterator o Hd) as (r & ei & Hr & Hc); [done|].
  wp_step. unfold get_row. wp_step. wp_step. apply (wp_deref _ r); [done|]. eapply HQ; [apply reads_set_cache|done..].
Qed.

(** The table of a row, and the check that it belongs to the contract. *)
Lemma wp_table_access {A} w i t ei tab (b : bool) (k : Z → table_id_object → M (world K) A) Q :
  caches_live None w → table_cache (caches (w_ctx w) i) !! t = Some (t, ei) → tables (contracts w) !! t = Some tab →
  (∀ w1, reads w w1 → (b = true → runs_as w (tb_code tab)) → wp (k t tab) Q w1) →
  wp (t' ← with_cache i (get_table t); table_obj ← get_table_object t';
      check_access act unpack_setcode b table_obj;; k t' table_obj) Q w.
Proof.
  intros Hl Hc Ht HQ. wp_step. apply wp_with_cache. eapply get_table_spec; [done|apply (Hl i)|].
  wp_step. unfold get_table_object. wp_step. wp_step. apply (wp_deref _ tab); [done|]. wp_step. unfold check_access.
  destruct b; [|wp_step; apply HQ; [apply reads_set_cache|done]].
  wp_step. apply wp_get_receiver. intros r Hr. wp_step. zbool. apply HQ; [apply reads_set_cache|]. intros _.
  match goal with H : tb_code tab = r |- _ => rewrite H end. eapply runs_as_frame; [apply frame_set_cache|done].
Qed.

(** *** Storing in a secondary index *)

Definition has_value (i : table_index) : bool :=
  match i with key_value_index | key256_value_index => true | _ => false end.

Lemma secondary_size i d : has_value i = false → value_size i d = 0.
Proof. by destruct i. Qed.

Lemma of_index_i64 i : i64 (billable.of_index i) = billable.of_index i.
Proof. by destruct i. Qed.

Lemma stored_caches_live w w1 code scope table payer t :
  caches (w_ctx w1) = caches (w_ctx w) → table_for (contracts w) code scope table payer t (contracts w1) →
  caches_live None w → caches_live None w1.
Proof.
  intros Hc Htf Hl j. rewrite Hc. eapply cache_live_rows; [|apply Hl]. intros o r Hr _. exists r.
  by rewrite (table_for_rows _ _ _ _ _ _ _ Htf).
Qed.

Lemma store_spec w i scope table payer id d :
  has_value i = false → world_wf w → world_small w →
  wp (store control act unpack_setcode i scope table payer id d) (λ it w',
    sound_step w w' ∧ world_wf w' ∧ payer ≠ 0 ∧
    ∃ code o, runs_as w code ∧ stored (contracts w) (contracts w') i code scope table payer id d o ∧
      denotes (caches (w_ctx w') i) it o ∧
      ∀ it' o', denotes (caches (w_ctx w) i) it' o' → denotes (caches (w_ctx w') i) it' o') w.
Proof.
  intros Hi [Hwf Hl Hu] [Hsc Hst]. unfold store. wp_step. wp_step. wp_step. apply wp_get_receiver. intros code Hcode.
  wp_step. eapply wp_mono; [by apply find_or_create_table_spec|]. intros t w1 (S1 & Hc1 & Hu1 & Hwf1 & Htf).
  destruct (table_for_key _ _ _ _ _ _ _ Htf) as (tab & Ht & Hk & Hcount).
  eapply wp_mono; [apply (store_tail_spec w1 i t tab)|]; try done.
  - by eapply stored_caches_live.
  - rewrite Hc1. apply Hsc.
  - destruct Hcount as [Hold| ->]; [by eapply Hst|lia].
  - rewrite secondary_size by done. lia.
  - rewrite secondary_size by done. apply of_index_i64.
  - intros it w2 (S2 & Hwf2 & [Hf Hdb Hden Hold]). split; [by etrans|]. split; [done|]. split; [zbool; lia|].
    exists code, (next_row_id (index_rows (contracts w) i)). split; [done|]. split.
    + exists t, (contracts w1), tab. split_and!; done.
    + rewrite (table_for_rows _ _ _ _ _ _ _ Htf) in Hden. split; [done|]. intros it' o' Hd'.
      apply Hold. by rewrite Hc1.
Qed.

(** *** Removing a row *)

Lemma refund_id x : 0 <= x < 2 ^ 40 → refund x = - x ∧ is_signed 64 (- x).
Proof.
  intros Hx. split; [|unfold is_signed; lia]. unfold refund, swrap, wrap. div_lia.
Qed.

(** The tables without row [o] of table [t], which goes with its last row. *)
Definition removed_db (db : contract_db) (i : table_index) (t : Z) (tab : table_id_object) (o : Z) : contract_db :=
  let db' := erase_row_db db i t tab o in
  if tb_count tab =? 1 then drop_table_db db' t else db'.

Lemma wp_uncount {A} w i t tab o (k : unit → M (world K) A) Q :
  tables (contracts w) !! t = Some tab →
  wp (k tt) Q (set_contracts w (erase_row_db (contracts w) i t tab o)) →
  wp (set_table_count t (λ c, u32 (c - 1));; x ← remove_row i o; k x) Q w.
Proof.
  intros Ht HQ. wp_step. unfold set_table_count. wp_step. unfold get_table_object. do 2 wp_step.
  apply (wp_deref _ tab); [done|]. do 2 wp_step. apply wp_put_contracts. wp_step. unfold remove_row.
  do 2 wp_step. apply wp_put_contracts. exact HQ.
Qed.

Lemma removed_rows db i t tab o j :
  index_rows (removed_db db i t tab o) j = index_rows (erase_row_db db i t tab o) j.
Proof. unfold removed_db. cbn zeta. by destruct (_ =? _). Qed.

(** The RAM of the row is what is left to refund. *)
Lemma drop_row_spec w i o r tab :
  tables_wf None (contracts w) → usage_ok w → by_id (index_rows (contracts w) i) !! o = Some r →
  tables (contracts w) !! r_t_id r = Some tab → tb_count tab < 2 ^ 32 - 1 →
  wp (drop_row control act i (r_t_id r) o) (λ _ w',
    frame w w' ∧ contracts w' = removed_db (contracts w) i (r_t_id r) tab o ∧
    caches (w_ctx w') = caches (w_ctx w) ∧ usage_ok w' ∧ tables_wf None (contracts w') ∧
    (∀ a, unbilled w' a = unbilled w a + (if a =? r_payer r then row_size i r else 0)) ∧
    (∀ a, ram_of w' a <= ram_of w a)) w.
Proof.
  intros Hwf Hu Hr Ht Hc. unfold drop_row. apply wp_uncount with tab; [done|].
  destruct (erase_row_wf _ _ _ _ _ Hwf Hr Ht) as [Hwf1 Hcnt]; [lia|].
  pose proof (erase_row_billed _ _ _ _ tab Hr Ht) as Hb.
  unfold removed_db. cbn zeta. set (db1 := erase_row_db (contracts w) i (r_t_id r) tab o) in *.
  set (w1 := set_contracts w db1).
  assert (Ht1 : tables (contracts w1) !! r_t_id r = Some (with_count tab (tb_count tab - 1))).
  { cbn. rewrite Hcnt. apply lookup_insert_eq. }
  wp_step. unfold get_table_object at 1. do 2 wp_step. eapply wp_deref; [exact Ht1|]. cbn [with_count tb_count].
  replace (tb_count tab =? 1) with (tb_count tab - 1 =? 0) by lia.
  destruct (Z.eqb_spec (tb_count tab - 1) 0) as [H0|H0].
  - unfold remove_table. wp_step. unfold get_table_object. do 2 wp_step. eapply wp_deref; [exact Ht1|].
    destruct table_id_size as (_ & Href & Hsg). rewrite Href. cbn [with_count tb_payer].
    wp_step. eapply wp_mono; [by apply update_db_usage_spec|].
    intros [] w2 Hch. do 2 wp_step. apply wp_put_contracts. rewrite (cr_contracts _ _ _ _ _ Hch).
    change (contracts w1) with db1. fold (drop_table_db db1 (r_t_id r)).
    change (ch_limits (w_db (set_contracts w2 _))) with (ch_limits (w_db w2)).
    split; [etrans; [apply (frame_set_contracts w db1)|etrans; [apply Hch|apply (frame_set_contracts w2)]]|].
    split; [done|]. split; [apply Hch|]. split; [apply Hch|].
    split; [by apply (drop_table_wf _ _ _ Hwf1 Ht1)|]. split.
    + intros a. unfold unbilled. change (contracts (set_contracts w2 ?d)) with d.
      change (ram_of (set_contracts w2 ?d) a) with (ram_of w2 a).
      rewrite (drop_table_billed _ _ _ Ht1), (cr_ram _ _ _ _ _ Hch), Hb.
      change (ram_of w1 a) with (ram_of w a). cbn [with_count tb_payer]. destruct (a =? tb_payer tab); lia.
    + intros a. change (ram_of (set_contracts w2 ?d) a) with (ram_of w2 a). rewrite (cr_ram _ _ _ _ _ Hch).
      change (ram_of w1 a) with (ram_of w a). assert (0 <= billable.table_id) by (by vm_compute).
      destruct (_ =? _); lia.
  - wp_step. split; [apply frame_set_contracts|]. split; [done|]. split; [done|]. split; [done|].
    split; [by apply (tables_wf_fill _ _ _ Hwf1 Ht1)|]. split; [|done].
    intros a. unfold unbilled. change (contracts w1) with db1. change (ram_of w1 a) with (ram_of w a). rewrite Hb. lia.
Qed.

(** What a removal leaves: the iterator of the row denotes nothing any more. *)
Record removed w w' (i : table_index) (iterator o : Z) (r : index_row i) (tab : table_id_object) : Prop := {
  rm_denotes : denotes (caches (w_ctx w) i) iterator o;
  rm_row : by_id (index_rows (contracts w) i) !! o = Some r;
  rm_table : tables (contracts w) !! r_t_id r = Some tab;
  rm_contracts : contracts w' = removed_db (contracts w) i (r_t_id r) tab o;
  rm_iterators j it' o' : denotes (caches (w_ctx w') j) it' o' ↔
    denotes (caches (w_ctx w) j) it' o' ∧ (i = j → it' ≠ iterator) }.

Lemma remove_tail_spec w w1 i iterator o r tab :
  world_wf w → world_small w →
  denotes (caches (w_ctx w) i) iterator o → by_id (index_rows (contracts w) i) !! o = Some r →
  tables (contracts w) !! r_t_id r = Some tab →
  frame w w1 → contracts w1 = contracts w → (∀ j, caches (w_ctx w1) j = caches (w_ctx w) j) → usage_ok w1 →
  (∀ a, ram_of w1 a = ram_of w a - (if a =? r_payer r then row_size i r else 0)) →
  wp (drop_row control act i (r_t_id r) o;; with_cache i (cache_remove iterator))
    (λ _ w', sound_step w w' ∧ world_wf w' ∧ removed w w' i iterator o r tab) w1.
Proof.
  intros [Hwf Hl Hu] [_ Hst] Hd Hr Ht F1 Hdb1 Hca1 Hu1 Hram1.
  assert (Hpos : 0 < row_size i r).
  { unfold row_size. pose proof (of_index_bounds i). pose proof (value_size_nonneg i (r_data r)). lia. }
  wp_step. eapply wp_mono.
  { apply (drop_row_spec w1 i o r tab); rewrite ?Hdb1; try done. by eapply Hst. }
  intros [] w2 (F2 & Hdb2 & Hca2 & Hu2 & Hwf2 & Hun2 & Hram2). rewrite Hdb1 in Hdb2.
  assert (Hci : ∀ j, caches (w_ctx w2) j = caches (w_ctx w) j) by (intros j; by rewrite Hca2, Hca1).
  apply wp_with_cache. rewrite (Hci i). eapply wp_mono; [apply cache_remove_spec; apply (Hl i)|].
  intros [] c (Hcwf & [Htc _] & _ & Hden).
  assert (Hits : ∀ j it' o', denotes (caches (w_ctx (set_cache w2 i c)) j) it' o' ↔
    denotes (caches (w_ctx w) j) it' o' ∧ (i = j → it' ≠ iterator)).
  { intros j it' o'. cbn. destruct (decide (i = j)) as [<-|Hne].
    - rewrite put_cache_eq, Hden. naive_solver.
    - rewrite put_cache_ne, Hci by done. naive_solver. }
  split; [|split; [|by constructor]].
  - constructor.
    + etrans; [exact F1|]. etrans; [exact F2|apply frame_set_cache].
    + intros a. change (unbilled (set_cache w2 i c) a) with (unbilled w2 a). rewrite Hun2.
      unfold unbilled. rewrite Hdb1, Hram1. lia.
    + intros a. left. change (ram_of (set_cache w2 i c) a) with (ram_of w2 a). specialize (Hram2 a).
      rewrite Hram1 in Hram2. destruct (_ =? _); lia.
  - constructor; [done| |done]. intros j. constructor.
    + cbn. destruct (decide (i = j)) as [<-|Hne]; [by rewrite put_cache_eq|].
      rewrite put_cache_ne, Hci by done. apply (Hl j).
    + intros it' o' [Hd' Hne]%Hits _. destruct (cl_live _ _ _ _ (Hl j) it' o' Hd') as (r' & ei & Hr' & Hc'); [done|].
      exists r', ei. split.
      * cbn. rewrite Hdb2, removed_rows. apply (erase_row_keep _ _ _ _ _ Hr); [done|]. intros Hij ->. subst j. apply Hne; [done|].
        eapply denotes_inj; [apply (Hl i)|done|done].
      * cbn. destruct (decide (i = j)) as [<-|Hij]; [by rewrite put_cache_eq, Htc|by rewrite put_cache_ne, Hci].
Qed.

Lemma table_of_row w i o r :
  world_wf w → by_id (index_rows (contracts w) i) !! o = Some r → ∃ tab, tables (contracts w) !! r_t_id r = Some tab.
Proof. intros Hwf Hr. by destruct (tw_rows _ _ (ww_tables _ Hwf) i o r Hr) as (_ & _ & [tab Ht] & _); exists tab. Qed.

Lemma row_refund w i o r :
  world_wf w → by_id (index_rows (contracts w) i) !! o = Some r →
  refund (value_size i (r_data r) + billable.of_index i) = - row_size i r ∧ is_signed 64 (- row_size i r).
Proof.
  intros Hwf Hr. destruct (tw_rows _ _ (ww_tables _ Hwf) i o r Hr) as (_ & _ & _ & Hs).
  pose proof (of_index_bounds i). pose proof (value_size_nonneg i (r_data r)).
  apply (refund_id (row_size i r)). unfold row_size. lia.
Qed.

Lemma db_remove_spec w i iterator check_code :
  world_wf w → world_small w →
  wp (db_remove control act unpack_setcode i iterator check_code) (λ _ w',
    sound_step w w' ∧ world_wf w' ∧ ∃ o r tab, removed w w' i iterator o r tab ∧
      (check_code = true → runs_as w (tb_code tab))) w.
Proof.
  intros Hw Hs. pose proof Hw as [Hwf Hl Hu]. unfold db_remove. apply wp_locate; [done|].
  intros o r ei w1 R1 Hd Hr Hc. destruct (table_of_row _ _ _ _ Hw Hr) as [tab Ht].
  eapply (wp_table_access _ _ _ ei tab).
  { by eapply reads_caches_live. } { by rewrite (rd_caches _ _ R1). } { by rewrite (rd_db _ _ R1). }
  intros w2 R2 Hck. assert (R : reads w w2) by (by etrans).
  destruct (row_refund _ _ _ _ Hw Hr) as [-> Hsg]. wp_step.
  eapply wp_mono; [apply update_db_usage_spec; [by eapply reads_usage|done]|]. intros [] w3 Hch.
  eapply wp_mono; [apply (remove_tail_spec w w3 i iterator o r tab)|]; try done.
  - etrans; [apply R|apply Hch].
  - rewrite (cr_contracts _ _ _ _ _ Hch), (rd_db _ _ R). done.
  - intros j. rewrite (cr_caches _ _ _ _ _ Hch). apply R.
  - apply Hch.
  - intros a. rewrite (cr_ram _ _ _ _ _ Hch). unfold ram_of. rewrite (rd_db _ _ R). destruct (_ =? _); lia.
  - intros [] w4 (S & Hw4 & Hrm). split; [done|]. split; [done|]. exists o, r, tab. split; [done|].
    intros Hck'. eapply runs_as_frame; [apply R1|]. by apply Hck.
Qed.

Lemma idx_remove_spec w i iterator :
  has_value i = false → world_wf w → world_small w →
  wp (idx_remove control act unpack_setcode i iterator) (λ _ w',
    sound_step w w' ∧ world_wf w' ∧ ∃ o r tab, removed w w' i iterator o r tab ∧ runs_as w (tb_code tab)) w.
Proof.
  intros Hi Hw Hs. pose proof Hw as [Hwf Hl Hu]. unfold idx_remove. apply wp_locate; [done|].
  intros o r ei w1 R1 Hd Hr Hc. destruct (table_of_row _ _ _ _ Hw Hr) as [tab Ht].
  destruct (row_refund _ _ _ _ Hw Hr) as [Href Hsg]. rewrite (secondary_size i) in Href by done. rewrite Z.add_0_l in Href.
  rewrite Href. wp_step.
  eapply wp_mono; [apply update_db_usage_spec; [by eapply reads_usage|done]|]. intros [] w2 Hch.
  assert (Hdb2 : contracts w2 = contracts w) by (by rewrite (cr_contracts _ _ _ _ _ Hch), (rd_db _ _ R1)).
  assert (Hca2 : ∀ j, caches (w_ctx w2) j = caches (w_ctx w) j).
  { intros j. rewrite (cr_caches _ _ _ _ _ Hch). apply R1. }
  assert (F2 : frame w w2) by (etrans; [apply R1|apply Hch]).
  eapply (wp_table_access _ _ _ ei tab).
  { intros j. rewrite Hdb2, Hca2. apply Hl. } { by rewrite Hca2. } { by rewrite Hdb2. }
  intros w3 R3 Hck.
  eapply wp_mono; [apply (remove_tail_spec w w3 i iterator o r tab)|]; try done.
  - etrans; [exact F2|apply R3].
  - by rewrite (rd_db _ _ R3).
  - intros j. by rewrite (rd_caches _ _ R3).
  - eapply reads_usage; [done|apply Hch].
  - intros a. unfold ram_of at 1. rewrite (rd_db _ _ R3). fold (ram_of w2 a). rewrite (cr_ram _ _ _ _ _ Hch).
    unfold ram_of. rewrite (rd_db _ _ R1). destruct (_ =? _); lia.
  - intros [] w4 (S & Hw4 & Hrm). split; [done|]. split; [done|]. exists o, r, tab. split; [done|].
    eapply runs_as_frame; [exact F2|]. by apply Hck.
Qed.

(** *** Changing a row *)

(** [p] no longer pays [old]; [payer] pays [new]. *)
Record rebilled w w' (p old payer new : Z) : Prop := {
  rb_frame : frame w w';
  rb_contracts : contracts w' = contracts w;
  rb_caches : caches (w_ctx w') = caches (w_ctx w);
  rb_usage : usage_ok w';
  rb_ram a : ram_of w' a = ram_of w a - (if a =? p then old else 0) + (if a =? payer then new else 0);
  rb_lawful a : ram_of w' a <= ram_of w a ∨ may_charge act w a }.

Lemma rebill_spec w p old payer new (same : M (world K) unit) :
  usage_ok w → 0 < old < 2 ^ 40 → 0 < new < 2 ^ 40 →
  (p = payer → wp same (λ _ w', rebilled w w' p old payer new) w) →
  wp (if negb (p =? payer)
      then update_db_usage control act p (i64 (- old));; update_db_usage control act payer new
      else same) (λ _ w', rebilled w w' p old payer new) w.
Proof.
  intros Hu Ho Hn Hsame. destruct (Z.eqb_spec p payer) as [Heq|Hne]; cbn; [by apply Hsame|].
  rewrite swrap_id by (unfold is_signed; lia). wp_step.
  eapply wp_mono; [apply update_db_usage_spec; [done|unfold is_signed; lia]|]. intros [] w1 H1.
  eapply wp_mono; [apply update_db_usage_spec; [apply H1|unfold is_signed; lia]|]. intros [] w2 H2.
  constructor.
  - etrans; [apply H1|apply H2].
  - rewrite (cr_contracts _ _ _ _ _ H2). apply H1.
  - rewrite (cr_caches _ _ _ _ _ H2). apply H1.
  - apply H2.
  - intros a. rewrite (cr_ram _ _ _ _ _ H2), (cr_ram _ _ _ _ _ H1). destruct (a =? p), (a =? payer); lia.
  - intros a. destruct (charged_ram_may _ _ _ _ a H2) as [Hle|Hm].
    + left. rewrite (cr_ram _ _ _ _ _ H1) in Hle. destruct (a =? p); lia.
    + right. by eapply may_charge_frame; [apply H1|].
Qed.

Lemma charged_rebilled w w' p old new :
  charged_ram act w w' p (new - old) → rebilled w w' p old p new.
Proof.
  intros H. constructor; try apply H.
  - intros a. rewrite (cr_ram _ _ _ _ _ H). destruct (_ =? _); lia.
  - intros a. by eapply charged_ram_may.
Qed.

Lemma rebilled_same w p size : usage_ok w → rebilled w w p size p size.
Proof. intros Hu. constructor; try done; intros a; [destruct (_ =? _)|left]; lia. Qed.

Record updated w w' (i : table_index) (iterator o : Z) (r : index_row i) (payer : Z) (d : data_type i) : Prop := {
  up_denotes : denotes (caches (w_ctx w) i) iterator o;
  up_row : by_id (index_rows (contracts w) i) !! o = Some r;
  up_contracts : contracts w' = modify_row_db (contracts w) i o (if payer =? 0 then r_payer r else payer) d;
  up_caches j : caches (w_ctx w') j = caches (w_ctx w) j }.

Lemma update_tail_spec w w1 w2 i iterator o r payer d :
  let p := if payer =? 0 then r_payer r else payer in
  world_wf w → value_size i d < 2 ^ 32 →
  denotes (caches (w_ctx w) i) iterator o → by_id (index_rows (contracts w) i) !! o = Some r →
  reads w w1 → rebilled w1 w2 (r_payer r) (row_size i r) p (value_size i d + billable.of_index i) →
  wp (modify_row i o (λ r, with_row i r p d)) (λ _ w',
    sound_step w w' ∧ world_wf w' ∧ updated w w' i iterator o r payer d) w2.
Proof.
  intros p [Hwf Hl Hu] Hd Hden Hr R B. unfold modify_row. do 2 wp_step. apply wp_put_contracts.
  assert (Hdb2 : contracts w2 = contracts w) by (by rewrite (rb_contracts _ _ _ _ _ _ B), (rd_db _ _ R)).
  assert (Hca2 : ∀ j, caches (w_ctx w2) j = caches (w_ctx w) j).
  { intros j. rewrite (rb_caches _ _ _ _ _ _ B). apply R. }
  rewrite Hdb2. fold (modify_row_db (contracts w) i o p d).
  set (db' := modify_row_db (contracts w) i o p d).
  assert (Hram : ∀ a, ram_of w1 a = ram_of w a) by (intros a; unfold ram_of; by rewrite (rd_db _ _ R)).
  split; [|split].
  - constructor.
    + etrans; [apply R|]. etrans; [apply B|]. apply frame_set_contracts.
    + intros a. unfold unbilled. change (contracts (set_contracts w2 ?x)) with x.
      change (ram_of (set_contracts w2 ?x) a) with (ram_of w2 a).
      rewrite (rb_ram _ _ _ _ _ _ B), Hram. unfold db'. rewrite (modify_row_billed _ _ _ _ _ _ Hr). lia.
    + intros a. change (ram_of (set_contracts w2 ?x) a) with (ram_of w2 a).
      destruct (rb_lawful _ _ _ _ _ _ B a) as [H|H]; [left; by rewrite Hram in H|right].
      by eapply may_charge_frame; [apply R|].
  - constructor.
    + by apply (modify_row_wf _ _ _ _ _ _ Hwf Hr).
    + intros j. rewrite Hca2. eapply cache_live_rows; [|apply Hl]. intros o' r' Hr' _. by apply modify_row_lookup.
    + apply B.
  - constructor; try done.
Qed.

Lemma row_size_bounds w i o r :
  world_wf w → by_id (index_rows (contracts w) i) !! o = Some r → 0 < row_size i r < 2 ^ 40.
Proof.
  intros Hw Hr. destruct (tw_rows _ _ (ww_tables _ Hw) i o r Hr) as (_ & _ & _ & Hs).
  pose proof (of_index_bounds i). pose proof (value_size_nonneg i (r_data r)). unfold row_size. lia.
Qed.

Lemma db_update_spec w i iterator payer d check_code :
  world_wf w → value_size i d < 2 ^ 32 →
  wp (db_update control act unpack_setcode i iterator payer d check_code) (λ _ w',
    sound_step w w' ∧ world_wf w' ∧ ∃ o r tab, updated w w' i iterator o r payer d ∧
      tables (contracts w) !! r_t_id r = Some tab ∧ (check_code = true → runs_as w (tb_code tab))) w.
Proof.
  intros Hw Hd. pose proof Hw as [Hwf Hl Hu]. unfold db_update. apply wp_locate; [done|].
  intros o r ei w1 R1 Hden Hr Hc. destruct (table_of_row _ _ _ _ Hw Hr) as [tab Ht].
  eapply (wp_table_access _ _ _ ei tab).
  { by eapply reads_caches_live. } { by rewrite (rd_caches _ _ R1). } { by rewrite (rd_db _ _ R1). }
  intros w2 R2 Hck. assert (R : reads w w2) by (by etrans). assert (Hu2 : usage_ok w2) by (by eapply reads_usage).
  pose proof (row_size_bounds _ _ _ _ Hw Hr) as Hsz. cbn zeta.
  pose proof (of_index_bounds i). pose proof (value_size_nonneg i d).
  assert (Hold : billed_size i (r_data r) = row_size i r).
  { apply billed_size_id. by destruct (tw_rows _ _ Hwf i o r Hr) as (_ & _ & _ & ?). }
  rewrite Hold, (billed_size_id i d) by done. set (new := value_size i d + billable.of_index i).
  set (p := if payer =? 0 then r_payer r else payer).
  wp_step. eapply wp_mono; [apply (rebill_spec w2 (r_payer r) (row_size i r) p new)|]; [done|done|lia| |].
  - intros <-. destruct (Z.eqb_spec (row_size i r) new) as [->|Hne]; cbn.
    + by apply rebilled_same.
    + rewrite swrap_id by (unfold is_signed; lia).
      eapply wp_mono; [apply update_db_usage_spec; [done|unfold is_signed; lia]|]. intros [] w3. apply charged_rebilled.
  - intros [] w3 B. eapply wp_mono; [by apply (update_tail_spec w w2 w3 i iterator o r payer d)|].
    intros [] w4 (S & Hw4 & Hup). split; [done|]. split; [done|]. exists o, r, tab. split; [done|]. split; [done|].
    intros Hck'. eapply runs_as_frame; [apply R1|]. by apply Hck.
Qed.

Lemma idx_update_spec w i iterator payer d :
  has_value i = false → world_wf w →
  wp (idx_update control act unpack_setcode i iterator payer d) (λ _ w',
    sound_step w w' ∧ world_wf w' ∧ ∃ o r tab, updated w w' i iterator o r payer d ∧
      tables (contracts w) !! r_t_id r = Some tab ∧ runs_as w (tb_code tab)) w.
Proof.
  intros Hi Hw. pose proof Hw as [Hwf Hl Hu]. unfold idx_update. apply wp_locate; [done|].
  intros o r ei w1 R1 Hden Hr Hc. destruct (table_of_row _ _ _ _ Hw Hr) as [tab Ht].
  eapply (wp_table_access _ _ _ ei tab).
  { by eapply reads_caches_live. } { by rewrite (rd_caches _ _ R1). } { by rewrite (rd_db _ _ R1). }
  intros w2 R2 Hck. assert (R : reads w w2) by (by etrans). assert (Hu2 : usage_ok w2) by (by eapply reads_usage).
  pose proof (row_size_bounds _ _ _ _ Hw Hr) as Hsz. cbn zeta. rewrite of_index_i64.
  assert (Hold : billable.of_index i = row_size i r) by (unfold row_size; by rewrite secondary_size).
  set (p := if payer =? 0 then r_payer r else payer). rewrite Hold.
  wp_step. eapply wp_mono; [apply (rebill_spec w2 (r_payer r) (row_size i r) p (row_size i r))|]; [done..| |].
  - intros <-. wp_step. by apply rebilled_same.
  - intros [] w3 B. eapply wp_mono; [apply (update_tail_spec w w2 w3 i iterator o r payer d)|]; try done.
    + by rewrite secondary_size.
    + by rewrite (secondary_size i d), Hold by done.
    + intros [] w4 (S & Hw4 & Hup). split; [done|]. split; [done|]. exists o, r, tab. split; [done|]. split; [done|].
      eapply runs_as_frame; [apply R1|]. by apply Hck.
Qed.
End operations.
