(* ===== verification/TableSnapshot.v ===== *)
(** * Snapshots of the tables of contracts (controller.cpp)

    The section of the contract tables holds every table followed, for each
    kind of rows, by their number and the rows.  Reading it gives new ids to the
    tables and rows.  The theorem shows that contracts find in the restored
    database exactly the tables and rows they had, and that the restored tables
    are well formed. *)

From S2P Require Import Prelude Exceptions Config Merkle Database Transaction Bytes Name ChainDatabase ErrorState StateMonad IteratorCache TransactionContext ApplyContext ContractTables SnapshotStream.

(** A row without its ids: primary key, payer and value or secondary key. *)
Abbreviation contract_row i := (primary_key_type i * Z * data_type i)%type.

(** The serialization of tables, of sizes ([unsigned_int]) and of rows. *)
Class table_codec : Type := {
  table_row_codec :: row_codec table_id_object;
  size_codec :: row_codec Z;
  contract_row_codec i :: row_codec (contract_row i) }.

Class table_codec_ok {codec : table_codec} : Prop := {
  table_row_codec_ok :: row_codec_ok table_id_object;
  size_codec_ok :: row_codec_ok Z;
  contract_row_codec_ok i :: row_codec_ok (contract_row i) }.

Section tables.
Context {codec : table_codec}.

Definition contract_database_index_set : list table_index :=
  [key_value_index; index64_index; index128_index; index256_index; index_double_index; index_long_double_index;
   key256_value_index].

Definition contract_tables : bytes := chr <$> list_ascii_of_string "contract_tables".

(** ** Writing *)

(** [index_utils<table_id_multi_index>::walk]: in the order of the ids. *)
Definition id_le (a b : Z * table_id_object) : Prop := a.1 <= b.1.
#[local] Instance id_le_dec : RelDecision id_le := λ a b, Z_le_dec a.1 b.1.

Definition walk_tables (db : contract_db) : list (Z * table_id_object) := merge_sort id_le (map_to_list (tables db)).

Definition row_content {i} (r : index_row i) : contract_row i := (r_primary r, r_payer r, r_data r).

Definition primary_le i (a b : contract_row i) : Prop := primary_key_lt i b.1.1 a.1.1 = false.
#[local] Instance primary_le_dec i : RelDecision (primary_le i) := λ a b, decide (_ = false).

(** [walk_range] over the rows of table [t], in the order of their primary
    keys. *)
Definition walk_range (db : contract_db) (i : table_index) (t : Z) : list (contract_row i) :=
  merge_sort (primary_le i)
    (row_content <$> filter (λ r, r_t_id r = t) (map_to_list (by_id (index_rows db i))).*2).

Definition add_index (db : contract_db) (t : Z) (i : table_index) : X ostream_snapshot_writer unit :=
  add_row (u32 (zlen (walk_range db i t)));;
  xfor_each (walk_range db i t) add_row.

Definition add_contract_tables_to_snapshot (db : contract_db) : X ostream_snapshot_writer unit :=
  write_section contract_tables
    (xfor_each (walk_tables db) (λ '(t, table_row),
       add_row table_row;;
       xfor_each contract_database_index_set (add_index db t))).

(** ** Reading *)

(** [db.create<table_id_object>]. *)
Definition create_table (tab : table_id_object) (db : contract_db) : res (Z * contract_db) :=
  match find_table_id db (tb_code tab) (tb_scope tab) (tb_table tab) with
  | Some _ => Throw std_logic_error
  | None =>
      let t := next_table_id db in
      Ok (t, with_tables db (<[t := tab]> (tables db)) (t + 1))
  end.

(** [db.create] of a row of table [t]. *)
Definition create_contract_row (i : table_index) (t : Z) (x : contract_row i) (db : contract_db) : res contract_db :=
  let rs := index_rows db i in
  match find_row i rs t x.1.1 with
  | Some _ => Throw std_logic_error
  | None =>
      let o := next_row_id rs in
      Ok (put_rows db i (Rows (<[o := Row o t x.1.1 x.1.2 x.2]> (by_id rs)) (o + 1)))
  end.

Abbreviation reading := (bool * istream_snapshot_reader * contract_db)%type.

(** The loop over the rows of an index. *)
Fixpoint read_index_rows (i : table_index) (t : Z) (n : nat) (st : reading) : res reading :=
  match n with
  | O => mret st
  | S n =>
      let '(_, r, db) := st in
      '(x, more, r) ← read_row unpack_row r;
      db ← create_contract_row i t x db;
      read_index_rows i t n (more, r, db)
  end.

Definition read_index (t : Z) (i : table_index) (st : reading) : res reading :=
  let '(_, r, db) := st in
  '(size, more, r) ← read_row unpack_row r;
  read_index_rows i t (Z.to_nat size) (more, r, db).

Fixpoint read_indices (t : Z) (l : list table_index) (st : reading) : res reading :=
  match l with
  | [] => mret st
  | i :: l => st ← read_index t i st; read_indices t l st
  end.

Definition read_table (st : reading) : res reading :=
  let '(more, r, db) := st in
  '(tab, _, r) ← read_row unpack_row r;
  '(t, db) ← create_table tab db;
  read_indices t contract_database_index_set (more, r, db).

(** Every table takes a row of the section. *)
Fixpoint read_tables (fuel : nat) (st : reading) : res reading :=
  match fuel with
  | O => mret st
  | S fuel => if st.1.1 then st ← read_table st; read_tables fuel st else mret st
  end.

Definition read_contract_tables (db : contract_db) (r : istream_snapshot_reader) : res (contract_db * istream_snapshot_reader) :=
  '(_, r, db) ← read_tables (S (Z.to_nat (ir_num_rows r))) (negb (empty r), r, db);
  mret (db, r).

Definition read_contract_tables_from_snapshot (db : contract_db) (r : istream_snapshot_reader) :
    option (res (contract_db * istream_snapshot_reader)) :=
  read_section contract_tables (read_contract_tables db) r.
End tables.

(** ** The rows of the section *)

(** A table with its rows. *)
Abbreviation group := (table_id_object * (∀ i : table_index, list (contract_row i)))%type.

Section groups.
Context {codec : table_codec}.

Definition index_bytes (g : group) (i : table_index) : list bytes :=
  pack_row (zlen (g.2 i)) :: (pack_row <$> g.2 i).
Definition group_bytes (g : group) : list bytes :=
  pack_row g.1 :: mjoin (index_bytes g <$> contract_database_index_set).

Definition group_of (db : contract_db) (x : Z * table_id_object) : group := (x.2, λ i, walk_range db i x.1).
Definition groups (db : contract_db) : list group := group_of db <$> walk_tables db.

(** There are less rows than an [unsigned_int] can count. *)
Definition small_tables (db : contract_db) : Prop := ∀ i t, zlen (walk_range db i t) < 2 ^ 32.

Lemma adds_contract_tables db :
  small_tables db →
  adds (xfor_each (walk_tables db) (λ '(t, table_row), add_row table_row;; xfor_each contract_database_index_set (add_index db t)))
    (mjoin (group_bytes <$> groups db)).
Proof.
  intros Hs. unfold groups. rewrite <- list_fmap_compose. apply adds_for_each. intros [t tab].
  apply (adds_bind _ _ [pack_row tab]); [apply adds_row|]. apply adds_for_each. intros i. unfold add_index.
  rewrite wrap_id by (unfold is_unsigned; specialize (Hs i t); lia).
  apply (adds_bind _ _ [_]); [apply adds_row|].
  assert (Hl : ∀ l : list (contract_row i), adds (xfor_each l add_row) (pack_row <$> l)).
  { induction l as [|x l IH]; cbn [xfor_each]; [apply adds_nil|]. apply (adds_bind _ _ [_]); [apply adds_row|done]. }
  apply Hl.
Qed.

(** ** Putting groups into a database *)

Fixpoint create_indices (g : group) (t : Z) (l : list table_index) (db : contract_db) : res contract_db :=
  match l with
  | [] => mret db
  | i :: l => db ← create_all (create_contract_row i t) (g.2 i) db; create_indices g t l db
  end.

Definition create_group (g : group) (db : contract_db) : res contract_db :=
  '(t, db) ← create_table g.1 db; create_indices g t contract_database_index_set db.

Context {codec_ok : table_codec_ok}.

Lemma read_index_rows_at i t (l : list (contract_row i)) l' data pre more r db db' :
  create_all (create_contract_row i t) l db = Ok db' → at_rows r ((pack_row <$> l) ++ l') → on_file data pre r →
  (l = [] → more = bool_decide (l' ≠ [])) →
  ∃ r', read_index_rows i t (length l) (more, r, db) = Ok (bool_decide (l' ≠ []), r', db') ∧ at_rows r' l' ∧ on_file data pre r'.
Proof.
  revert more r db. induction l as [|x l IH]; intros more r db Hc Hr Hf Hm; cbn [create_all read_index_rows length fmap list_fmap app] in *.
  { injection Hc as <-. exists r. by rewrite Hm. }
  destruct (read_row_at pack_row unpack_row x _ r (unpack_pack_row x) Hr) as (r1 & Hrow & Hr1 & _).
  rewrite Hrow. cbn [mbind result_bind]. destruct (create_contract_row i t x db) as [db1|] eqn:Hcr; cbn [mbind result_bind] in *; [|done].
  apply IH; [done|done|by eapply read_row_on_file|]. by intros ->.
Qed.

Lemma read_indices_at g t l l' data pre more r db db' :
  create_indices g t l db = Ok db' → at_rows r (mjoin (index_bytes g <$> l) ++ l') → on_file data pre r →
  (l = [] → more = bool_decide (l' ≠ [])) →
  ∃ r', read_indices t l (more, r, db) = Ok (bool_decide (l' ≠ []), r', db') ∧ at_rows r' l' ∧ on_file data pre r'.
Proof.
  revert more r db. induction l as [|i l IH]; intros more r db Hc Hr Hf Hm; cbn [create_indices read_indices fmap list_fmap] in *.
  { injection Hc as <-. exists r. by rewrite Hm. }
  change (mjoin (?a :: ?b)) with (a ++ mjoin b) in Hr. unfold index_bytes at 1 in Hr. cbn [app] in Hr. rewrite <- app_assoc in Hr.
  destruct (read_row_at pack_row unpack_row (zlen (g.2 i)) _ r (unpack_pack_row _) Hr) as (r1 & Hrow & Hr1 & _).
  unfold read_index. rewrite Hrow. cbn [mbind result_bind]. rewrite Nat2Z.id.
  destruct (create_all _ (g.2 i) db) as [db1|] eqn:Hca; cbn [mbind result_bind] in Hc; [|done].
  destruct (read_index_rows_at i t _ _ data pre (bool_decide ((pack_row <$> g.2 i) ++ mjoin (index_bytes g <$> l) ++ l' ≠ [])) _ _ _ Hca Hr1)
    as (r2 & -> & Hr2 & Hf2); [by eapply read_row_on_file|by intros ->|].
  cbn [mbind result_bind]. apply IH; [done|done|done|]. by intros ->.
Qed.

Lemma read_tables_at gs fuel data pre r db db' :
  create_all create_group gs db = Ok db' → at_rows r (mjoin (group_bytes <$> gs)) → on_file data pre r → (length gs < fuel)%nat →
  ∃ r', read_tables fuel (bool_decide (gs ≠ []), r, db) = Ok (false, r', db') ∧ on_file data pre r'.
Proof.
  revert fuel r db. induction gs as [|g gs IH]; intros [|fuel] r db Hc Hr Hf Hl; cbn [length] in Hl; try lia; cbn [create_all] in Hc.
  { injection Hc as <-. by exists r. }
  cbn [read_tables fst]. change (bool_decide (g :: gs ≠ [])) with true. cbv iota. cbn [fmap list_fmap] in Hr.
  change (mjoin (?a :: ?b)) with (a ++ mjoin b) in Hr. unfold group_bytes at 1 in Hr. cbn [app] in Hr.
  destruct (read_row_at pack_row unpack_row g.1 _ r (unpack_pack_row _) Hr) as (r1 & Hrow & Hr1 & _).
  unfold read_table. rewrite Hrow. cbn [mbind result_bind]. unfold create_group in Hc.
  destruct (create_table g.1 db) as [[t db1]|]; cbn [mbind result_bind] in Hc |- *; [|done].
  destruct (create_indices g t contract_database_index_set db1) as [db2|] eqn:Hci; cbn [mbind result_bind] in Hc; [|done].
  destruct (read_indices_at g t _ _ data pre true _ _ _ Hci Hr1) as (r2 & -> & Hr2 & Hf2); [by eapply read_row_on_file|done|].
  cbn [mbind result_bind].
  replace (bool_decide (mjoin (group_bytes <$> gs) ≠ [])) with (bool_decide (gs ≠ [])) by (by destruct gs).
  apply IH; [done|done|done|lia].
Qed.
End groups.

(** ** What a restored database holds *)

Definition make_row {i} (o : nat) (x : Z * contract_row i) : index_row i :=
  Row (Z.of_nat o) x.1 x.2.1.1 x.2.1.2 x.2.2.
Definition listed {i} (l : list (Z * contract_row i)) : index_rows_type i := Rows (map_seqZ 0 (imap make_row l)) (zlen l).

(** The tables [ts] and the rows [fl], with ids from zero on. *)
Record filled (db : contract_db) (ts : list table_id_object) (fl : ∀ i, list (Z * contract_row i)) : Prop := {
  fi_tables : tables db = map_seqZ 0 ts;
  fi_next : next_table_id db = zlen ts;
  fi_rows i : index_rows db i = listed (fl i) }.

(** All rows of an index, each with the number of its table. *)
Definition flat (gs : list group) (i : table_index) : list (Z * contract_row i) :=
  mjoin (imap (λ k g, pair (Z.of_nat k) <$> g.2 i) gs).

Lemma flat_snoc gs g i : flat (gs ++ [g]) i = flat gs i ++ (pair (zlen gs) <$> g.2 i).
Proof. unfold flat. rewrite imap_app, join_app. cbn. by rewrite app_nil_r, Nat.add_0_r. Qed.

Lemma elem_of_flat gs i k x : (k, x) ∈ flat gs i ↔ ∃ g, 0 <= k ∧ gs !! Z.to_nat k = Some g ∧ x ∈ g.2 i.
Proof.
  unfold flat. rewrite list_elem_of_join. split.
  - intros (l & Hx & Hl). apply elem_of_lookup_imap_1 in Hl as (n & g & -> & Hg).
    apply list_elem_of_fmap in Hx as (y & [= -> ->] & Hy). exists g. rewrite Nat2Z.id. split_and!; [lia|done|done].
  - intros (g & Hk & Hg & Hx). exists (pair k <$> g.2 i). split; [by apply (list_elem_of_fmap_2 (pair k))|].
    apply (elem_of_lookup_imap_2 (λ k g, pair (Z.of_nat k) <$> g.2 i)) in Hg. by rewrite Z2Nat.id in Hg.
Qed.

Lemma lookup_listed i (l : list (Z * contract_row i)) o r :
  by_id (listed l) !! o = Some r ↔ 0 <= o ∧ ∃ x, l !! Z.to_nat o = Some x ∧ r = Row o x.1 x.2.1.1 x.2.1.2 x.2.2.
Proof.
  cbn [by_id listed]. rewrite lookup_map_seqZ_Some, list_lookup_imap_Some. rewrite Z.sub_0_r.
  split; intros (Ho & x & Hx & ->); (split; [done|]); exists x; (split; [done|]); unfold make_row; by rewrite Z2Nat.id.
Qed.

Lemma create_table_filled db ts fl tab :
  filled db ts fl → tb_key tab ∉ tb_key <$> ts →
  ∃ db', create_table tab db = Ok (zlen ts, db') ∧ filled db' (ts ++ [tab]) fl.
Proof.
  intros [Ht Hn Hr] Hk. unfold create_table.
  destruct (find_table_id db _ _ _) as [t|] eqn:Hf.
  { exfalso. apply find_table_id_Some in Hf as (tab' & Hl & He). rewrite Ht, lookup_map_seqZ_Some in Hl. destruct Hl as [_ Hl].
    apply Hk. change (tb_key tab) with (tb_code tab, tb_scope tab, tb_table tab). rewrite <- He. by eapply list_elem_of_fmap_2, list_elem_of_lookup_2. }
  rewrite Hn. eexists. split; [done|]. constructor; cbn [tables next_table_id index_rows with_tables]; [|rewrite length_app; cbn; lia|done].
  rewrite Ht, map_seqZ_snoc. f_equal.
Qed.

Lemma create_row_filled db ts fl i t x fl' :
  filled db ts fl → (t, x.1.1) ∉ (λ y : Z * contract_row i, (y.1, y.2.1.1)) <$> fl i →
  fl' i = fl i ++ [(t, x)] → (∀ j, i ≠ j → fl' j = fl j) →
  ∃ db', create_contract_row i t x db = Ok db' ∧ filled db' ts fl'.
Proof.
  intros [Ht Hn Hr] Hk Hi Hj. unfold create_contract_row.
  destruct (find_row i (index_rows db i) t x.1.1) as [r|] eqn:Hf.
  { exfalso. apply find_row_Some in Hf as (o & Hl & He). rewrite Hr in Hl. apply lookup_listed in Hl as (_ & y & Hy & ->).
    apply Hk. unfold primary_of in He. cbn in He. rewrite <- He. apply (list_elem_of_fmap_2 (λ y : Z * contract_row i, (y.1, y.2.1.1))).
    by eapply list_elem_of_lookup_2. }
  eexists. split; [done|]. constructor; [done|done|]. intros j. destruct (decide (i = j)) as [<-|Hne].
  - rewrite index_rows_put_eq, Hr, Hi. unfold listed. cbn [by_id next_row_id].
    rewrite imap_app, length_app. cbn [imap length]. rewrite map_seqZ_snoc, length_imap. f_equal; [|lia].
    unfold make_row. cbn [fst snd]. rewrite Nat.add_0_r. done.
  - rewrite index_rows_put_ne by done. by rewrite Hr, Hj.
Qed.

Lemma create_rows_filled i t l db ts fl fl' :
  filled db ts fl → NoDup ((λ x : contract_row i, x.1.1) <$> l) →
  (∀ x, x ∈ l → (t, x.1.1) ∉ (λ y : Z * contract_row i, (y.1, y.2.1.1)) <$> fl i) →
  fl' i = fl i ++ (pair t <$> l) → (∀ j, i ≠ j → fl' j = fl j) →
  ∃ db', create_all (create_contract_row i t) l db = Ok db' ∧ filled db' ts fl'.
Proof.
  revert db fl. induction l as [|x l IH]; intros db fl Hf Hnd Hk Hi Hj; cbn [create_all].
  { exists db. split; [done|]. destruct Hf as [Ht Hn Hr]. constructor; [done|done|]. intros j. rewrite Hr.
    destruct (decide (i = j)) as [<-|]; [by rewrite Hi, app_nil_r|by rewrite Hj]. }
  set (fl1 := λ j, match decide (i = j) with
    | left e => eq_rect i (λ j, list (Z * contract_row j)) (fl i ++ [(t, x)]) j e
    | right _ => fl j end).
  assert (H1 : fl1 i = fl i ++ [(t, x)]) by (unfold fl1; by destruct i).
  assert (H2 : ∀ j, i ≠ j → fl1 j = fl j) by (intros j Hne; unfold fl1; by destruct (decide (i = j))).
  cbn [fmap list_fmap] in Hnd. apply NoDup_cons in Hnd as [Hx Hnd].
  destruct (create_row_filled db ts fl i t x fl1) as (db1 & -> & Hf1); [done|by apply Hk, list_elem_of_here|done|done|].
  cbn [mbind result_bind]. eapply IH; [exact Hf1|done| |rewrite H1, <- app_assoc; done|intros j Hne; by rewrite Hj, H2].
  intros y Hy. rewrite H1, fmap_app, elem_of_app. intros [Hin|Hin].
  - by apply (Hk y); [by apply list_elem_of_further|].
  - apply list_elem_of_singleton in Hin. injection Hin as He. apply Hx. rewrite <- He. by apply (list_elem_of_fmap_2 (λ x : contract_row i, x.1.1)).
Qed.

Lemma create_indices_filled g t l db ts fl fl' :
  filled db ts fl → NoDup l → (∀ i, NoDup ((λ x : contract_row i, x.1.1) <$> g.2 i)) →
  (∀ i p, i ∈ l → (t, p) ∉ (λ y : Z * contract_row i, (y.1, y.2.1.1)) <$> fl i) →
  (∀ i, fl' i = if decide (i ∈ l) then fl i ++ (pair t <$> g.2 i) else fl i) →
  ∃ db', create_indices g t l db = Ok db' ∧ filled db' ts fl'.
Proof.
  revert db fl. induction l as [|i l IH]; intros db fl Hf Hl Hnd Hk Hfl; cbn [create_indices].
  { exists db. split; [done|]. destruct Hf as [Ht Hn Hr]. constructor; [done|done|]. intros j. by rewrite Hr, Hfl. }
  apply NoDup_cons in Hl as [Hi Hl].
  destruct (create_rows_filled i t (g.2 i) db ts fl (λ j, if decide (i = j) then fl j ++ (pair t <$> g.2 j) else fl j))
    as (db1 & -> & Hf1).
  1,2: done. 1: intros x _; apply Hk, list_elem_of_here. 1: by rewrite decide_True. 1: intros j Hj; by rewrite decide_False.
  cbn [mbind result_bind]. apply (IH db1 _ Hf1 Hl Hnd); clear IH.
  - intros j p Hj. rewrite decide_False by (by intros ->). by apply Hk, list_elem_of_further.
  - intros j. rewrite Hfl. destruct (decide (i = j)) as [<-|Hne].
    + rewrite (decide_False (P := i ∈ l)) by done. by rewrite decide_True by apply list_elem_of_here.
    + destruct (decide (j ∈ l)) as [Hin|Hin].
      * by rewrite decide_True by by apply list_elem_of_further.
      * rewrite decide_False; [done|]. by intros [->|?]%elem_of_cons.
Qed.

(** Tables with distinct keys, whose rows have distinct keys and which count
    them. *)
Record groups_ok (gs : list group) : Prop := {
  go_keys : NoDup ((λ g : group, tb_key g.1) <$> gs);
  go_rows g i : g ∈ gs → NoDup ((λ x : contract_row i, x.1.1) <$> g.2 i);
  go_count g : g ∈ gs → tb_count g.1 = sum_indices (λ i, zlen (g.2 i)) ∧ 0 < tb_count g.1;
  go_size g i x : g ∈ gs → x ∈ g.2 i → value_size i x.2 < 2 ^ 32 }.

Lemma create_groups_filled gs2 gs1 db :
  filled db gs1.*1 (flat gs1) → groups_ok (gs1 ++ gs2) →
  ∃ db', create_all create_group gs2 db = Ok db' ∧ filled db' (gs1 ++ gs2).*1 (flat (gs1 ++ gs2)).
Proof.
  revert gs1 db. induction gs2 as [|g gs2 IH]; intros gs1 db Hf Hok; cbn [create_all].
  { exists db. by rewrite app_nil_r. }
  pose proof (go_keys _ Hok) as Hkeys. rewrite fmap_app in Hkeys. cbn [fmap list_fmap] in Hkeys.
  apply NoDup_app in Hkeys as (_ & Hkeys & _).
  destruct (create_table_filled db gs1.*1 (flat gs1) g.1 Hf) as (db1 & Hc & Hf1).
  { rewrite <- list_fmap_compose. intros Hin. eapply Hkeys; [exact Hin|apply list_elem_of_here]. }
  rewrite length_fmap in Hc.
  destruct (create_indices_filled g (zlen gs1) contract_database_index_set db1 _ _ (flat (gs1 ++ [g])) Hf1) as (db2 & Hci & Hf2).
  - apply (bool_decide_unpack _). by vm_compute.
  - intros i. apply (go_rows _ Hok). apply elem_of_app. right. apply list_elem_of_here.
  - intros i p _ Hin. apply list_elem_of_fmap in Hin as ([k x] & [= <- ->] & Hx). apply elem_of_flat in Hx as (g' & _ & Hg & _).
    rewrite Nat2Z.id in Hg. apply lookup_lt_Some in Hg. lia.
  - intros i. rewrite flat_snoc, decide_True; [done|]. unfold contract_database_index_set. destruct i; rewrite !elem_of_cons; tauto.
  - assert (Hg : create_group g db = Ok db2) by (unfold create_group; by rewrite Hc).
    rewrite Hg. cbn [mbind result_bind]. rewrite cons_middle, app_assoc. apply IH; [by rewrite fmap_app|]. by rewrite <- app_assoc.
Qed.

(** ** Counting *)

Lemma rows_in_length i (rs : index_rows_type i) t :
  rows_in rs t = zlen (filter (λ r, r_t_id r = t) (map_to_list (by_id rs)).*2).
Proof.
  unfold rows_in, map_sum. rewrite map_fold_foldr. induction (map_to_list (by_id rs)) as [|[o r] l IH]; [done|].
  cbn [foldr fmap list_fmap snd uncurry]. rewrite IH. rewrite filter_cons. destruct (decide (r_t_id r = t)) as [He|Hne].
  - rewrite (proj2 (Z.eqb_eq _ _) He). cbn [length]. lia.
  - rewrite (proj2 (Z.eqb_neq _ _) Hne). lia.
Qed.

Lemma walk_range_length db i t : zlen (walk_range db i t) = rows_in (index_rows db i) t.
Proof. unfold walk_range. by rewrite rows_in_length, merge_sort_Permutation, length_fmap. Qed.

Lemma rows_in_listed i (l : list (Z * contract_row i)) t : rows_in (listed l) t = zlen (filter (λ x, x.1 = t) l).
Proof.
  unfold rows_in. cbn [by_id listed]. induction l as [|x l IH] using rev_ind; [done|].
  rewrite imap_app. cbn [imap]. rewrite map_seqZ_snoc, map_sum_insert_fresh by apply map_seqZ_snoc_disjoint.
  rewrite IH, filter_app, length_app. cbn [make_row compose r_t_id]. rewrite filter_cons, filter_nil.
  destruct (decide (x.1 = t)) as [He|Hne].
  - rewrite (proj2 (Z.eqb_eq _ _) He). cbn [length]. lia.
  - rewrite (proj2 (Z.eqb_neq _ _) Hne). cbn [length]. lia.
Qed.

Lemma flat_count gs i t g :
  0 <= t → gs !! Z.to_nat t = Some g → zlen (filter (λ x, x.1 = t) (flat gs i)) = zlen (g.2 i).
Proof.
  intros Ht. induction gs as [|g' gs IH] using rev_ind; [done|]. rewrite flat_snoc, filter_app, length_app.
  assert (Hall : ∀ k l, filter (λ x : Z * contract_row i, x.1 = t) (pair k <$> l) = if decide (k = t) then pair k <$> l else []).
  { intros k l. induction l as [|x l IHl]; cbn [fmap list_fmap]; [by destruct (decide _)|]. rewrite filter_cons, IHl. cbn [fst].
    by destruct (decide (k = t)). }
  rewrite Hall. intros [Hg|[Hlen Hg]]%lookup_app_Some.
  - rewrite decide_False; [|apply lookup_lt_Some in Hg; lia]. rewrite (Nat2Z.inj_add _ 0). cbn [length]. rewrite IH by done. lia.
  - destruct (Z.to_nat t - length gs)%nat as [|n] eqn:Hn; [|done]. injection Hg as ->.
    rewrite decide_True by lia. rewrite length_fmap.
    enough (filter (λ x, x.1 = t) (flat gs i) = []) as -> by done. apply elem_of_nil_inv.
    intros [k x] [He Hx]%list_elem_of_filter. cbn in He. subst k. apply elem_of_flat in Hx as (g' & _ & Hg' & _). apply lookup_lt_Some in Hg'. lia.
Qed.

Lemma flat_keys gs i :
  (∀ g, g ∈ gs → NoDup ((λ x : contract_row i, x.1.1) <$> g.2 i)) →
  NoDup ((λ y : Z * contract_row i, (y.1, y.2.1.1)) <$> flat gs i).
Proof.
  induction gs as [|g gs IH] using rev_ind; intros Hnd; [constructor|]. rewrite flat_snoc, fmap_app, NoDup_app. split_and!.
  - apply IH. intros g' Hg'. apply Hnd, elem_of_app. by left.
  - intros [k p] Hk Hg. apply list_elem_of_fmap in Hk as ([k' x] & [= -> ->] & Hx). apply elem_of_flat in Hx as (g' & _ & Hg' & _).
    apply list_elem_of_fmap in Hg as ([k x'] & [= -> _] & Hg). apply list_elem_of_fmap in Hg as (? & [= -> _] & _).
    apply lookup_lt_Some in Hg'. lia.
  - rewrite <- list_fmap_compose. assert (Hg : NoDup ((λ x : contract_row i, x.1.1) <$> g.2 i)).
    { apply Hnd, elem_of_app. right. apply list_elem_of_here. }
    apply (NoDup_fmap_2 (pair (zlen gs))) in Hg. by rewrite <- list_fmap_compose in Hg.
Qed.

(** ** Well-formed databases *)

Lemma groups_of_wf db : tables_wf None db → groups_ok (groups db).
Proof.
  intros Hwf.
  assert (Hin : ∀ g, g ∈ groups db → ∃ t tab, tables db !! t = Some tab ∧ g = group_of db (t, tab)).
  { intros g. unfold groups, walk_tables. rewrite merge_sort_Permutation. intros ([t tab] & -> & Hx)%list_elem_of_fmap.
    apply elem_of_map_to_list in Hx. eauto. }
  assert (Hr : ∀ i t x, x ∈ walk_range db i t ↔ ∃ o r, by_id (index_rows db i) !! o = Some r ∧ r_t_id r = t ∧ x = row_content r).
  { intros i t x. unfold walk_range. rewrite merge_sort_Permutation, list_elem_of_fmap. setoid_rewrite list_elem_of_filter.
    setoid_rewrite list_elem_of_fmap. split.
    - intros (r & -> & Ht & [o r'] & -> & Ho%elem_of_map_to_list). exists o, r'. done.
    - intros (o & r & Ho & Ht & ->). exists r. split_and!; [done|done|]. exists (o, r). by rewrite elem_of_map_to_list. }
  constructor.
  - unfold groups. rewrite <- list_fmap_compose. unfold walk_tables. rewrite merge_sort_Permutation.
    apply NoDup_fmap_2_strong; [|apply NoDup_map_to_list].
    intros [t tab] [t' tab'] Ht%elem_of_map_to_list Ht'%elem_of_map_to_list He. cbn in He.
    assert (t = t') as <- by by apply (tw_keys _ _ Hwf t t' tab tab'). congruence.
  - intros g i (t & tab & Ht & ->)%Hin. cbn [group_of snd]. unfold walk_range. rewrite merge_sort_Permutation, <- list_fmap_compose.
    assert (Hnd : ∀ l : list (Z * index_row i), NoDup l.*1 → (∀ x, x ∈ l → by_id (index_rows db i) !! x.1 = Some x.2) →
      NoDup (((λ x : contract_row i, x.1.1) ∘ row_content) <$> filter (λ r, r_t_id r = t) l.*2)).
    { induction l as [|[o r] l IH]; intros Hn Hl; [constructor|]. cbn [fmap list_fmap fst] in Hn. apply NoDup_cons in Hn as [Ho Hn].
      cbn [fmap list_fmap snd]. rewrite filter_cons.
      assert (IH' := IH Hn ltac:(intros x Hx; apply Hl; by apply list_elem_of_further)).
      destruct (decide (r_t_id r = t)) as [He|]; [|done]. cbn [fmap list_fmap]. constructor; [|done].
      intros (r' & Hp & [Ht' Hr']%list_elem_of_filter)%list_elem_of_fmap. apply list_elem_of_fmap in Hr' as ([o' r''] & -> & Hx).
      pose proof (Hl _ (list_elem_of_here _ _)) as H1. pose proof (Hl _ (list_elem_of_further _ _ _ Hx)) as H2. cbn in H1, H2, Hp, Ht'.
      assert (o = o') as <-. { apply (tw_unique _ _ Hwf i o o' r r'' H1 H2). unfold primary_of. by rewrite He, Ht', Hp. }
      apply Ho. by apply (list_elem_of_fmap_2 fst) in Hx. }
    apply Hnd; [apply NoDup_fst_map_to_list|]. intros [o r] Hx. by apply elem_of_map_to_list in Hx.
  - intros g (t & tab & Ht & ->)%Hin. cbn [group_of fst snd]. destruct (tw_tables _ _ Hwf t tab Ht) as (_ & Hc & Hp). split; [|by apply Hp].
    rewrite Hc. apply sum_indices_ext. intros i. by rewrite walk_range_length.
  - intros g i x (t & tab & Ht & ->)%Hin. cbn [group_of snd]. intros (o & r & Ho & _ & ->)%Hr. by apply (tw_rows _ _ Hwf i o r Ho).
Qed.

Lemma filled_wf db gs : filled db gs.*1 (flat gs) → groups_ok gs → tables_wf None db.
Proof.
  intros [Ht Hn Hr] Hok.
  assert (Htab : ∀ t tab, tables db !! t = Some tab ↔ 0 <= t ∧ ∃ g, gs !! Z.to_nat t = Some g ∧ g.1 = tab).
  { intros t tab. rewrite Ht, lookup_map_seqZ_Some, Z.sub_0_r, list_lookup_fmap_Some. naive_solver. }
  constructor.
  - intros t tab Hl. pose proof Hl as (Hp & g & Hg & <-)%Htab. pose proof (lookup_lt_Some _ _ _ Hg) as Hlt.
    destruct (go_count _ Hok g) as [Hc Hpos]; [by eapply list_elem_of_lookup_2|].
    split; [rewrite Hn, length_fmap; lia|]. split; [|done]. rewrite Hc. apply sum_indices_ext. intros i.
    rewrite Hr, rows_in_listed. by rewrite (flat_count gs i t g).
  - intros t t' tab tab' (Hp & g & Hg & <-)%Htab (Hp' & g' & Hg' & <-)%Htab Hk.
    enough (Z.to_nat t = Z.to_nat t') by lia. eapply (NoDup_lookup _ _ _ _ (go_keys _ Hok)); rewrite list_lookup_fmap; [by rewrite Hg|].
    rewrite Hg'. cbn. by rewrite Hk.
  - intros i o r Ho. rewrite Hr in Ho |- *. apply lookup_listed in Ho as (Hp & [k x] & Hx & ->). cbn [r_id r_t_id r_data fst snd].
    pose proof (lookup_lt_Some _ _ _ Hx) as Hlt. apply list_elem_of_lookup_2, elem_of_flat in Hx as (g & Hk & Hg & Hx).
    split_and!; [done|done|cbn; lia| |].
    + exists g.1. apply Htab. eauto.
    + eapply go_size; [done|by eapply list_elem_of_lookup_2|done].
  - intros i o o' r r' Ho Ho' Hp. rewrite Hr in Ho, Ho'. apply lookup_listed in Ho as (Hp1 & x & Hx & ->), Ho' as (Hp2 & x' & Hx' & ->).
    enough (Z.to_nat o = Z.to_nat o') by lia. eapply (NoDup_lookup _ _ _ _ (flat_keys gs i (λ g, go_rows _ Hok g i)));
      rewrite list_lookup_fmap; [by rewrite Hx|]. rewrite Hx'. unfold primary_of in Hp. cbn in Hp |- *. by rewrite Hp.
  - split; [lia|]. intros i. rewrite Hr. cbn. lia.
Qed.

(** ** What contracts see *)

Definition table_at (db : contract_db) (code scope table : Z) : option table_id_object :=
  t ← find_table_id db code scope table; tables db !! t.

Definition row_at (db : contract_db) (code scope table : Z) (i : table_index) (p : primary_key_type i) : option (Z * data_type i) :=
  t ← find_table_id db code scope table;
  (λ r, (r_payer r, r_data r)) <$> find_row i (index_rows db i) t p.

(** The same tables and rows, whatever their ids. *)
Definition same_tables (db db' : contract_db) : Prop :=
  ∀ code scope table, table_at db' code scope table = table_at db code scope table ∧
    ∀ i p, row_at db' code scope table i p = row_at db code scope table i p.

Lemma find_table_id_iff db code scope table t :
  tables_wf None db →
  find_table_id db code scope table = Some t ↔ ∃ tab, tables db !! t = Some tab ∧ tb_key tab = (code, scope, table).
Proof.
  intros Hwf. split; [apply find_table_id_Some|]. intros (tab & Ht & Hk).
  destruct (find_table_id db code scope table) as [t'|] eqn:Hf; [|by destruct (find_table_id_None _ _ _ _ _ _ Hf Ht)].
  apply find_table_id_Some in Hf as (tab' & Ht' & Hk'). f_equal. eapply tw_keys; eauto. by rewrite Hk.
Qed.

Lemma find_row_iff db i t p r :
  tables_wf None db →
  find_row i (index_rows db i) t p = Some r ↔ ∃ o, by_id (index_rows db i) !! o = Some r ∧ primary_of i r = (t, p).
Proof.
  intros Hwf. split; [apply find_row_Some|]. intros (o & Ho & Hp).
  destruct (find_row i (index_rows db i) t p) as [r'|] eqn:Hf; [|by destruct (find_row_None _ _ _ _ _ _ Hf Ho)].
  apply find_row_Some in Hf as (o' & Ho' & Hp'). assert (o' = o) as -> by (eapply tw_unique; eauto; by rewrite Hp). congruence.
Qed.

(** The tables and rows of a database, by their groups. *)
Definition represents (gs : list group) (db : contract_db) : Prop :=
  (∀ tab, (∃ t, tables db !! t = Some tab) ↔ ∃ g, g ∈ gs ∧ g.1 = tab) ∧
  ∀ i tab x, (∃ t o r, tables db !! t = Some tab ∧ by_id (index_rows db i) !! o = Some r ∧ r_t_id r = t ∧ row_content r = x) ↔
    ∃ g, g ∈ gs ∧ g.1 = tab ∧ x ∈ g.2 i.

Lemma groups_represent db : represents (groups db) db.
Proof.
  unfold groups, walk_tables. split.
  - intros tab. split.
    + intros [t Ht]. exists (group_of db (t, tab)). split; [|done]. apply (list_elem_of_fmap_2 (group_of db)).
      by rewrite merge_sort_Permutation, elem_of_map_to_list.
    + intros (g & Hg & <-). apply list_elem_of_fmap in Hg as ([t tab] & -> & Ht). rewrite merge_sort_Permutation, elem_of_map_to_list in Ht. by exists t.
  - intros i tab x. split.
    + intros (t & o & r & Ht & Ho & Hr & Hx). exists (group_of db (t, tab)). split_and!; [|done|].
      { apply (list_elem_of_fmap_2 (group_of db)). by rewrite merge_sort_Permutation, elem_of_map_to_list. }
      cbn [group_of snd]. unfold walk_range. rewrite merge_sort_Permutation. apply list_elem_of_fmap. exists r. split; [done|].
      apply list_elem_of_filter. split; [done|]. apply list_elem_of_fmap. exists (o, r). by rewrite elem_of_map_to_list.
    + intros (g & Hg & <- & Hx). apply list_elem_of_fmap in Hg as ([t tab] & -> & Ht). rewrite merge_sort_Permutation, elem_of_map_to_list in Ht.
      cbn [group_of snd fst] in Hx |- *. unfold walk_range in Hx. rewrite merge_sort_Permutation in Hx.
      apply list_elem_of_fmap in Hx as (r & -> & [Hr Hx]%list_elem_of_filter). apply list_elem_of_fmap in Hx as ([o r'] & -> & Ho%elem_of_map_to_list).
      by exists t, o, r'.
Qed.

Lemma filled_represents db gs : filled db gs.*1 (flat gs) → represents gs db.
Proof.
  intros [Ht Hn Hr].
  assert (Htab : ∀ t tab, tables db !! t = Some tab ↔ 0 <= t ∧ ∃ g, gs !! Z.to_nat t = Some g ∧ g.1 = tab).
  { intros t tab. rewrite Ht, lookup_map_seqZ_Some, Z.sub_0_r, list_lookup_fmap_Some. naive_solver. }
  split.
  - intros tab. setoid_rewrite Htab. split.
    + intros (t & _ & g & Hg & Hk). exists g. split; [by eapply list_elem_of_lookup_2|done].
    + intros (g & [n Hg]%list_elem_of_lookup_1 & Hk). exists (Z.of_nat n). split; [lia|]. exists g. by rewrite Nat2Z.id.
  - intros i tab x. setoid_rewrite Htab. setoid_rewrite Hr. setoid_rewrite lookup_listed. split.
    + intros (t & o & r & (Hp & g & Hg & Hk) & (_ & [k y] & Hy & ->) & Hrt & Hc). cbn in Hrt. subst k.
      apply list_elem_of_lookup_2, elem_of_flat in Hy as (g' & _ & Hg' & Hy). assert (g' = g) as -> by congruence.
      exists g. split_and!; [by eapply list_elem_of_lookup_2|done|]. unfold row_content in Hc. cbn in Hc. destruct y as [[? ?] ?]. by rewrite <- Hc.
    + intros (g & [n Hg]%list_elem_of_lookup_1 & Hk & Hx).
      assert (Hf : (Z.of_nat n, x) ∈ flat gs i). { apply elem_of_flat. exists g. rewrite Nat2Z.id. split_and!; [lia|done|done]. }
      apply list_elem_of_lookup_1 in Hf as [o Ho]. exists (Z.of_nat n), (Z.of_nat o), (Row (Z.of_nat o) (Z.of_nat n) x.1.1 x.1.2 x.2).
      split_and!; [lia| |lia| |done|].
      * exists g. by rewrite Nat2Z.id.
      * exists (Z.of_nat n, x). by rewrite Nat2Z.id.
      * unfold row_content. cbn. by destruct x as [[? ?] ?].
Qed.

Lemma represents_same gs db db' :
  tables_wf None db → tables_wf None db' → represents gs db → represents gs db' → same_tables db db'.
Proof.
  intros Hwf Hwf' [Ht Hr] [Ht' Hr'] code scope table. split.
  - apply option_eq. intros tab. unfold table_at. rewrite !bind_Some. setoid_rewrite find_table_id_iff; [|done..].
    assert (Hx : ∀ d : contract_db, (∃ t, (∃ tab', tables d !! t = Some tab' ∧ tb_key tab' = (code, scope, table)) ∧ tables d !! t = Some tab) ↔
      (∃ t, tables d !! t = Some tab) ∧ tb_key tab = (code, scope, table)) by naive_solver.
    rewrite !Hx, Ht, Ht'. done.
  - intros i p. apply option_eq. intros [payer d]. unfold row_at. rewrite !bind_Some.
    assert (Hx : ∀ e : contract_db, tables_wf None e →
      (∃ t, find_table_id e code scope table = Some t ∧ (λ r, (r_payer r, r_data r)) <$> find_row i (index_rows e i) t p = Some (payer, d)) ↔
      ∃ tab, tb_key tab = (code, scope, table) ∧
        ∃ t o r, tables e !! t = Some tab ∧ by_id (index_rows e i) !! o = Some r ∧ r_t_id r = t ∧ row_content r = (p, payer, d)).
    { intros e He. setoid_rewrite find_table_id_iff; [|done]. setoid_rewrite fmap_Some. setoid_rewrite find_row_iff; [|done].
      unfold primary_of, row_content. split.
      - intros (t & (tab & Htab & Hk) & r & (o & Ho & [= Hrt Hrp]) & [= -> ->]). exists tab. split; [done|]. exists t, o, r. by rewrite Hrp.
      - intros (tab & Hk & t & o & r & Htab & Ho & Hrt & [= Hrp Hpay Hd]). exists t. split; [eauto|]. exists r. split; [|by rewrite Hpay, Hd].
        exists o. by rewrite Hrt, Hrp. }
    rewrite !Hx by done. setoid_rewrite Hr. setoid_rewrite Hr'. done.
Qed.

(** ** The section *)

Section section_of_tables.
Context {codec : table_codec} {codec_ok : table_codec_ok}.

(** Writing the tables into a section, and reading the section into an empty
    database. *)
Lemma contract_tables_written db pre w secs :
  small_tables db → snapshot_history pre w secs None →
  ∃ w', add_contract_tables_to_snapshot db w = Some (Ok tt, w') ∧
    snapshot_history pre w' (secs ++ [(contract_tables, mjoin (group_bytes <$> groups db))]) None.
Proof. intros Hs Hh. unfold add_contract_tables_to_snapshot. by eapply write_section_adds; [apply adds_contract_tables|]. Qed.

Lemma contract_tables_read db pre secs tail :
  tables_wf None db → Forall section_ok secs →
  find_section contract_tables secs = Some (mjoin (group_bytes <$> groups db)) →
  ∃ db', tables_wf None db' ∧ same_tables db db' ∧
    ∀ r, on_file (snapshot_file pre secs tail) pre r →
      ∃ r', read_contract_tables_from_snapshot contract_db_empty r = Some (Ok (db', r')) ∧
        on_file (snapshot_file pre secs tail) pre r'.
Proof.
  intros Hwf Hok Hs. pose proof (groups_of_wf db Hwf) as Hg.
  destruct (create_groups_filled (groups db) [] contract_db_empty) as (db' & Hc & Hf); [done|done|]. cbn [app] in Hf.
  exists db'. split_and!.
  { by eapply filled_wf. }
  { eapply represents_same; [done|by eapply filled_wf|apply groups_represent|by apply filled_represents]. }
  intros r Hr. destruct (read_section_file pre secs tail contract_tables (mjoin (group_bytes <$> groups db)) (read_contract_tables contract_db_empty) db' r) as (r' & Hread & Hr').
  { apply (bool_decide_unpack _). by vm_compute. }
  1-3: done.
  { intros r1 Hat H0 Hf1. unfold read_contract_tables.
    assert (He : negb (empty r1) = bool_decide (groups db ≠ [])).
    { destruct Hat as (_ & _ & _ & Hn & _). unfold empty. destruct (groups db) as [|g gs]; cbn in Hn |- *; lia. }
    assert (Hlen : zlen (groups db) <= ir_num_rows r1).
    { destruct Hat as (_ & _ & _ & Hn & _). rewrite H0, Z.sub_0_r in Hn. rewrite Hn. clear.
      induction (groups db) as [|g gs IH]; [done|]. cbn [fmap list_fmap]. change (mjoin (?a :: ?b)) with (a ++ mjoin b).
      rewrite length_app. unfold group_bytes at 1. cbn [length]. lia. }
    rewrite He. destruct (read_tables_at (groups db) (S (Z.to_nat (ir_num_rows r1))) _ _ r1 _ _ Hc Hat Hf1 ltac:(lia)) as (r2 & -> & Hf2).
    cbn [mbind result_bind]. by exists r2. }
  by exists r'.
Qed.
End section_of_tables.
