(* ===== verification/PermissionSnapshot.v ===== *)
(** * Snapshots of permissions (authorization_manager.cpp)

    A permission is written with the name of its parent and the time of its last
    use, in the order of the ids; reading creates the permissions anew and finds
    the parents by owner and name.  The lemmas show that the tree that is read
    is the one that was written, with new ids. *)

From S2P Require Import Prelude Exceptions Config Merkle Authority Database Transaction AuthorizationManager ErrorState SnapshotStream.

Lemma sorted_lookup {A} (R : relation A) l j k x y :
  StronglySorted R l → l !! j = Some x → l !! k = Some y → (j < k)%nat → R x y.
Proof.
  intros Hs. revert j k. induction Hs as [|a l Hs IH Ha]; intros j k; [done|].
  destruct j as [|j], k as [|k]; cbn; try lia.
  - intros [= ->] Hy _. rewrite Forall_forall in Ha. by apply Ha, list_elem_of_lookup_2 with k.
  - intros Hx Hy Hlt. apply (IH j k); [done|done|lia].
Qed.

Section permissions.
Context {K : Type} `{EqDecision K}.
Abbreviation permission := (@permission_object K).
Abbreviation authdb := (@authorization_db K).

Record snapshot_permission_object : Type := SnapshotPermission {
  sp_parent : Z;
  sp_owner : Z;
  sp_name : Z;
  sp_last_updated : Z;
  sp_last_used : Z;
  sp_auth : authority K }.

Context {codec : row_codec snapshot_permission_object}.
Context {link_codec : row_codec (Z * Z * Z * Z)}.

(** ** Writing *)

Definition permission_id_le (p q : permission) : Prop := po_id p <= po_id q.
#[local] Instance permission_id_le_dec : RelDecision permission_id_le := λ p q, Z_le_dec (po_id p) (po_id q).

Definition walk_permissions (db : authdb) : list permission := merge_sort permission_id_le (permissions db).

Definition to_snapshot_row (db : authdb) (value : permission) : res snapshot_permission_object :=
  parent ← of_option std_out_of_range (find_by_id (permissions db) (po_parent value));
  last_used ← db_get (usages db) (po_usage_id value);
  mret (SnapshotPermission (po_name parent) (po_owner value) (po_name value) (po_last_updated value) last_used (po_auth value)).

Definition add_permission (db : authdb) (value : permission) : X ostream_snapshot_writer unit :=
  row ← xlift (to_snapshot_row db value); add_row row.

(** ** Reading *)

Definition check_reserved (row : snapshot_permission_object) : res unit :=
  EOS_ASSERT (sp_parent row =? 0) snapshot_exception;;
  EOS_ASSERT (sp_name row =? 0) snapshot_exception;;
  EOS_ASSERT (sp_owner row =? 0) snapshot_exception;;
  EOS_ASSERT (length (accounts (sp_auth row)) =? 0)%nat snapshot_exception;;
  EOS_ASSERT (length (keys (sp_auth row)) =? 0)%nat snapshot_exception;;
  EOS_ASSERT (length (waits (sp_auth row)) =? 0)%nat snapshot_exception;;
  EOS_ASSERT (threshold (sp_auth row) =? 0) snapshot_exception;;
  EOS_ASSERT (sp_last_updated row =? 0) snapshot_exception.

(** The parent of a row that becomes permission [id]. *)
Definition parent_of_row (db : authdb) (id : Z) (row : snapshot_permission_object) : res Z :=
  if id =? 0 then check_reserved row;; mret 0
  else if negb (sp_parent row =? 0) then
    parent ← of_option std_out_of_range (find_by_owner (permissions db) (sp_owner row) (sp_parent row));
    EOS_ASSERT (negb (po_id parent =? 0)) snapshot_exception;;
    mret (po_id parent)
  else mret 0.

(** [db.create<permission_object>] with [from_snapshot_row]. *)
Definition create_from_row (row : snapshot_permission_object) (db : authdb) : res authdb :=
  let id := next_permission_id db in
  parent ← parent_of_row db id row;
  let usage_id := if id =? 0 then 0 else next_usage_id db in
  let perm := PermissionObject id usage_id parent (sp_owner row) (sp_name row) (sp_last_updated row) (sp_auth row) in
  match find_by_owner (permissions db) (sp_owner row) (sp_name row) with
  | Some _ => Throw std_logic_error
  | None =>
      if id =? 0 then mret (AuthorizationDb (permissions db ++ [perm]) (id + 1) (usages db) (next_usage_id db) (links db))
      else mret (AuthorizationDb (permissions db ++ [perm]) (id + 1) (<[usage_id := sp_last_used row]> (usages db)) (usage_id + 1) (links db))
  end.

Definition create_link (link : Z * Z * Z * Z) (db : authdb) : res authdb :=
  l ← db_create (links db) link.1 link.2;
  mret (AuthorizationDb (permissions db) (next_permission_id db) (usages db) (next_usage_id db) l).

(** The indices of a new database. *)
Definition authdb_empty : authdb := AuthorizationDb [] 0 ∅ 0 ∅.

(** ** The tree that is read *)

(** The position of a permission in a list. *)
Definition rank (l : list permission) (id : Z) : Z :=
  match list_find (λ p, po_id p = id) l with Some (n, _) => Z.of_nat n | None => 0 end.

Definition restore (l : list permission) (j : nat) (p : permission) : permission :=
  PermissionObject (Z.of_nat j) (Z.of_nat (j - 1)) (rank l (po_parent p)) (po_owner p) (po_name p) (po_last_updated p) (po_auth p).

(** What a snapshot needs: the reserved permission is as it was created, the
    others have names, and every permission has its usage. *)
Record snapshot_ready (db : authdb) : Prop := {
  sr_tree : db_wf db;
  sr_reserved : reserved_permission ∈ permissions db;
  sr_names p : p ∈ permissions db → po_id p ≠ 0 → po_name p ≠ 0;
  sr_usages p : p ∈ permissions db → is_Some (usages db !! po_usage_id p) }.

(** Facts on the list of permissions in the order of their ids. *)
Record ordered_tree (l : list permission) : Prop := {
  ot_root : head l = Some reserved_permission;
  ot_names : NoDup ((λ p, (po_owner p, po_name p)) <$> l);
  ot_ids : NoDup (po_id <$> l);
  ot_parent j p : l !! S j = Some p → po_name p ≠ 0 ∧
    ∃ k q, (k <= j)%nat ∧ l !! k = Some q ∧ po_id q = po_parent p ∧ (k ≠ 0%nat → po_owner q = po_owner p) }.

Lemma ordered_tree_root l p : ordered_tree l → l !! 0%nat = Some p → p = reserved_permission.
Proof. intros Ho Hp. pose proof (ot_root _ Ho) as Hr. rewrite head_lookup in Hr. congruence. Qed.

Lemma rank_lookup l k q : NoDup (po_id <$> l) → l !! k = Some q → rank l (po_id q) = Z.of_nat k.
Proof.
  intros Hnd Hk. unfold rank. destruct (list_find (λ p, po_id p = po_id q) l) as [[n p]|] eqn:Hf.
  - apply list_find_Some in Hf as (Hn & Hp & _). f_equal. apply (NoDup_lookup _ _ _ (po_id q) Hnd); rewrite list_lookup_fmap.
    + rewrite Hn. cbn. by rewrite Hp.
    + by rewrite Hk.
  - exfalso. apply list_find_None in Hf. rewrite Forall_forall in Hf. eapply Hf; [by eapply list_elem_of_lookup_2|done].
Qed.

Lemma walk_ordered db : snapshot_ready db → ordered_tree (walk_permissions db) ∧ walk_permissions db ≡ₚ permissions db.
Proof.
  intros [Hwf Hres Hnames Hus]. pose proof (merge_sort_Permutation permission_id_le (permissions db)) as Hperm.
  fold (walk_permissions db) in Hperm. split; [|done]. set (l := walk_permissions db) in *.
  assert (Hin : ∀ p, p ∈ l ↔ p ∈ permissions db) by (intros p; by rewrite Hperm).
  assert (Hids : NoDup (po_id <$> l)) by (rewrite Hperm; apply (tree_ids _ _ Hwf)).
  assert (Hsort : StronglySorted permission_id_le l).
  { apply StronglySorted_merge_sort. intros x y z. unfold permission_id_le. lia. intros x y. unfold permission_id_le. lia. }
  assert (Hlt : ∀ j k p q, l !! j = Some p → l !! k = Some q → po_id q < po_id p → (k < j)%nat).
  { intros j k p q Hj Hk Hl. destruct (decide (k < j)%nat); [done|]. exfalso.
    assert (permission_id_le p q ∨ p = q) as [H| ->]; [|unfold permission_id_le in H; lia|lia].
    destruct (decide (j = k)) as [->|]; [right; congruence|left]. by eapply sorted_lookup; [done|exact Hj|exact Hk|lia]. }
  assert (Hroot : l !! 0%nat = Some reserved_permission).
  { apply Hin in Hres. apply list_elem_of_lookup_1 in Hres as [k Hk]. destruct k as [|k]; [done|].
    destruct (l !! 0%nat) as [p|] eqn:H0; [|apply lookup_ge_None in H0; apply lookup_lt_Some in Hk; lia].
    destruct (decide (po_id p = 0)) as [He|Hne].
    - exfalso. enough (0%nat = S k) by lia. apply (NoDup_lookup _ _ _ 0 Hids); rewrite list_lookup_fmap; [by rewrite H0; cbn; rewrite He|by rewrite Hk].
    - exfalso. enough (S k < 0)%nat by lia. eapply Hlt; [exact H0|exact Hk|]. cbn.
      pose proof (tree_next _ _ Hwf p) as Hnext. rewrite <- Hin in Hnext. specialize (Hnext ltac:(by eapply list_elem_of_lookup_2)). lia. }
  constructor; [by rewrite head_lookup|rewrite Hperm; apply (tree_names _ _ Hwf)|done|].
  intros j p Hj. assert (Hp : p ∈ permissions db) by (apply Hin; by eapply list_elem_of_lookup_2).
  assert (H0 : po_id p ≠ 0).
  { intros He. enough (0%nat = S j) by lia. apply (NoDup_lookup _ _ _ 0 Hids); rewrite list_lookup_fmap; [by rewrite Hroot|by rewrite Hj; cbn; rewrite He]. }
  split; [by apply Hnames|]. destruct (tree_parents _ _ Hwf p Hp H0) as (Hlt' & q & Hq & Hid & Ho).
  apply Hin, list_elem_of_lookup_1 in Hq as [k Hk]. exists k, q. split_and!; [|done|done|].
  - enough (k < S j)%nat by lia. eapply Hlt; [exact Hj|exact Hk|lia].
  - intros Hk0. destruct Ho as [Ho|Ho]; [|done]. exfalso. apply Hk0.
    apply (NoDup_lookup _ _ _ 0 Hids); rewrite list_lookup_fmap; [by rewrite Hk; cbn; rewrite Ho|by rewrite Hroot].
Qed.

(** A row and the permission it was made from. *)
Record row_for (l : list permission) (p : permission) (row : snapshot_permission_object) : Prop := {
  rf_fields : sp_owner row = po_owner p ∧ sp_name row = po_name p ∧ sp_last_updated row = po_last_updated p ∧ sp_auth row = po_auth p;
  rf_parent : ∃ q, q ∈ l ∧ po_id q = po_parent p ∧ sp_parent row = po_name q }.

Lemma to_snapshot_row_for db p :
  snapshot_ready db → p ∈ permissions db →
  ∃ row, to_snapshot_row db p = Ok row ∧ row_for (walk_permissions db) p row ∧ usages db !! po_usage_id p = Some (sp_last_used row).
Proof.
  intros Hr Hp. destruct (find_parent _ _ _ (sr_tree _ Hr) Hp) as (q & Hq & Hin & Hid). destruct (sr_usages _ Hr p Hp) as [u Hu].
  unfold to_snapshot_row, db_get. rewrite Hq, Hu. cbn [of_option mbind result_bind]. eexists. split; [done|]. split; [|done].
  constructor; [done|]. exists q. split_and!; [|done|done]. by rewrite (proj2 (walk_ordered db Hr)).
Qed.

(** The database after the rows of [l1], the first permissions of [l]. *)
Definition read_state (l l1 : list permission) (used : list Z) (lk : gmap (Z * Z * Z) Z) : authdb :=
  AuthorizationDb (imap (restore l) l1) (zlen l1) (map_seqZ 0 used) (zlen used) lk.

Lemma find_restored l l1 k q o n :
  NoDup ((λ p, (po_owner p, po_name p)) <$> l1) → l1 !! k = Some q → po_owner q = o → po_name q = n →
  find_by_owner (imap (restore l) l1) o n = Some (restore l k q).
Proof.
  intros Hnd Hk <- <-. destruct (find_by_owner (imap (restore l) l1) (po_owner q) (po_name q)) as [p|] eqn:Hf.
  - unfold find_by_owner in Hf. apply fmap_Some in Hf as ([j p'] & Hf & ->). apply list_find_Some in Hf as (Hj & [Ho Hn] & _). cbn [snd].
    apply list_lookup_imap_Some in Hj as (q' & Hj & ->). cbn in Ho, Hn.
    assert (j = k) as ->. { apply (NoDup_lookup _ _ _ (po_owner q, po_name q) Hnd); rewrite list_lookup_fmap; [rewrite Hj; cbn; by rewrite Ho, Hn|by rewrite Hk]. }
    by assert (q' = q) as -> by congruence.
  - exfalso. eapply (find_by_owner_None _ _ _ (restore l k q) Hf); [|done]. by apply elem_of_lookup_imap_2.
Qed.

Lemma find_restored_None l l1 o n :
  (o, n) ∉ (λ p, (po_owner p, po_name p)) <$> l1 → find_by_owner (imap (restore l) l1) o n = None.
Proof.
  intros Hin. destruct (find_by_owner (imap (restore l) l1) o n) as [p|] eqn:Hf; [|done]. exfalso.
  apply find_by_owner_Some in Hf as (Hp & <- & <-). apply elem_of_lookup_imap_1 in Hp as (j & q & -> & Hq). apply Hin.
  cbn. by eapply (list_elem_of_fmap_2 (λ p, (po_owner p, po_name p))), list_elem_of_lookup_2.
Qed.

Lemma parent_of_row_restored l l1 p l2 row used lk :
  ordered_tree l → l = l1 ++ p :: l2 → row_for l p row →
  parent_of_row (read_state l l1 used lk) (zlen l1) row = Ok (rank l (po_parent p)).
Proof.
  intros Ho Hl [(Hown & Hname & Hupd & Hauth) (q & Hq & Hid & Hpar)]. unfold parent_of_row.
  assert (Hp : l !! length l1 = Some p) by (rewrite Hl; by apply list_lookup_middle).
  apply list_elem_of_lookup_1 in Hq as [k Hk]. rewrite <- Hid, (rank_lookup l k q (ot_ids _ Ho) Hk).
  destruct l1 as [|p0 l1'].
  { cbn [length] in Hp |- *. pose proof (ordered_tree_root _ _ Ho Hp) as ->. cbn in Hid. assert (k = 0%nat) as ->.
    { apply (NoDup_lookup _ _ _ 0 (ot_ids _ Ho)); rewrite list_lookup_fmap; [rewrite Hk; cbn; by rewrite Hid|by rewrite Hp]. }
    assert (q = reserved_permission) as -> by congruence. unfold check_reserved. rewrite Hpar, Hown, Hname, Hupd, Hauth. done. }
  set (l1 := p0 :: l1') in *. rewrite (proj2 (Z.eqb_neq (zlen l1) 0)) by (cbn; lia).
  destruct (ot_parent _ Ho (length l1') p Hp) as (Hnz & k' & q' & Hk' & Hq' & Hid' & Hown').
  assert (k' = k) as ->. { apply (NoDup_lookup _ _ _ (po_id q) (ot_ids _ Ho)); rewrite list_lookup_fmap; [rewrite Hq'; cbn; congruence|by rewrite Hk]. }
  assert (q' = q) as -> by congruence. rewrite Hpar. destruct k as [|k].
  { pose proof (ordered_tree_root _ _ Ho Hk) as ->. done. }
  destruct (ot_parent _ Ho k q Hk) as [Hqn _]. rewrite (proj2 (Z.eqb_neq _ 0) Hqn). cbn [negb permissions read_state].
  assert (Hk1 : l1 !! S k = Some q). { rewrite Hl, lookup_app_l in Hk; [done|cbn; lia]. }
  rewrite (find_restored l l1 (S k) q); [|..|done|by rewrite Hown, Hown'|done].
  - cbn [of_option mbind result_bind po_id restore]. by rewrite (proj2 (Z.eqb_neq (Z.of_nat (S k)) 0)) by lia.
  - pose proof (ot_names _ Ho) as Hn. rewrite Hl, fmap_app in Hn. by apply NoDup_app in Hn as (? & _ & _).
Qed.

Lemma create_from_row_restored l l1 p l2 row used lk :
  ordered_tree l → l = l1 ++ p :: l2 → row_for l p row → length used = (length l1 - 1)%nat →
  create_from_row row (read_state l l1 used lk) =
  Ok (read_state l (l1 ++ [p]) (if decide (l1 = []) then used else used ++ [sp_last_used row]) lk).
Proof.
  intros Ho Hl Hrow Hu. unfold create_from_row. cbn [next_permission_id read_state].
  rewrite (parent_of_row_restored l l1 p l2 row used lk Ho Hl Hrow). cbn [mbind result_bind].
  destruct Hrow as [(Hown & Hname & Hupd & Hauth) _]. rewrite Hown, Hname, Hupd, Hauth. cbn [permissions usages next_usage_id links read_state].
  rewrite find_restored_None.
  2:{ pose proof (ot_names _ Ho) as Hn. rewrite Hl, fmap_app in Hn. apply NoDup_app in Hn as (_ & Hn & _). intros Hin.
      eapply Hn; [exact Hin|apply list_elem_of_here]. }
  assert (Hnew : imap (restore l) l1 ++ [restore l (length l1) p] = imap (restore l) (l1 ++ [p])).
  { rewrite imap_app. cbn. by rewrite Nat.add_0_r. }
  unfold read_state. rewrite <- Hnew, length_app. destruct l1 as [|p0 l1'].
  - rewrite decide_True by done. done.
  - set (l1 := p0 :: l1') in *. rewrite (proj2 (Z.eqb_neq (zlen l1) 0)) by (cbn; lia). rewrite decide_False by done.
    unfold restore at 2. rewrite map_seqZ_snoc, length_app. cbn [length] in *. unfold mret, result_ret.
    replace (zlen used) with (Z.of_nat (length l1 - 1)) by (rewrite Hu; done). repeat f_equal; cbn in *; lia.
Qed.

Lemma create_rest_restored l l1 l2 rows used lk :
  ordered_tree l → l = l1 ++ l2 → l1 ≠ [] → Forall2 (row_for l) l2 rows → length used = (length l1 - 1)%nat →
  create_all create_from_row rows (read_state l l1 used lk) = Ok (read_state l l (used ++ (sp_last_used <$> rows)) lk).
Proof.
  intros Ho Hl Hne Hf. revert l1 used Hl Hne. induction Hf as [|p row l2 rows Hrow Hf IH]; intros l1 used Hl Hne Hu; cbn [create_all].
  { rewrite app_nil_r in Hl. subst l1. cbn. by rewrite app_nil_r. }
  rewrite (create_from_row_restored l l1 p l2 row used lk Ho Hl Hrow Hu), decide_False by done. cbn [mbind result_bind].
  rewrite IH; [by rewrite <- app_assoc|by rewrite <- app_assoc|by destruct l1|]. rewrite !length_app. destruct l1; [done|]. cbn in *. lia.
Qed.

Lemma create_all_restored l rows :
  ordered_tree l → Forall2 (row_for l) l rows →
  create_all create_from_row rows authdb_empty = Ok (read_state l l (tail (sp_last_used <$> rows)) ∅).
Proof.
  intros Ho Hf. pose proof (ot_root _ Ho) as Hroot. destruct l as [|p l'] eqn:Hl; [done|]. rewrite <- Hl in *.
  inversion Hf as [|? row ? rows' Hrow Hf']; subst; [congruence|]. simplify_eq/=.
  pose proof (create_from_row_restored (reserved_permission :: l') [] reserved_permission l' row [] ∅ Ho eq_refl Hrow eq_refl) as H1.
  change (read_state (reserved_permission :: l') [] [] ∅) with authdb_empty in H1. rewrite H1. cbn [mbind result_bind].
  rewrite decide_True by done. by apply (create_rest_restored _ [reserved_permission] l' rows' []).
Qed.

(** ** What the permissions say *)

(** The name of the parent, the times of the last update and use, and the
    authority of a permission. *)
Definition permission_view (db : authdb) (owner name : Z) : option (Z * Z * option Z * authority K) :=
  p ← find_by_owner (permissions db) owner name;
  q ← find_by_id (permissions db) (po_parent p);
  Some (po_name q, po_last_updated p, if po_id p =? 0 then None else usages db !! po_usage_id p, po_auth p).

Definition same_permissions (db db' : authdb) : Prop :=
  ∀ owner name, permission_view db' owner name = permission_view db owner name.

Lemma restored_by_id l k q : l !! k = Some q → find_by_id (imap (restore l) l) (Z.of_nat k) = Some (restore l k q).
Proof.
  intros Hk. unfold find_by_id. destruct (list_find (λ p, po_id p = Z.of_nat k) (imap (restore l) l)) as [[n p]|] eqn:Hf.
  - apply list_find_Some in Hf as (Hn & Hp & _). apply list_lookup_imap_Some in Hn as (q' & Hn & ->). cbn in Hp |- *.
    assert (n = k) as -> by lia. by assert (q' = q) as -> by congruence.
  - exfalso. apply list_find_None in Hf. rewrite Forall_forall in Hf. eapply (Hf (restore l k q)); [|done]. by apply elem_of_lookup_imap_2.
Qed.

Lemma restored_tree l : ordered_tree l → tree_wf (imap (restore l) l) (zlen l).
Proof.
  intros Ho. assert (Hroot : l !! 0%nat = Some reserved_permission) by (rewrite <- head_lookup; apply Ho).
  constructor.
  - apply NoDup_alt. intros j k x Hj Hk. change (map ?f ?m) with (f <$> m) in Hj, Hk. rewrite list_lookup_fmap, list_lookup_imap in Hj, Hk.
    destruct (l !! j), (l !! k); try done. cbn in Hj, Hk. simplify_eq. lia.
  - pose proof (ot_names _ Ho) as Hn. change (map ?f ?m) with (f <$> m).
    replace ((λ p, (po_owner p, po_name p)) <$> imap (restore l) l) with ((λ p, (po_owner p, po_name p)) <$> l); [done|].
    apply list_eq. intros j. rewrite !list_lookup_fmap, list_lookup_imap. by destruct (l !! j).
  - exists (restore l 0 reserved_permission). split_and!; [by apply elem_of_lookup_imap_2|done|].
    apply (rank_lookup l 0 reserved_permission (ot_ids _ Ho) Hroot).
  - intros p Hp H0. apply elem_of_lookup_imap_1 in Hp as (j & p' & -> & Hj). cbn in H0. destruct j as [|j]; [done|].
    destruct (ot_parent _ Ho j p' Hj) as (_ & k & q & Hk & Hq & Hid & Hown). cbn [po_id po_parent restore po_owner].
    rewrite <- Hid, (rank_lookup l k q (ot_ids _ Ho) Hq). split; [lia|]. exists (restore l k q). split_and!; [by apply elem_of_lookup_imap_2|done|].
    cbn. destruct k as [|k]; [by left|right; by apply Hown].
  - intros p Hp. apply elem_of_lookup_imap_1 in Hp as (j & p' & -> & Hj). apply lookup_lt_Some in Hj. cbn. lia.
Qed.

Lemma restored_same db rows :
  snapshot_ready db → let l := walk_permissions db in
  Forall2 (λ p row, row_for l p row ∧ usages db !! po_usage_id p = Some (sp_last_used row)) l rows →
  same_permissions db (read_state l l (tail (sp_last_used <$> rows)) ∅).
Proof.
  intros Hr l Hf owner name. destruct (walk_ordered db Hr) as [Ho Hperm]. fold l in Ho, Hperm. pose proof (sr_tree _ Hr) as Hwf.
  unfold permission_view. cbn [permissions read_state usages].
  destruct (find_by_owner (permissions db) owner name) as [p|] eqn:Hp; cbn [mbind option_bind].
  - apply find_by_owner_Some in Hp as (Hin & Hown & Hname). rewrite <- Hperm in Hin. apply list_elem_of_lookup_1 in Hin as [j Hj].
    rewrite (find_restored l l j p owner name (ot_names _ Ho) Hj Hown Hname). cbn [mbind option_bind po_parent restore po_id].
    destruct (find_parent _ _ p Hwf) as (q & Hq & Hqin & Hid); [by rewrite <- Hperm; eapply list_elem_of_lookup_2|].
    rewrite Hq. cbn [mbind option_bind]. rewrite <- Hperm in Hqin. apply list_elem_of_lookup_1 in Hqin as [k Hk].
    rewrite <- Hid, (rank_lookup l k q (ot_ids _ Ho) Hk), (restored_by_id l k q Hk). cbn [mbind option_bind po_name restore po_last_updated po_auth po_usage_id].
    do 2 f_equal. f_equal. destruct j as [|j].
    + pose proof (ordered_tree_root _ _ Ho Hj) as ->. done.
    + assert (H0 : po_id p ≠ 0).
      { intros He. enough (S j = 0%nat) by lia. apply (NoDup_lookup _ _ _ 0 (ot_ids _ Ho)); rewrite list_lookup_fmap; [rewrite Hj; cbn; by rewrite He|].
        by rewrite <- head_lookup, (ot_root _ Ho). }
      rewrite (proj2 (Z.eqb_neq (po_id p) 0) H0), (proj2 (Z.eqb_neq (Z.of_nat (S j)) 0)) by lia.
      destruct (Forall2_lookup_l _ _ _ _ _ Hf Hj) as (row & Hrow & _ & Hu). rewrite Hu, lookup_map_seqZ_0 by lia.
      rewrite Nat2Z.id. replace (S j - 1)%nat with j by lia. destruct rows as [|row0 rows]; [done|]. cbn in Hrow |- *. apply list_lookup_fmap_Some. by exists row.
  - rewrite find_restored_None; [done|]. intros Hin. apply list_elem_of_fmap in Hin as (p & [= -> ->] & Hin). rewrite Hperm in Hin.
    by destruct (find_by_owner_None _ _ _ _ Hp Hin).
Qed.
End permissions.
Arguments snapshot_permission_object : clear implicits.
