(* ===== verification/TableCalls.v ===== *)
(** * Searching, traversing and calling tables

    The rest of the table interface of contracts and the theorems on any
    sequence of calls: the invariant of the tables and caches, the conservation
    of RAM, the accounts that pay, the protection of the tables of other
    contracts, and reading back what was stored, in order. *)

From S2P Require Import Prelude Exceptions Config Name Merkle Database ResourceLimits Authority Transaction ChainConfig AuthorizationManager StateMonad IteratorCache ChainDatabase TransactionContext ApplyContext ContractTables.

Section searching.
Context {K : Type} `{EqDecision K}.
Context (control : controller_view) (act : action) (unpack_setcode : bytes → res setcode).
Implicit Types w : world K.

(** ** Searches *)

(** Only caches have grown. *)
Record looked w w' : Prop := {
  lk_db : w_db w' = w_db w;
  lk_sound : sound_step act w w';
  lk_wf : world_wf w';
  lk_denotes j it o : denotes (caches (w_ctx w) j) it o → denotes (caches (w_ctx w') j) it o }.

Lemma reads_looked w w' : world_wf w → reads act w w' → looked w w'.
Proof.
  intros [Hwf Hl Hu] R. constructor; [apply R|apply R| |].
  - constructor; [by rewrite (rd_db _ _ _ R)|by apply (reads_caches_live _ _ _ R)|by eapply reads_usage].
  - intros j it o. by rewrite (rd_caches _ _ _ R).
Qed.

Lemma cache_step_looked w w' i :
  world_wf w → cache_step act i w w' → caches_live None w' →
  (∀ it o, denotes (caches (w_ctx w) i) it o → denotes (caches (w_ctx w') i) it o) → looked w w'.
Proof.
  intros [Hwf Hl Hu] [D S O] Hl' Hd. constructor; [done|done| |].
  - constructor; [by rewrite D|done|]. unfold usage_ok. by rewrite D.
  - intros j it o. destruct (decide (i = j)) as [<-|Hne]; [apply Hd|by rewrite O].
Qed.

Lemma looked_trans w1 w2 w3 : looked w1 w2 → looked w2 w3 → looked w1 w3.
Proof. intros [D1 S1 W1 H1] [D2 S2 W2 H2]. constructor; [congruence|by etrans|done|eauto]. Qed.

(** A search that finds rows of the table it is asked for. *)
Definition finds (i : table_index) (find : index_rows_type i → Z → option (index_row i)) : Prop :=
  ∀ rs t r, find rs t = Some r → r_t_id r = t ∧ ∃ o, by_id rs !! o = Some r.

(** The iterator of a row of the table, or the end iterator of the table. *)
Definition points_to w (i : table_index) (it t : Z) (r : option (index_row i)) : Prop :=
  match r with
  | Some r => denotes (caches (w_ctx w) i) it (r_id r) ∧ by_id (index_rows (contracts w) i) !! r_id r = Some r ∧ r_t_id r = t
  | None => table_cache (caches (w_ctx w) i) !! t = Some (t, it) ∧ it < -1
  end.

Lemma wf_caches w : world_wf w → caches_live None w.
Proof. intros Hw j. apply Hw. Qed.

Lemma reads_small w w' : reads act w w' → world_small w → world_small w'.
Proof.
  intros R [H1 H2]. split; [intros j; by rewrite (rd_caches _ _ _ R)|]. by rewrite (rd_db _ _ _ R).
Qed.

Lemma row_id w i o (r : index_row i) : world_wf w → by_id (index_rows (contracts w) i) !! o = Some r → r_id r = o.
Proof. intros Hw Hr. by destruct (tw_rows _ _ (ww_tables _ Hw) i o r Hr). Qed.

(** The iterator of a row of a table that is in the cache. *)
Lemma wp_add_iterator w i o (r : index_row i) ei :
  world_wf w → world_small w → by_id (index_rows (contracts w) i) !! o = Some r →
  table_cache (caches (w_ctx w) i) !! r_t_id r = Some (r_t_id r, ei) →
  wp (with_cache i (cache_add (r_id r))) (λ it w', looked w w' ∧ points_to w' i it (r_t_id r) (Some r)) w.
Proof.
  intros Hw [Hs _] Hr Hc. rewrite (row_id _ _ _ _ Hw Hr).
  eapply wp_mono; [eapply (cache_add_step act); [by apply wf_caches|apply Hs|done|done]|]. intros it w' (St & Hl & Hd & Hold).
  split; [by eapply cache_step_looked|]. cbn. rewrite (row_id _ _ _ _ Hw Hr), (cs_db _ _ _ _ St). done.
Qed.

Lemma search_spec w i code scope table find :
  world_wf w → world_small w → finds i find →
  wp (search i code scope table find) (λ res w',
    looked w w' ∧
    match find_table_id (contracts w) code scope table with
    | None => res = (-1, None)
    | Some t => res.2 = find (index_rows (contracts w) i) t ∧ points_to w' i res.1 t res.2
    end) w.
Proof.
  intros Hw Hs Hfind. unfold search, find_table. do 2 wp_step.
  destruct (find_table_id (contracts w) code scope table) as [t|] eqn:Hf.
  - wp_step. eapply wp_mono; [apply (cache_table_step act); [by apply wf_caches|apply Hs]|].
    intros ei w1 (St & Hl & Hei & Htc & Hobj).
    assert (L1 : looked w w1).
    { eapply cache_step_looked; [done|done|done|]. intros it o. unfold denotes. by rewrite Hobj. }
    do 2 wp_step. rewrite (cs_db _ _ _ _ St).
    destruct (find (index_rows (contracts w) i) t) as [r|] eqn:Hr.
    + destruct (Hfind _ _ _ Hr) as [Ht [o Ho]]. wp_step.
      assert (Hs1 : Z.of_nat (length (iterator_to_object (caches (w_ctx w1) i))) < 2 ^ 31 - 2).
      { rewrite Hobj. apply Hs. }
      rewrite (row_id _ _ _ _ Hw Ho).
      eapply wp_mono; [eapply (cache_add_step act _ _ _ r ei); [done|done|by rewrite (cs_db _ _ _ _ St)|by rewrite Ht]|].
      intros it w2 (St2 & Hl2 & Hd2 & Hold2). wp_step.
      split; [eapply looked_trans; [done|]; by eapply cache_step_looked; [apply L1|..]|].
      cbn. rewrite (row_id _ _ _ _ Hw Ho), (cs_db _ _ _ _ St2), (cs_db _ _ _ _ St). done.
    + wp_step. by split.
  - wp_step. split; [|done]. by apply reads_looked.
Qed.

(** ** Traversal *)

(** The row after [r] in the order [lt], if it is in the same table. *)
Definition successor {i} (lt : index_row i → index_row i → bool) (rs : index_rows_type i) (r : index_row i)
    : option (index_row i) :=
  match first_by lt (lt r) (by_id rs) with
  | Some r' => if r_t_id r' =? r_t_id r then Some r' else None
  | None => None
  end.

Lemma successor_elem {i} lt (rs : index_rows_type i) r r' :
  successor lt rs r = Some r' → r_t_id r' = r_t_id r ∧ lt r r' = true ∧ ∃ o, by_id rs !! o = Some r'.
Proof.
  unfold successor. destruct (first_by _ _ _) as [x|] eqn:Hx; [|done].
  apply first_by_elem in Hx as [Hlt Ho]. destruct (Z.eqb_spec (r_t_id x) (r_t_id r)); [|done]. by intros [= <-].
Qed.

(** The last row of table [t], and the row before [r] in it. *)
Definition last_row {i} (lt : index_row i → index_row i → bool) (rs : index_rows_type i) (t : Z)
    : option (index_row i) :=
  match last_by lt (λ r, r_t_id r <=? t) (by_id rs) with
  | Some r => if r_t_id r =? t then Some r else None
  | None => None
  end.

Definition predecessor {i} (lt : index_row i → index_row i → bool) (rs : index_rows_type i) (r : index_row i)
    : option (index_row i) :=
  match last_by lt (λ r', lt r' r) (by_id rs) with
  | Some r' => if r_t_id r' =? r_t_id r then Some r' else None
  | None => None
  end.

Lemma wp_end_iterator w i t ei (Q : Z → world K → Prop) :
  table_cache (caches (w_ctx w) i) !! t = Some (t, ei) →
  (∀ w', reads act w w' → Q ei w') → wp (with_cache i (get_end_iterator_by_table_id t)) Q w.
Proof.
  intros Hc HQ. apply wp_with_cache. unfold get_end_iterator_by_table_id. do 2 wp_step. rewrite Hc. wp_step.
  apply HQ, reads_set_cache.
Qed.

Lemma end_iterator_range c t p ei : cache_wf c → table_cache c !! t = Some (p, ei) → ei < -1.
Proof. intros Hwf Hc. destruct (wf_tables c Hwf t p ei Hc) as [_ (n & _ & ->)]. lia. Qed.

Lemma next_in_spec w i lt iterator :
  world_wf w → world_small w → -1 <= iterator →
  wp (next_in i lt iterator) (λ res w',
    looked w w' ∧ ∃ o r, denotes (caches (w_ctx w) i) iterator o ∧
      by_id (index_rows (contracts w) i) !! o = Some r ∧
      res.2 = r_primary <$> successor lt (index_rows (contracts w) i) r ∧
      points_to w' i res.1 (r_t_id r) (successor lt (index_rows (contracts w) i) r)) w.
Proof.
  intros Hw Hs Hit. unfold next_in. destruct (Z.ltb_spec iterator (-1)); [lia|].
  apply (wp_locate act); [by apply wf_caches|]. intros o r ei w1 R Hd Hr Hc. do 2 wp_step.
  assert (L1 : looked w w1) by (by apply reads_looked).
  assert (Hc1 : table_cache (caches (w_ctx w1) i) !! r_t_id r = Some (r_t_id r, ei)) by (by rewrite (rd_caches _ _ _ R)).
  assert (Hend : successor lt (index_rows (contracts w) i) r = None →
    wp (ei ← with_cache i (get_end_iterator_by_table_id (r_t_id r)); mret (ei, None)) (λ res w',
      looked w w' ∧ ∃ o r, denotes (caches (w_ctx w) i) iterator o ∧
        by_id (index_rows (contracts w) i) !! o = Some r ∧
        res.2 = r_primary <$> successor lt (index_rows (contracts w) i) r ∧
        points_to w' i res.1 (r_t_id r) (successor lt (index_rows (contracts w) i) r)) w1).
  { intros Hsucc. wp_step. eapply wp_end_iterator; [done|]. intros w2 R2. wp_step.
    split; [eapply looked_trans; [done|]; apply reads_looked; [apply L1|done]|]. exists o, r.
    rewrite Hsucc. split_and!; [done|done|done|]. cbn. rewrite (rd_caches _ _ _ R2). split; [done|].
    eapply end_iterator_range; [|done]. apply (ww_caches _ (lk_wf _ _ L1)). }
  rewrite (rd_db _ _ _ R). unfold successor in Hend.
  destruct (first_by lt (lt r) (by_id (index_rows (contracts w) i))) as [r'|] eqn:Hf; [|by apply Hend].
  destruct (r_t_id r' =? r_t_id r) eqn:Ht; cbn [negb]; [|by apply Hend]. clear Hend.
  pose proof Hf as [_ [o' Ho']]%first_by_elem. unfold add_iterator. wp_step.
  assert (Ht' : r_t_id r' = r_t_id r) by lia.
  eapply wp_mono; [eapply (wp_add_iterator w1 i o' r' ei)|].
  - apply L1.
  - by eapply reads_small.
  - by rewrite (rd_db _ _ _ R).
  - by rewrite Ht'.
  - intros it w2 [L2 P2]. wp_step. split; [by eapply looked_trans|]. exists o, r. unfold successor.
    rewrite Hf, Ht. rewrite Ht' in P2. done.
Qed.

(** The table of an end iterator, if the cache has one, still exists. *)
Definition end_live w (i : table_index) (iterator : Z) : Prop :=
  iterator < -1 → ∃ n, end_iterator_to_index iterator = Some n ∧
    ∀ t, end_iterator_to_table (caches (w_ctx w) i) !! Z.to_nat n = Some t → is_Some (tables (contracts w) !! t).

(** What [previous] finds: nothing gives -1. *)
Definition found_before w w' (i : table_index) (res : Z * option (primary_key_type i)) (t : Z)
    (r : option (index_row i)) : Prop :=
  looked w w' ∧ res.2 = r_primary <$> r ∧
  match r with None => res.1 = -1 | Some _ => points_to w' i res.1 t r end.

Lemma wp_found_before w w1 i t ei (r : option (index_row i)) :
  world_wf w → world_small w → reads act w w1 →
  table_cache (caches (w_ctx w) i) !! t = Some (t, ei) →
  (∀ x, r = Some x → r_t_id x = t ∧ ∃ o, by_id (index_rows (contracts w) i) !! o = Some x) →
  wp (match r with None => mret (-1, None) | Some x => add_iterator i x end)
     (λ res w', found_before w w' i res t r) w1.
Proof.
  intros Hw Hs R Hc Hr. assert (L1 : looked w w1) by (by apply reads_looked).
  destruct r as [x|]; [|by wp_step]. destruct (Hr x eq_refl) as [Ht [o Ho]].
  unfold add_iterator. wp_step. eapply wp_mono; [eapply (wp_add_iterator w1 i o x ei)|].
  - apply L1.
  - by eapply reads_small.
  - by rewrite (rd_db _ _ _ R).
  - by rewrite (rd_caches _ _ _ R), Ht.
  - intros it w2 [L2 P2]. wp_step. split; [by eapply looked_trans|]. rewrite Ht in P2. done.
Qed.

Lemma match_in_table {A} {i} (o : option (index_row i)) t (a : A) (f : index_row i → A) :
  match o with None => a | Some r => if negb (r_t_id r =? t) then a else f r end =
  match (match o with Some r => if r_t_id r =? t then Some r else None | None => None end) with
  | None => a | Some r => f r end.
Proof. destruct o as [r|]; [|done]. by destruct (r_t_id r =? t). Qed.

Lemma end_index iterator n :
  is_signed 32 iterator → iterator < -1 → end_iterator_to_index iterator = Some n → 0 <= n ∧ iterator = - (n + 2).
Proof.
  unfold end_iterator_to_index, int_min, is_signed. intros Hi Hlt. destruct (Z.eqb_spec iterator (- 2 ^ 31)); [done|].
  intros [= <-]. rewrite (swrap_id 32), wrap_id by (unfold is_unsigned, is_signed; lia). lia.
Qed.

Lemma previous_in_end_spec w i lt iterator :
  world_wf w → world_small w → is_signed 32 iterator → iterator < -1 → end_live w i iterator →
  wp (previous_in i lt iterator) (λ res w', ∃ t, is_Some (tables (contracts w) !! t) ∧
    table_cache (caches (w_ctx w) i) !! t = Some (t, iterator) ∧
    found_before w w' i res t (last_row lt (index_rows (contracts w) i) t)) w.
Proof.
  intros Hw Hs Hsg Hit He. unfold previous_in. rewrite (proj2 (Z.ltb_lt _ _) Hit).
  destruct (He Hit) as (n & Hn & Hlive). destruct (end_index _ _ Hsg Hit Hn) as [Hn0 Hiter].
  wp_step. apply wp_with_cache. unfold find_table_by_end_iterator. wp_step. wp_step. wp_step.
  apply (wp_deref _ n); [done|]. do 3 wp_step.
  destruct (end_iterator_to_table (caches (w_ctx w) i) !! Z.to_nat n) as [t|] eqn:Ht; [|wp_step].
  destruct (Hlive t eq_refl) as [tab Htab]. wp_step. unfold get_table_object. do 2 wp_step.
  apply (wp_deref _ tab); [done|]. do 2 wp_step.
  assert (Hc : table_cache (caches (w_ctx w) i) !! t = Some (t, iterator)).
  { rewrite (wf_ends _ (cl_wf _ _ _ _ (ww_caches _ Hw i)) _ _ Ht). repeat f_equal. lia. }
  rewrite match_in_table. eapply wp_mono; [apply (wp_found_before w _ i t iterator)|]; try done.
  - apply reads_set_cache.
  - intros x Hx. destruct (last_by _ _ _) as [y|] eqn:Hy; [|done]. apply first_by_elem in Hy as [_ Hy].
    destruct (Z.eqb_spec (r_t_id y) t); [|done]. by injection Hx as <-.
  - intros res w' Hf. by exists t.
Qed.

Lemma previous_in_spec w i lt iterator :
  world_wf w → world_small w → -1 <= iterator →
  wp (previous_in i lt iterator) (λ res w', ∃ o r, denotes (caches (w_ctx w) i) iterator o ∧
    by_id (index_rows (contracts w) i) !! o = Some r ∧
    found_before w w' i res (r_t_id r) (predecessor lt (index_rows (contracts w) i) r)) w.
Proof.
  intros Hw Hs Hit. unfold previous_in. destruct (Z.ltb_spec iterator (-1)); [lia|].
  apply (wp_locate act); [by apply wf_caches|]. intros o r ei w1 R Hd Hr Hc. do 2 wp_step.
  rewrite (rd_db _ _ _ R), match_in_table.
  eapply wp_mono; [apply (wp_found_before w w1 i (r_t_id r) ei)|]; try done.
  - intros x Hx. destruct (last_by _ _ _) as [y|] eqn:Hy; [|done]. apply first_by_elem in Hy as [_ Hy].
    destruct (Z.eqb_spec (r_t_id y) (r_t_id r)); [|done]. by injection Hx as <-.
  - intros res w' Hf. by exists o, r.
Qed.

(** A read of the row of an iterator. *)
Lemma wp_read_row {A} w i iterator (f : index_row i → A) :
  world_wf w →
  wp (o ← with_cache i (cache_get iterator); obj ← get_row i o; mret (f obj)) (λ a w',
    reads act w w' ∧ ∃ o r, denotes (caches (w_ctx w) i) iterator o ∧
      by_id (index_rows (contracts w) i) !! o = Some r ∧ a = f r) w.
Proof.
  intros Hw. apply (wp_locate act); [by apply wf_caches|]. intros o r ei w1 R Hd Hr _. wp_step. eauto 10.
Qed.
End searching.

(** ** The tables of other contracts *)

(** The tables of other accounts than [c], and their rows, are as they were. *)
Record foreign_kept (c : Z) (db db' : contract_db) : Prop := {
  fk_tables t tab : tb_code tab ≠ c → tables db !! t = Some tab ↔ tables db' !! t = Some tab;
  fk_rows i o (r : index_row i) tab : tables db !! r_t_id r = Some tab → tb_code tab ≠ c →
    by_id (index_rows db i) !! o = Some r ↔ by_id (index_rows db' i) !! o = Some r }.

#[export] Instance foreign_kept_preorder c : PreOrder (foreign_kept c).
Proof.
  split.
  - intros db. by constructor.
  - intros db1 db2 db3 [T1 R1] [T2 R2]. constructor.
    + intros t tab Hc. by rewrite T1, T2.
    + intros i o r tab Ht Hc. rewrite (R1 i o r tab Ht Hc). apply (R2 i o r tab); [by apply T1|done].
Qed.

Lemma foreign_create c db scope table payer :
  tables_wf None db → foreign_kept c db (create_table_db db c scope table payer).
Proof.
  intros Hwf. constructor; [|done]. intros t tab Hc. cbn. rewrite lookup_insert_Some. split.
  - intros Ht. right. split; [|done]. intros <-. by rewrite (next_table_fresh _ _ Hwf) in Ht.
  - intros [[_ <-]|[_ Ht]]; done.
Qed.

Lemma foreign_table_count c db t tab n t' tab' :
  tables db !! t = Some tab → tb_code tab = c → tb_code tab' ≠ c →
  tables db !! t' = Some tab' ↔ <[t := with_count tab n]> (tables db) !! t' = Some tab'.
Proof.
  intros Ht Hc Hc'. rewrite lookup_insert_Some. split.
  - intros Ht'. right. split; [|done]. intros <-. congruence.
  - intros [[_ <-]|[_ ?]]; done.
Qed.

Lemma foreign_insert c db i t tab id payer d :
  tables_wf (Some t) db → tables db !! t = Some tab → tb_code tab = c →
  foreign_kept c db (insert_row_db db i t tab id payer d).
Proof.
  intros Hwf Ht Hc. constructor.
  - intros t' tab' Hc'. by apply (foreign_table_count c).
  - intros j o r tab' Ht' Hc'. split; [by apply insert_row_lookup|].
    intros [Hr|(_ & _ & _ & Htid & _)]%insert_row_inv; [done|]. rewrite Htid in Ht'. congruence.
Qed.

Lemma foreign_removed c db i o (r : index_row i) tab :
  by_id (index_rows db i) !! o = Some r → tables db !! r_t_id r = Some tab → tb_code tab = c →
  foreign_kept c db (removed_db db i (r_t_id r) tab o).
Proof.
  intros Hr Ht Hc. constructor.
  - intros t' tab' Hc'. unfold removed_db. cbn zeta. destruct (_ =? _); [|by apply (foreign_table_count c)].
    cbn. rewrite lookup_delete_Some, <- (foreign_table_count c) by done. split; [|tauto].
    intros Ht'. split; [|done]. intros <-. congruence.
  - intros j o' r' tab' Ht' Hc'. rewrite removed_rows. split.
    + intros Hr'. apply (erase_row_keep _ _ _ _ _ Hr); [done|]. intros <- ->. congruence.
    + by intros [? _]%erase_row_lookup.
Qed.

Lemma foreign_modified c db i o (r : index_row i) payer d tab :
  by_id (index_rows db i) !! o = Some r → tables db !! r_t_id r = Some tab → tb_code tab = c →
  foreign_kept c db (modify_row_db db i o payer d).
Proof.
  intros Hr Ht Hc. constructor; [done|]. intros j o' r' tab' Ht' Hc'. unfold modify_row_db. cbn zeta.
  destruct (decide (i = j)) as [<-|Hne]; [|by rewrite index_rows_put_ne].
  rewrite index_rows_put_eq. cbn. destruct (decide (o = o')) as [<-|Ho]; [|by rewrite lookup_alter_ne].
  rewrite lookup_alter_eq, Hr. cbn. split; intros [= <-]; [congruence|]. cbn in Ht'. congruence.
Qed.

Lemma foreign_stored c db db' i scope table payer id d o :
  tables_wf None db → stored db db' i c scope table payer id d o → foreign_kept c db db'.
Proof.
  intros Hwf (t & db1 & tab & Htf & Ht & _ & _ & ->).
  destruct (table_for_key _ _ _ _ _ _ _ Htf) as (tab' & Ht' & Hk & _).
  assert (tab' = tab) as -> by congruence. injection Hk as Hc Hk2 Hk3. clear Hk2 Hk3.
  assert (tables_wf (Some t) db1 ∧ foreign_kept c db db1) as [Hwf1 Hk1].
  { destruct Htf as [[_ ->]|(Hf & -> & ->)]; [split; [by apply tables_wf_hole|done]|].
    split; [by apply create_table_wf|by apply foreign_create]. }
  etrans; [done|]. by apply foreign_insert.
Qed.

(** ** Calls *)

(** The lookups of a secondary index: the comparison of keys, which is
    softfloat's for floating-point numbers, and the search for an equal key,
    which may find any row that matches. *)
Class secondary_keys : Type := {
  key_lt i : data_type i → data_type i → bool;
  find_matching i : (index_row i → bool) → gmap Z (index_row i) → option (index_row i);
  find_matching_Some i p m r : find_matching i p m = Some r → p r = true ∧ ∃ o, m !! o = Some r;
  find_matching_None i p m o r : find_matching i p m = None → m !! o = Some r → p r = false }.

Inductive table_call : Type :=
  | CallStore (i : table_index) (scope table payer : Z) (id : primary_key_type i) (d : data_type i)
  | CallStoreIn (i : table_index) (code scope table payer : Z) (id : primary_key_type i) (d : data_type i)
  | CallUpdate (i : table_index) (iterator payer : Z) (d : data_type i) (check_code : bool)
  | CallRemove (i : table_index) (iterator : Z) (check_code : bool)
  | CallGet (i : table_index) (iterator buffer_size : Z)
  | CallGetEx (i : table_index) (iterator buffer_size : Z)
  | CallGetExex (i : table_index) (iterator : Z)
  | CallFind (i : table_index) (code scope table : Z) (id : primary_key_type i)
  | CallLowerbound (i : table_index) (code scope table : Z) (id : primary_key_type i)
  | CallUpperbound (i : table_index) (code scope table : Z) (id : primary_key_type i)
  | CallEnd (i : table_index) (code scope table : Z)
  | CallNext (i : table_index) (iterator : Z)
  | CallPrevious (i : table_index) (iterator : Z)
  | CallIdxStore (i : table_index) (scope table payer : Z) (id : primary_key_type i) (k : data_type i)
  | CallIdxUpdate (i : table_index) (iterator payer : Z) (k : data_type i)
  | CallIdxRemove (i : table_index) (iterator : Z)
  | CallIdxGet (i : table_index) (iterator : Z)
  | CallFindSecondary (i : table_index) (code scope table : Z) (k : data_type i)
  | CallLowerboundSecondary (i : table_index) (code scope table : Z) (k : data_type i)
  | CallUpperboundSecondary (i : table_index) (code scope table : Z) (k : data_type i)
  | CallFindPrimary (i : table_index) (code scope table : Z) (id : primary_key_type i)
  | CallNextSecondary (i : table_index) (iterator : Z)
  | CallPreviousSecondary (i : table_index) (iterator : Z)
  | CallItemCount (code scope table : Z).

Section calls.
Context {K : Type} `{EqDecision K} {keys : secondary_keys}.
Context (control : controller_view) (act : action) (unpack_setcode : bytes → res setcode).
Implicit Types w : world K.

(** What a call returns to the contract. *)
Definition call_return (c : table_call) : Type :=
  match c with
  | CallUpdate _ _ _ _ _ | CallRemove _ _ _ | CallIdxUpdate _ _ _ _ | CallIdxRemove _ _ => unit
  | CallGet _ _ _ | CallGetExex _ _ => Z * bytes
  | CallGetEx i _ _ => Z * primary_key_type i * bytes
  | CallNext i _ | CallPrevious i _ | CallNextSecondary i _ | CallPreviousSecondary i _
  | CallFindSecondary i _ _ _ _ => Z * option (primary_key_type i)
  | CallIdxGet i _ => primary_key_type i * data_type i
  | CallLowerboundSecondary i _ _ _ _ | CallUpperboundSecondary i _ _ _ _ =>
      Z * option (primary_key_type i * data_type i)
  | CallFindPrimary i _ _ _ _ => Z * option (data_type i)
  | _ => Z
  end.

Definition run_call (c : table_call) : M (world K) (call_return c) :=
  match c with
  | CallStore i scope table payer id d =>
      code ← get_receiver act unpack_setcode; db_store control act i code scope table payer id d
  | CallStoreIn i code scope table payer id d => db_store control act i code scope table payer id d
  | CallUpdate i iterator payer d check_code => db_update control act unpack_setcode i iterator payer d check_code
  | CallRemove i iterator check_code => db_remove control act unpack_setcode i iterator check_code
  | CallGet i iterator n => db_get i iterator n
  | CallGetEx i iterator n => db_get_ex i iterator n
  | CallGetExex i iterator => db_get_exex i iterator
  | CallFind i code scope table id => db_find i code scope table id
  | CallLowerbound i code scope table id => db_lowerbound i code scope table id
  | CallUpperbound i code scope table id => db_upperbound i code scope table id
  | CallEnd i code scope table => db_end i code scope table
  | CallNext i iterator => db_next i iterator
  | CallPrevious i iterator => db_previous i iterator
  | CallIdxStore i scope table payer id k => store control act unpack_setcode i scope table payer id k
  | CallIdxUpdate i iterator payer k => idx_update control act unpack_setcode i iterator payer k
  | CallIdxRemove i iterator => idx_remove control act unpack_setcode i iterator
  | CallIdxGet i iterator => idx_get i iterator
  | CallFindSecondary i code scope table k => find_secondary i (key_lt i) (find_matching i) code scope table k
  | CallLowerboundSecondary i code scope table k => lowerbound_secondary i (key_lt i) code scope table k
  | CallUpperboundSecondary i code scope table k => upperbound_secondary i (key_lt i) code scope table k
  | CallFindPrimary i code scope table id => find_primary i code scope table id
  | CallNextSecondary i iterator => next_secondary i (key_lt i) iterator
  | CallPreviousSecondary i iterator => previous_secondary i (key_lt i) iterator
  | CallItemCount code scope table => get_table_item_count code scope table
  end.

(** Values fit 32 bits and iterators are [int]s; only secondary indices have
    the operations of [generic_index]. *)
Definition call_ok (c : table_call) : Prop :=
  match c with
  | CallStore i _ _ _ _ d | CallStoreIn i _ _ _ _ _ d | CallUpdate i _ _ d _ => value_size i d < 2 ^ 32
  | CallPrevious _ iterator | CallPreviousSecondary _ iterator => is_signed 32 iterator
  | CallIdxStore i _ _ _ _ _ | CallIdxUpdate i _ _ _ | CallIdxRemove i _ => has_value i = false
  | _ => True
  end.

(** The calls that do not name the account whose table they write and do not
    turn off the check of it. *)
Definition checked (c : table_call) : bool :=
  match c with
  | CallStoreIn _ _ _ _ _ _ _ => false
  | CallUpdate _ _ _ _ check_code | CallRemove _ _ check_code => check_code
  | _ => true
  end.

(** An end iterator that is moved back belongs to a table that exists. *)
Definition call_defined w (c : table_call) : Prop :=
  match c with
  | CallPrevious i iterator | CallPreviousSecondary i iterator => end_live w i iterator
  | _ => True
  end.

(** What a call guarantees. *)
Record call_sound (c : table_call) w w' : Prop := {
  cd_sound : sound_step act w w';
  cd_wf : world_wf w';
  cd_foreign r : checked c = true → runs_as act unpack_setcode w r → foreign_kept r (contracts w) (contracts w') }.

Lemma looked_call c w w' : looked act w w' → call_sound c w w'.
Proof. intros [D S W _]. constructor; [done|done|]. intros r _ _. by rewrite D. Qed.

Lemma search_call c w {A} i code scope table find (f : Z * option (index_row i) → A) :
  world_wf w → world_small w → finds i find →
  wp (r ← search i code scope table find; mret (f r)) (λ _ w', call_sound c w w') w.
Proof.
  intros Hw Hs Hf. wp_step. eapply wp_mono; [by apply (search_spec act)|]. intros res w' [L _]. wp_step.
  by apply looked_call.
Qed.

Lemma finds_row i id : finds i (λ rs t, find_row i rs t id).
Proof. intros rs t r (o & Ho & Hp)%find_row_Some. unfold primary_of in Hp. injection Hp as -> _. eauto. Qed.

Lemma finds_bound i lt (p : index_rows_type i → Z → index_row i → bool) :
  finds i (λ rs t, in_table i t (first_by lt (p rs t) (by_id rs))).
Proof.
  intros rs t r. unfold in_table. destruct (first_by _ _ _) as [x|] eqn:Hx; [|done].
  destruct (Z.eqb_spec (r_t_id x) t); [|done]. intros [= <-]. split; [done|]. by apply first_by_elem in Hx as [_ ?].
Qed.

Lemma finds_equal i k :
  finds i (λ rs t, find_matching i (λ r, (r_t_id r =? t) && negb (key_lt i (r_data r) k) &&
                                         negb (key_lt i k (r_data r))) (by_id rs)).
Proof.
  intros rs t r [H Ho]%find_matching_Some. apply andb_true_iff in H as [[H _]%andb_true_iff _]. split; [lia|done].
Qed.

Lemma next_call c w i lt iterator :
  world_wf w → world_small w → wp (next_in i lt iterator) (λ _ w', call_sound c w w') w.
Proof.
  intros Hw Hs. destruct (Z.le_gt_cases (-1) iterator) as [Hit|Hit].
  - eapply wp_mono; [by apply (next_in_spec act)|]. intros res w' [L _]. by apply looked_call.
  - unfold next_in. rewrite (proj2 (Z.ltb_lt _ _) Hit). wp_step. by apply looked_call, reads_looked.
Qed.

Lemma previous_call c w i lt iterator :
  world_wf w → world_small w → is_signed 32 iterator → end_live w i iterator →
  wp (previous_in i lt iterator) (λ _ w', call_sound c w w') w.
Proof.
  intros Hw Hs Hsg He. destruct (Z.le_gt_cases (-1) iterator) as [Hit|Hit].
  - eapply wp_mono; [by apply (previous_in_spec act)|]. intros res w' (o & r & _ & _ & L & _). by apply looked_call.
  - eapply wp_mono; [by apply (previous_in_end_spec act)|]. intros res w' (t & _ & _ & L & _). by apply looked_call.
Qed.

Lemma read_call c w {A} i iterator (f : index_row i → A) :
  world_wf w →
  wp (o ← with_cache i (cache_get iterator); obj ← get_row i o; mret (f obj)) (λ _ w', call_sound c w w') w.
Proof.
  intros Hw. eapply wp_mono; [by apply (wp_read_row act)|]. intros a w' [R _]. by apply looked_call, reads_looked.
Qed.

Lemma store_call c w i code scope table payer id d :
  world_wf w → world_small w → value_size i d < 2 ^ 32 →
  (checked c = true → runs_as act unpack_setcode w code) →
  wp (db_store control act i code scope table payer id d) (λ _ w', call_sound c w w') w.
Proof.
  intros Hw Hs Hd Hc. eapply wp_mono; [by apply db_store_spec|].
  intros it w' (S & Hw' & _ & o & Hst & _). constructor; [done|done|]. intros r Hck Hr.
  rewrite (runs_as_inj _ _ _ _ _ Hr (Hc Hck)). eapply foreign_stored; [apply Hw|done].
Qed.

Lemma removed_call c w w' i iterator o r tab :
  sound_step act w w' → world_wf w' → removed w w' i iterator o r tab →
  (checked c = true → runs_as act unpack_setcode w (tb_code tab)) → call_sound c w w'.
Proof.
  intros S Hw' [_ Hr Ht Hdb _] Hc. constructor; [done|done|]. intros a Hck Ha.
  rewrite (runs_as_inj _ _ _ _ _ Ha (Hc Hck)), Hdb. by apply foreign_removed.
Qed.

Lemma updated_call c w w' i iterator o r tab payer d :
  sound_step act w w' → world_wf w' → updated w w' i iterator o r payer d →
  tables (contracts w) !! r_t_id r = Some tab →
  (checked c = true → runs_as act unpack_setcode w (tb_code tab)) → call_sound c w w'.
Proof.
  intros S Hw' [_ Hr Hdb _] Ht Hc. constructor; [done|done|]. intros a Hck Ha.
  rewrite (runs_as_inj _ _ _ _ _ Ha (Hc Hck)), Hdb. by eapply foreign_modified.
Qed.

Lemma db_end_call c w i code scope table :
  world_wf w → world_small w → wp (db_end i code scope table) (λ _ w', call_sound c w w') w.
Proof.
  intros Hw Hs. unfold db_end, find_table. do 2 wp_step. destruct (find_table_id _ _ _ _) as [t|].
  - eapply wp_mono; [apply (cache_table_step act); [by apply wf_caches|apply Hs]|].
    intros ei w' (St & Hl & _ & _ & Hobj). apply looked_call. eapply cache_step_looked; [done..|].
    intros it o. unfold denotes. by rewrite Hobj.
  - wp_step. by apply looked_call, reads_looked.
Qed.

Lemma item_count_call c w code scope table :
  world_wf w → wp (get_table_item_count code scope table) (λ _ w', call_sound c w w') w.
Proof.
  intros Hw. assert (Hr : call_sound c w w) by (by apply looked_call, reads_looked).
  unfold get_table_item_count, find_table. do 2 wp_step. destruct (find_table_id _ _ _ _) as [t|] eqn:Hf; [|by wp_step].
  apply find_table_id_Some in Hf as (tab & Ht & _). wp_step. unfold get_table_object. do 2 wp_step.
  by apply (wp_deref _ tab).
Qed.

(** Every call keeps the invariant and what it promises. *)
Lemma run_call_spec w c :
  world_wf w → world_small w → call_ok c → call_defined w c → wp (run_call c) (λ _ w', call_sound c w w') w.
Proof.
  intros Hw Hs Hok Hdef.
  destruct c; cbn [run_call call_ok call_defined call_return] in *.
  - wp_step. apply wp_get_receiver. intros r Hr. by apply store_call.
  - by apply store_call.
  - eapply wp_mono; [by apply db_update_spec|]. intros [] w' (S & Hw' & o & r & tab & U & Ht & Hc). by eapply updated_call.
  - eapply wp_mono; [by apply db_remove_spec|]. intros [] w' (S & Hw' & o & r & tab & R & Hc). by eapply removed_call.
  - unfold db_get. apply (wp_locate act); [by apply wf_caches|]. intros o r ei w1 R _ _ _.
    destruct (_ =? _); wp_step; by apply looked_call, reads_looked.
  - by apply read_call.
  - by apply read_call.
  - apply search_call; [done|done|apply finds_row].
  - apply search_call; [done|done|apply finds_bound].
  - apply search_call; [done|done|apply finds_bound].
  - by apply db_end_call.
  - by apply next_call.
  - by apply previous_call.
  - eapply wp_mono; [by apply store_spec|]. intros it w' (S & Hw' & _ & code & o & Hr & Hst & _).
    constructor; [done|done|]. intros r _ Hr'. rewrite (runs_as_inj _ _ _ _ _ Hr' Hr).
    eapply foreign_stored; [apply Hw|done].
  - eapply wp_mono; [by apply idx_update_spec|]. intros [] w' (S & Hw' & o & r & tab & U & Ht & Hc). by eapply updated_call.
  - eapply wp_mono; [by apply idx_remove_spec|]. intros [] w' (S & Hw' & o & r & tab & R & Hc). by eapply removed_call.
  - by apply read_call.
  - apply search_call; [done|done|apply finds_equal].
  - apply search_call; [done|done|apply finds_bound].
  - apply search_call; [done|done|apply finds_bound].
  - apply search_call; [done|done|apply finds_row].
  - by apply next_call.
  - by apply previous_call.
  - by apply item_count_call.
Qed.
End calls.

(** ** The order of the rows *)

Section order.
Context {i : table_index}.
Implicit Types a b c : primary_key_type i.
Implicit Types r x y : index_row i.

Lemma primary_key_lt_irrefl a : primary_key_lt i a a = false.
Proof. destruct i; cbn; unfold key256_lt; lia. Qed.

Lemma primary_key_lt_trans a b c :
  primary_key_lt i a b = true → primary_key_lt i b c = true → primary_key_lt i a c = true.
Proof. destruct i; cbn in *; unfold key256_lt; lia. Qed.

Lemma primary_key_lt_total a b : primary_key_lt i a b = false → primary_key_lt i b a = false → a = b.
Proof.
  destruct i; cbn in *; unfold key256_lt; [lia| |lia..]. destruct a, b; cbn. intros. f_equal; lia.
Qed.

Lemma row_lt_iff x y :
  row_lt i x y = true ↔ r_t_id x < r_t_id y ∨ (r_t_id x = r_t_id y ∧ primary_key_lt i (r_primary x) (r_primary y) = true).
Proof. unfold row_lt, scope_primary_lt. cbn. rewrite orb_true_iff, andb_true_iff. lia. Qed.

Lemma row_lt_total x y : row_lt i x y = false → row_lt i y x = false → primary_of i x = primary_of i y.
Proof.
  rewrite <- !not_true_iff_false, !row_lt_iff. intros H1 H2.
  assert (Ht : r_t_id x = r_t_id y) by lia. unfold primary_of. f_equal; [done|].
  apply primary_key_lt_total; apply not_true_iff_false; intros ?; [apply H1|apply H2]; by right.
Qed.

Lemma row_lt_weak : weak_order (row_lt i).
Proof.
  constructor.
  - intros x. apply not_true_iff_false. rewrite row_lt_iff, primary_key_lt_irrefl. intros [?|[_ ?]]; [lia|done].
  - intros x y z. rewrite !row_lt_iff. intros [H1|[H1 H2]] [H3|[H3 H4]]; try (left; lia).
    right. split; [lia|]. by eapply primary_key_lt_trans.
  - intros x y z H1 H2. apply not_true_iff_false. intros H3.
    destruct (row_lt i y x) eqn:H4.
    + destruct (row_lt i z y) eqn:H5.
      * apply row_lt_iff in H3 as [?|[? L1]], H4 as [?|[? L2]], H5 as [?|[? L3]]; try lia.
        pose proof (primary_key_lt_trans _ _ _ L1 (primary_key_lt_trans _ _ _ L3 L2)) as Hc.
        by rewrite primary_key_lt_irrefl in Hc.
      * pose proof (row_lt_total _ _ H2 H5) as Hp. unfold row_lt in *. rewrite <- Hp in H3.
        by rewrite H3 in H1.
    + pose proof (row_lt_total _ _ H1 H4) as Hp. unfold row_lt in *. rewrite Hp in H3. by rewrite H3 in H2.
Qed.

(** In a well-formed database two rows are ordered one way or the other. *)
Lemma rows_ordered db o o' x y :
  tables_wf None db → by_id (index_rows db i) !! o = Some x → by_id (index_rows db i) !! o' = Some y →
  row_lt i x y = false → row_lt i y x = false → x = y.
Proof.
  intros Hwf Hx Hy H1 H2. assert (o = o') by (eapply (tw_unique _ _ Hwf i); [done..|]; by apply row_lt_total).
  congruence.
Qed.

Lemma successor_Some db o x y :
  tables_wf None db → by_id (index_rows db i) !! o = Some x → successor (row_lt i) (index_rows db i) x = Some y →
  ∀ o' z, by_id (index_rows db i) !! o' = Some z → row_lt i x z = true → row_lt i z y = false.
Proof.
  intros Hwf Hx. unfold successor. pose proof (first_by_spec (row_lt i) (row_lt i x) (by_id (index_rows db i)) row_lt_weak) as Hf.
  destruct (first_by _ _ _) as [z|]; [|done]. destruct (_ =? _); [|done]. intros [= <-]. apply Hf.
Qed.

Lemma predecessor_successor db o x y :
  tables_wf None db → by_id (index_rows db i) !! o = Some x → successor (row_lt i) (index_rows db i) x = Some y →
  predecessor (row_lt i) (index_rows db i) y = Some x.
Proof.
  intros Hwf Hx Hs. pose proof (successor_Some _ _ _ _ Hwf Hx Hs) as Hmin.
  apply successor_elem in Hs as (Ht & Hlt & _).
  unfold predecessor, last_by.
  pose proof (first_by_spec (λ x y, row_lt i y x) (λ r', row_lt i r' y) (by_id (index_rows db i))
    (weak_order_flip _ row_lt_weak)) as Hf.
  destruct (first_by _ _ _) as [b|]; [|by specialize (Hf o x Hx); cbn in Hf; congruence].
  destruct Hf as (Hb & [ob Hob] & Hmax). specialize (Hmax o x Hx Hlt). cbn in Hmax, Hb.
  assert (b = x) as ->.
  { eapply (rows_ordered db); [done..|]. destruct (row_lt i x b) eqn:Hxb; [|done].
    by rewrite (Hmin _ _ Hob Hxb) in Hb. }
  by rewrite (proj2 (Z.eqb_eq (r_t_id x) (r_t_id y))).
Qed.

Lemma last_row_successor db o x :
  tables_wf None db → by_id (index_rows db i) !! o = Some x → successor (row_lt i) (index_rows db i) x = None →
  last_row (row_lt i) (index_rows db i) (r_t_id x) = Some x.
Proof.
  intros Hwf Hx Hs. unfold last_row, last_by.
  pose proof (first_by_spec (λ x y, row_lt i y x) (λ r', r_t_id r' <=? r_t_id x) (by_id (index_rows db i))
    (weak_order_flip _ row_lt_weak)) as Hf.
  destruct (first_by _ _ _) as [b|]; [|specialize (Hf o x Hx); cbn in Hf; lia].
  destruct Hf as (Hb & [ob Hob] & Hmax). specialize (Hmax o x Hx). cbn in Hmax, Hb.
  assert (b = x) as ->; [|by rewrite Z.eqb_refl].
  eapply (rows_ordered db); [done..|apply Hmax; lia|]. apply not_true_iff_false. intros Hxb.
  revert Hs. unfold successor.
  pose proof (first_by_spec (row_lt i) (row_lt i x) (by_id (index_rows db i)) row_lt_weak) as Hn.
  destruct (first_by _ _ _) as [z|]; [|specialize (Hn _ _ Hob); congruence].
  destruct Hn as (Hz & _ & Hmin). specialize (Hmin _ _ Hob Hxb).
  destruct (Z.eqb_spec (r_t_id z) (r_t_id x)) as [|Hne]; [done|]. intros _.
  apply row_lt_iff in Hz as [Hz|[Hz _]]; [|congruence]. apply not_true_iff_false in Hmin. apply Hmin.
  apply row_lt_iff. left. lia.
Qed.
End order.
