(* ===== verification/TableTheorems.v ===== *)
(** * Theorems on the table interface

    Any sequence of calls of a contract keeps the tables well formed and is
    free of undefined behaviour, bills the RAM of rows and tables exactly, and
    leaves the tables of other contracts alone; rows are read back as they were
    stored, and iterators walk a table in both directions.  Two theorems show
    calls that do not behave as they should. *)

From S2P Require Import Prelude Exceptions Config Name Merkle Database ResourceLimits Authority Transaction ChainConfig AuthorizationManager StateMonad IteratorCache ChainDatabase TransactionContext ApplyContext ContractTables TableCalls.

Section theorems.
Context {K : Type} `{EqDecision K} {keys : secondary_keys}.
Context (control : controller_view) (act : action) (unpack_setcode : bytes → res setcode).
Implicit Types w : world K.

(** ** Sequences of calls *)

Inductive table_history w : list table_call → world K → Prop :=
  | history_start : table_history w [] w
  | history_call cs w1 c v w2 :
      table_history w cs w1 → world_small w1 → call_ok c → call_defined w1 c →
      run_call control act unpack_setcode c w1 = Done v w2 → table_history w (cs ++ [c]) w2.

(** The state in which an action starts. *)
Definition action_starts w (receiver : Z) : Prop :=
  w_ctx w = make_apply_context act receiver ∧ tables_wf None (contracts w) ∧ usage_ok w.

Lemma action_starts_wf w receiver : action_starts w receiver → world_wf w.
Proof.
  intros (Hc & Hwf & Hu). constructor; [done| |done]. intros i. rewrite Hc. cbn.
  constructor; [apply cache_empty_wf|]. intros it o [_ Hd]. cbn in Hd. by rewrite lookup_nil in Hd.
Qed.

Lemma history_sound w cs w' :
  world_wf w → table_history w cs w' →
  world_wf w' ∧ sound_step act w w' ∧
  (Forall (λ c, checked c = true) cs → ∀ r, runs_as act unpack_setcode w r → foreign_kept r (contracts w) (contracts w')).
Proof.
  intros Hw. induction 1 as [|cs w1 c v w2 Hh (Hw1 & S1 & F1) Hs Hok Hdef Hrun]; [done|].
  pose proof (wp_Done _ _ _ _ _ (run_call_spec control act unpack_setcode w1 c Hw1 Hs Hok Hdef) Hrun) as [S2 Hw2 F2].
  split; [done|]. split; [by etrans|]. intros [Hcs Hc%Forall_inv]%Forall_app r Hr.
  etrans; [by apply F1|]. apply F2; [done|]. by apply (runs_as_frame _ _ w w1 r (ss_frame _ _ _ S1)).
Qed.


(** C30: Whatever a contract has called, the RAM of every account has changed by
    exactly the change of the size of the rows and tables that it pays for, and
    it has grown only for the receiver, for accounts that authorized the action,
    and for everybody if the contract is privileged. *)
Theorem table_calls_bill_ram w receiver cs w' a :
  action_starts w receiver → table_history w cs w' →
  ram_of w' a - ram_of w a = billed_to (contracts w') a - billed_to (contracts w) a ∧
  (ram_of w a < ram_of w' a → may_charge act w a).
Proof.
  intros Hst Hh. destruct (history_sound w cs w' (action_starts_wf _ _ Hst) Hh) as (_ & [_ Hc Hl] & _).
  specialize (Hc a). unfold unbilled in Hc. split; [lia|]. intros Hlt. destruct (Hl a); [lia|done].
Qed.

(** C31: Whatever a contract has called, the tables of other accounts and their
    rows are unchanged, unless a call named the account of the table itself or
    turned off the check. *)
Theorem table_calls_keep_foreign_tables w receiver cs w' r :
  action_starts w receiver → table_history w cs w' →
  Forall (λ c, checked c = true) cs → runs_as act unpack_setcode w r →
  foreign_kept r (contracts w) (contracts w').
Proof.
  intros Hst Hh Hc Hr. by destruct (history_sound w cs w' (action_starts_wf _ _ Hst) Hh) as (_ & _ & HF); apply HF.
Qed.

(** ** Reading back *)

Lemma find_row_live db i o (r : index_row i) :
  tables_wf None db → by_id (index_rows db i) !! o = Some r →
  find_row i (index_rows db i) (r_t_id r) (r_primary r) = Some r.
Proof.
  intros Hwf Hr. destruct (find_row _ _ _ _) as [r'|] eqn:Hf.
  - apply find_row_Some in Hf as (o' & Ho' & Hp).
    assert (o' = o) by (by eapply (tw_unique _ _ Hwf i)). congruence.
  - by destruct (find_row_None _ _ _ _ _ _ Hf Hr).
Qed.

Lemma find_table_live db t tab :
  tables_wf None db → tables db !! t = Some tab →
  find_table_id db (tb_code tab) (tb_scope tab) (tb_table tab) = Some t.
Proof.
  intros Hwf Ht. destruct (find_table_id _ _ _ _) as [t'|] eqn:Hf.
  - apply find_table_id_Some in Hf as (tab' & Ht' & Hk). f_equal. by eapply (tw_keys _ _ Hwf).
  - by destruct (find_table_id_None _ _ _ _ _ _ Hf Ht).
Qed.

Lemma search_returns w i code scope table find : nothrow (search i code scope table find) w.
Proof.
  unfold search, find_table. apply nothrow_bind; [done|]. intros tab w1 _. destruct tab as [t|]; [|done].
  apply nothrow_bind.
  { apply nothrow_zoom. unfold cache_table. apply nothrow_bind; [done|]. intros c c' _. by destruct (_ !! _) as [[]|]. }
  intros ei w2 _. apply nothrow_bind; [done|]. intros w3 w4 _. destruct (find _ _) as [r|]; [|done].
  apply nothrow_bind; [|done]. apply nothrow_zoom. unfold cache_add. apply nothrow_bind; [done|].
  intros c c' _. by destruct (_ !! _).
Qed.

(** The row that a store has made. *)
Lemma stored_row_lookup db db' i code scope table payer id d o :
  tables_wf None db → stored db db' i code scope table payer id d o →
  ∃ t tab, tables db' !! t = Some tab ∧ tb_key tab = (code, scope, table) ∧
    by_id (index_rows db' i) !! o = Some (Row o t id payer d).
Proof.
  intros Hwf (t & db1 & tab & Htf & Ht & _ & -> & ->).
  destruct (table_for_key _ _ _ _ _ _ _ Htf) as (tab' & Ht' & Hk & _). assert (tab' = tab) as -> by congruence.
  exists t, (with_count tab (u32 (tb_count tab + 1))). unfold insert_row_db. cbn zeta.
  split; [apply lookup_insert_eq|]. split; [done|]. change (index_rows (with_tables ?x _ _)) with (index_rows x).
  rewrite index_rows_put_eq, (table_for_rows _ _ _ _ _ _ _ Htf). apply lookup_insert_eq.
Qed.

(** A row that was stored is found under its key, by the iterator that the
    store returned, and its value is read back. *)
Theorem store_find_get w i code scope table payer id d it w1 :
  world_wf w → world_small w → value_size i d < 2 ^ 32 →
  db_store control act i code scope table payer id d w = Done it w1 → world_small w1 →
  (∃ w2, db_find i code scope table id w1 = Done it w2 ∧ looked act w1 w2) ∧
  (∃ w2, db_get_exex i it w1 = Done (value_size i d, value_bytes i d) w2 ∧ looked act w1 w2).
Proof.
  intros Hw Hs Hd Hst Hs1.
  destruct (wp_Done _ _ _ _ _ (db_store_spec control act w i code scope table payer id d Hw Hs Hd) Hst)
    as (_ & Hw1 & _ & o & Hsto & Hden & _).
  destruct (stored_row_lookup _ _ _ _ _ _ _ _ _ _ (ww_tables _ Hw) Hsto) as (t & tab & Ht & Hk & Hr).
  pose proof (find_table_live _ _ _ (ww_tables _ Hw1) Ht) as Hft. injection Hk as Hk1 Hk2 Hk3. rewrite Hk1, Hk2, Hk3 in Hft.
  pose proof (find_row_live _ _ _ _ (ww_tables _ Hw1) Hr) as Hfr. cbn in Hfr. split.
  - destruct (wp_total _ _ _ (search_spec act w1 i code scope table _ Hw1 Hs1 (finds_row i id))
      (search_returns w1 i code scope table _)) as ([it' r'] & w2 & Hrun & L & Hres).
    rewrite Hft in Hres. cbn in Hres. rewrite Hfr in Hres. destruct Hres as [-> [Hd' _]]. exists w2.
    split; [|done]. unfold db_find. erewrite bind_run by done. cbn. unfold mret, M_ret. f_equal.
    eapply denotes_inj; [apply (ww_caches _ (lk_wf _ _ _ L))|done|by apply (lk_denotes _ _ _ L)].
  - pose proof (wp_read_row act w1 i it (λ r, (value_size i (r_data r), value_bytes i (r_data r))) Hw1) as Hwp.
    destruct (wp_total _ _ _ Hwp) as (a & w2 & Hrun & R & o' & r & Hd' & Hr' & ->).
    + apply nothrow_bind; [apply nothrow_zoom; intros e; by rewrite (cache_get_denotes _ _ _ Hden)|].
      intros o' w3 _. apply nothrow_bind; [|done]. unfold get_row. apply nothrow_bind; [done|].
      intros ? ? _. apply nothrow_deref.
    + exists w2. assert (o' = o) as -> by (destruct Hden as [_ H1], Hd' as [_ H2]; congruence).
      assert (r = Row o t id payer d) as -> by congruence. split; [exact Hrun|by apply reads_looked].
Qed.

(** ** Order *)

Lemma lower_bound_row_spec i id (rs : index_rows_type i) t :
  match lower_bound_row i id rs t with
  | Some r => r_t_id r = t ∧ primary_key_lt i (r_primary r) id = false ∧
      ∀ o x, by_id rs !! o = Some x → r_t_id x = t → primary_key_lt i (r_primary x) id = false →
        primary_key_lt i (r_primary x) (r_primary r) = false
  | None => ∀ o x, by_id rs !! o = Some x → r_t_id x = t → primary_key_lt i (r_primary x) id = true
  end.
Proof.
  unfold lower_bound_row, in_table, primary_of.
  pose proof (first_by_spec (row_lt i) (λ r, negb (scope_primary_lt i (r_t_id r, r_primary r) (t, id))) (by_id rs) row_lt_weak) as Hf.
  assert (Hq : ∀ r : index_row i, r_t_id r = t →
    negb (scope_primary_lt i (r_t_id r, r_primary r) (t, id)) = negb (primary_key_lt i (r_primary r) id)).
  { intros r <-. unfold scope_primary_lt. cbn. by rewrite Z.ltb_irrefl, Z.eqb_refl. }
  assert (Hq' : ∀ r : index_row i, negb (scope_primary_lt i (r_t_id r, r_primary r) (t, id)) = true → t <= r_t_id r).
  { intros r. unfold scope_primary_lt. cbn. lia. }
  destruct (first_by _ _ _) as [r|].
  - destruct Hf as (Hr & _ & Hmin). destruct (Z.eqb_spec (r_t_id r) t) as [Ht|Hne]; cbn [negb].
    + rewrite Hq in Hr by done. split; [done|]. split; [by apply negb_true_iff|]. intros o x Hx Hxt Hge.
      assert (Hlt : row_lt i x r = false) by (apply (Hmin o); [done|rewrite Hq by done; by rewrite Hge]).
      apply not_true_iff_false in Hlt. apply not_true_iff_false. intros ?. apply Hlt, row_lt_iff. right. split; [lia|done].
    + intros o x Hx Hxt. apply not_false_iff_true. intros Hge. specialize (Hq' r Hr).
      assert (Hlt : row_lt i x r = false) by (apply (Hmin o); [done|rewrite Hq by done; by rewrite Hge]).
      apply not_true_iff_false in Hlt. apply Hlt, row_lt_iff. left. lia.
  - intros o x Hx Hxt. specialize (Hf o x Hx). rewrite Hq in Hf by done. by apply negb_false_iff in Hf.
Qed.

(** The lower bound of a key is -1 without the table; otherwise it is the
    iterator of the least row of the table that is not less than the key, or the
    end iterator of the table when every row is less. *)
Theorem db_lowerbound_least w i code scope table id :
  world_wf w → world_small w →
  ∃ it w', db_lowerbound i code scope table id w = Done it w' ∧ looked act w w' ∧
    match find_table_id (contracts w) code scope table with
    | None => it = -1
    | Some t =>
        (∃ r, points_to w' i it t (Some r) ∧ primary_key_lt i (r_primary r) id = false ∧
           ∀ o x, by_id (index_rows (contracts w) i) !! o = Some x → r_t_id x = t →
             primary_key_lt i (r_primary x) id = false → primary_key_lt i (r_primary x) (r_primary r) = false) ∨
        (points_to w' i it t None ∧
           ∀ o x, by_id (index_rows (contracts w) i) !! o = Some x → r_t_id x = t →
             primary_key_lt i (r_primary x) id = true)
    end.
Proof.
  intros Hw Hs.
  destruct (wp_total _ _ _ (search_spec act w i code scope table (lower_bound_row i id) Hw Hs (finds_bound i _ _))
    (search_returns w i code scope table _)) as ([it r] & w' & Hrun & L & Hres).
  exists it, w'. split; [unfold db_lowerbound; by erewrite bind_run by done|]. split; [done|].
  destruct (find_table_id _ _ _ _) as [t|]; [|by injection Hres].
  cbn in Hres. destruct Hres as [-> P]. pose proof (lower_bound_row_spec i id (index_rows (contracts w) i) t) as Hl.
  destruct (lower_bound_row _ _ _ _) as [r|]; [left; exists r|right]; naive_solver.
Qed.

(** Following an iterator that denotes a row does not throw. *)
Lemma nothrow_locate {A} w i iterator o (k : Z → index_row i → M (world K) A) :
  denotes (caches (w_ctx w) i) iterator o →
  (∀ r, by_id (index_rows (contracts w) i) !! o = Some r →
     nothrow (k o r) (set_cache w i (caches (w_ctx w) i))) →
  nothrow (o ← with_cache i (cache_get iterator); obj ← get_row i o; k o obj) w.
Proof.
  intros Hd Hk. unfold with_cache. apply nothrow_bind.
  { apply nothrow_zoom. intros e. by rewrite (cache_get_denotes _ _ _ Hd). }
  intros o' w1 (c & Hc & ->)%zoom_Done. rewrite (cache_get_denotes _ _ _ Hd) in Hc. injection Hc as <- <-.
  apply nothrow_bind; [unfold get_row; apply nothrow_bind; [done|intros; apply nothrow_deref]|].
  intros r w2 Hg. unfold get_row, get, deref, mbind, M_bind in Hg. cbn in Hg.
  destruct (by_id (index_rows (contracts w) i) !! o) as [r'|] eqn:Hr; [|done]. injection Hg as -> <-. by apply Hk.
Qed.

Lemma add_returns w i r : nothrow (add_iterator i r) w.
Proof.
  apply nothrow_bind; [|done]. apply nothrow_zoom. unfold cache_add. apply nothrow_bind; [done|].
  intros c c' _. by destruct (_ !! _).
Qed.

Lemma next_returns w i lt iterator o :
  world_wf w → denotes (caches (w_ctx w) i) iterator o → nothrow (next_in i lt iterator) w.
Proof.
  intros Hw Hd. unfold next_in. destruct (_ <? _); [done|]. eapply nothrow_locate; [done|]. intros r Hr.
  apply nothrow_bind; [done|]. intros ? ? [= <- <-].
  assert (Hend : nothrow (ei ← with_cache i (get_end_iterator_by_table_id (r_t_id r)); mret (ei, @None (primary_key_type i)))
    (set_cache w i (caches (w_ctx w) i))).
  { apply nothrow_bind; [|done]. apply nothrow_zoom. cbn. rewrite put_cache_eq.
    destruct (cl_live _ _ _ _ (ww_caches _ Hw i) iterator o Hd) as (r' & ei & Hr' & Hc); [done|].
    assert (r' = r) as -> by congruence. unfold get_end_iterator_by_table_id. apply nothrow_bind; [done|].
    intros ? ? [= <- <-]. by rewrite Hc. }
  destruct (first_by _ _ _) as [r'|]; [|done]. destruct (negb _); [done|apply add_returns].
Qed.

Lemma previous_returns w i lt iterator o :
  denotes (caches (w_ctx w) i) iterator o → nothrow (previous_in i lt iterator) w.
Proof.
  intros Hd. unfold previous_in. destruct Hd as [H0 Hd]. rewrite (proj2 (Z.ltb_ge _ _)) by lia.
  eapply nothrow_locate; [done|]. intros r Hr. apply nothrow_bind; [done|]. intros ? ? _.
  destruct (last_by _ _ _) as [r'|]; [|done]. destruct (negb _); [done|apply add_returns].
Qed.

Lemma previous_end_returns w i lt iterator t :
  cache_wf (caches (w_ctx w) i) → cache_small (caches (w_ctx w) i) →
  table_cache (caches (w_ctx w) i) !! t = Some (t, iterator) → nothrow (previous_in i lt iterator) w.
Proof.
  intros Hwf [_ Hs] Hc. destruct (wf_tables _ Hwf _ _ _ Hc) as [_ (n & Hn & ->)].
  pose proof (lookup_lt_Some _ _ _ Hn). unfold previous_in. rewrite (proj2 (Z.ltb_lt _ _)) by lia.
  pose proof (find_table_by_end_iterator_run (caches (w_ctx w) i) (Z.of_nat n) ltac:(lia)) as Hrun.
  rewrite Nat2Z.id, Hn in Hrun. apply nothrow_bind.
  { apply nothrow_zoom. intros e. by rewrite Hrun. }
  intros o w1 (c & Hf & ->)%zoom_Done. rewrite Hrun in Hf. revert Hf.
  intros [= <- <-]. apply nothrow_bind.
  { unfold get_table_object. apply nothrow_bind; [done|]. intros; apply nothrow_deref. }
  intros ? ? _. apply nothrow_bind; [done|]. intros ? ? _.
  destruct (last_by _ _ _) as [r'|]; [|done]. destruct (negb _); [done|apply add_returns].
Qed.

(** Moving an iterator forward and back returns to it: from the next row, and
    from the end iterator after the last row of the table. *)
Theorem next_then_previous w i iterator o :
  world_wf w → world_small w → denotes (caches (w_ctx w) i) iterator o →
  ∃ it key w1, db_next i iterator w = Done (it, key) w1 ∧
    (world_small w1 → ∃ r w2, by_id (index_rows (contracts w) i) !! o = Some r ∧
       db_previous i it w1 = Done (iterator, Some (r_primary r)) w2).
Proof.
  intros Hw Hs Hd.
  destruct (wp_total _ _ _ (next_in_spec act w i (row_lt i) iterator Hw Hs (Z.le_trans (-1) 0 _ ltac:(lia) (proj1 Hd)))
    (next_returns w i (row_lt i) iterator o Hw Hd)) as ([it key] & w1 & Hrun & L & o' & r & Hd' & Hr & _ & P).
  assert (o' = o) as -> by (destruct Hd as [_ H1], Hd' as [_ H2]; congruence). clear Hd'.
  exists it, key, w1. split; [done|]. intros Hs1. exists r.
  pose proof (lk_wf _ _ _ L) as Hw1. pose proof (lk_denotes _ _ _ L _ _ _ Hd) as Hd1.
  assert (Hback : ∀ res w2, points_to w2 i res (r_t_id r) (Some r) → looked act w1 w2 → res = iterator).
  { intros res w2 (Hres & _ & _) L2. rewrite (row_id w i o r Hw Hr) in Hres.
    eapply denotes_inj; [apply (ww_caches _ (lk_wf _ _ _ L2))|done|by apply (lk_denotes _ _ _ L2)]. }
  cbn [fst] in P. destruct (successor (row_lt i) (index_rows (contracts w) i) r) as [y|] eqn:Hsucc.
  - destruct P as (Hdy & Hy & Hty). assert (Hit : 0 <= it) by apply Hdy.
    destruct (wp_total _ _ _ (previous_in_spec act w1 i (row_lt i) it Hw1 Hs1 ltac:(lia))
      (previous_returns w1 i (row_lt i) it _ Hdy)) as ([res k] & w2 & Hrun2 & oy & y' & Hdy' & Hy' & L2 & Hk & P2).
    assert (oy = r_id y) as -> by (destruct Hdy as [_ H1], Hdy' as [_ H2]; congruence).
    assert (y' = y) as -> by congruence. rewrite (lk_db _ _ _ L) in *.
    rewrite (predecessor_successor _ _ _ _ (ww_tables _ Hw) Hr Hsucc) in P2, Hk. cbn [fst snd fmap option_fmap option_map] in *.
    exists w2. split; [done|]. unfold db_previous. rewrite Hrun2, Hk, Hty in *. by rewrite (Hback res w2).
  - destruct P as [Hc Hit]. destruct (wf_tables _ (cl_wf _ _ _ _ (ww_caches _ Hw1 i)) _ _ _ Hc) as [_ (n & Hn & Hneg)].
    pose proof (lookup_lt_Some _ _ _ Hn). pose proof (proj2 (proj1 Hs1 i)).
    assert (Hidx : end_iterator_to_index it = Some (Z.of_nat n)) by (rewrite Hneg; apply end_iterator_to_index_id; lia).
    assert (Hlive : end_live w1 i it).
    { intros _. exists (Z.of_nat n). split; [done|]. rewrite Nat2Z.id, Hn. intros t [= <-].
      rewrite (lk_db _ _ _ L). by destruct (table_of_row _ _ _ _ Hw Hr) as [tab ->]. }
    destruct (wp_total _ _ _ (previous_in_end_spec act w1 i (row_lt i) it Hw1 Hs1 ltac:(unfold is_signed; lia) Hit Hlive)
      (previous_end_returns w1 i (row_lt i) it _ (cl_wf _ _ _ _ (ww_caches _ Hw1 i)) (proj1 Hs1 i) Hc))
      as ([res k] & w2 & Hrun2 & t & Ht & Hct & L2 & Hk & P2).
    assert (t = r_t_id r) as ->.
    { destruct (wf_tables _ (cl_wf _ _ _ _ (ww_caches _ Hw1 i)) _ _ _ Hct) as [_ (n' & Hn' & Hneg')].
      assert (n' = n) as -> by lia. congruence. }
    rewrite (lk_db _ _ _ L), (last_row_successor _ _ _ (ww_tables _ Hw) Hr Hsucc) in P2, Hk.
    cbn [fst snd fmap option_fmap option_map] in *.
    exists w2. split; [done|]. unfold db_previous. rewrite Hrun2, Hk. by rewrite (Hback res w2).
Qed.
End theorems.

(** ** Examples *)

Module contract.
Definition act : action := Action 7 7 [PermissionLevel 7 1] [].
Definition no_setcode : bytes → res setcode := λ _, Throw std_logic_error.

(** Keys compared as integers; the first row that matches. *)
Definition int_lt (i : table_index) : data_type i → data_type i → bool :=
  match i with
  | key_value_index | key256_value_index => λ _ _, false
  | index256_index => key256_lt
  | _ => Z.ltb
  end.
Definition pick (i : table_index) (p : index_row i → bool) (m : gmap Z (index_row i)) : option (index_row i) :=
  first_by (λ _ _, false) p m.

#[export] Program Instance int_keys : secondary_keys := {| key_lt := int_lt; find_matching := pick |}.
Next Obligation. intros i p m r H. by apply first_by_elem in H. Qed.
Next Obligation.
  intros i p m o r Hn Hr. unfold pick in Hn.
  assert (Hwo : weak_order (λ _ _ : index_row i, false)) by done.
  pose proof (first_by_spec (λ _ _, false) p m Hwo) as H. rewrite Hn in H. eauto.
Qed.

(** The contract of account 7 runs, authorized by it, on empty tables. *)
Definition start : world Z :=
  World (bills.chain bills.two_accounts) bills.fresh (make_apply_context act 7).

Definition run_all (cs : list table_call) (w : world Z) : outcome (world Z) unit :=
  for_each cs (λ c, run_call bills.control act no_setcode c;; mret tt) w.

Definition store1 : table_call := CallStore key_value_index 1 2 7 5 [1; 2].
Definition store2 : table_call := CallStore key_value_index 1 2 7 9 [3].
End contract.

(** Moving back the end iterator of a table whose last row was removed in the
    same action follows a pointer to the removed table. *)
Theorem previous_follows_removed_table :
  contract.run_all [contract.store1; CallEnd key_value_index 7 1 2; CallRemove key_value_index 0 true]
    contract.start ≠ Undefined ∧
  contract.run_all [contract.store1; CallEnd key_value_index 7 1 2; CallRemove key_value_index 0 true;
                    CallPrevious key_value_index (-2)] contract.start = Undefined.
Proof. split; vm_compute; [done|reflexivity]. Qed.

(** A contract that is neither privileged nor authorized by account 8 can
    store a row in a table of account 8, by naming that account. *)
Theorem explicit_code_store_is_not_checked :
  ac_privileged (w_ctx contract.start) = false ∧ has_authorization contract.act 8 = false ∧
  match db_store_i64 bills.control contract.act 8 1 2 7 5 [1] contract.start with
  | Done _ w => tb_key <$> tables (contracts w) !! 0 = Some (8, 1, 2)
  | _ => False
  end.
Proof. vm_compute. done. Qed.

(** ** Witnesses *)

#[local] Existing Instance contract.int_keys.

Definition after (cs : list table_call) : world Z :=
  match contract.run_all cs contract.start with Done _ w => w | _ => contract.start end.

Lemma start_ok : action_starts contract.act contract.start 7.
Proof.
  split; [done|]. split; [|exact (proj2 (proj2 two_accounts_wf))]. by constructor.
Qed.

Lemma start_small : world_small contract.start.
Proof. split; [intros i; by vm_compute|done]. Qed.

Lemma stored_history :
  table_history bills.control contract.act contract.no_setcode contract.start [contract.store1] (after [contract.store1]).
Proof.
  apply (history_call _ _ _ _ [] contract.start contract.store1 0); [constructor|apply start_small|by vm_compute|done|vm_compute; reflexivity].
Qed.

Lemma stored_small : world_small (after [contract.store1]).
Proof.
  split; [intros i; destruct i; vm_compute; done|]. intros t tab Ht%elem_of_map_to_list. revert Ht.
  let l := eval vm_compute in (map_to_list (tables (contracts (after [contract.store1])))) in
  replace (map_to_list (tables (contracts (after [contract.store1])))) with l by (vm_compute; reflexivity).
  intros [[= _ ->]|H%not_elem_of_nil]%elem_of_cons; [cbn; lia|done].
Qed.


(** Account 7 pays for the row of two bytes and for the table. *)
Lemma table_calls_bill_ram_witness :
  ram_of (after [contract.store1]) 7 - ram_of contract.start 7 = 2 + billable.key_value + billable.table_id.
Proof.
  destruct (table_calls_bill_ram bills.control contract.act contract.no_setcode contract.start 7 [contract.store1]
    (after [contract.store1]) 7 start_ok stored_history) as [-> _]. vm_compute. reflexivity.
Defined.

Lemma table_calls_keep_foreign_tables_witness :
  foreign_kept 7 (contracts contract.start) (contracts (after [contract.store1])).
Proof.
  apply (table_calls_keep_foreign_tables bills.control contract.act contract.no_setcode contract.start 7
    [contract.store1] (after [contract.store1]) 7 start_ok stored_history); [by constructor|reflexivity].
Defined.

Lemma store_find_get_witness :
  ∃ w2, db_find key_value_index 7 1 2 5 (after [contract.store1]) = Done 0 w2.
Proof.
  destruct (store_find_get bills.control contract.act contract.start key_value_index 7 1 2 7 5 [1; 2] 0
    (after [contract.store1]) (action_starts_wf _ _ _ start_ok) start_small) as [(w2 & H & _) _];
    [vm_compute; reflexivity|vm_compute; reflexivity|exact stored_small|]. by exists w2.
Defined.

Lemma stored_wf : world_wf (after [contract.store1]).
Proof. apply (history_sound _ _ _ _ _ _ (action_starts_wf _ _ _ start_ok) stored_history). Qed.

Lemma db_lowerbound_least_witness :
  ∃ it w', db_lowerbound key_value_index 7 1 2 4 (after [contract.store1]) = Done it w'.
Proof.
  destruct (db_lowerbound_least contract.act (after [contract.store1]) key_value_index 7 1 2 4 stored_wf stored_small)
    as (it & w' & H & _). by exists it, w'.
Defined.

Lemma next_then_previous_witness :
  ∃ it key w1, db_next key_value_index 0 (after [contract.store1]) = Done (it, key) w1.
Proof.
  destruct (next_then_previous contract.act (after [contract.store1]) key_value_index 0 0 stored_wf stored_small)
    as (it & key & w1 & H & _); [by vm_compute|]. by exists it, key, w1.
Defined.

