(* ===== verification/NativeActions.v ===== *)
(** * Correctness of the native actions

    The handlers of EosioContract.v keep the permission tree well formed and
    bill exactly the RAM of the accounts, code, permissions, links and delayed
    transactions that they create, change or remove. *)

From S2P Require Import Prelude Exceptions Config Name Merkle Database ResourceLimits Authority Transaction ChainConfig AuthorizationManager StateMonad IteratorCache ChainDatabase BlockHeaderState TransactionContext ApplyContext ContractTables EosioContract.

(** ** Sums over a list *)

Section zsum.
Context {A : Type} (f : A → Z).
Implicit Types l : list A.

Definition zsum l : Z := foldr (λ x acc, f x + acc) 0 l.

Lemma zsum_app l l' : zsum (l ++ l') = zsum l + zsum l'.
Proof. unfold zsum. induction l; cbn; lia. Qed.

Lemma zsum_update (key : A → Z) (g : A → A) l p :
  NoDup (map key l) → p ∈ l →
  zsum (map (λ x, if key x =? key p then g x else x) l) = zsum l - f p + f (g p).
Proof.
  unfold zsum. induction l as [|x l IH]; cbn; [by intros _ ?%not_elem_of_nil|]. intros [Hx Hl]%NoDup_cons [->|Hp]%elem_of_cons.
  - rewrite Z.eqb_refl. assert (Hrest : map (λ y, if key y =? key x then g y else y) l = l); [|rewrite Hrest; lia].
    clear -Hx. induction l as [|y l IH]; cbn; [done|]. cbn in Hx. rewrite not_elem_of_cons in Hx.
    destruct (Z.eqb_spec (key y) (key x)); [naive_solver|]. f_equal. apply IH. naive_solver.
  - destruct (Z.eqb_spec (key x) (key p)) as [Heq|]; [|rewrite (IH Hl Hp); lia].
    destruct Hx. rewrite Heq. by apply list_elem_of_fmap_2.
Qed.

Lemma zsum_filter (key : A → Z) l p :
  NoDup (map key l) → p ∈ l → zsum (filter (λ x, key x ≠ key p) l) = zsum l - f p.
Proof.
  unfold zsum. induction l as [|x l IH]; cbn [map]; [by intros _ ?%not_elem_of_nil|]. intros [Hx Hl]%NoDup_cons [->|Hp]%elem_of_cons.
  - rewrite filter_cons_False by naive_solver. cbn [foldr].
    assert (Hrest : filter (λ y, key y ≠ key x) l = l); [|rewrite Hrest; lia].
    clear -Hx. induction l as [|y l IH]; [done|]. cbn in Hx. rewrite not_elem_of_cons in Hx.
    rewrite filter_cons_True by naive_solver. f_equal. apply IH. naive_solver.
  - rewrite filter_cons_True; [cbn; rewrite (IH Hl Hp); lia|]. intros Heq. destruct Hx. rewrite Heq.
    by apply list_elem_of_fmap_2.
Qed.
End zsum.

Section native.
Context {K : Type} `{EqDecision K} {codec : native_codec K}.
Implicit Types (db : chain_db K) (adb : @authorization_db K) (w : world K).

Abbreviation auth_size a := (get_billable_size key_pack_size a).

(** ** What the RAM of an account is used for *)

Definition permission_bytes (p : @permission_object K) : Z := billable_permission + auth_size (po_auth p).

Definition billed_permissions adb (a : Z) : Z :=
  zsum (λ p, if po_owner p =? a then permission_bytes p else 0) (permissions adb).
Definition billed_links adb (a : Z) : Z :=
  map_sum (λ k _, if k.1.1 =? a then billable.permission_link else 0) (links adb).
Definition billed_account (accounts : gmap Z account_object) (a : Z) : Z :=
  match accounts !! a with
  | Some o => config.overhead_per_account_ram_bytes +
      config.setcode_ram_bytes_multiplier * Z.of_nat (length (ao_code o)) + Z.of_nat (length (ao_abi o))
  | None => 0
  end.
Definition generated_bytes (g : generated_transaction_object) : Z :=
  billable.generated_transaction + Z.of_nat (length (gto_packed_trx g)).
Definition billed_generated (gs : gmap digest_type generated_transaction_object) (a : Z) : Z :=
  map_sum (λ _ g, if gto_payer g =? a then generated_bytes g else 0) gs.

Definition native_billed db (a : Z) : Z :=
  billed_permissions (ch_authorization db) a + billed_links (ch_authorization db) a +
  billed_account (ch_accounts db) a + billed_generated (ch_generated db) a.

(** The RAM that is not accounted for. *)
Definition free_ram db (a : Z) : Z := ram_used (ch_limits db) a - (billed_to (ch_contracts db) a + native_billed db a).

(** ** The invariant *)

(** The permission tree, with a reserved root that no account owns. *)
Record auth_wf adb : Prop := {
  aw_tree : db_wf adb;
  aw_root : ∃ r, r ∈ permissions adb ∧ po_id r = 0 ∧ po_owner r = 0 }.

Record native_wf db : Prop := {
  nw_usage a u : db_usage (ch_limits db) !! a = Some u → usage_wf u;
  nw_auth : auth_wf (ch_authorization db);
  nw_permissions p : p ∈ permissions (ch_authorization db) → auth_size (po_auth p) < 2 ^ 40;
  nw_accounts a o : ch_accounts db !! a = Some o →
    Z.of_nat (length (ao_code o)) < 2 ^ 40 ∧ Z.of_nat (length (ao_abi o)) < 2 ^ 40;
  nw_generated k g : ch_generated db !! k = Some g → gto_trx_id g = k ∧ Z.of_nat (length (gto_packed_trx g)) < 2 ^ 39 }.

(** What a step guarantees. *)
Record native_step db db' : Prop := {
  ns_wf : native_wf db';
  ns_free a : free_ram db' a = free_ram db a }.

Lemma auth_size_nonneg a : 0 <= auth_size a.
Proof. unfold get_billable_size, wrap. apply Z.mod_pos_bound. lia. Qed.

(** A bill for a change of the database that does not touch the limits. *)
Lemma wp_bill db0 w account delta :
  native_wf db0 → native_wf (w_db w) → (∀ a, ram_used (ch_limits (w_db w)) a = ram_used (ch_limits db0) a) →
  ch_contracts (w_db w) = ch_contracts db0 → is_signed 64 delta →
  (∀ a, native_billed (w_db w) a = native_billed db0 a + (if a =? account then delta else 0)) →
  wp (add_ram_usage account delta) (λ _ w', native_step db0 (w_db w')) w.
Proof.
  intros H0 Hw Hl Hc Hd Hb. eapply wp_mono; [apply add_ram_usage_spec; [exact (nw_usage _ Hw)|done]|].
  intros [] w' (F & Hc' & _ & Hu & Hr). pose proof (fr_db _ _ F) as Hdb. rewrite Hc' in Hdb.
  assert (Hn : ∀ a, native_billed (w_db w') a = native_billed (w_db w) a) by (intros a; by rewrite Hdb).
  constructor.
  - constructor; [exact Hu|by rewrite Hdb; apply Hw..].
  - intros a. unfold free_ram. specialize (Hr a). unfold ram_of in Hr. rewrite Hr, Hn, Hb, Hl, Hc', Hc. lia.
Qed.

(** An authorization of the action changes nothing in the database. *)
Lemma wp_require_auth act account w Q :
  (∀ used, has_authorization act account = true → Q tt (World (w_db w) (w_trx w) (with_used (w_ctx w) used))) →
  wp (require_authorization act account) Q w.
Proof.
  intros HQ. apply mark_used_spec. intros auth Hin Hp used. apply HQ. unfold has_authorization. apply existsb_exists.
  exists auth. split; [by apply list_elem_of_In|]. by apply Z.eqb_eq.
Qed.

(** ** Changes of the permissions *)

Lemma create_permission_inv adb time account name parent auth t p adb' :
  create_permission adb time account name parent auth t = Ok (p, adb') →
  permissions adb' = permissions adb ++ [p] ∧ links adb' = links adb ∧
  po_owner p = account ∧ po_auth p = auth ∧ po_name p = name ∧ po_parent p = parent.
Proof.
  unfold create_permission. destruct (find_by_owner _ _ _); intros H; [done|]. by injection H as <- <-.
Qed.

Lemma create_permission_auth adb time account name parent auth t p adb' :
  auth_wf adb → valid_parent adb account parent →
  create_permission adb time account name parent auth t = Ok (p, adb') → auth_wf adb'.
Proof.
  intros [Hwf (r & Hr & Hid & Ho)] Hp Hc. constructor; [by eapply create_permission_wf|].
  apply create_permission_inv in Hc as (-> & _). exists r. split; [apply elem_of_app; by left|done].
Qed.

Lemma create_permission_billed adb time account name parent auth t p adb' a :
  create_permission adb time account name parent auth t = Ok (p, adb') →
  billed_permissions adb' a + billed_links adb' a =
  billed_permissions adb a + billed_links adb a + (if a =? account then billable_permission + auth_size auth else 0).
Proof.
  intros (Hp & Hl & Ho & Ha & _)%create_permission_inv. unfold billed_permissions, billed_links, permission_bytes.
  rewrite Hp, Hl, zsum_app. cbn. rewrite Ho, Ha, (Z.eqb_sym account a). lia.
Qed.

Lemma modify_permission_auth adb time p auth : auth_wf adb → auth_wf (modify_permission adb time p auth).
Proof.
  intros [Hwf (r & Hr & Hid & Ho)]. constructor; [by apply modify_permission_wf|].
  eexists. split; [apply list_elem_of_fmap_2, Hr|]. cbn. by destruct (_ =? _).
Qed.

Lemma modify_permission_billed adb time p auth a :
  auth_wf adb → p ∈ permissions adb →
  billed_permissions (modify_permission adb time p auth) a =
  billed_permissions adb a + (if a =? po_owner p then auth_size auth - auth_size (po_auth p) else 0).
Proof.
  intros [Hwf _] Hp. unfold billed_permissions. cbn [modify_permission permissions].
  rewrite (zsum_update _ po_id (λ po, PermissionObject (po_id po) (po_usage_id po) (po_parent po) (po_owner po)
    (po_name po) time auth)); [|apply Hwf|done]. unfold permission_bytes. cbn. rewrite (Z.eqb_sym (po_owner p) a).
  destruct (_ =? _); lia.
Qed.

Lemma remove_permission_inv adb p adb' :
  remove_permission adb p = Ok adb' →
  permissions adb' = filter (λ q, po_id q ≠ po_id p) (permissions adb) ∧ links adb' = links adb.
Proof. unfold remove_permission. intros H. by simplify_res. Qed.

(** A permission that an account owns is not the reserved one. *)
Lemma owned_not_reserved adb p : auth_wf adb → p ∈ permissions adb → po_owner p ≠ 0 → po_id p ≠ 0.
Proof.
  intros [Hwf (r & Hr & Hid & Ho)] Hp Hne H0. apply Hne. rewrite <- Ho. f_equal.
  pose proof (find_by_id_elem _ _ _ Hwf Hp) as H1. pose proof (find_by_id_elem _ _ _ Hwf Hr) as H2. congruence.
Qed.

Lemma remove_permission_auth adb p adb' :
  auth_wf adb → p ∈ permissions adb → po_owner p ≠ 0 → remove_permission adb p = Ok adb' → auth_wf adb'.
Proof.
  intros Hwf Hp Hne Hrm. pose proof (owned_not_reserved _ _ Hwf Hp Hne) as H0.
  destruct Hwf as [Hwf (r & Hr & Hid & Ho)]. destruct (remove_permission_wf adb p adb' Hwf H0 Hrm) as [Hwf' Hin].
  constructor; [done|]. exists r. split; [apply Hin; split; [done|congruence]|done].
Qed.

Lemma remove_permission_billed adb p adb' a :
  auth_wf adb → p ∈ permissions adb → remove_permission adb p = Ok adb' →
  billed_permissions adb' a = billed_permissions adb a - (if a =? po_owner p then permission_bytes p else 0).
Proof.
  intros [Hwf _] Hp [Hps _]%remove_permission_inv. unfold billed_permissions. rewrite Hps.
  rewrite (zsum_filter _ po_id); [|apply Hwf|done]. by rewrite (Z.eqb_sym (po_owner p) a).
Qed.

Lemma get_permission_Ok adb level p :
  get_permission adb level = Ok p →
  p ∈ permissions adb ∧ po_owner p = actor level ∧ po_name p = permission level ∧ actor level ≠ 0 ∧ permission level ≠ 0.
Proof.
  unfold get_permission, level_named. intros H. simplify_res.
  match goal with H : find_by_owner _ _ _ = Some p |- _ => apply find_by_owner_Some in H as (? & ? & ?) end.
  zbool. split_and!; try done; lia.
Qed.

(** ** Replacing a part of the database *)

Lemma with_authorization_wf db adb :
  native_wf db → auth_wf adb → (∀ p, p ∈ permissions adb → auth_size (po_auth p) < 2 ^ 40) →
  native_wf (with_authorization db adb).
Proof. intros [H1 H2 H3 H4 H5] Ha Hs. by constructor. Qed.

(** An account object is replaced, with its sequences. *)
Definition account_bytes (o : account_object) : Z :=
  config.setcode_ram_bytes_multiplier * Z.of_nat (length (ao_code o)) + Z.of_nat (length (ao_abi o)).

Definition change_account db (x : Z) (o : account_object) (ss : gmap Z account_sequence_object) : chain_db K :=
  with_sequences (with_accounts db (<[x := o]> (ch_accounts db))) ss.

Lemma change_account_wf db x o ss :
  native_wf db → Z.of_nat (length (ao_code o)) < 2 ^ 40 → Z.of_nat (length (ao_abi o)) < 2 ^ 40 →
  native_wf (change_account db x o ss).
Proof.
  intros [H1 H2 H3 H4 H5] Hc Ha. constructor; try done. cbn. intros a o' [[_ <-]|[_ ?]]%lookup_insert_Some; eauto.
Qed.

Lemma change_account_billed db x a o ss y :
  ch_accounts db !! x = Some a →
  native_billed (change_account db x o ss) y =
  native_billed db y + (if y =? x then account_bytes o - account_bytes a else 0).
Proof.
  intros Ha. unfold native_billed, change_account, billed_account, account_bytes. cbn.
  destruct (Z.eqb_spec y x) as [->|Hne]; [rewrite lookup_insert_eq, Ha; lia|].
  rewrite lookup_insert_ne by done. lia.
Qed.

(** The bill for a changed account, which is skipped when nothing changed. *)
Lemma wp_account_bill db0 w x a o ss delta :
  native_wf db0 → ch_accounts db0 !! x = Some a →
  Z.of_nat (length (ao_code o)) < 2 ^ 40 → Z.of_nat (length (ao_abi o)) < 2 ^ 40 →
  w_db w = change_account db0 x o ss → delta = account_bytes o - account_bytes a →
  wp (if negb (delta =? 0) then add_ram_usage x delta else mret tt) (λ _ w', native_step db0 (w_db w')) w.
Proof.
  intros H0 Ha Hc Hab Hdb Hd. destruct (nw_accounts _ H0 _ _ Ha) as [Hc' Hab'].
  pose proof (change_account_wf db0 x o ss H0 Hc Hab) as Hwf. rewrite <- Hdb in Hwf.
  assert (Hb : ∀ y, native_billed (w_db w) y = native_billed db0 y + (if y =? x then delta else 0)).
  { intros y. rewrite Hdb, Hd. by apply change_account_billed. }
  destruct (Z.eqb_spec delta 0) as [->|Hne]; cbn [negb].
  - wp_step. constructor; [done|]. intros y. unfold free_ram. rewrite Hb, Hdb. cbn. destruct (_ =? _); lia.
  - apply wp_bill; try done; [intros y; by rewrite Hdb|by rewrite Hdb|]. unfold is_signed, account_bytes, config.setcode_ram_bytes_multiplier in *. lia.
Qed.

Lemma native_step_refl db : native_wf db → native_step db db.
Proof. by constructor. Qed.

(** ** The handlers *)

(** The parts of the actions fit the sizes that are billed. *)
Record action_small (act : action) : Prop := {
  as_newaccount c : data_as config.system_account_name newaccount_name unpack_newaccount act = Ok c →
    auth_size (na_owner c) < 2 ^ 40 ∧ auth_size (na_active c) < 2 ^ 40;
  as_setcode c : data_as config.system_account_name setcode_name unpack_setcode act = Ok c →
    Z.of_nat (length (sc_code c)) < 2 ^ 40;
  as_setabi c : data_as config.system_account_name setabi_name unpack_setabi act = Ok c →
    Z.of_nat (length (sa_abi c)) < 2 ^ 40;
  as_updateauth c : data_as config.system_account_name updateauth_name unpack_updateauth act = Ok c →
    auth_size (ua_auth c) < 2 ^ 40 }.

Section handlers.
Context (control : controller_view) (lists : controller_lists K) (mode : app_mode) (act : action).
Context (vm_apply : Z → Z → Z → Z → M (world K) unit) (vm_setcode : Z → Z → res unit).
Context (Hsmall : action_small act).

(** The old code of an account, when it is asked, bills what it stores and
    removes no account. *)
Definition vm_sound : Prop :=
  ∀ t r a n w, native_wf (w_db w) → wp (vm_apply t r a n) (λ _ w',
    native_step (w_db w) (w_db w') ∧
    ∀ x, is_Some (ch_accounts (w_db w) !! x) → is_Some (ch_accounts (w_db w') !! x)) w.

Lemma billable_permission_bounds : 0 < billable_permission < 2 ^ 20.
Proof. vm_compute. split; congruence. Qed.

Lemma wp_changed w Q (x y : Z) (m : M (world K) unit) :
  (x =? y) = (x - y =? 0) → wp (if negb (x - y =? 0) then m else mret tt) Q w →
  wp (if negb (x =? y) then m else mret tt) Q w.
Proof. by intros ->. Qed.

Lemma apply_eosio_setabi_spec w :
  native_wf (w_db w) → wp (apply_eosio_setabi act) (λ _ w', native_step (w_db w) (w_db w')) w.
Proof.
  intros Hw. unfold apply_eosio_setabi. wp_step. apply wp_lift. intros c Hc. pose proof (as_setabi _ Hsmall c Hc) as Hlen.
  wp_step. apply wp_require_auth. intros used _. do 3 wp_step. apply wp_lift. cbn [w_db w_trx w_ctx].
  intros a Ha%db_get_Ok. destruct (nw_accounts _ Hw _ _ Ha) as [Hcode Habi].
  wp_step. unfold put_accounts. do 2 wp_step. apply wp_lift. intros s Hs. wp_step. unfold put_sequences. wp_step.
  rewrite swrap_id by (unfold is_signed; lia). apply wp_changed; [lia|].
  eapply wp_account_bill; [done|done| | |reflexivity|]; cbn; [done|done|]. unfold account_bytes. cbn. lia.
Qed.

Lemma setcode_size_id code : Z.of_nat (length code) < 2 ^ 40 → setcode_size code = config.setcode_ram_bytes_multiplier * Z.of_nat (length code).
Proof. intros Hl. unfold setcode_size. rewrite swrap_id by (unfold is_signed, config.setcode_ram_bytes_multiplier; lia). lia. Qed.

Lemma ask_old_code_spec w x a :
  vm_sound → native_wf (w_db w) →
  wp (ask_old_code control mode vm_apply x a) (λ _ w', native_step (w_db w) (w_db w') ∧
    ∀ y, is_Some (ch_accounts (w_db w) !! y) → is_Some (ch_accounts (w_db w') !! y)) w.
Proof.
  intros Hvm Hw. unfold ask_old_code. destruct (_ || _); [wp_step; by split; [apply native_step_refl|]|].
  wp_step. assert (Hgo : wp (if (0 <? length (ao_code a))%nat then vm_apply (ao_vm_type a) x x 0 else mret tt)
    (λ _ w', native_step (w_db w) (w_db w') ∧
      ∀ y, is_Some (ch_accounts (w_db w) !! y) → is_Some (ch_accounts (w_db w') !! y)) w).
  { destruct (_ <? _)%nat; [by apply Hvm|wp_step; by split; [apply native_step_refl|]]. }
  destruct (_ && _); [by apply wp_lift|by wp_step].
Qed.

Lemma apply_eosio_setcode_spec w :
  vm_sound → native_wf (w_db w) →
  wp (apply_eosio_setcode control mode act vm_apply vm_setcode) (λ _ w', native_step (w_db w) (w_db w')) w.
Proof.
  intros Hvm Hw. unfold apply_eosio_setcode. wp_step. apply wp_lift. intros c Hc.
  pose proof (as_setcode _ Hsmall c Hc) as Hlen. do 3 wp_step. apply wp_lift. intros a0 Ha0%db_get_Ok.
  wp_step. apply wp_require_auth. intros used _. wp_step. eapply wp_mono; [by apply ask_old_code_spec|].
  cbn [w_db w_trx w_ctx]. intros [] w1 [[Hw1 Hf1] Hacc]. wp_step. wp_step. do 2 wp_step.
  destruct (Hacc (sc_account c)) as [a Ha]; [by rewrite Ha0|]. wp_step. apply (wp_deref _ a); [done|].
  destruct (nw_accounts _ Hw1 _ _ Ha) as [Hcode Habi].
  wp_step. wp_step. wp_step. unfold put_accounts. do 2 wp_step. apply wp_lift. intros s Hs.
  wp_step. unfold put_sequences. do 2 wp_step.
  rewrite !setcode_size_id by done. rewrite swrap_id by (unfold is_signed, config.setcode_ram_bytes_multiplier; lia).
  apply wp_changed; [lia|]. eapply wp_mono.
  - eapply (wp_account_bill (w_db w1)); [done|done| | |reflexivity|]; cbn; [done|done|]. unfold account_bytes. cbn. lia.
  - intros [] w2 [Hw2 Hf2]. apply wp_lift. intros _ _. constructor; [done|]. intros x. by rewrite Hf2.
Qed.

(** Checks whose outcome the rest does not depend on. *)
Lemma wp_assert_if (b x : bool) e (Q : unit → world K → Prop) w :
  Q tt w → wp (if b then asserts x e else mret tt) Q w.
Proof. intros HQ. destruct b; [by apply wp_asserts|done]. Qed.

Lemma wp_assert_either (b x y : bool) e e' (Q : unit → world K → Prop) w :
  Q tt w → wp (if b then asserts x e else asserts y e') Q w.
Proof. intros HQ. destruct b; by apply wp_asserts. Qed.

(** A change of the permissions and the bill for it. *)
Lemma wp_authorization_bill db0 w adb account delta :
  native_wf db0 → auth_wf adb → (∀ p, p ∈ permissions adb → auth_size (po_auth p) < 2 ^ 40) →
  w_db w = with_authorization db0 adb → is_signed 64 delta →
  (∀ a, billed_permissions adb a + billed_links adb a =
     billed_permissions (ch_authorization db0) a + billed_links (ch_authorization db0) a +
     (if a =? account then delta else 0)) →
  wp (add_ram_usage account delta) (λ _ w', native_step db0 (w_db w')) w.
Proof.
  intros H0 Ha Hs Hdb Hd Hb. apply wp_bill; try done.
  - rewrite Hdb. by apply with_authorization_wf.
  - intros a. by rewrite Hdb.
  - by rewrite Hdb.
  - intros a. rewrite Hdb. unfold native_billed. cbn. specialize (Hb a). lia.
Qed.

Lemma permission_size_id auth : auth_size auth < 2 ^ 40 → permission_size auth = billable_permission + auth_size auth.
Proof.
  intros Hs. unfold permission_size. pose proof (auth_size_nonneg auth). pose proof billable_permission_bounds.
  rewrite wrap_id by (unfold is_unsigned; lia). apply swrap_id; [unfold is_signed|]; lia.
Qed.

Lemma find_permission_Ok adb level p :
  find_permission adb level = Ok (Some p) → p ∈ permissions adb ∧ po_owner p = actor level ∧ po_name p = permission level.
Proof. unfold find_permission. intros H. simplify_res. by apply find_by_owner_Some. Qed.

(** The parent under which [updateauth] puts a permission. *)
Lemma wp_parent_id w adb account (parent : Z) (owner : bool) Q :
  (∀ id, valid_parent adb account id → Q id w) →
  wp (if negb owner
      then p ← lift (get_permission adb (PermissionLevel account parent)); mret (po_id p)
      else mret 0) Q w.
Proof.
  intros HQ. destruct owner; cbn [negb]; [wp_step; apply HQ; by left|]. wp_step. apply wp_lift. intros p Hp. wp_step.
  apply HQ. right. apply get_permission_Ok in Hp as (Hin & Ho & _). by exists p.
Qed.

Lemma apply_eosio_updateauth_spec w :
  native_wf (w_db w) →
  wp (apply_eosio_updateauth control lists act) (λ _ w', native_step (w_db w) (w_db w')) w.
Proof.
  intros Hw. unfold apply_eosio_updateauth. wp_step. apply wp_lift. intros u Hu.
  pose proof (as_updateauth _ Hsmall u Hu) as Hlen. pose proof (auth_size_nonneg (ua_auth u)). pose proof billable_permission_bounds.
  wp_step. apply wp_require_auth. intros used _. repeat wp_step. cbn [w_db w_trx w_ctx] in *.
  apply wp_assert_if. wp_step. apply wp_assert_either. repeat wp_step.
  apply wp_parent_id. intros parent_id Hparent.
  pose proof (nw_auth _ Hw) as Haw.
  match goal with H : find_permission _ _ = Ok ?x |- _ => rename H into Hfind; destruct x as [p|] end.
  - apply find_permission_Ok in Hfind as (Hp & Ho & _). do 2 wp_step. wp_step. unfold put_authorization. wp_step.
    pose proof (nw_permissions _ Hw _ Hp). pose proof (auth_size_nonneg (po_auth p)).
    rewrite !permission_size_id by done. rewrite swrap_id by (unfold is_signed; lia).
    eapply wp_authorization_bill; [done| | |reflexivity|unfold is_signed; lia|].
    + by apply modify_permission_auth.
    + intros q Hq. apply list_elem_of_fmap in Hq as (q' & -> & Hq'). destruct (po_id q' =? po_id p); [done|by apply (nw_permissions _ Hw)].
    + intros x. rewrite modify_permission_billed by done. unfold billed_links. cbn. destruct (x =? po_owner p); lia.
  - wp_step. apply wp_lift. intros [p adb] Hc. wp_step. unfold put_authorization. wp_step.
    pose proof Hc as (Hps & Hl & Hpo & Hpa & _)%create_permission_inv. rewrite Hpa, permission_size_id by done.
    eapply wp_authorization_bill; [done| | |reflexivity|unfold is_signed; lia|].
    + by eapply create_permission_auth.
    + intros q. rewrite Hps. intros [Hq|Hq]%elem_of_app; [by apply (nw_permissions _ Hw)|].
      apply list_elem_of_singleton in Hq as ->. by rewrite Hpa.
    + intros x. by apply (create_permission_billed _ _ _ _ _ _ _ _ _ x Hc).
Qed.

Lemma apply_eosio_deleteauth_spec w :
  native_wf (w_db w) → wp (apply_eosio_deleteauth act) (λ _ w', native_step (w_db w) (w_db w')) w.
Proof.
  intros Hw. unfold apply_eosio_deleteauth. wp_step. apply wp_lift. intros d Hd. pose proof billable_permission_bounds.
  wp_step. apply wp_require_auth. intros used _. do 2 wp_step. do 2 wp_step. wp_step. wp_step. do 2 wp_step.
  wp_step. apply wp_lift. intros p Hp. cbn [w_db w_trx w_ctx] in *.
  apply get_permission_Ok in Hp as (Hp & Ho & _ & Hne & _). cbn in Ho, Hne. wp_step. apply wp_lift. intros adb Hrm.
  wp_step. unfold put_authorization. wp_step. pose proof (nw_auth _ Hw) as Haw.
  pose proof (nw_permissions _ Hw _ Hp). pose proof (auth_size_nonneg (po_auth p)).
  rewrite permission_size_id by done. rewrite swrap_id by (unfold is_signed; lia).
  eapply wp_authorization_bill; [done| | |reflexivity|unfold is_signed; lia|].
  - eapply remove_permission_auth; [done|done|by rewrite Ho|done].
  - intros q. destruct (remove_permission_inv _ _ _ Hrm) as [-> _]. intros [_ Hq]%list_elem_of_filter. by apply (nw_permissions _ Hw).
  - intros a. rewrite (remove_permission_billed _ _ _ a Haw Hp Hrm). destruct (remove_permission_inv _ _ _ Hrm) as [_ Hl].
    unfold billed_links. rewrite Hl, Ho. unfold permission_bytes. destruct (a =? da_account d); lia.
Qed.

(** *** Links *)

Lemma with_links_auth adb l : auth_wf adb → auth_wf (with_links adb l).
Proof. intros [Hwf Hr]. by constructor. Qed.

Lemma permission_link_size : is_signed 64 billable.permission_link ∧ is_signed 64 (- billable.permission_link).
Proof. vm_compute. split_and!; congruence. Qed.

Lemma apply_eosio_linkauth_spec w :
  native_wf (w_db w) → wp (apply_eosio_linkauth act) (λ _ w', native_step (w_db w) (w_db w')) w.
Proof.
  intros Hw. unfold apply_eosio_linkauth. wp_step. apply wp_lift. intros r Hr. do 2 wp_step.
  wp_step. apply wp_require_auth. intros used _. do 2 wp_step. do 2 wp_step. do 2 wp_step. wp_step. cbn [w_db w_trx w_ctx].
  apply wp_assert_if. set (key := (la_account r, la_code r, la_type r)). pose proof (nw_auth _ Hw) as Haw.
  destruct (links (ch_authorization (w_db w)) !! key) as [req|] eqn:Hl.
  - do 2 wp_step. unfold put_authorization. wp_step. constructor; cbn.
    + apply with_authorization_wf; [done|by apply with_links_auth|apply Hw].
    + intros a. unfold free_ram, native_billed, billed_links. cbn. by rewrite (map_sum_insert _ _ _ _ _ Hl), Z.sub_add.
  - wp_step. unfold put_authorization. wp_step. eapply wp_authorization_bill; [done| | |reflexivity| |].
    + by apply with_links_auth.
    + apply Hw.
    + apply permission_link_size.
    + intros a. change (billed_permissions (with_links ?x _) a) with (billed_permissions x a).
      unfold billed_links. cbn [with_links links]. rewrite map_sum_insert_fresh by done. cbn [fst key].
      rewrite (Z.eqb_sym (la_account r) a). lia.
Qed.

Lemma apply_eosio_unlinkauth_spec w :
  native_wf (w_db w) → wp (apply_eosio_unlinkauth act) (λ _ w', native_step (w_db w) (w_db w')) w.
Proof.
  intros Hw. unfold apply_eosio_unlinkauth. wp_step. apply wp_lift. intros u Hu.
  wp_step. apply wp_require_auth. intros used _. do 2 wp_step. cbn [w_db w_trx w_ctx].
  set (key := (ul_account u, ul_code u, ul_type u)).
  destruct (links (ch_authorization (w_db w)) !! key) as [req|] eqn:Hl; [|wp_step]. wp_step.
  eapply wp_mono; [apply add_ram_usage_spec; [exact (nw_usage _ Hw)|apply permission_link_size]|].
  intros [] w1 (F & Hc & _ & Hus & Hram). unfold put_authorization. wp_step.
  pose proof (fr_db _ _ F) as Hdb. rewrite Hc in Hdb. cbn [w_db] in Hdb. constructor; cbn [w_db].
  - constructor; [exact Hus|..]; cbn; [by apply with_links_auth, Hw|apply Hw|by rewrite Hdb; apply Hw..].
  - intros a. unfold free_ram, native_billed. specialize (Hram a). unfold ram_of in Hram.
    cbn [with_authorization ch_authorization ch_limits ch_contracts ch_accounts ch_generated w_db] in *.
    change (billed_permissions (with_links ?x _) a) with (billed_permissions x a).
    unfold billed_links. cbn [with_links links]. rewrite (map_sum_delete _ _ _ _ Hl), Hram, Hc, Hdb.
    cbn [with_contracts with_ch_limits ch_accounts ch_generated ch_limits fst key].
    rewrite (Z.eqb_sym (ul_account u) a). destruct (a =? ul_account u); lia.
Qed.

(** *** Delayed transactions *)

Lemma find_generated_Some db sender sender_id g :
  find_generated db sender sender_id = Some g →
  ∃ k, ch_generated db !! k = Some g ∧ gto_sender g = sender ∧ gto_sender_id g = sender_id.
Proof.
  unfold find_generated. intros H. apply fmap_Some in H as ([k g'] & H & ->).
  apply fmap_Some in H as ([n x] & H & Hx). cbn in Hx. subst x.
  apply list_find_Some in H as (Hn & HP & _). exists k. split; [|done].
  apply elem_of_map_to_list. by eapply list_elem_of_lookup_2.
Qed.

Lemma cancel_deferred_spec w sender_id sender :
  native_wf (w_db w) →
  wp (cancel_deferred_transaction sender_id sender) (λ _ w', native_step (w_db w) (w_db w')) w.
Proof.
  intros Hw. unfold cancel_deferred_transaction. do 2 wp_step.
  destruct (find_generated (w_db w) sender sender_id) as [g|] eqn:Hg; [|wp_step; by apply native_step_refl].
  apply find_generated_Some in Hg as (k & Hk & _). destruct (nw_generated _ Hw _ _ Hk) as [Hid Hlen]. rewrite Hid.
  assert (Hb : 0 < billable.generated_transaction < 2 ^ 20) by (vm_compute; split; congruence).
  fold (generated_bytes g). destruct (refund_id (generated_bytes g)) as [-> Hsg]; [unfold generated_bytes; lia|].
  wp_step. eapply wp_mono; [apply add_ram_usage_spec; [exact (nw_usage _ Hw)|done]|].
  intros [] w1 (F & Hc & _ & Hus & Hram). do 2 wp_step. unfold put_generated. do 2 wp_step. wp_step.
  pose proof (fr_db _ _ F) as Hdb. rewrite Hc in Hdb. constructor; cbn [w_db].
  - constructor; [exact Hus|..]; cbn; rewrite Hdb; cbn; [apply Hw..|]. intros k' g' [_ Hk']%lookup_delete_Some.
    by apply (nw_generated _ Hw).
  - intros a. unfold free_ram, native_billed. specialize (Hram a). unfold ram_of in Hram.
    cbn [with_generated ch_authorization ch_limits ch_contracts ch_accounts ch_generated w_db].
    rewrite Hram, Hc, Hdb. cbn [with_contracts with_ch_limits ch_authorization ch_accounts ch_generated].
    unfold billed_generated. rewrite (map_sum_delete _ _ _ _ Hk), (Z.eqb_sym (gto_payer g) a).
    destruct (a =? gto_payer g); lia.
Qed.

Lemma apply_eosio_canceldelay_spec w :
  native_wf (w_db w) → wp (apply_eosio_canceldelay act) (λ _ w', native_step (w_db w) (w_db w')) w.
Proof.
  intros Hw. unfold apply_eosio_canceldelay. wp_step. apply wp_lift. intros c Hc.
  wp_step. apply wp_require_auth. intros used _. wp_step.
  eapply wp_mono; [by apply cancel_deferred_spec|]. intros b w' H. by wp_step.
Qed.

(** *** New accounts *)

Lemma initialize_account_spec rl account rl' :
  (∀ a u, db_usage rl !! a = Some u → usage_wf u) → initialize_account rl account = Ok rl' →
  (∀ a u, db_usage rl' !! a = Some u → usage_wf u) ∧ (∀ a, ram_used rl' a = ram_used rl a).
Proof.
  intros Hwf H. unfold initialize_account in H. simplify_res.
  repeat match goal with H : db_create _ _ _ = Ok _ |- _ => apply db_create_Ok in H as [? ->] end.
  split.
  - cbn. intros a u [[_ <-]|[_ ?]]%lookup_insert_Some; [|eauto].
    unfold usage_wf, accumulator_wf, is_unsigned. cbn. lia.
  - intros a. unfold ram_used. cbn. destruct (decide (a = account)) as [->|Hne].
    + rewrite lookup_insert_eq. match goal with Hn : db_usage rl !! account = None |- _ => by rewrite Hn end.
    + by rewrite lookup_insert_ne.
Qed.

Lemma newaccount_delta x y :
  0 <= x < 2 ^ 40 → 0 <= y < 2 ^ 40 →
  i64 (i64 (i64 (config.overhead_per_account_ram_bytes + 2 * billable_permission) + x) + y) =
  config.overhead_per_account_ram_bytes + 2 * billable_permission + x + y.
Proof.
  intros Hx Hy. pose proof billable_permission_bounds. unfold config.overhead_per_account_ram_bytes.
  rewrite (swrap_id 64 (2 * 1024 + 2 * billable_permission)) by (unfold is_signed; lia).
  rewrite (swrap_id 64 (2 * 1024 + 2 * billable_permission + x)) by (unfold is_signed; lia).
  apply swrap_id; [unfold is_signed|]; lia.
Qed.

(** The owner and active permissions of a new account. *)
Lemma newaccount_permissions adb time account auth auth' owner a1 active a2 :
  auth_wf adb →
  create_permission adb time account config.owner_name 0 auth 0 = Ok (owner, a1) →
  create_permission a1 time account config.active_name (po_id owner) auth' 0 = Ok (active, a2) →
  auth_wf a2 ∧ (∀ p, p ∈ permissions a2 → p ∈ permissions adb ∨ p = owner ∨ p = active) ∧
  po_auth owner = auth ∧ po_auth active = auth' ∧
  ∀ a, billed_permissions a2 a + billed_links a2 a = billed_permissions adb a + billed_links adb a +
    (if a =? account then 2 * billable_permission + auth_size auth + auth_size auth' else 0).
Proof.
  intros Hwf H1 H2. pose proof H1 as (Hp1 & _ & Ho & Ha & _)%create_permission_inv.
  pose proof H2 as (Hp2 & _ & _ & Ha2 & _)%create_permission_inv.
  assert (Hwf1 : auth_wf a1) by (eapply create_permission_auth; [done|by left|done]).
  split; [eapply create_permission_auth; [done| |done]|].
  { right. exists owner. rewrite Hp1. split; [apply elem_of_app; right; apply list_elem_of_here|done]. }
  split; [|split; [done|split; [done|]]].
  - intros p. rewrite Hp2, Hp1, !elem_of_app, !list_elem_of_singleton. tauto.
  - intros a. rewrite (create_permission_billed _ _ _ _ _ _ _ _ _ a H2), (create_permission_billed _ _ _ _ _ _ _ _ _ a H1).
    destruct (_ =? _); lia.
Qed.

Lemma apply_eosio_newaccount_spec w :
  native_wf (w_db w) →
  wp (apply_eosio_newaccount control lists act) (λ _ w', native_step (w_db w) (w_db w')) w.
Proof.
  intros Hw. unfold apply_eosio_newaccount. wp_step. apply wp_lift. intros c Hc.
  destruct (as_newaccount _ Hsmall c Hc) as [Hown Hact].
  wp_step. apply wp_require_auth. intros used _. repeat wp_step. cbn [w_db w_trx w_ctx] in *.
  match goal with |- wp (if ?b then _ else _) _ _ => assert (Hif : ∀ (Q : unit → world K → Prop) w' x e, Q tt w' →
    wp (if b then mret tt else asserts x e) Q w') by (intros Q w' x e HQ; destruct b; [done|by apply wp_asserts]) end.
  apply Hif. clear Hif. do 3 wp_step. apply wp_lift. intros accs [Hnone ->]%db_create_Ok.
  wp_step. unfold put_accounts. do 2 wp_step. apply wp_lift. intros seqs _. wp_step. unfold put_sequences. wp_step.
  do 2 wp_step. do 2 wp_step. wp_step. apply wp_lift. cbn [w_db w_trx w_ctx]. intros [owner a1] Hc1.
  wp_step. apply wp_lift. intros [active a2] Hc2. wp_step. unfold put_authorization. do 2 wp_step. apply wp_lift.
  cbn [with_sequences with_accounts ch_authorization ch_limits ch_accounts w_db w_trx w_ctx] in *.
  intros rl [Hus Hram]%initialize_account_spec; [|exact (nw_usage _ Hw)]. wp_step. unfold put_limits. wp_step.
  pose proof (auth_size_nonneg (na_owner c)). pose proof (auth_size_nonneg (na_active c)). pose proof billable_permission_bounds.
  pose proof (newaccount_permissions _ _ _ _ _ _ _ _ _ (nw_auth _ Hw) Hc1 Hc2) as (Haw & Hin & Hpo & Hpa & Hbill).
  rewrite Hpo, Hpa, newaccount_delta by done. apply wp_bill; cbn [w_db]; try done.
  - destruct Hw as [W1 W2 W3 W4 W5]. constructor; cbn; try done.
    + intros p [Hp|[->| ->]]%Hin; [by apply W3|by rewrite Hpo|by rewrite Hpa].
    + intros x o [[_ <-]|[_ ?]]%lookup_insert_Some; [done|eauto].
  - unfold is_signed, config.overhead_per_account_ram_bytes. lia.
  - intros x. unfold native_billed, billed_account.
    cbn [with_ch_limits with_authorization with_sequences with_accounts ch_authorization ch_accounts ch_generated].
    rewrite Hbill. destruct (Z.eqb_spec x (na_name c)) as [->|Hne].
    + rewrite lookup_insert_eq, Hnone. cbn. lia.
    + rewrite lookup_insert_ne by done. lia.
Qed.

Lemma find_apply_handler_spec load_vm receiver scope name h w :
  vm_sound → native_wf (w_db w) → name ≠ activatevm_name →
  find_apply_handler control lists mode act vm_apply vm_setcode load_vm receiver scope name = Some h →
  wp h (λ _ w', native_step (w_db w) (w_db w')) w.
Proof.
  intros Hvm Hw Hne. unfold find_apply_handler. destruct (negb _); [done|].
  repeat match goal with |- context [if name =? ?n then _ else _] => destruct (Z.eqb_spec name n);
    [intros [= <-]|] end; [..|done].
  - by apply apply_eosio_newaccount_spec.
  - by apply apply_eosio_setcode_spec.
  - by apply apply_eosio_setabi_spec.
  - by apply apply_eosio_updateauth_spec.
  - by apply apply_eosio_deleteauth_spec.
  - by apply apply_eosio_linkauth_spec.
  - by apply apply_eosio_unlinkauth_spec.
  - by apply apply_eosio_canceldelay_spec.
  - done.
Qed.

End handlers.
End native.

(** ** Examples *)

Module native_example.
Definition key_auth : authority Z := Authority 1 [KeyWeight 100 1] [] [].

(** Account 7 has an owner permission; only account 8 has one called "other". *)
Definition permissions_db : @authorization_db Z :=
  match create_permission initialize_database 0 7 config.owner_name 0 key_auth 0 with
  | Ok (_, a) => match create_permission a 0 8 (N_ "other") 0 key_auth 0 with Ok (_, a) => a | Throw _ => a end
  | Throw _ => initialize_database
  end.

#[export] Instance codec : native_codec Z := {|
  unpack_newaccount _ := Throw fc_eof_exception;
  unpack_setcode _ := Throw fc_eof_exception;
  unpack_setabi _ := Throw fc_eof_exception;
  unpack_updateauth _ := Throw fc_eof_exception;
  unpack_deleteauth _ := Throw fc_eof_exception;
  unpack_linkauth _ := Ok (LinkAuth 7 8 (N_ "transfer") (N_ "other"));
  unpack_unlinkauth _ := Throw fc_eof_exception;
  unpack_canceldelay _ := Throw fc_eof_exception;
  unpack_activatevm _ := Throw fc_eof_exception;
  key_pack_size _ := 34;
  public_key_lt := Z.ltb;
  code_hash _ := digest_zero;
  unpack_producers _ := Throw fc_eof_exception;
  key_valid _ := true |}.

Definition act : action := Action config.system_account_name linkauth_name [PermissionLevel 7 config.owner_name] [].
Definition db : chain_db Z :=
  with_authorization (with_accounts (bills.chain bills.two_accounts)
    {[7 := new_account_object 0; 8 := new_account_object 0]}) permissions_db.
Definition start : world Z := World db bills.fresh (make_apply_context act config.system_account_name).
Definition lists : controller_lists Z := ControllerLists ∅ ∅ ∅ ∅ ∅ [].
Definition no_vm (_ _ _ _ : Z) : M (world Z) unit := mret tt.

Lemma act_small : action_small act.
Proof. constructor; intros c Hc; vm_compute in Hc; discriminate. Qed.

Lemma vm_ok : vm_sound no_vm.
Proof. intros t r a n w Hw. unfold no_vm. wp_step. split; [by apply native_step_refl|done]. Qed.

Lemma start_wf : native_wf db.
Proof.
  constructor.
  - exact (proj2 (proj2 two_accounts_wf)).
  - unfold db. cbn [with_authorization ch_authorization]. unfold permissions_db.
    destruct (create_permission initialize_database 0 7 _ 0 key_auth 0) as [[p a1]|] eqn:H1; [|done].
    assert (Hi : auth_wf (initialize_database (K:=Z))).
    { constructor; [apply initialize_database_wf|]. exists reserved_permission. split; [apply list_elem_of_here|done]. }
    assert (Ha1 : auth_wf a1) by (eapply create_permission_auth; [exact Hi|by left|done]).
    destruct (create_permission a1 0 8 _ 0 key_auth 0) as [[q a2]|] eqn:H2; [|done].
    eapply create_permission_auth; [exact Ha1|by left|done].
  - assert (H : forallb (λ p, get_billable_size key_pack_size (po_auth p) <? 2 ^ 40) (permissions permissions_db) = true)
      by (vm_compute; reflexivity).
    intros p Hp. rewrite forallb_forall in H. by apply Z.ltb_lt, H, list_elem_of_In.
  - intros a o H. change (ch_accounts db) with (<[7 := new_account_object 0]> ({[8 := new_account_object 0]} : gmap Z _)) in H.
    apply lookup_insert_Some in H as [[_ <-]|[_ [_ <-]%lookup_singleton_Some]]; done.
  - intros k g H. by vm_compute in H.
Qed.
End native_example.

#[local] Existing Instance native_example.codec.


(** An account can be linked to a permission that it does not have, because
    the name is looked up among the permissions of all accounts; the actions of
    the link can then not be authorized by the account. *)
Theorem linkauth_accepts_foreign_permission :
  match apply_eosio_linkauth native_example.act native_example.start with
  | Done _ w' =>
      find_by_owner (permissions (ch_authorization (w_db w'))) 7 (N_ "other") = None ∧
      lookup_minimum_permission (ch_authorization (w_db w')) 7 8 (N_ "transfer") = Ok (Some (N_ "other")) ∧
      get_permission (ch_authorization (w_db w')) (PermissionLevel 7 (N_ "other")) = Throw permission_query_exception
  | _ => False
  end.
Proof. vm_compute. done. Qed.
