(* ===== verification/ActionExecution.v ===== *)
(** * Executing actions (apply_context.cpp, transaction_context.cpp, vm_api)

    An action is executed by the native handler and the contract of its
    receiver, then by the contracts of the accounts it notified, and then its
    inline actions are executed the same way.  A contract is a WebAssembly
    module; what it does is a tree of calls of the interface that
    vm_wasm/vm_api.cpp gives it, whose results choose the next call. *)

From S2P Require Import Prelude Exceptions Config Name Merkle Database ResourceLimits Authority Transaction ChainConfig AuthorizationManager StateMonad IteratorCache ChainDatabase TransactionContext ApplyContext TableCalls EosioContract BlockHeaderState.

(** [fc::raw] of transactions, actions and the configuration, the ids and
    digests, and [fc::endian_reverse_u32]. *)
Class trx_codec : Type := {
  pack_transaction : transaction → bytes;
  unpack_transaction : bytes → res transaction;
  transaction_id : transaction → digest_type;
  pack_action : action → bytes;
  unpack_action : bytes → res action;
  action_digest : action → digest_type;
  unpack_chain_config : bytes → res chain_config;
  endian_reverse_u32 : Z → Z }.

(** ** Contracts *)

Inductive api_call : Type :=
  | ApiTable (c : table_call) (intrinsic : checked c = true)
  | ApiRequireAuth (a : Z)
  | ApiRequireAuth2 (a p : Z)
  | ApiHasAuth (a : Z)
  | ApiIsAccount (a : Z)
  | ApiRequireRecipient (a : Z)
  | ApiSendInline (data : bytes)
  | ApiSendContextFreeInline (data : bytes)
  | ApiSendDeferred (sender_id payer : Z) (data : bytes) (replace_existing : bool)
  | ApiCancelDeferred (sender_id : Z)
  | ApiReadActionData (buffer_size : Z)
  | ApiCurrentReceiver
  | ApiCurrentTime
  | ApiPublicationTime
  | ApiGetAction (type index buffer_size : Z)
  | ApiGetContextFreeData (index buffer_size : Z)
  | ApiSetResourceLimits (account ram_bytes net_weight cpu_weight : Z)
  | ApiIsPrivileged (a : Z)
  | ApiSetPrivileged (a : Z) (is_priv : bool)
  | ApiSetBlockchainParameters (data : bytes)
  | ApiSetProposedProducers (data : bytes).

Definition api_return (c : api_call) : Type :=
  match c with
  | ApiTable c _ => call_return c
  | ApiHasAuth _ | ApiIsAccount _ | ApiCancelDeferred _ | ApiIsPrivileged _ => bool
  | ApiReadActionData _ | ApiGetAction _ _ _ | ApiGetContextFreeData _ _ => Z * bytes
  | ApiCurrentReceiver | ApiCurrentTime | ApiPublicationTime | ApiSetProposedProducers _ => Z
  | _ => unit
  end.

(** The run of a contract: it ends, it fails, or it makes a call. *)
Inductive program : Type :=
  | Finish
  | Abort (e : exception)
  | Step (c : api_call) (k : api_return c → program).

(** The number of the head block and the schedules of the pending block. *)
Class schedules (K : Type) : Type := {
  head_block_num : Z;
  active_schedule : @producer_schedule_type K;
  pending_schedule : @producer_schedule_type K }.

Section execution.
Context {K : Type} `{EqDecision K} {ncodec : native_codec K} {tcodec : trx_codec} {keys : secondary_keys}.
Context {sched : schedules K}.
Variable control : controller_view.
Variable lists : controller_lists K.
Variable mode : app_mode.
(** The transaction, its context-free data and the outcome of each
    [checktime] of an authorization check. *)
Variable ti : trx_input.
Variable context_free_data : list bytes.
Variable checktime : nat → res unit.
(** The program of a code on a machine of a type, for a receiver, an account
    and an action name; [vm_manager::setcode] and [load_vm_from_ram]. *)
Variable vm : Z → bytes → Z → Z → Z → program.
Variable vm_setcode : Z → Z → res unit.
Variable load_vm_from_ram : Z → Z → res unit.

Abbreviation MW := (M (world K)).

Definition check_auth (db : chain_db K) (acts : list action) (provided : list permission_level) (delay : Z) : res unit :=
  check_authorization (ch_generated db) unpack_transaction unpack_updateauth unpack_deleteauth unpack_linkauth
    unpack_unlinkauth unpack_canceldelay checktime (ch_configuration db) (ch_authorization db) acts [] provided delay false.

Section context.
Variable act : action.
Variable context_free : bool.

(** ** Inline actions *)

Definition check_inline_auth (db : chain_db K) (_ : unit) (auth : permission_level) : res unit :=
  EOS_ASSERT (is_account db (actor auth)) action_validate_exception;;
  found ← permission_exists db auth;
  EOS_ASSERT found action_validate_exception.

Definition execute_inline (a : action) : MW unit :=
  w ← get;
  let ctx := w_ctx w in
  asserts (is_account (w_db w) (act_account a)) action_validate_exception;;
  lift (foldM (check_inline_auth (w_db w)) tt (act_authorization a));;
  (if negb (skip_auth_check control) && negb (ac_privileged ctx) && negb (act_account a =? ac_receiver ctx)
   then lift (check_auth (w_db w) [a] [PermissionLevel (ac_receiver ctx) config.eosio_code_name]
                (pending_block_time control - published (w_trx w)))
   else mret tt);;
  put_ctx (with_inline ctx (inline_actions ctx ++ [a])).

Definition execute_context_free_inline (a : action) : MW unit :=
  w ← get;
  asserts (is_account (w_db w) (act_account a)) action_validate_exception;;
  asserts (Z.of_nat (length (act_authorization a)) =? 0) action_validate_exception;;
  put_ctx (with_cfa_inline (w_ctx w) (cfa_inline_actions (w_ctx w) ++ [a])).

(** ** Deferred transactions *)

(** [time_point_sec] of a time in microseconds. *)
Definition prepare_deferred (t : transaction) : transaction :=
  let h := header t in
  let expiration := u32 ((pending_block_time control + 999999) / 1000000) in
  let h := TransactionHeader expiration (max_net_usage_words h) (max_ram_usage h) (delay_sec h)
             (ref_block_prefix h) (ref_block_num h) (max_cpu_usage_ms h) in
  Transaction (set_reference_block endian_reverse_u32 h (head_block_id control))
    (context_free_actions t) (actions t) (transaction_extensions t).

Definition deferred_object (db : chain_db K) (trx_id : digest_type) (receiver sender_id payer : Z) (t : transaction)
    : generated_transaction_object :=
  let delay_until := pending_block_time control + delay_sec (header t) * 1000000 in
  GeneratedTransaction trx_id receiver sender_id payer delay_until
    (delay_until + deferred_trx_expiration_window (ch_configuration db) * 1000000)
    (pending_block_time control) (pack_transaction t).

(** The old transaction of the sender is overwritten, or a new one is made. *)
Definition put_deferred (replace_existing : bool) (receiver sender_id payer : Z) (t : transaction) : MW unit :=
  w ← get;
  match find_generated (w_db w) receiver sender_id with
  | Some old =>
      asserts replace_existing deferred_tx_duplicate;;
      asserts (negb (is_producing_block control)) subjective_block_production_exception;;
      put_generated (<[gto_trx_id old := deferred_object (w_db w) (gto_trx_id old) receiver sender_id payer t]>
                       (ch_generated (w_db w)))
  | None =>
      db ← lift (create_generated (w_db w) (deferred_object (w_db w) (transaction_id t) receiver sender_id payer t));
      put_db db
  end.

Definition check_deferred_auth (payer : Z) (t : transaction) : MW unit :=
  w ← get;
  let ctx := w_ctx w in
  if negb (skip_auth_check control) && negb (ac_privileged ctx) then
    (if negb (payer =? ac_receiver ctx) then require_authorization act payer else mret tt);;
    if existsb (λ a, negb (act_account a =? ac_receiver ctx)) (actions t)
    then lift (check_auth (w_db w) (actions t) [PermissionLevel (ac_receiver ctx) config.eosio_code_name]
                 (delay_sec (header t) * 1000000))
    else mret tt
  else mret tt.

Definition schedule_deferred_transaction (sender_id payer : Z) (t : transaction) (replace_existing : bool) : MW unit :=
  asserts (match context_free_actions t with [] => true | _ => false end) cfa_inside_generated_tx;;
  let t := prepare_deferred t in
  w ← get;
  lift (validate_referenced_accounts (w_db w) t);;
  n ← lift (add_net_usage control (tc_net (w_trx w)) (retire_net_usage (ch_configuration (w_db w))));
  put_trx (with_net (w_trx w) n);;
  check_deferred_auth payer t;;
  let receiver := ac_receiver (w_ctx w) in
  put_deferred replace_existing receiver sender_id payer t;;
  asserts (is_ram_billing_in_notify_allowed control || (receiver =? act_account act) || (receiver =? payer) ||
           ac_privileged (w_ctx w)) subjective_block_production_exception;;
  add_ram_usage payer (i64 (u64 (billable.generated_transaction + u32 (Z.of_nat (length (pack_transaction t)))))).

(** ** Reading the transaction *)

(** [-1] past the end, otherwise the packed size, and what fits the buffer. *)
Definition get_action (type index buffer_size : Z) : res (Z * bytes) :=
  let found (l : list action) :=
    match l !! Z.to_nat index with
    | None => mret (-1, [])
    | Some a =>
        let packed := pack_action a in
        let ps := Z.of_nat (length packed) in
        mret (i32 ps, if ps <=? buffer_size then packed else [])
    end in
  if type =? 0 then found (context_free_actions (ti_trx ti))
  else if type =? 1 then found (actions (ti_trx ti))
  else EOS_THROW action_not_found_exception.

Definition get_context_free_data (index buffer_size : Z) : Z * bytes :=
  match context_free_data !! Z.to_nat index with
  | None => (-1, [])
  | Some data =>
      let s := Z.of_nat (length data) in
      if buffer_size =? 0 then (i32 s, [])
      else let copy_size := Z.min buffer_size s in (i32 copy_size, take (Z.to_nat copy_size) data)
  end.

Definition read_action_data (buffer_size : Z) : Z * bytes :=
  let s := Z.of_nat (length (act_data act)) in
  if buffer_size =? 0 then (u32 s, [])
  else let copy_size := Z.min buffer_size s in (u32 copy_size, take (Z.to_nat copy_size) (act_data act)).

(** ** Privileged calls *)

Definition set_resource_limits (account ram net cpu : Z) : MW unit :=
  asserts (ram >=? -1) wasm_execution_error;;
  asserts (net >=? -1) wasm_execution_error;;
  asserts (cpu >=? -1) wasm_execution_error;;
  w ← get;
  '(decreased, l) ← lift (set_account_limits (ch_limits (w_db w)) account ram net cpu);
  put_limits l;;
  if (decreased : bool) then
    let r := tc_ram (w_trx w) in
    put_trx (with_ram (w_trx w) (Ram ({[account]} ∪ validate_ram_usage r) (tc_ram_usage r)))
  else mret tt.

Definition is_privileged (a : Z) : MW bool :=
  w ← get; o ← lift (Database.db_get (ch_accounts (w_db w)) a); mret (ao_privileged o).

Definition with_privileged (o : account_object) (p : bool) : account_object :=
  AccountObject (ao_vm_type o) (ao_vm_version o) p (ao_code_activated o) (ao_last_code_update o)
    (ao_code_version o) (ao_creation_date o) (ao_code o) (ao_abi o).

Definition set_privileged (a : Z) (p : bool) : MW unit :=
  w ← get;
  o ← lift (Database.db_get (ch_accounts (w_db w)) a);
  put_accounts (<[a := with_privileged o p]> (ch_accounts (w_db w))).

Definition set_blockchain_parameters_packed (data : bytes) : MW unit :=
  cfg ← lift (unpack_chain_config data);
  lift (chain_config_validate cfg);;
  w ← get;
  put_db (with_configuration (w_db w) cfg).

(** [controller::set_proposed_producers]: [-1], or the version of the schedule. *)
Definition propose_schedule (l : list producer_key) : MW Z :=
  w ← get;
  let cur_block_num := u32 (head_block_num + 1) in
  let proposed := ch_proposed (w_db w) in
  if match proposed with
     | Some (n, s) => negb (n =? cur_block_num) || bool_decide (l = producers s)
     | None => false
     end
  then mret (-1)
  else
    let sch := if (length (producers pending_schedule) =? 0)%nat then active_schedule else pending_schedule in
    if bool_decide (l = producers sch) then mret (-1)
    else
      let v := u32 (version sch + 1) in
      put_db (with_proposed (w_db w) (Some (cur_block_num, ProducerSchedule v l)));;
      mret v.

Definition set_proposed_producers (data : bytes) : MW Z :=
  l ← lift (unpack_producers data);
  asserts (Z.of_nat (length l) <=? config.max_producers) wasm_execution_error;;
  w ← get;
  lift (foldM (λ _ p,
    EOS_ASSERT (is_account (w_db w) (producer_name p)) wasm_execution_error;;
    EOS_ASSERT (key_valid (block_signing_key p)) wasm_execution_error) tt l);;
  asserts (length l =? size (list_to_set (producer_name <$> l) : gset Z))%nat wasm_execution_error;;
  propose_schedule l.

(** ** The calls of a contract *)

(** [check_context_free] and [assert_privileged], which the classes of
    vm_wasm/vm_api.cpp run before their calls. *)
Definition context_aware : MW unit := asserts (negb context_free) unaccessible_api.
Definition privileged_only : MW unit :=
  context_aware;; w ← get; asserts (ac_privileged (w_ctx w)) unaccessible_api.
Definition context_free_only : MW unit := asserts context_free unaccessible_api.

Definition inline_size_ok (data : bytes) : MW unit :=
  w ← get;
  asserts (Z.of_nat (length data) <? max_inline_action_size (ch_configuration (w_db w))) inline_action_too_big.

Definition run_api (c : api_call) : MW (api_return c) :=
  match c with
  | ApiTable c _ => context_aware;; run_call control act unpack_setcode c
  | ApiRequireAuth a => context_aware;; require_authorization act a
  | ApiRequireAuth2 a p => context_aware;; require_authorization2 act a p
  | ApiHasAuth a => context_aware;; mret (has_authorization act a)
  | ApiIsAccount a => context_aware;; gets (λ w, is_account (w_db w) a)
  | ApiRequireRecipient a => context_aware;; require_recipient a
  | ApiSendInline data =>
      context_aware;; inline_size_ok data;; a ← lift (unpack_action data); execute_inline a
  | ApiSendContextFreeInline data =>
      context_aware;; inline_size_ok data;; a ← lift (unpack_action data); execute_context_free_inline a
  | ApiSendDeferred sender_id payer data replace_existing =>
      context_aware;; t ← lift (unpack_transaction data);
      schedule_deferred_transaction sender_id payer t replace_existing
  | ApiCancelDeferred sender_id =>
      context_aware;; w ← get; cancel_deferred_transaction sender_id (ac_receiver (w_ctx w))
  | ApiReadActionData n => mret (read_action_data n)
  | ApiCurrentReceiver => get_receiver act unpack_setcode
  | ApiCurrentTime => context_aware;; mret (pending_block_time control)
  | ApiPublicationTime => context_aware;; gets (λ w, published (w_trx w))
  | ApiGetAction type index n => lift (get_action type index n)
  | ApiGetContextFreeData index n => context_free_only;; mret (get_context_free_data index n)
  | ApiSetResourceLimits account ram net cpu => privileged_only;; set_resource_limits account ram net cpu
  | ApiIsPrivileged a => privileged_only;; is_privileged a
  | ApiSetPrivileged a p => privileged_only;; set_privileged a p
  | ApiSetBlockchainParameters data => privileged_only;; set_blockchain_parameters_packed data
  | ApiSetProposedProducers data => privileged_only;; set_proposed_producers data
  end.

Fixpoint run_program (p : program) : MW unit :=
  match p with
  | Finish => mret tt
  | Abort e => lift (Throw e)
  | Step c k => v ← run_api c; run_program (k v)
  end.

(** [vm_manager::apply]: the code of the receiver runs. *)
Definition vm_apply (vm_type receiver account name : Z) : MW unit :=
  w ← get;
  o ← deref (ch_accounts (w_db w) !! receiver);
  run_program (vm vm_type (ao_code o) receiver account name).

(** ** Receipts *)

Definition next_global_sequence : MW Z :=
  w ← get;
  let s := u64 (ch_global_action_sequence (w_db w) + 1) in
  put_db (with_global_action_sequence (w_db w) s);;
  mret s.

Definition next_recv_sequence (receiver : Z) : MW Z :=
  w ← get;
  s ← lift (Database.db_get (ch_sequences (w_db w)) receiver);
  let n := u64 (recv_sequence s + 1) in
  put_sequences (<[receiver := AccountSequence n (auth_sequence s) (code_sequence s) (abi_sequence s)]>
                   (ch_sequences (w_db w)));;
  mret n.

Definition next_auth_sequence (a : Z) : MW Z :=
  w ← get;
  s ← lift (Database.db_get (ch_sequences (w_db w)) a);
  let n := u64 (auth_sequence s + 1) in
  put_sequences (<[a := AccountSequence (recv_sequence s) n (code_sequence s) (abi_sequence s)]>
                   (ch_sequences (w_db w)));;
  mret n.

Fixpoint next_auth_sequences (auths : list permission_level) (m : gmap Z Z) : MW (gmap Z Z) :=
  match auths with
  | [] => mret m
  | auth :: auths => n ← next_auth_sequence (actor auth); next_auth_sequences auths (<[actor auth := n]> m)
  end.

(** The receipt of the action, and the end of its trace. *)
Definition record_receipt (receiver : Z) : MW unit :=
  global ← next_global_sequence;
  recv ← next_recv_sequence receiver;
  w ← get;
  s ← lift (Database.db_get (ch_sequences (w_db w)) (act_account act));
  auths ← next_auth_sequences (act_authorization act) ∅;
  modify (λ w, World (w_db w)
    (with_executed (w_trx w) (executed (w_trx w) ++
       [ActionReceipt receiver (action_digest act) global recv auths (u32 (code_sequence s)) (u32 (abi_sequence s))]))
    (with_ram_deltas (w_ctx w) ∅)).

(** ** Execution *)

Definition check_lists (receiver : Z) : MW unit :=
  if ti_can_subjectively_fail ti && is_producing_block control then
    lift (check_contract_list lists receiver);;
    lift (check_action_list lists (act_account act) (act_name act))
  else mret tt.

(** [a] is a reference, so the code is read after the native handler ran. *)
Definition exec_one : MW unit :=
  w ← get;
  let receiver := ac_receiver (w_ctx w) in
  a ← lift (Database.db_get (ch_accounts (w_db w)) receiver);
  put_ctx (with_receiver (w_ctx w) receiver (ao_privileged a));;
  (match find_apply_handler control lists mode act vm_apply vm_setcode load_vm_from_ram receiver
           (act_account act) (act_name act) with
   | Some native => check_lists receiver;; native
   | None => mret tt
   end);;
  w ← get;
  a ← deref (ch_accounts (w_db w) !! receiver);
  (if (0 <? length (ao_code a))%nat &&
      negb ((act_account act =? config.system_account_name) && (act_name act =? setcode_name) &&
            (receiver =? config.system_account_name))
   then check_lists receiver;; vm_apply (ao_vm_type a) receiver (act_account act) (act_name act)
   else mret tt);;
  record_receipt receiver.

(** The loop over [_notified], which grows while it runs. *)
Fixpoint notify (steps : nat) (i : nat) : MW unit :=
  match steps with
  | O => out_of_steps
  | S steps =>
      w ← get;
      match notified (w_ctx w) !! i with
      | None => mret tt
      | Some r =>
          put_ctx (with_receiver (w_ctx w) r (ac_privileged (w_ctx w)));;
          exec_one;;
          notify steps (S i)
      end
  end.

(** [exec] up to the inline actions; there is one notification per account. *)
Definition exec_receivers : MW unit :=
  w ← get;
  put_ctx (with_notified (w_ctx w) (notified (w_ctx w) ++ [ac_receiver (w_ctx w)]));;
  exec_one;;
  w ← get;
  notify (S (size (ch_accounts (w_db w)))) 1.
End context.

Abbreviation trx_state := (chain_db K * transaction_context)%type.

(** A computation in an apply context of its own, which is returned. *)
Definition in_context (ctx : apply_context) (m : MW unit) : M trx_state apply_context := λ s,
  match m (World s.1 s.2 ctx) with
  | Done _ w => Done (w_ctx w) (w_db w, w_trx w)
  | Threw e => Threw e
  | Undefined => Undefined
  | Diverges => Diverges
  end.

(** [dispatch_action] and [exec]. *)
Fixpoint dispatch_action (steps : nat) (a : action) (receiver : Z) (context_free : bool) (recurse_depth : Z)
    : M trx_state unit :=
  match steps with
  | O => out_of_steps
  | S steps =>
      ctx ← in_context (make_apply_context a receiver) (exec_receivers a context_free);
      s ← get;
      (if (0 <? length (cfa_inline_actions ctx))%nat || (0 <? length (inline_actions ctx))%nat
       then asserts (recurse_depth <? max_inline_action_depth (ch_configuration s.1)) transaction_exception
       else mret tt);;
      for_each (cfa_inline_actions ctx) (λ a, dispatch_action steps a (act_account a) true (u32 (recurse_depth + 1)));;
      for_each (inline_actions ctx) (λ a, dispatch_action steps a (act_account a) false (u32 (recurse_depth + 1)))
  end.

(** A depth is an [uint16_t], so no action is deeper than this. *)
Definition max_depth_steps : nat := Z.to_nat (2 ^ 16).

(** [transaction_context::exec]. *)
Definition trx_exec : M trx_state unit :=
  s ← get;
  asserts (is_initialized s.2) transaction_exception;;
  (if apply_context_free s.2
   then for_each (context_free_actions (ti_trx ti)) (λ a, dispatch_action max_depth_steps a (act_account a) true 0)
   else mret tt);;
  if ti_delay ti =? 0
  then for_each (actions (ti_trx ti)) (λ a, dispatch_action max_depth_steps a (act_account a) false 0)
  else
    s ← get;
    '(db, tc) ← lift (schedule_transaction pack_transaction control ti s.1 s.2);
    modify (λ _, (db, tc)).
End execution.
