(* ===== verification/ExecutionTheorems.v ===== *)
(** * Correctness of the execution of actions

    Every action comes to an end, whatever the contracts do: notifications and
    inline actions are bounded.  Receipts number the executed actions in
    order.  Inline actions are authorized, and replacing a deferred transaction
    does not return the RAM of the old one. *)

From S2P Require Import Prelude Exceptions Config Name Merkle Database ResourceLimits Authority Transaction ChainConfig AuthorizationManager StateMonad IteratorCache ChainDatabase TransactionContext ApplyContext ContractTables TableCalls TableTheorems EosioContract NativeActions ActionExecution BlockHeaderState.

(** ** What calls leave alone *)

Section calm.
Context {K : Type}.
Implicit Types w : world K.

(** The depth of inline actions is an [uint16_t]. *)
Definition depth_ok (db : chain_db K) : Prop := is_unsigned 16 (max_inline_action_depth (ch_configuration db)).

(** Only accounts that were not notified yet are added to the notified ones;
    no receipt is made. *)
Record calm w w' : Prop := {
  calm_receiver : ac_receiver (w_ctx w') = ac_receiver (w_ctx w);
  calm_notified : notified (w_ctx w) `prefix_of` notified (w_ctx w');
  calm_nodup : NoDup (notified (w_ctx w)) → NoDup (notified (w_ctx w'));
  calm_depth : depth_ok (w_db w) → depth_ok (w_db w');
  calm_executed : executed (w_trx w') = executed (w_trx w);
  calm_global : ch_global_action_sequence (w_db w') = ch_global_action_sequence (w_db w);
  calm_transactions : ch_transactions (w_db w') = ch_transactions (w_db w) }.

(** Besides, no account is created. *)
Record calmer w w' : Prop := {
  calmer_calm : calm w w';
  calmer_accounts : dom (ch_accounts (w_db w')) = dom (ch_accounts (w_db w)) }.

#[export] Instance calm_preorder : PreOrder calm.
Proof.
  split.
  - intros w. by constructor.
  - intros w1 w2 w3 [A1 A2 A3 A4 A5 A6 A7] [B1 B2 B3 B4 B5 B6 B7].
    constructor; [congruence|by etrans|auto|auto|congruence..].
Qed.

#[export] Instance calmer_preorder : PreOrder calmer.
Proof.
  split.
  - intros w. by constructor.
  - intros w1 w2 w3 [A1 A2] [B1 B2]. constructor; [by etrans|congruence].
Qed.

(** A computation that comes to an end and keeps [R]. *)
Definition quiet {A} (R : world K → world K → Prop) (m : M (world K) A) : Prop := ∀ w, lwp m (λ _, R w) w.

Lemma quiet_calm {A} (m : M (world K) A) : quiet calmer m → quiet calm m.
Proof. intros Hq w. eapply lwp_mono; [apply Hq|]. by intros a w' []. Qed.

(** A quiet computation in the middle of one that has kept [R] so far. *)
Lemma lwp_quiet {A} (R : world K → world K → Prop) `{!PreOrder R} (m : M (world K) A) (Q : A → world K → Prop) w0 w :
  quiet R m → R w0 w → (∀ a w', R w0 w' → Q a w') → lwp m Q w.
Proof. intros Hq Hw HQ. eapply lwp_mono; [apply Hq|]. intros a w' H. apply HQ. by etrans. Qed.

Lemma quiet_intro {A} (R : world K → world K → Prop) `{!PreOrder R} (m : M (world K) A) :
  (∀ w0 w, R w0 w → lwp m (λ _, R w0) w) → quiet R m.
Proof. intros H w. by apply H. Qed.
End calm.

Lemma create_generated_Ok {K} (db db' : chain_db K) g :
  create_generated db g = Ok db' →
  ch_generated db !! gto_trx_id g = None ∧ find_generated db (gto_sender g) (gto_sender_id g) = None ∧
  db' = with_generated db (<[gto_trx_id g := g]> (ch_generated db)).
Proof.
  unfold create_generated. destruct (ch_generated db !! _); [done|]. destruct (find_generated _ _ _); [done|]. by intros [= <-].
Qed.

Create HintDb quiet.

Ltac calm_solve := repeat first [done | constructor].

(** A change of the state that keeps [calm] or [calmer] directly. *)
Ltac calm_change :=
  match goal with
  | H : ?R ?w0 ?w |- ?R ?w0 _ => transitivity w; [exact H|]; calm_solve
  end.

(** Goes through a computation, with the hints for what it calls. *)
Ltac quiet_step :=
  match goal with
  | H : ?R ?w0 ?w |- ?R ?w0 ?w => exact H
  | _ => lwp_step
  | |- lwp (match ?x with _ => _ end) _ _ => destruct x
  | H : ?R ?w0 _ |- lwp _ _ _ =>
      eapply (lwp_quiet R _ _ w0); [solve [eauto 3 with quiet | apply quiet_calm; eauto 3 with quiet]|solve [exact H | calm_change]|];
      clear H; intros ? ? ?
  | |- ?R ?w0 _ => solve [calm_change]
  end.
Ltac quiet_tac := apply quiet_intro; [apply _|]; intros ? ? ?; repeat quiet_step.

(** ** Caches *)

Lemma terminates_cache_table t c : terminates (cache_table t) c.
Proof. unfold cache_table. apply terminates_bind; [done|intros c' ? _]. by destruct (table_cache c' !! t) as [[]|]. Qed.
Lemma terminates_get_table t c : terminates (get_table t) c.
Proof. unfold get_table. apply terminates_bind; [done|intros c' ? _]. by destruct (table_cache c' !! t) as [[]|]. Qed.
Lemma terminates_get_end t c : terminates (get_end_iterator_by_table_id t) c.
Proof. unfold get_end_iterator_by_table_id. apply terminates_bind; [done|intros c' ? _]. by destruct (table_cache c' !! t) as [[]|]. Qed.
Lemma terminates_check_iterator it c : terminates (check_iterator it) c.
Proof.
  unfold check_iterator. repeat (apply terminates_bind; [apply terminates_lift || done|intros ? ? _]). apply terminates_lift.
Qed.
Lemma terminates_find_end ei c : terminates (find_table_by_end_iterator ei) c.
Proof.
  unfold find_table_by_end_iterator. apply terminates_bind; [apply terminates_lift|intros ? ? _].
  apply terminates_bind; [apply terminates_deref|done].
Qed.
Lemma terminates_cache_get it c : terminates (cache_get it) c.
Proof.
  unfold cache_get. apply terminates_bind; [apply terminates_check_iterator|intros ? ? _].
  apply terminates_bind; [done|intros c' ? _]. by destruct (iterator_to_object c' !! Z.to_nat it) as [[]|].
Qed.
Lemma terminates_cache_remove it c : terminates (cache_remove it) c.
Proof.
  unfold cache_remove. apply terminates_bind; [apply terminates_check_iterator|intros ? ? _].
  apply terminates_bind; [done|intros c' ? _]. by destruct (iterator_to_object c' !! Z.to_nat it) as [[]|].
Qed.
Lemma terminates_cache_add o c : terminates (cache_add o) c.
Proof. unfold cache_add. apply terminates_bind; [done|intros c' ? _]. by destruct (object_to_iterator c' !! o). Qed.
#[export] Hint Resolve terminates_cache_table terminates_get_table terminates_get_end terminates_find_end
  terminates_cache_get terminates_cache_remove terminates_cache_add : quiet.

(** ** The operations of the apply context *)

Section operations.
Context {K : Type} `{EqDecision K} {ncodec : native_codec K} {tcodec : trx_codec} {keys : secondary_keys}.
Context (control : controller_view) (act : action) (unpack_sc : bytes → res setcode).
Abbreviation calmer := (calmer (K:=K)).

Lemma quiet_with_cache {A} i (m : M iterator_cache A) : (∀ c, terminates m c) → quiet calmer (with_cache i m).
Proof.
  intros Ht w. unfold with_cache. apply lwp_zoom. apply lwp_intro; [apply Ht|]. intros a c _. calm_solve.
Qed.

Lemma quiet_put_contracts c : quiet calmer (put_contracts (K:=K) c).
Proof. intros w. calm_solve. Qed.
Hint Resolve quiet_with_cache quiet_put_contracts : quiet.

Lemma quiet_mark_used (p : permission_level → Prop) `{∀ x, Decision (p x)} : quiet calmer (mark_used act p).
Proof. unfold mark_used, put_ctx. quiet_tac. Qed.
Hint Resolve quiet_mark_used : quiet.

Lemma quiet_add_ram_usage a d : quiet calmer (add_ram_usage a d).
Proof.
  unfold add_ram_usage. quiet_tac. unfold trx_add_ram_usage in *. simplify_res. destruct (d >? 0); simplify_res; calm_change.
Qed.
Hint Resolve quiet_add_ram_usage : quiet.

Lemma quiet_update_db_usage payer d : quiet calmer (update_db_usage control act payer d).
Proof. unfold update_db_usage, require_authorization. quiet_tac. Qed.
Hint Resolve quiet_update_db_usage : quiet.

Lemma quiet_get_receiver : quiet calmer (get_receiver act unpack_sc).
Proof. unfold get_receiver. quiet_tac. Qed.
Hint Resolve quiet_get_receiver : quiet.

(** *** Tables and rows *)

Lemma quiet_find_or_create_table code scope table payer : quiet calmer (find_or_create_table control act code scope table payer).
Proof. unfold find_or_create_table, find_table. quiet_tac. Qed.

Lemma quiet_get_table_object t : quiet calmer (get_table_object t).
Proof. unfold get_table_object. quiet_tac. Qed.
Hint Resolve quiet_find_or_create_table quiet_get_table_object : quiet.

Lemma quiet_set_table_count t f : quiet calmer (set_table_count t f).
Proof. unfold set_table_count. quiet_tac. Qed.

Lemma quiet_remove_table t : quiet calmer (remove_table control act t).
Proof. unfold remove_table. quiet_tac. Qed.

Lemma quiet_get_row i o : quiet calmer (get_row i o).
Proof. unfold get_row. quiet_tac. Qed.

Lemma quiet_create_row i t id payer d : quiet calmer (create_row i t id payer d).
Proof. unfold create_row. quiet_tac. Qed.

Lemma quiet_modify_row i o f : quiet calmer (modify_row i o f).
Proof. unfold modify_row. quiet_tac. Qed.

Lemma quiet_remove_row i o : quiet calmer (remove_row i o).
Proof. unfold remove_row. quiet_tac. Qed.
Hint Resolve quiet_set_table_count quiet_remove_table quiet_get_row quiet_create_row quiet_modify_row quiet_remove_row : quiet.

Lemma quiet_drop_row i t o : quiet calmer (drop_row control act i t o).
Proof. unfold drop_row. quiet_tac. Qed.

Lemma quiet_check_access b t : quiet calmer (check_access act unpack_sc b t).
Proof. unfold check_access. quiet_tac. Qed.

Lemma quiet_add_iterator i r : quiet calmer (add_iterator i r).
Proof. unfold add_iterator. quiet_tac. Qed.

Lemma quiet_search i code scope table f : quiet calmer (search i code scope table f).
Proof. unfold search, find_table. quiet_tac. Qed.
Hint Resolve quiet_drop_row quiet_check_access quiet_add_iterator quiet_search : quiet.

Lemma quiet_db_store i code scope table payer id d : quiet calmer (db_store control act i code scope table payer id d).
Proof. unfold db_store. quiet_tac. Qed.

Lemma quiet_db_update i it payer d b : quiet calmer (db_update control act unpack_sc i it payer d b).
Proof. unfold db_update. quiet_tac. Qed.

Lemma quiet_next_in i lt it : quiet calmer (next_in i lt it).
Proof. unfold next_in. quiet_tac. Qed.

Lemma quiet_previous_in i lt it : quiet calmer (previous_in i lt it).
Proof. unfold previous_in. quiet_tac. Qed.
Hint Resolve quiet_db_store quiet_db_update quiet_next_in quiet_previous_in : quiet.

Lemma quiet_run_call c : quiet calmer (run_call control act unpack_sc c).
Proof.
  destruct c; cbn [run_call]; unfold db_remove, db_get, db_get_ex, db_get_exex, db_find, db_lowerbound, db_upperbound,
    db_end, db_next, db_previous, store, idx_update, idx_remove, idx_get, find_secondary, lowerbound_secondary,
    upperbound_secondary, find_primary, next_secondary, previous_secondary, get_table_item_count, find_table; quiet_tac.
Qed.
Hint Resolve quiet_run_call : quiet.

(** *** Recipients, inline actions and deferred transactions *)

Lemma quiet_require_recipient r : quiet calmer (require_recipient r).
Proof.
  unfold require_recipient, has_recipient. intros w. repeat lwp_step.
  destruct (existsb _ _) eqn:Hr; repeat lwp_step; [done|]. split; [split|]; cbn; try done.
  - by exists [r].
  - intros Hd. apply NoDup_app. split_and!; [done| |apply NoDup_singleton].
    intros x Hx ->%list_elem_of_singleton. apply not_true_iff_false in Hr. apply Hr.
    apply existsb_exists. exists r. split; [by apply list_elem_of_In|lia].
Qed.
Hint Resolve quiet_require_recipient : quiet.

Lemma quiet_cancel_deferred sender_id sender : quiet calmer (cancel_deferred_transaction sender_id sender).
Proof. unfold cancel_deferred_transaction, put_generated. quiet_tac. Qed.

Lemma quiet_execute_inline checktime a : quiet calmer (execute_inline control checktime a).
Proof. unfold execute_inline, put_ctx. quiet_tac. Qed.

Lemma quiet_execute_context_free_inline a : quiet calmer (execute_context_free_inline (K:=K) a).
Proof. unfold execute_context_free_inline, put_ctx. quiet_tac. Qed.

Lemma quiet_put_deferred replace receiver sender_id payer t :
  quiet calmer (put_deferred control replace receiver sender_id payer t).
Proof.
  unfold put_deferred, put_generated, put_db. quiet_tac.
  match goal with H : create_generated _ _ = Ok _ |- _ => apply create_generated_Ok in H as (_ & _ & ->) end. calm_change.
Qed.

Lemma quiet_check_deferred_auth checktime payer t : quiet calmer (check_deferred_auth control checktime act payer t).
Proof. unfold check_deferred_auth, require_authorization. quiet_tac. Qed.
Hint Resolve quiet_cancel_deferred quiet_execute_inline quiet_execute_context_free_inline quiet_put_deferred
  quiet_check_deferred_auth : quiet.

Lemma quiet_schedule_deferred checktime sender_id payer t replace :
  quiet calmer (schedule_deferred_transaction control checktime act sender_id payer t replace).
Proof. unfold schedule_deferred_transaction, put_trx. quiet_tac. Qed.
Hint Resolve quiet_schedule_deferred : quiet.

Lemma quiet_set_resource_limits account ram net cpu : quiet calmer (set_resource_limits (K:=K) account ram net cpu).
Proof. unfold set_resource_limits, put_limits, put_trx. quiet_tac. Qed.

(** An account is changed, not created. *)
Lemma calmer_put_account (w0 w : world K) a o o' :
  calmer w0 w → ch_accounts (w_db w) !! a = Some o →
  calmer w0 (World (with_accounts (w_db w) (<[a := o']> (ch_accounts (w_db w)))) (w_trx w) (w_ctx w)).
Proof.
  intros Hw Ha. transitivity w; [done|]. split; [by constructor|]. apply dom_insert_lookup_L. eauto.
Qed.

Lemma quiet_set_privileged a p : quiet calmer (set_privileged (K:=K) a p).
Proof.
  unfold set_privileged, put_accounts. quiet_tac. eapply calmer_put_account; [done|]. by apply db_get_Ok.
Qed.
Hint Resolve quiet_set_resource_limits quiet_set_privileged : quiet.
End operations.

#[export] Hint Resolve quiet_with_cache quiet_put_contracts quiet_mark_used quiet_add_ram_usage quiet_db_store quiet_db_update
  quiet_search quiet_get_receiver quiet_run_call quiet_require_recipient quiet_cancel_deferred quiet_execute_inline
  quiet_execute_context_free_inline quiet_schedule_deferred quiet_set_resource_limits quiet_set_privileged : quiet.

(** ** Contracts and native handlers *)

Section contracts.
Context {K : Type} `{EqDecision K} {ncodec : native_codec K} {tcodec : trx_codec} {keys : secondary_keys}.
Context {sched : schedules K}.
Context (control : controller_view) (lists : controller_lists K) (mode : app_mode) (ti : trx_input).
Context (context_free_data : list bytes) (checktime : nat → res unit).
Context (vm : Z → bytes → Z → Z → Z → program) (vm_setcode load_vm_from_ram : Z → Z → res unit).
Context (act : action) (context_free : bool).
(** The depth of the configuration is unpacked as an [uint16_t]. *)
Hypothesis unpack_depth : ∀ data cfg, unpack_chain_config data = Ok cfg → is_unsigned 16 (max_inline_action_depth cfg).
Abbreviation calmer := (calmer (K:=K)).
Abbreviation calm := (calm (K:=K)).

Lemma quiet_set_blockchain_parameters data : quiet calmer (set_blockchain_parameters_packed (K:=K) data).
Proof.
  unfold set_blockchain_parameters_packed, put_db. quiet_tac. transitivity w; [done|]. split; [split|]; try done.
  cbn. intros _. by eapply unpack_depth.
Qed.
Lemma quiet_set_proposed_producers data : quiet calmer (set_proposed_producers (K:=K) data).
Proof. unfold set_proposed_producers, propose_schedule, put_db. quiet_tac. Qed.
Hint Resolve quiet_set_blockchain_parameters quiet_set_proposed_producers : quiet.

Lemma quiet_run_api c : quiet calmer (run_api control ti context_free_data checktime act context_free c).
Proof.
  destruct c; cbn [run_api]; unfold privileged_only, context_aware, context_free_only, inline_size_ok, is_privileged,
    require_authorization, require_authorization2; quiet_tac.
Qed.
Hint Resolve quiet_run_api : quiet.

Lemma quiet_run_program p : quiet calmer (run_program control ti context_free_data checktime act context_free p).
Proof. induction p as [| |c k IH]; cbn; quiet_tac. Qed.
Hint Resolve quiet_run_program : quiet.

Lemma quiet_vm_apply vm_type receiver account name :
  quiet calmer (vm_apply control ti context_free_data checktime vm act context_free vm_type receiver account name).
Proof. unfold vm_apply. quiet_tac. Qed.
Hint Resolve quiet_vm_apply : quiet.

Abbreviation run_vm := (vm_apply control ti context_free_data checktime vm act context_free).

Lemma quiet_ask_old_code account a : quiet calmer (ask_old_code control mode run_vm account a).
Proof. unfold ask_old_code. quiet_tac. Qed.
Hint Resolve quiet_ask_old_code : quiet.

Lemma quiet_native receiver scope name native :
  find_apply_handler control lists mode act run_vm vm_setcode load_vm_from_ram receiver scope name = Some native →
  quiet calm native.
Proof.
  unfold find_apply_handler. intros Hn.
  repeat (case_match; [try done; simplify_eq|]); [| | | | | | | | |done];
    unfold apply_eosio_newaccount, apply_eosio_setcode, apply_eosio_setabi, apply_eosio_updateauth,
      apply_eosio_deleteauth, apply_eosio_linkauth, apply_eosio_unlinkauth, apply_eosio_canceldelay,
      apply_eosio_activatevm, require_authorization, put_accounts, put_sequences, put_authorization, put_limits,
      db_find_i64, db_find, db_update_i64, db_store_i64_receiver, db_store_i64; quiet_tac.
Qed.

(** ** One execution *)

Lemma quiet_next_auth_sequences auths m : quiet calmer (next_auth_sequences auths m).
Proof.
  revert m. induction auths as [|auth auths IH]; intros m; cbn; unfold next_auth_sequence, put_sequences; quiet_tac.
Qed.
Hint Resolve quiet_next_auth_sequences : quiet.

(** The receipt of an execution by [receiver]. *)
Definition is_receipt (receiver global : Z) (r : action_receipt) : Prop :=
  rc_receiver r = receiver ∧ rc_act_digest r = action_digest act ∧ rc_global_sequence r = global.

(** The action was executed by the receiver once. *)
Record ran (w w' : world K) : Prop := {
  ran_receiver : ac_receiver (w_ctx w') = ac_receiver (w_ctx w);
  ran_notified : notified (w_ctx w) `prefix_of` notified (w_ctx w');
  ran_nodup : NoDup (notified (w_ctx w)) → NoDup (notified (w_ctx w'));
  ran_depth : depth_ok (w_db w) → depth_ok (w_db w');
  ran_executed : ∃ r, executed (w_trx w') = executed (w_trx w) ++ [r] ∧
    is_receipt (ac_receiver (w_ctx w)) (ch_global_action_sequence (w_db w')) r;
  ran_global : ch_global_action_sequence (w_db w') = u64 (ch_global_action_sequence (w_db w) + 1);
  ran_transactions : ch_transactions (w_db w') = ch_transactions (w_db w) }.

(** Nothing that [ran] speaks of changes between the receipts. *)
Lemma calm_ran w1 w2 w3 : calm w1 w2 → ran w2 w3 → ran w1 w3.
Proof.
  intros [A1 A2 A3 A4 A5 A6 A7] [B1 B2 B3 B4 (r & B5 & B6) B7 B8].
  constructor; [congruence|by etrans|auto|auto| |congruence|congruence].
  exists r. rewrite B5, A5. split; [done|]. by rewrite <- A1.
Qed.

Lemma record_receipt_spec w :
  lwp (record_receipt act (ac_receiver (w_ctx w)))
    (λ _ w', ran w w' ∧ dom (ch_accounts (w_db w')) = dom (ch_accounts (w_db w))) w.
Proof.
  unfold record_receipt, next_global_sequence, next_recv_sequence, put_db, put_sequences. repeat lwp_step.
  eapply (lwp_quiet calmer _ _ _ _ (quiet_next_auth_sequences _ _)); [reflexivity|]. intros auths w' [[] Hd].
  repeat lwp_step. cbn in *. split; [|done]. constructor; cbn; [done|done|done|done| |done|done].
  eexists. split; [by f_equal|]. done.
Qed.

Abbreviation handler receiver :=
  (find_apply_handler control lists mode act run_vm vm_setcode load_vm_from_ram receiver (act_account act) (act_name act)).

Lemma quiet_check_lists receiver : quiet calmer (check_lists control lists ti act receiver).
Proof. unfold check_lists. quiet_tac. Qed.
Hint Resolve quiet_check_lists : quiet.

Lemma exec_one_spec w :
  lwp (exec_one control lists mode ti context_free_data checktime vm vm_setcode load_vm_from_ram act context_free)
    (λ _ w', ran w w' ∧ ac_receiver (w_ctx w) ∈ dom (ch_accounts (w_db w')) ∧
       (handler (ac_receiver (w_ctx w)) = None → dom (ch_accounts (w_db w')) = dom (ch_accounts (w_db w)))) w.
Proof.
  unfold exec_one, put_ctx. repeat lwp_step.
  set (w1 := World _ _ _). assert (H1 : calmer w w1) by calm_solve.
  apply lwp_mono with (P := λ _ w2, calm w w2 ∧ (handler (ac_receiver (w_ctx w)) = None →
    dom (ch_accounts (w_db w2)) = dom (ch_accounts (w_db w)))).
  { destruct (handler _) as [native|] eqn:Hn.
    - apply quiet_native in Hn. lwp_step. eapply (lwp_quiet calmer); [apply quiet_check_lists|exact H1|].
      intros _ w2 H2. eapply (lwp_quiet calm); [exact Hn|apply H2|]. by intros _ w3 H3.
    - lwp_step. split; [apply H1|intros _; apply H1]. }
  intros _ w2 (H2 & Hd2). repeat lwp_step. set (r := ac_receiver (w_ctx w)) in *.
  apply lwp_mono with (P := λ _ w3, calmer w2 w3).
  { assert (Hr : calmer w2 w2) by done. case_match; repeat quiet_step. }
  intros _ w3 H3. destruct (H3) as [C3 D3].
  assert (Hr : ac_receiver (w_ctx w3) = r) by (rewrite (calm_receiver _ _ C3); apply H2).
  rewrite <- Hr. eapply lwp_mono; [apply record_receipt_spec|]. cbn. intros _ w4 (R4 & D4).
  split_and!; [eapply calm_ran; [|exact R4]; by etrans| |].
  - rewrite D4, D3, Hr. by eapply elem_of_dom_2.
  - intros Hn. rewrite D4, D3. apply Hd2. by rewrite <- Hr.
Qed.

(** ** Notifications *)

(** Receipts [l] are made on the way from [s] to [s']; they carry the next
    global sequence numbers. *)
Record receipts (l : list action_receipt) (s s' : chain_db K * transaction_context) : Prop := {
  receipts_executed : executed s'.2 = executed s.2 ++ l;
  receipts_numbers k r : l !! k = Some r →
    rc_global_sequence r = u64 (ch_global_action_sequence s.1 + 1 + Z.of_nat k);
  receipts_global : u64 (ch_global_action_sequence s'.1) = u64 (ch_global_action_sequence s.1 + Z.of_nat (length l));
  receipts_transactions : ch_transactions s'.1 = ch_transactions s.1 }.

Lemma receipts_nil s : receipts [] s s.
Proof. constructor; [by rewrite app_nil_r|done|f_equal; cbn; lia|done]. Qed.

Lemma receipts_app l1 l2 s1 s2 s3 : receipts l1 s1 s2 → receipts l2 s2 s3 → receipts (l1 ++ l2) s1 s3.
Proof using Type.
  clear - K. intros [A1 A2 A3 A4] [B1 B2 B3 B4]. constructor; [| | |by rewrite B4].
  - by rewrite B1, A1, app_assoc.
  - intros k r [Hk|[Hle Hk]]%lookup_app_Some; [by apply A2|].
    rewrite (B2 _ _ Hk), <- Z.add_assoc, <- wrap_add_l, A3, wrap_add_l. f_equal. lia.
  - rewrite B3, <- wrap_add_l, A3, wrap_add_l, length_app. f_equal. lia.
Qed.

Abbreviation st w := (w_db w, w_trx w).

Lemma ran_receipts w w' :
  ran w w' → ∃ r, receipts [r] (st w) (st w') ∧ rc_receiver r = ac_receiver (w_ctx w) ∧ rc_act_digest r = action_digest act.
Proof.
  intros [_ _ _ _ (r & He & Hr1 & Hr2 & Hr3) Hg Ht]. exists r. split; [|done]. constructor; cbn; [done| | |done].
  - intros [|k] r' [= <-]. rewrite Hr3, Hg. f_equal. lia.
  - rewrite Hg. apply wrap_wrap.
Qed.

(** No handler runs for an account other than the one of the action. *)
Lemma handler_account receiver : receiver ≠ act_account act → handler receiver = None.
Proof. intros Hr. unfold find_apply_handler. case_match; [done|]. lia. Qed.

Lemma notified_bound (w : world K) i :
  NoDup (notified (w_ctx w)) → (i <= length (notified (w_ctx w)))%nat →
  (∀ r, r ∈ take i (notified (w_ctx w)) → r ∈ dom (ch_accounts (w_db w))) → (i <= size (ch_accounts (w_db w)))%nat.
Proof.
  intros Hd Hi Hex. rewrite <- (size_dom (D:=gset Z)). rewrite <- (length_take_le (notified (w_ctx w)) i) by done.
  rewrite <- (size_list_to_set (C:=gset Z)) by (eapply sublist_NoDup; [exact Hd|apply sublist_take]).
  apply subseteq_size. intros r Hr%elem_of_list_to_set. auto.
Qed.

(** What the notifications from the [i]-th on have done. *)
Record all_ran (i : nat) (w w' : world K) (l : list action_receipt) : Prop := {
  all_depth : depth_ok (w_db w) → depth_ok (w_db w');
  all_receipts : receipts l (st w) (st w');
  all_receivers : rc_receiver <$> l = drop i (notified (w_ctx w'));
  all_digests : Forall (λ r, rc_act_digest r = action_digest act) l;
  all_prefix : notified (w_ctx w) `prefix_of` notified (w_ctx w');
  all_nodup : NoDup (notified (w_ctx w')) }.

Lemma all_ran_step i w w1 w2 w3 r l :
  notified (w_ctx w) !! i = Some r → w1 = World (w_db w) (w_trx w) (with_receiver (w_ctx w) r (ac_privileged (w_ctx w))) →
  ran w1 w2 → all_ran (S i) w2 w3 l → ∃ rc, all_ran i w w3 (rc :: l).
Proof.
  intros Hi -> R A. destruct (ran_receipts _ _ R) as (rc & Hrc & Hr & Hd). exists rc.
  assert (P : notified (w_ctx w) `prefix_of` notified (w_ctx w3)) by (etrans; [apply R|apply A]).
  constructor; [intros ?; by apply A, R|by apply (receipts_app [rc] l _ _ _ Hrc), A| |constructor; [done|apply A]|done|apply A].
  rewrite fmap_cons, Hr, (all_receivers _ _ _ _ A). cbn.
  rewrite <- (drop_S _ _ i); [done|]. by eapply prefix_lookup_Some.
Qed.

Lemma notify_spec steps i first w :
  (∀ r, r ≠ first → handler r = None) → notified (w_ctx w) !! 0%nat = Some first → (1 <= i <= length (notified (w_ctx w)))%nat →
  NoDup (notified (w_ctx w)) → (∀ r, r ∈ take i (notified (w_ctx w)) → r ∈ dom (ch_accounts (w_db w))) →
  (size (ch_accounts (w_db w)) < i + steps)%nat →
  lwp (notify control lists mode ti context_free_data checktime vm vm_setcode load_vm_from_ram act context_free steps i)
    (λ _ w', ∃ l, all_ran i w w' l) w.
Proof.
  revert i w. induction steps as [|steps IH]; intros i w Hfirst H0 Hi Hd Hex Hsz.
  { pose proof (notified_bound w i Hd ltac:(lia) Hex). lia. }
  cbn [notify]. do 2 lwp_step. destruct (notified (w_ctx w) !! i) as [r|] eqn:Hr.
  2: { apply lookup_ge_None in Hr. lwp_step. exists []. constructor; [done|apply receipts_nil| |done|done|done].
       by rewrite drop_ge. }
  unfold put_ctx. repeat lwp_step. set (w1 := World _ _ _).
  eapply lwp_mono; [apply exec_one_spec|]. cbn. intros _ w2 (R & Hr2 & Hdom).
  assert (Hne : r ≠ first).
  { intros ->. pose proof (NoDup_lookup _ _ _ _ Hd Hr H0). lia. }
  specialize (Hdom (Hfirst _ Hne)). pose proof (ran_notified _ _ R) as P. cbn in P.
  eapply lwp_mono; [apply IH|].
  - done.
  - by eapply prefix_lookup_Some.
  - apply lookup_lt_Some in Hr. apply prefix_length in P. lia.
  - by apply R.
  - rewrite Hdom. intros x Hx. apply elem_of_take in Hx as (j & Hx & Hj).
    destruct (decide (j = i)) as [->|Hji].
    + rewrite (prefix_lookup_Some _ _ _ _ Hr P) in Hx. injection Hx as <-. by rewrite <- Hdom.
    + apply Hex, elem_of_take. exists j. split; [|lia].
      destruct (lookup_lt_is_Some_2 (notified (w_ctx w)) j) as [y Hy]; [lia|].
      by rewrite Hy, <- (prefix_lookup_Some _ _ _ _ Hy P).
  - rewrite <- (size_dom (D:=gset Z)), Hdom, size_dom. lia.
  - cbn. intros _ w3 (l & A). destruct (all_ran_step i w w1 w2 w3 r l Hr eq_refl R A) as (rc & A'). eauto.
Qed.

Lemma exec_receivers_spec db tc w receiver :
  (∀ r, r ≠ receiver → handler r = None) → w = World db tc (make_apply_context act receiver) →
  lwp (exec_receivers control lists mode ti context_free_data checktime vm vm_setcode load_vm_from_ram act context_free)
    (λ _ w', ∃ l, all_ran 0 w w' l ∧ head (notified (w_ctx w')) = Some receiver) w.
Proof.
  intros Hfirst ->. unfold exec_receivers, put_ctx. repeat lwp_step.
  pose (w1 := World db tc (with_notified (make_apply_context act receiver) [receiver])).
  eapply lwp_mono; [apply exec_one_spec|]. cbn -[notify]. intros _ w2 (R & Hr2 & _).
  pose proof (ran_notified _ _ R) as P. cbn in P.
  assert (H0 : notified (w_ctx w2) !! 0%nat = Some receiver) by (eapply prefix_lookup_Some; [|exact P]; done).
  do 2 lwp_step. eapply lwp_mono; [apply (notify_spec _ _ receiver)|].
  - done.
  - done.
  - apply prefix_length in P. cbn in P. lia.
  - apply R. apply NoDup_singleton.
  - intros r. destruct (notified (w_ctx w2)) as [|x rest]; [done|]. cbn in *.
    injection H0 as ->. by intros ->%list_elem_of_singleton.
  - lia.
  - cbn. intros _ w3 (l & A). destruct (all_ran_step 0 w1 w1 w2 w3 receiver l eq_refl eq_refl R A) as (rc & [A1 A2 A3 A4 A5 A6]).
    exists (rc :: l). split; [constructor; try done; apply prefix_nil|].
    rewrite head_lookup. eapply prefix_lookup_Some; [exact H0|apply A].
Qed.

(** C28: Executing an action comes to an end, however the contracts notify each
    other; when it completes, every notified account, the account of the action
    first, has been executed exactly once, in the order of the notifications, and
    has a receipt of the action with the next global sequence number. *)
Theorem notified_accounts_run db tc :
  let w := World db tc (make_apply_context act (act_account act)) in
  let run := exec_receivers control lists mode ti context_free_data checktime vm vm_setcode load_vm_from_ram
               act context_free in
  run w ≠ Diverges ∧
  ∀ w', run w = Done tt w' → ∃ l,
    executed (w_trx w') = executed tc ++ l ∧ rc_receiver <$> l = notified (w_ctx w') ∧
    NoDup (notified (w_ctx w')) ∧ head (notified (w_ctx w')) = Some (act_account act) ∧
    ∀ k r, l !! k = Some r → rc_act_digest r = action_digest act ∧
      rc_global_sequence r = u64 (ch_global_action_sequence db + 1 + Z.of_nat k).
Proof.
  intros w run. pose proof (exec_receivers_spec db tc w _ handler_account eq_refl) as H. fold run in H.
  split; [by eapply lwp_terminates|]. intros w' Hrun. destruct (lwp_Done _ _ _ _ _ H Hrun) as (l & [_ [R1 R2 _] A3 A4 _ A6] & Hh).
  exists l. rewrite drop_0 in A3. split_and!; [done|done|done|done|]. intros k r Hk. split; [|by apply R2].
  by eapply Forall_lookup_1 in A4.
Qed.
End contracts.

(** ** Inline actions *)

Section dispatch.
Context {K : Type} `{EqDecision K} {ncodec : native_codec K} {tcodec : trx_codec} {keys : secondary_keys}.
Context {sched : schedules K}.
Context (control : controller_view) (lists : controller_lists K) (mode : app_mode) (ti : trx_input).
Context (context_free_data : list bytes) (checktime : nat → res unit).
Context (vm : Z → bytes → Z → Z → Z → program) (vm_setcode load_vm_from_ram : Z → Z → res unit).
Hypothesis unpack_depth : ∀ data cfg, unpack_chain_config data = Ok cfg → is_unsigned 16 (max_inline_action_depth cfg).

(** The receiver and the digest of an action, as receipts name them. *)
Definition action_key (a : action) : Z * digest_type := (act_account a, action_digest a).
Definition receipt_key (r : action_receipt) : Z * digest_type := (rc_receiver r, rc_act_digest r).

(** Receivers executed actions in the order of [ks] between two states. *)
Definition progress (ks : list (Z * digest_type)) (s s' : chain_db K * transaction_context) : Prop :=
  depth_ok s'.1 ∧ ∃ l, receipts l s s' ∧ ks `sublist_of` (receipt_key <$> l).

Lemma progress_nil s : depth_ok s.1 → progress [] s s.
Proof. intros Hd. split; [done|]. exists []. split; [apply receipts_nil|done]. Qed.

Lemma progress_app ks1 ks2 s1 s2 s3 : progress ks1 s1 s2 → progress ks2 s2 s3 → progress (ks1 ++ ks2) s1 s3.
Proof.
  intros [_ (l1 & H1 & S1)] [Hd (l2 & H2 & S2)]. split; [done|]. exists (l1 ++ l2).
  split; [by eapply receipts_app|]. rewrite fmap_app. by apply sublist_app.
Qed.

Lemma progress_weaken ks1 ks2 s s' : ks1 `sublist_of` ks2 → progress ks2 s s' → progress ks1 s s'.
Proof. intros Hs [Hd (l & Hl & Hsub)]. split; [done|]. exists l. split; [done|]. by etrans. Qed.

Lemma lwp_dispatch_list acts (body : action → M (chain_db K * transaction_context) unit) s :
  (∀ a s, depth_ok s.1 → lwp (body a) (λ _, progress [action_key a] s) s) → depth_ok s.1 →
  lwp (for_each acts body) (λ _, progress (action_key <$> acts) s) s.
Proof.
  intros Hb. revert s. induction acts as [|a acts IH]; intros s Hs; cbn; [by apply progress_nil|]. lwp_step.
  eapply lwp_mono; [by apply Hb|]. cbn. intros _ s1 H1. eapply lwp_mono; [apply IH, H1|]. cbn. intros _ s2 H2.
  exact (progress_app [action_key a] _ _ _ _ H1 H2).
Qed.

Abbreviation dispatch :=
  (dispatch_action control lists mode ti context_free_data checktime vm vm_setcode load_vm_from_ram).

Lemma all_ran_progress a receiver db tc w' l :
  all_ran a 0 (World db tc (make_apply_context a receiver)) w' l → head (notified (w_ctx w')) = Some receiver →
  depth_ok db → progress [(receiver, action_digest a)] (db, tc) (w_db w', w_trx w').
Proof.
  intros [A1 A2 A3 A4 _ _] Hh Hd. split; [by apply A1|]. exists l. split; [done|].
  rewrite drop_0 in A3. rewrite <- A3 in Hh. destruct l as [|r l]; [done|]. cbn in *. injection Hh as Hr.
  apply Forall_cons in A4 as [Hdig _]. unfold receipt_key. rewrite Hr, Hdig. apply sublist_skip, sublist_nil_l.
Qed.

(** Only the contract runs for other receivers. *)
Definition handled_by (a : action) (receiver : Z) : Prop :=
  ∀ run_vm r, r ≠ receiver →
    find_apply_handler control lists mode a run_vm vm_setcode load_vm_from_ram r (act_account a) (act_name a) = None.

Lemma handled_by_account a : handled_by a (act_account a).
Proof. intros run_vm r Hr. unfold find_apply_handler. case_match; [done|]. lia. Qed.

Lemma dispatch_action_spec steps a receiver context_free depth s :
  handled_by a receiver → depth_ok s.1 → 0 <= depth < 2 ^ 16 → 2 ^ 16 <= depth + Z.of_nat steps →
  lwp (dispatch steps a receiver context_free depth) (λ _, progress [(receiver, action_digest a)] s) s.
Proof.
  revert a receiver context_free depth s. induction steps as [|steps IH]; intros a receiver cf depth s Ha Hs Hd Hf; [lia|].
  cbn [dispatch_action]. lwp_step. destruct s as [db tc]. unfold in_context at 1. unfold lwp at 1. cbn [fst snd].
  pose proof (exec_receivers_spec control lists mode ti context_free_data checktime vm vm_setcode load_vm_from_ram a cf
    unpack_depth db tc _ _ (Ha _) eq_refl) as He. unfold lwp in He.
  destruct (exec_receivers _ _ _ _ _ _ _ _ _ _ _ _) as [[] w'| | |]; [|done|done|done].
  destruct He as (l & A & Hh). pose proof (all_ran_progress _ _ _ _ _ _ A Hh Hs) as Hp.
  set (s' := (w_db w', w_trx w')) in *. clearbody s'. repeat lwp_step.
  destruct (_ || _) eqn:Hinl.
  - lwp_step. assert (depth < 2 ^ 16 - 1) by (destruct Hp as [[] _]; lia).
    rewrite (wrap_id 32 (depth + 1)) by (unfold is_unsigned; lia).
    assert (Hc : ∀ cf b t, depth_ok t.1 → lwp (dispatch steps b (act_account b) cf (depth + 1)) (λ _, progress [action_key b] t) t)
      by (intros cf' b t Ht; apply IH; [apply handled_by_account|done|lia|lia]).
    lwp_step. eapply lwp_mono; [apply lwp_dispatch_list; [intros; by apply Hc|apply Hp]|]. cbn. intros _ t Ht.
    eapply lwp_mono; [apply lwp_dispatch_list; [intros; by apply Hc|apply Ht]|]. cbn. intros _ u Hu.
    eapply progress_weaken; [|eapply progress_app; [exact Hp|eapply progress_app; [exact Ht|exact Hu]]].
    apply sublist_skip, sublist_nil_l.
  - lwp_step. by destruct (cfa_inline_actions (w_ctx w')), (inline_actions (w_ctx w')).
Qed.

(** ** Transactions *)

Lemma schedule_transaction_progress s db tc :
  depth_ok s.1 → schedule_transaction pack_transaction control ti s.1 s.2 = Ok (db, tc) → progress [] s (db, tc).
Proof.
  unfold schedule_transaction, trx_add_ram_usage. intros Hd H. simplify_res.
  match goal with H : create_generated _ _ = Ok _ |- _ => apply create_generated_Ok in H as (_ & _ & ->) end.
  match goal with H : (if ?b then _ else _) = Ok _ |- _ => destruct b; simplify_res end;
    (split; [exact Hd|]; exists []; split; [|done]; constructor; cbn; [by rewrite app_nil_r|done|f_equal; lia|done]).
Qed.

(** What a transaction executes: nothing if it is delayed, and no context-free
    actions if they were applied before. *)
Definition executed_actions (s : chain_db K * transaction_context) : list action :=
  (if apply_context_free s.2 then context_free_actions (ti_trx ti) else []) ++
  (if ti_delay ti =? 0 then actions (ti_trx ti) else []).

Abbreviation exec := (trx_exec control lists mode ti context_free_data checktime vm vm_setcode load_vm_from_ram).

Lemma trx_exec_spec s : depth_ok s.1 → lwp exec (λ _, progress (action_key <$> executed_actions s) s) s.
Proof.
  intros Hs. unfold trx_exec, executed_actions. rewrite fmap_app. repeat lwp_step.
  assert (Hc : ∀ cf b t, depth_ok t.1 → lwp (dispatch max_depth_steps b (act_account b) cf 0) (λ _, progress [action_key b] t) t).
  { intros cf' b t Ht. apply dispatch_action_spec; [apply handled_by_account|done|lia|]. unfold max_depth_steps. lia. }
  apply lwp_mono with (P := λ _, progress (action_key <$> if apply_context_free s.2 then context_free_actions (ti_trx ti) else []) s).
  { destruct (apply_context_free s.2); [apply lwp_dispatch_list; [intros; by apply Hc|done]|by apply progress_nil]. }
  intros _ t Ht. destruct (ti_delay ti =? 0).
  - eapply lwp_mono; [apply lwp_dispatch_list; [intros; by apply Hc|apply Ht]|]. cbn. intros _ u Hu. by eapply progress_app.
  - do 3 lwp_step. lwp_step. destruct a as [db tc]. lwp_step. eapply progress_app; [exact Ht|].
    apply schedule_transaction_progress; [apply Ht|done].
Qed.


(** A transaction that completes has executed all its actions, context-free
    ones first, in their order, and its receipts carry consecutive global
    sequence numbers that follow the one of the chain. *)
Theorem transaction_receipts s s' :
  depth_ok s.1 → exec s = Done tt s' → ∃ l,
    executed s'.2 = executed s.2 ++ l ∧
    (∀ k r, l !! k = Some r → rc_global_sequence r = u64 (ch_global_action_sequence s.1 + 1 + Z.of_nat k)) ∧
    (action_key <$> executed_actions s) `sublist_of` (receipt_key <$> l).
Proof.
  intros Hs Hrun. destruct (lwp_Done _ _ _ _ _ (trx_exec_spec s Hs) Hrun) as [_ (l & [R1 R2 _] & Hsub)]. eauto.
Qed.
End dispatch.

(** ** Examples *)

Module execution.
(** The contract of account 7 notifies account 8 and sends it an inline action. *)
Definition inline : action := Action 8 (N_ "hi") [] [].
Definition vm (_ : Z) (_ : bytes) (receiver account _ : Z) : program :=
  if receiver =? 7
  then Step (ApiRequireRecipient 8) (λ _, Step (ApiSendInline [1]) (λ _, Finish))
  else Finish.

(** Transactions and actions are told apart by their length only. *)
#[export] Instance codec : trx_codec := {|
  pack_transaction t := replicate (length (actions t)) 0;
  unpack_transaction _ := Throw fc_eof_exception;
  transaction_id _ := digest_zero;
  pack_action a := act_data a;
  unpack_action _ := Ok inline;
  action_digest a := Digest (act_account a) (act_name a) 0 0;
  unpack_chain_config _ := Throw fc_eof_exception;
  endian_reverse_u32 x := x |}.

#[export] Instance one_producer : schedules Z := {|
  head_block_num := 1;
  active_schedule := ProducerSchedule 0 [ProducerKey 7 100];
  pending_schedule := ProducerSchedule 0 [] |}.

Definition code7 : account_object := with_code (new_account_object 0) 0 0 digest_zero [1].
Definition sequences : gmap Z account_sequence_object :=
  {[7 := account_sequence_default; 8 := account_sequence_default]}.
Definition db : chain_db Z :=
  with_sequences (with_accounts (bills.chain bills.two_accounts) {[7 := code7; 8 := new_account_object 0]}) sequences.
Definition act : action := Action 7 7 [PermissionLevel 7 1] [].
Definition ready : transaction_context := with_initialized bills.fresh.

Lemma depths : ∀ data cfg, unpack_chain_config data = Ok cfg → is_unsigned 16 (max_inline_action_depth cfg).
Proof. done. Qed.

Lemma db_depth : depth_ok db.
Proof. by split. Qed.
End execution.

#[local] Existing Instance contract.int_keys.
#[local] Existing Instance native_example.codec.
#[local] Existing Instance execution.codec.
#[local] Existing Instance execution.one_producer.

Abbreviation example_exec :=
  (trx_exec bills.control native_example.lists (AppMode true false false) (bills.input 7) [] (λ _, Ok tt)
     execution.vm (λ _ _, Ok tt) (λ _ _, Ok tt)).


Lemma transaction_receipts_witness :
  ∃ s', example_exec (execution.db, execution.ready) = Done tt s' ∧
    rc_receiver <$> executed s'.2 = [7; 8; 8] ∧ rc_global_sequence <$> executed s'.2 = [1; 2; 3] ∧
    [action_key execution.act] `sublist_of` (receipt_key <$> executed s'.2).
Proof.
  assert (Hc : match example_exec (execution.db, execution.ready) with
    | Done _ s' => rc_receiver <$> executed s'.2 = [7; 8; 8] ∧ rc_global_sequence <$> executed s'.2 = [1; 2; 3]
    | _ => False end) by (vm_compute; split; reflexivity).
  destruct (example_exec (execution.db, execution.ready)) as [[] s'| | |] eqn:Hrun; [|destruct Hc..].
  destruct (transaction_receipts bills.control native_example.lists (AppMode true false false) (bills.input 7) []
    (λ _, Ok tt) execution.vm (λ _ _, Ok tt) (λ _ _, Ok tt) execution.depths (execution.db, execution.ready) s'
    execution.db_depth Hrun) as (l & H1 & _ & H3). clear Hrun.
  exists s'. destruct Hc as [Hc1 Hc2]. split; [reflexivity|]. split; [exact Hc1|]. split; [exact Hc2|].
  rewrite H1. exact H3.
Defined.

Lemma notified_accounts_run_witness :
  ∃ w', exec_receivers bills.control native_example.lists (AppMode true false false) (bills.input 7) [] (λ _, Ok tt)
      execution.vm (λ _ _, Ok tt) (λ _ _, Ok tt) execution.act false
      (World execution.db execution.ready (make_apply_context execution.act 7)) = Done tt w' ∧
    ∃ l, executed (w_trx w') = l ∧ rc_receiver <$> l = [7; 8].
Proof.
  destruct (notified_accounts_run bills.control native_example.lists (AppMode true false false) (bills.input 7) []
    (λ _, Ok tt) execution.vm (λ _ _, Ok tt) (λ _ _, Ok tt) execution.act false execution.depths
    execution.db execution.ready) as [_ H].
  assert (Hc : match exec_receivers bills.control native_example.lists (AppMode true false false) (bills.input 7) []
      (λ _, Ok tt) execution.vm (λ _ _, Ok tt) (λ _ _, Ok tt) execution.act false
      (World execution.db execution.ready (make_apply_context execution.act 7)) with
    | Done _ w' => notified (w_ctx w') = [7; 8] | _ => False end) by (vm_compute; reflexivity).
  change (act_account execution.act) with 7 in H.
  destruct (exec_receivers _ _ _ _ _ _ _ _ _ _ _ _) as [[] w'| | |]; [|destruct Hc..].
  exists w'. split; [reflexivity|]. destruct (H w' eq_refl) as (l & H1 & H2 & _). exists l. split; [exact H1|].
  rewrite H2. exact Hc.
Defined.
