(* ===== verification/PushTransaction.v ===== *)
(** * Pushing transactions (controller.cpp, block.hpp, transaction_metadata.hpp)

    How the controller executes a transaction in the pending block: an input
    transaction, the implicit one at the start of a block, or a scheduled one
    with its error handler.  A transaction runs in an undo session of its own,
    so its changes reach the database of the block only when it is accepted,
    together with its receipt.

    A function returns the exception that the trace carries, if any.  Readings
    of the clock are arguments.  A node that replays irreversible blocks without
    undo sessions is not modelled. *)

From S2P Require Import Prelude Exceptions Config Name Merkle Database ResourceLimits Authority Transaction ChainConfig AuthorizationManager StateMonad IteratorCache BlockHeaderState ChainDatabase ErrorState Controller TransactionContext ApplyContext TableCalls EosioContract ActionExecution.

(** ** Receipts *)

Module status_enum.
Inductive status_enum : Set := executed | soft_fail | hard_fail | delayed | expired.
#[export] Instance eq_dec : EqDecision status_enum.
Proof. solve_decision. Defined.
End status_enum.
#[export] Existing Instance status_enum.eq_dec.
Abbreviation status_enum := status_enum.status_enum.

Record transaction_receipt_header : Set := ReceiptHeader {
  rh_status : status_enum;
  rh_cpu_usage_us : Z;           (* uint32_t *)
  rh_net_usage_words : Z;        (* fc::unsigned_int *)
  rh_ram_usage : Z }.            (* int32_t *)

(** [operator ==] of the headers, which does not compare the RAM. *)
Definition receipt_header_eq (a b : transaction_receipt_header) : bool :=
  bool_decide (rh_status a = rh_status b) && (rh_cpu_usage_us a =? rh_cpu_usage_us b) &&
  (rh_net_usage_words a =? rh_net_usage_words b).

(** The transaction of a receipt: an id, or the transaction itself. *)
Inductive receipt_trx (Sig : Type) : Type :=
  | ReceiptId (id : digest_type)
  | ReceiptPacked (p : packed_transaction Sig).
Arguments ReceiptId {Sig}.
Arguments ReceiptPacked {Sig}.

Record transaction_receipt (Sig : Type) : Type := Receipt {
  tr_header :> transaction_receipt_header;
  tr_trx : receipt_trx Sig }.
Arguments Receipt {Sig}.
Arguments tr_header {Sig}.
Arguments tr_trx {Sig}.

(** ** Serialisation, hashes and keys *)

Class block_codec (K Sig : Type) : Type := {
  raw_pack_cfd : list bytes → bytes;
  raw_unpack_cfd : bytes → res (list bytes);
  deflate : bytes → bytes;
  inflate : bytes → bytes * bool;
  pack_size_signatures : list Sig → Z;
  pack_digest : digest_type → bytes;
  sha256 : bytes → digest_type;
  recover_key : Sig → digest_type → res K;
  hash_packed : packed_transaction Sig → digest_type;             (* digest_type::hash *)
  packed_digest : packed_transaction Sig → digest_type;
  hash_receipt : status_enum → Z → Z → digest_type → digest_type;  (* of the packed fields *)
  hash_action_receipt : action_receipt → digest_type;
  pack_block_header : @block_header K → bytes;
  pack_onerror : Z → bytes → bytes }.

(** ** The configuration of a node and the pending block *)

Record node_config (K : Type) : Type := NodeConfig {
  nc_controller :> controller_config;
  skip_signature_check : bool;
  light_validation_mode : bool;            (* block_validation_mode = LIGHT *)
  allow_ram_billing_in_notify : bool;
  resource_greylist : gset Z;
  nc_lists : controller_lists K;
  subjective_cpu_leeway : option Z;
  chain_id : digest_type;
  replay_head_time : option Z }.
Arguments nc_controller {K}.
Arguments skip_signature_check {K}.
Arguments light_validation_mode {K}.
Arguments allow_ram_billing_in_notify {K}.
Arguments resource_greylist {K}.
Arguments nc_lists {K}.
Arguments subjective_cpu_leeway {K}.
Arguments chain_id {K}.
Arguments replay_head_time {K}.

(** The block that is being built. *)
Record block_context : Type := BlockContext {
  bc_status : block_status;
  bc_light : bool;                         (* trusted_producer_light_validation *)
  bc_time : Z;                             (* pending_block_time *)
  bc_head_id : digest_type;
  bc_summary : Z → digest_type }.

(** What the clock shows during a transaction: when it starts; whether the
    timer has expired, and the time, at the end of its initialisation; the
    checks of the deadline during authorization checks; the time when it is
    billed; and the CPU time measured if it fails. *)
Record clock : Type := Clock {
  ck_start : Z;
  ck_expired : bool;
  ck_init : Z;
  ck_checktime : nat → res unit;
  ck_finalize : Z;
  ck_failed : Z }.                         (* uint32_t *)

(** ** Metadata *)

Record transaction_metadata (Sig : Type) : Type := Metadata {
  md_id : digest_type;
  md_signed_id : digest_type;
  md_trx : signed_transaction Sig;
  md_packed : packed_transaction Sig;
  md_implicit : bool }.
Arguments Metadata {Sig}.
Arguments md_id {Sig}.
Arguments md_signed_id {Sig}.
Arguments md_trx {Sig}.
Arguments md_packed {Sig}.
Arguments md_implicit {Sig}.

Section push.
Context {K Sig : Type} `{EqDecision K, EqDecision Sig}.
Context {ncodec : native_codec K} {tcodec : trx_codec} {bcodec : block_codec K Sig} {keys : secondary_keys}.
Context {sched : schedules K}.
Variable conf : node_config K.
Variable mode : app_mode.
Variable vm : Z → bytes → Z → Z → Z → program.
Variable vm_setcode : Z → Z → res unit.
Variable load_vm_from_ram : Z → Z → res unit.
Variable bc : block_context.

Abbreviation metadata := (transaction_metadata Sig).
Abbreviation receipt := (transaction_receipt Sig).

Definition metadata_of_signed (t : signed_transaction Sig) (implicit : bool) : res metadata :=
  p ← make_packed pack_transaction raw_pack_cfd deflate t 0;
  mret (Metadata (transaction_id (trx t)) (hash_packed p) t p implicit).

Definition metadata_of_packed (p : packed_transaction Sig) : res metadata :=
  match get_signed_transaction unpack_transaction raw_unpack_cfd inflate p with
  | Ok (t, _) => mret (Metadata (transaction_id (trx t)) (hash_packed p) t p false)
  | Throw e => Throw (fc_rethrow e)
  end.

(** [recover_keys]; the caches are transparent. *)
Definition recover_keys (md : metadata) : res (list K) :=
  '(ks, _) ← get_signature_keys pack_transaction raw_pack_cfd pack_digest sha256 recover_key public_key_lt
               (trx (md_trx md)) (signatures (md_trx md)) (chain_id conf) (context_free_data (md_trx md)) false false [];
  mret ks.

(** ** What the contexts are told *)

Definition is_producing : bool := bool_decide (bc_status bc = incomplete).

Definition light_validation_allowed (in_trx_requiring_checks replay_opts_disabled_by_policy : bool) : bool :=
  if skip_signature_check conf then true
  else if in_trx_requiring_checks then false
  else
    let consider_skipping_on_replay :=
      bool_decide (bc_status bc = irreversible ∨ bc_status bc = validated) && negb replay_opts_disabled_by_policy in
    let consider_skipping_on_validate :=
      bool_decide (bc_status bc = complete) && (light_validation_mode conf || bc_light bc) in
    consider_skipping_on_replay || consider_skipping_on_validate.

Definition view (in_trx_requiring_checks : bool) : controller_view :=
  ControllerView
    (light_validation_allowed in_trx_requiring_checks (disable_replay_opts conf))
    (light_validation_allowed in_trx_requiring_checks (force_all_checks conf))
    is_producing (λ a, bool_decide (a ∈ resource_greylist conf))
    (negb is_producing || allow_ram_billing_in_notify conf)
    (bc_time bc) (bc_head_id bc) (bc_summary bc).

Abbreviation slot := (slot_of_time_point (bc_time bc)).
Definition default_leeway : Z := 3000.

(** ** The pending block *)

Record block_world : Type := BlockWorld {
  bw_db : chain_db K;
  bw_receipts : list receipt;              (* block->transactions *)
  bw_trxs : list metadata;                 (* trxs *)
  bw_actions : list action_receipt;        (* _actions *)
  bw_erased : list digest_type }.          (* erased from unapplied_transactions *)

Abbreviation XB := (X block_world).

Definition put_bw_db (db : chain_db K) (s : block_world) : block_world :=
  BlockWorld db (bw_receipts s) (bw_trxs s) (bw_actions s) (bw_erased s).
Definition add_receipt (r : receipt) (s : block_world) : block_world :=
  BlockWorld (bw_db s) (bw_receipts s ++ [r]) (bw_trxs s) (bw_actions s) (bw_erased s).
Definition add_trx (md : metadata) (s : block_world) : block_world :=
  BlockWorld (bw_db s) (bw_receipts s) (bw_trxs s ++ [md]) (bw_actions s) (bw_erased s).
Definition add_actions (l : list action_receipt) (s : block_world) : block_world :=
  BlockWorld (bw_db s) (bw_receipts s) (bw_trxs s) (bw_actions s ++ l) (bw_erased s).
Definition erase_trx (id : digest_type) (s : block_world) : block_world :=
  BlockWorld (bw_db s) (bw_receipts s) (bw_trxs s) (bw_actions s) (id :: bw_erased s).

(** The restore point of [make_block_restore_point]: the lists have the sizes
    they had in [old]. *)
Definition restore_block (old s : block_world) : block_world :=
  BlockWorld (bw_db s) (take (length (bw_receipts old)) (bw_receipts s)) (take (length (bw_trxs old)) (bw_trxs s))
    (take (length (bw_actions old)) (bw_actions s)) (bw_erased s).

Definition push_receipt (t : receipt_trx Sig) (st : status_enum) (cpu_usage_us net_usage ram_usage : Z) : XB unit :=
  let net_usage_words := net_usage / 8 in
  xasserts (u64 (net_usage_words * 8) =? net_usage) transaction_exception;;
  xmodify (add_receipt (Receipt (ReceiptHeader st (u32 cpu_usage_us) (u32 net_usage_words) ram_usage) t)).

(** [FC_CAPTURE_AND_RETHROW]. *)
Definition xrethrow {A} (m : XB A) : XB A := xcatch_all m (λ e, xlift (Throw (fc_rethrow e))).

(** The undo session of a transaction context: the database of the block
    is not changed before the session is squashed. *)
Definition in_session (m : M (chain_db K * transaction_context) unit) (s0 : chain_db K * transaction_context)
    : XB (chain_db K * transaction_context) := λ s,
  match m s0 with
  | Done _ s1 => Some (Ok s1, s)
  | Threw e => Some (Throw e, s)
  | Undefined | Diverges => None
  end.

(** ** Failures *)

Definition subjective_failures : list exception :=
  [subjective_block_production_exception; block_net_usage_exceeded; greylist_net_usage_exceeded;
   block_cpu_usage_exceeded; greylist_cpu_usage_exceeded; deadline_exception; leeway_deadline_exception;
   actor_whitelist_exception; actor_blacklist_exception; contract_whitelist_exception;
   contract_blacklist_exception; action_blacklist_exception; key_blacklist_exception].

(** [e.code()] is one of the codes. *)
Definition code_in (l : list exception) (e : exception) : bool := existsb (λ x, code_value e =? code_value x) l.

Definition failure_is_subjective (e : exception) : bool := code_in subjective_failures e.
Definition scheduled_failure_is_subjective (e : exception) : bool :=
  (code_value e =? code_value tx_cpu_usage_exceeded) || failure_is_subjective e.

(** ** Input and implicit transactions *)

Section transaction.
Variable ck : clock.
Variable ti : trx_input.
Variable control : controller_view.

Abbreviation MT := (M (chain_db K * transaction_context)).

Definition put_state (s : chain_db K * transaction_context) : MT unit := modify (λ _, s).

Definition finish : MT unit :=
  s ← get;
  s ← lift (finalize control ti s.1 s.2 (ck_finalize ck));
  put_state s.

Definition exec (cfd : list bytes) : MT unit :=
  trx_exec control (nc_lists conf) mode ti cfd (ck_checktime ck) vm vm_setcode load_vm_from_ram.

Definition skip_recording (md : metadata) : bool :=
  match replay_head_time conf with
  | Some t => expiration (header (trx (md_trx md))) * 1000000 <=? t
  | None => false
  end.

(** The initialisation that [push_transaction] chooses. *)
Definition init_pushed (md : metadata) (s : chain_db K * transaction_context) : res (chain_db K * transaction_context) :=
  if md_implicit md then init_for_implicit_trx control ti s.1 s.2 0 (ck_expired ck) (ck_init ck)
  else
    unprunable ← get_unprunable_size (md_packed md);
    prunable ← get_prunable_size pack_size_signatures (md_packed md);
    init_for_input_trx endian_reverse_u32 control ti s.1 s.2 unprunable prunable (skip_recording md)
      (ck_expired ck) (ck_init ck).

Definition check_signatures (md : metadata) (db : chain_db K) : res unit :=
  if negb (skip_auth_check control) && negb (md_implicit md) then
    provided_keys ← recover_keys md;
    check_authorization (ch_generated db) unpack_transaction unpack_updateauth unpack_deleteauth unpack_linkauth
      unpack_unlinkauth unpack_canceldelay (λ _, mret tt) (ch_configuration db) (ch_authorization db)
      (actions (trx (md_trx md))) provided_keys [] (ti_delay ti) false
  else mret tt.

(** The [try] block of [push_transaction] up to the receipt. *)
Definition pushed_body (md : metadata) : MT unit :=
  s ← get;
  s ← lift (init_pushed md s);
  put_state s;;
  (if ti_can_subjectively_fail ti && is_producing then lift (check_actor_list (nc_lists conf) (bill_to_accounts s.2)) else mret tt);;
  lift (check_signatures md s.1);;
  exec (context_free_data (md_trx md));;
  finish.

(** Those of [push_scheduled_transaction] and [apply_onerror]. *)
Definition deferred_body (published_at : Z) : MT unit :=
  s ← get;
  s ← lift (init_for_deferred_trx control ti s.1 s.2 published_at (ck_expired ck) (ck_init ck));
  put_state s;;
  exec [];;
  finish.

Definition onerror_body (a : action) (receiver published_at : Z) : MT unit :=
  s ← get;
  '(db, tc) ← lift (init_for_implicit_trx control ti s.1 s.2 0 (ck_expired ck) (ck_init ck));
  put_state (db, with_entry tc published_at (is_input tc) (apply_context_free tc));;
  dispatch_action control (nc_lists conf) mode ti [] (ck_checktime ck) vm vm_setcode load_vm_from_ram
    max_depth_steps a receiver false 0;;
  finish.
End transaction.

Definition billed (tc : transaction_context) : Z := billed_cpu_time_us (tc_cpu tc).
Definition net_of (tc : transaction_context) : Z := tc_net_usage (tc_net tc).
Definition ram_of (tc : transaction_context) : Z := tc_ram_usage (tc_ram tc).

(** What is set of the context of a pushed transaction. *)
Definition pushed_input (md : metadata) (ck : clock) (deadline : Z) (explicit : bool) : trx_input :=
  let t := trx (md_trx md) in
  TrxInput t (md_id md) (ck_start ck) (delay_sec (header t) * 1000000) deadline
    (match subjective_cpu_leeway conf with Some l => if is_producing then l else default_leeway | None => default_leeway end)
    explicit (negb (md_implicit md)).

Definition pushed_receipt (md : metadata) (ti : trx_input) (tc : transaction_context) : XB unit :=
  if md_implicit md then mret tt
  else
    push_receipt (ReceiptPacked (md_packed md)) (if ti_delay ti =? 0 then status_enum.executed else status_enum.delayed)
      (billed tc) (net_of tc) (ram_of tc);;
    xmodify (add_trx md).

Definition push_transaction (md : metadata) (in_trx_requiring_checks : bool) (ck : clock) (deadline billed_cpu_time_us : Z)
    (explicit_billed_cpu_time : bool) : XB (option exception) :=
  xasserts (negb (deadline =? 0)) transaction_exception;;
  xrethrow (
    let ti := pushed_input md ck deadline explicit_billed_cpu_time in
    let control := view in_trx_requiring_checks in
    tc ← xlift (make_transaction_context ti billed_cpu_time_us);
    s ← xget;
    r ← xtry (
      '(db, tc) ← in_session (pushed_body ck ti control md) (bw_db s, tc);
      pushed_receipt md ti tc;;
      xmodify (add_actions (executed tc));;
      (if negb (is_speculative conf) && is_producing
       then xmodify (restore_block s)
       else xmodify (put_bw_db db));;
      if md_implicit md then mret tt else xmodify (erase_trx (md_signed_id md)));
    match r with
    | Ok _ => mret None
    | Throw e =>
        (if failure_is_subjective e then mret tt else xmodify (erase_trx (md_signed_id md)));;
        mret (Some e)
    end).

(** ** Scheduled transactions *)

(** The minus sign is on an unsigned number, which then becomes an [int64_t]. *)
Definition remove_scheduled_transaction (db : chain_db K) (gto : generated_transaction_object) : res (chain_db K) :=
  rl ← add_pending_ram_usage (ch_limits db) (gto_payer gto)
         (i64 (u64 (- (u64 (billable.generated_transaction + Z.of_nat (length (gto_packed_trx gto)))))));
  mret (with_generated (with_ch_limits db rl) (delete (gto_trx_id gto) (ch_generated db))).

(** The transaction that delivers [onerror] to the sender. *)
Definition onerror_name : Z := N_ "onerror".

Definition onerror_action (gtrx : generated_transaction_object) : action :=
  Action config.system_account_name onerror_name [PermissionLevel (gto_sender gtrx) config.active_name]
    (pack_onerror (gto_sender_id gtrx) (gto_packed_trx gtrx)).

Definition default_header (expiration : Z) : transaction_header :=
  TransactionHeader expiration 0 (2 ^ 31 - 1) 0 0 0 0.

(** A transaction of one action that the controller makes itself. *)
Definition own_transaction (a : action) : transaction :=
  Transaction
    (set_reference_block endian_reverse_u32 (default_header (u32 ((bc_time bc + 999999) / 1000000))) (bc_head_id bc))
    [] [a] [].

(** [None] if the error was handled, otherwise the exception and the CPU time to bill. *)
Definition apply_onerror (db : chain_db K) (gtrx : generated_transaction_object) (ck : clock) (deadline billed_cpu_time_us : Z)
    (explicit_billed_cpu_time : bool) : XB (option (exception * Z)) :=
  let a := onerror_action gtrx in
  let etrx := own_transaction a in
  let ti := TrxInput etrx (transaction_id etrx) (ck_start ck) 0 deadline default_leeway explicit_billed_cpu_time true in
  tc ← xlift (make_transaction_context ti billed_cpu_time_us);
  r ← xtry (
    '(db, tc) ← in_session (onerror_body ck ti (view true) a (gto_sender gtrx) (gto_published gtrx)) (db, tc);
    push_receipt (ReceiptId (gto_trx_id gtrx)) status_enum.soft_fail (billed tc) (net_of tc) (ram_of tc);;
    xmodify (add_actions (executed tc));;
    xmodify (put_bw_db db));
  match r with
  | Ok _ => mret None
  | Throw e => mret (Some (e, if explicit_billed_cpu_time then u32 billed_cpu_time_us else ck_failed ck))
  end.

(** The accounts that [init] had recorded when the transaction failed: none
    if the CPU time to bill was refused at once. *)
Definition bill_to_on_failure (db : chain_db K) (ti : trx_input) (tc : transaction_context) : gset Z :=
  let cpu := init_duration_limit ti db (tc_cpu tc) in
  if (billed_cpu_time_us cpu >? 0) && negb (is_ok (validate_cpu_usage_to_bill (view true) db cpu (billed_cpu_time_us cpu) false))
  then ∅ else actors_of (actions (ti_trx ti)).

(** The bill of a transaction that failed for good, and its CPU time. *)
Definition bill_failure (db : chain_db K) (ti : trx_input) (tc : transaction_context) (cpu_time_to_bill_us : Z)
    : res (chain_db K * Z) :=
  let bill_to := bill_to_on_failure db ti tc in
  '(rl, cpu) ← (if ti_explicit_billed_cpu_time ti then mret (ch_limits db, cpu_time_to_bill_us)
                else
                  rl ← update_account_usage (ch_limits db) (flat_set_elements bill_to) slot;
                  b ← max_bandwidth_billed_accounts_can_pay (view true) rl bill_to true;
                  mret (rl, u32 (Z.min (Z.min cpu_time_to_bill_us (account_cpu_limit b))
                                   (initial_objective_duration_limit (init_duration_limit ti db (tc_cpu tc))))));
  rl ← add_transaction_usage rl (flat_set_elements bill_to) cpu 0 slot;
  mret (with_ch_limits db rl, cpu).

(** Everything after the failure of the transaction itself; [db] is the
    database without the scheduled transaction. *)
Definition failed_scheduled (db : chain_db K) (gtrx : generated_transaction_object) (ti : trx_input) (tc : transaction_context)
    (ck ck_onerror : clock) (billed_cpu_time_us : Z) (e : exception) : XB (option exception) :=
  let explicit := ti_explicit_billed_cpu_time ti in
  let cpu := if explicit then u32 billed_cpu_time_us else ck_failed ck in
  unhandled ← (if negb (gto_sender gtrx =? 0) && negb (failure_is_subjective e)
               then apply_onerror db gtrx ck_onerror (ti_deadline ti) billed_cpu_time_us explicit
               else mret (Some (e, cpu)));
  match unhandled with
  | None => mret None
  | Some (e, cpu) =>
      let subjective := if explicit then failure_is_subjective e else scheduled_failure_is_subjective e in
      (if subjective then mret tt
       else
         '(db, cpu) ← xlift (bill_failure db ti tc cpu);
         push_receipt (ReceiptId (gto_trx_id gtrx)) status_enum.hard_fail cpu 0 0;;
         xmodify (put_bw_db db));;
      mret (Some e)
  end.

Definition scheduled_input (dtrx : transaction) (gtrx : generated_transaction_object) (ck : clock) (deadline : Z)
    (explicit : bool) : trx_input :=
  TrxInput dtrx (gto_trx_id gtrx) (ck_start ck) 0 deadline 0 explicit true.

Definition push_generated (gtrx : generated_transaction_object) (ck ck_onerror : clock)
    (deadline billed_cpu_time_us : Z) (explicit_billed_cpu_time : bool) : XB (option exception) :=
  xrethrow (
    s ← xget;
    db ← xlift (remove_scheduled_transaction (bw_db s) gtrx);
    xasserts (gto_delay_until gtrx <=? bc_time bc) transaction_exception;;
    dtrx ← xlift (unpack_transaction (gto_packed_trx gtrx));
    if gto_expiration gtrx <? bc_time bc then
      push_receipt (ReceiptId (gto_trx_id gtrx)) status_enum.expired billed_cpu_time_us 0 0;;
      xmodify (put_bw_db db);;
      mret None
    else
      let ti := scheduled_input dtrx gtrx ck deadline explicit_billed_cpu_time in
      tc ← xlift (make_transaction_context ti billed_cpu_time_us);
      r ← xtry (
        '(db, tc) ← in_session (deferred_body ck ti (view true) (gto_published gtrx)) (db, tc);
        push_receipt (ReceiptId (gto_trx_id gtrx)) status_enum.executed (billed tc) (net_of tc) (ram_of tc);;
        xmodify (add_actions (executed tc));;
        xmodify (put_bw_db db));
      match r with
      | Ok _ => mret None
      | Throw e => failed_scheduled db gtrx ti tc ck ck_onerror billed_cpu_time_us e
      end).

Definition push_scheduled_transaction (trxid : digest_type) (ck ck_onerror : clock) (deadline billed_cpu_time_us : Z)
    (explicit_billed_cpu_time : bool) : XB (option exception) :=
  s ← xget;
  gto ← xlift (match ch_generated (bw_db s) !! trxid with
               | Some gto => Ok gto
               | None => EOS_THROW unknown_transaction_exception
               end);
  push_generated gto ck ck_onerror deadline billed_cpu_time_us explicit_billed_cpu_time.
End push.
