(* ===== verification/PushTheorems.v ===== *)
(** * Correctness of pushing transactions

    A transaction is all or nothing: either its changes reach the database of
    the block together with its receipt, or nothing changes.  A scheduled
    transaction is retired with exactly one receipt, unless it failed for a
    reason that concerns this node only. *)

From S2P Require Import Prelude Exceptions Config Name Merkle Database ResourceLimits Authority Transaction ChainConfig AuthorizationManager StateMonad IteratorCache BlockHeaderState ChainDatabase ErrorState Controller TransactionContext ApplyContext TableCalls EosioContract ActionExecution ExecutionTheorems NativeActions ContractTables PushTransaction.

Section bodies.
Context {K Sig : Type} `{EqDecision K, EqDecision Sig}.
Context {ncodec : native_codec K} {tcodec : trx_codec} {bcodec : block_codec K Sig} {keys : secondary_keys}.
Context {sched : schedules K}.
Context (conf : node_config K) (mode : app_mode) (vm : Z → bytes → Z → Z → Z → program).
Context (vm_setcode load_vm_from_ram : Z → Z → res unit) (bc : block_context).
Hypothesis unpack_depth : ∀ data cfg, unpack_chain_config data = Ok cfg → is_unsigned 16 (max_inline_action_depth cfg).
Implicit Types (control : controller_view) (ti : trx_input) (db : chain_db K) (md : transaction_metadata Sig).

(** ** Initialisation and bill *)

Lemma init_keeps control ti db tc initial expired now db' tc' :
  init control ti db tc initial expired now = Ok (db', tc') →
  (∃ rl, db' = with_ch_limits db rl) ∧ executed tc' = executed tc ∧ apply_context_free tc' = apply_context_free tc.
Proof.
  unfold init. intros H. simplify_res.
  match goal with H : (let '(_, _) := ?u in _) = Ok _ |- _ => destruct u end. simplify_res.
  split_and!; [by eexists|done|done].
Qed.

(** Initialising an input transaction records its id, which was not recorded;
    unless checks are skipped, the transaction has not expired. *)
Lemma init_for_input_trx_keeps control ti db tc unprunable prunable skip expired now db' tc' :
  init_for_input_trx endian_reverse_u32 control ti db tc unprunable prunable skip expired now = Ok (db', tc') →
  (∃ rl, if skip then db' = with_ch_limits db rl
         else ch_transactions db !! ti_id ti = None ∧
              db' = with_transactions (with_ch_limits db rl)
                      (<[ti_id ti := expiration (header (ti_trx ti))]> (ch_transactions db))) ∧
  executed tc' = executed tc ∧ apply_context_free tc' = apply_context_free tc ∧
  (skip_trx_checks control = false → validate_expiration control db (ti_trx ti) = Ok tt).
Proof.
  unfold init_for_input_trx. intros H. simplify_res. destruct x0 as [db1 tc1].
  match goal with H : init _ _ _ _ _ _ _ = Ok _ |- _ => apply init_keeps in H as ((rl & ->) & He & Ha) end.
  split_and!; try (by destruct skip; simplify_res).
  - exists rl. destruct skip; simplify_res; [done|].
    unfold record_transaction, db_create in *. cbn in *. destruct (ch_transactions db !! ti_id ti); simplify_res. done.
  - intros Hs. rewrite Hs in *. simplify_res. repeat match goal with x : unit |- _ => destruct x end. done.
Qed.

(** What the bill leaves alone. *)
Record bill_keeps (s s' : chain_db K * transaction_context) : Prop := {
  bk_executed : executed s'.2 = executed s.2;
  bk_global : ch_global_action_sequence s'.1 = ch_global_action_sequence s.1;
  bk_transactions : ch_transactions s'.1 = ch_transactions s.1;
  bk_configuration : ch_configuration s'.1 = ch_configuration s.1;
  bk_generated : ch_generated s'.1 = ch_generated s.1 }.

Lemma update_permission_usages_keeps control ti db db' :
  update_permission_usages control ti db = Ok db' → ∃ a, db' = with_authorization db a.
Proof.
  unfold update_permission_usages. intros H.
  eapply (foldM_invariant (λ d, ∃ a, d = with_authorization db a)) in H; [done| |].
  - intros t auth t' _ [a ->] Hb. simplify_res. by eexists.
  - exists (ch_authorization db). by destruct db.
Qed.

Lemma finalize_keeps control ti db tc now s' :
  finalize control ti db tc now = Ok s' →
  bill_keeps (db, tc) s' ∧ net_of s'.2 = u64 (u64 (net_of tc + 7) / 8 * 8).
Proof.
  unfold finalize. intros H. simplify_res. destruct x as [db1 tc1]. simplify_res.
  match goal with H : finalize_checks _ _ _ _ _ = Ok _ |- _ =>
    pose proof (finalize_checks_inv _ _ _ _ _ _ _ H) as (_ & _ & _ & _ & Hnet & _); unfold finalize_checks in H; simplify_res end.
  match goal with H : (let '(_, _) := ?u in _) = Ok _ |- _ => destruct u end. simplify_res.
  split; [|exact Hnet].
  match goal with H : (if is_input tc then _ else _) = Ok ?d |- _ =>
    assert (Hd : ∃ a, d = with_authorization db a) end.
  { destruct (is_input tc); simplify_res; [by eapply update_permission_usages_keeps|].
    match goal with |- ∃ a, ?d = _ => exists (ch_authorization d); by destruct d end. }
  destruct Hd as [a ->]. by constructor.
Qed.

Lemma progress_finalize control ti ks (s s1 : chain_db K * transaction_context) now s2 :
  progress ks s s1 → finalize control ti s1.1 s1.2 now = Ok s2 → progress ks s s2.
Proof.
  intros [Hd (l & [R1 R2 R3 R4] & Hl)] [[B1 B2 B3 B4 _] _]%finalize_keeps. cbn in *. split.
  - unfold depth_ok. by rewrite B4.
  - exists l. split; [|done]. constructor; [congruence|done|congruence|congruence].
Qed.

Lemma words_exact z : let n := u64 (u64 z / 8 * 8) in u64 (n / 8 * 8) = n.
Proof.
  cbn zeta. pose proof (wrap_range 64 z ltac:(lia)) as Hz. set (y := u64 z) in *. clearbody y. unfold is_unsigned in Hz.
  rewrite (wrap_id 64 (y / 8 * 8)) by (unfold is_unsigned; div_lia). rewrite Z.div_mul by lia.
  apply wrap_id. unfold is_unsigned. div_lia.
Qed.

(** ** The bodies of the three kinds of transactions *)

Lemma exec_finish_spec ck ti control cfd (s : chain_db K * transaction_context) :
  depth_ok s.1 →
  lwp (exec conf mode vm vm_setcode load_vm_from_ram ck ti control cfd;; finish ck ti control)
    (λ _ s', progress (action_key <$> executed_actions ti s) s s' ∧
       u64 (net_of s'.2 / 8 * 8) = net_of s'.2) s.
Proof.
  intros Hd. lwp_step. eapply lwp_mono; [by apply trx_exec_spec|]. cbv beta. intros _ s1 Hp.
  unfold finish, put_state. do 4 lwp_step. lwp_step. split; [by eapply progress_finalize|].
  match goal with H : finalize _ _ _ _ _ = Ok _ |- _ => apply finalize_keeps in H as [_ ->] end. apply words_exact.
Qed.

(** What an initialisation does besides bringing the usage up to date. *)
Record admitted (md : transaction_metadata Sig) (ti : trx_input) (control : controller_view)
    (s s' : chain_db K * transaction_context) : Prop := {
  am_executed : executed s'.2 = executed s.2;
  am_context_free : apply_context_free s'.2 = apply_context_free s.2;
  am_global : ch_global_action_sequence s'.1 = ch_global_action_sequence s.1;
  am_configuration : ch_configuration s'.1 = ch_configuration s.1;
  am_generated : ch_generated s'.1 = ch_generated s.1;
  am_authorization : ch_authorization s'.1 = ch_authorization s.1;
  am_recorded :
    if md_implicit md || skip_recording conf md then ch_transactions s'.1 = ch_transactions s.1
    else ch_transactions s.1 !! ti_id ti = None ∧
         ch_transactions s'.1 = <[ti_id ti := expiration (header (ti_trx ti))]> (ch_transactions s.1);
  am_expiration :
    md_implicit md = false → skip_trx_checks control = false → validate_expiration control s.1 (ti_trx ti) = Ok tt }.

Lemma init_pushed_admitted ck ti control md s s1 :
  init_pushed conf ck ti control md s = Ok s1 → admitted md ti control s s1.
Proof.
  unfold init_pushed. destruct s1 as [db1 tc1]. destruct (md_implicit md) eqn:Hi.
  - unfold init_for_implicit_trx. intros ((rl & ->) & He & Ha)%init_keeps. constructor; try done; [by rewrite Hi|congruence].
  - intros H. simplify_res.
    match goal with H : init_for_input_trx _ _ _ _ _ _ _ _ _ _ = Ok _ |- _ =>
      apply init_for_input_trx_keeps in H as ((rl & Hr) & He & Ha & Hv) end.
    constructor; [done|done|..]; try (by destruct (skip_recording conf md); [rewrite Hr|rewrite (proj2 Hr)]); [|done].
    rewrite Hi. cbn. destruct (skip_recording conf md); [by rewrite Hr|]. split; [apply Hr|]. by rewrite (proj2 Hr).
Qed.

Lemma check_signatures_admitted md ti control (s s1 : chain_db K * transaction_context) :
  admitted md ti control s s1 → check_signatures conf ti control md s1.1 = check_signatures conf ti control md s.1.
Proof. intros []. unfold check_signatures. by rewrite am_generated0, am_configuration0, am_authorization0. Qed.

Lemma pushed_body_spec ck ti control md (s : chain_db K * transaction_context) :
  depth_ok s.1 →
  lwp (pushed_body conf mode vm vm_setcode load_vm_from_ram bc ck ti control md)
    (λ _ s', ∃ s1, admitted md ti control s s1 ∧ check_signatures conf ti control md s.1 = Ok tt ∧
       progress (action_key <$> executed_actions ti s1) s1 s' ∧ u64 (net_of s'.2 / 8 * 8) = net_of s'.2) s.
Proof.
  intros Hd. unfold pushed_body, put_state. do 4 lwp_step.
  match goal with H : init_pushed _ _ _ _ _ _ = Ok ?s1 |- _ => apply init_pushed_admitted in H; rename H into Ha; rename s1 into t end.
  do 3 lwp_step. apply lwp_mono with (P := λ _ s, s = t).
  { destruct (_ && _); lwp_step; done. }
  intros _ ? ->. do 2 lwp_step. destruct a. eapply lwp_mono; [apply exec_finish_spec|].
  - unfold depth_ok. by rewrite (am_configuration _ _ _ _ _ Ha).
  - cbv beta. intros _ s' [Hp Hw]. exists t. by rewrite <- (check_signatures_admitted _ _ _ _ _ Ha).
Qed.

(** An initialisation without a record. *)
Lemma init_progress control ti (s : chain_db K * transaction_context) tc initial expired now s' :
  init control ti s.1 tc initial expired now = Ok s' → executed tc = executed s.2 → depth_ok s.1 → progress [] s s'.
Proof.
  destruct s' as [db' tc']. intros ((rl & ->) & He & _)%init_keeps Ht Hd. split; [exact Hd|]. exists [].
  split; [|done]. constructor; cbn; [by rewrite app_nil_r, He|done|f_equal; lia|done].
Qed.

Lemma deferred_body_spec ck ti control published_at (s : chain_db K * transaction_context) :
  depth_ok s.1 → ti_delay ti = 0 →
  lwp (deferred_body conf mode vm vm_setcode load_vm_from_ram ck ti control published_at)
    (λ _ s', progress (action_key <$> actions (ti_trx ti)) s s' ∧ u64 (net_of s'.2 / 8 * 8) = net_of s'.2) s.
Proof.
  intros Hd Hdelay. unfold deferred_body, put_state, init_for_deferred_trx. do 4 lwp_step. do 2 lwp_step.
  match goal with H : init _ _ _ _ _ _ _ = Ok ?x |- _ => rename x into s1; rename H into Hi end.
  pose proof (init_progress _ _ s _ _ _ _ _ Hi eq_refl Hd) as H1. destruct s1 as [db1 tc1].
  apply init_keeps in Hi as (_ & _ & Ha). cbn in Ha.
  eapply lwp_mono; [apply exec_finish_spec; apply H1|]. cbv beta. intros _ s' [Hp Hw]. split; [|done].
  unfold executed_actions in Hp. cbn [snd] in Hp. rewrite Ha, Hdelay in Hp. cbn in Hp. exact (progress_app [] _ _ _ _ H1 Hp).
Qed.

(** No native handler runs for [onerror]. *)
Lemma onerror_handled control (gtrx : generated_transaction_object) :
  handled_by (K:=K) control (nc_lists conf) mode vm_setcode load_vm_from_ram (onerror_action gtrx) (gto_sender gtrx).
Proof. intros run_vm r _. unfold find_apply_handler. by destruct (negb _). Qed.

Lemma onerror_body_spec ck ti control gtrx (s : chain_db K * transaction_context) :
  depth_ok s.1 →
  lwp (onerror_body conf mode vm vm_setcode load_vm_from_ram ck ti control (onerror_action gtrx) (gto_sender gtrx)
         (gto_published gtrx))
    (λ _ s', progress [(gto_sender gtrx, action_digest (onerror_action gtrx))] s s' ∧
       u64 (net_of s'.2 / 8 * 8) = net_of s'.2) s.
Proof.
  intros Hd. unfold onerror_body, put_state, init_for_implicit_trx. do 4 lwp_step.
  match goal with H : init _ _ _ _ _ _ _ = Ok ?x |- _ => rename x into s1; rename H into Hi end.
  pose proof (init_progress _ _ s _ _ _ _ _ Hi eq_refl Hd) as [Hd1 (l1 & [R1 R2 R3 R4] & Hl1)]. destruct s1 as [db1 tc1].
  set (s1 := (db1, with_entry tc1 (gto_published gtrx) (is_input tc1) (apply_context_free tc1))).
  assert (H1 : progress [] s s1) by (split; [exact Hd1|]; exists l1; split; [by constructor|done]).
  do 3 lwp_step. eapply lwp_mono; [apply dispatch_action_spec|].
  - done.
  - apply onerror_handled.
  - exact Hd1.
  - lia.
  - unfold max_depth_steps. lia.
  - cbv beta. intros _ s2 Hp. unfold finish, put_state. do 4 lwp_step. lwp_step. split.
    + eapply progress_finalize; [|done]. exact (progress_app [] _ _ _ _ H1 Hp).
    + match goal with H : finalize _ _ _ _ _ = Ok _ |- _ => apply finalize_keeps in H as [_ ->] end. apply words_exact.
Qed.

(** ** Input and implicit transactions *)

Abbreviation world := (@block_world K Sig).

Lemma xlwp_in_session m (P : chain_db K * transaction_context → Prop) Q (s0 : chain_db K * transaction_context) (s : world) :
  lwp m (λ _, P) s0 → (∀ s1, P s1 → Q (Ok s1) s) → (∀ e, Q (Throw e) s) → xlwp (in_session m s0) Q s.
Proof.
  unfold lwp, xlwp, in_session. intros Hm HP Ht r s'. destruct (m s0); intros [= <- <-]; auto.
Qed.

Lemma xlwp_push_receipt t st cpu net ram (Q : res unit → world → Prop) s :
  u64 (net / 8 * 8) = net →
  Q (Ok tt) (add_receipt (Receipt (ReceiptHeader st (u32 cpu) (u32 (net / 8)) ram) t) s) →
  xlwp (push_receipt t st cpu net ram) Q s.
Proof.
  intros Hw HQ. unfold push_receipt. cbv zeta. xlwp_step. xlwp_step.
  - by xlwp_step.
  - rewrite Hw, Z.eqb_refl in *. done.
Qed.

Lemma xlwp_rethrow {A} (m : X world A) Q s :
  xlwp m (λ r s', match r with Ok _ => Q r s' | Throw e => Q (Throw (fc_rethrow e)) s' end) s → xlwp (xrethrow m) Q s.
Proof.
  intros H. unfold xrethrow. xlwp_step. eapply xlwp_mono; [exact H|]. cbv beta. intros [a|e] s' H'; [done|]. by xlwp_step.
Qed.

(** Receipts [l] were appended, with the next global sequence numbers. *)
Definition actions_run (ks : list (Z * digest_type)) (s s' : world) : Prop :=
  ∃ l, bw_actions s' = bw_actions s ++ l ∧ ks `sublist_of` (receipt_key <$> l) ∧
    ∀ k r, l !! k = Some r → rc_global_sequence r = u64 (ch_global_action_sequence (bw_db s) + 1 + Z.of_nat k).

(** An input transaction was taken into the block. *)
Record taken (md : transaction_metadata Sig) (checks : bool) (s s' : world) : Prop := {
  tk_receipt : ∃ rh, bw_receipts s' = bw_receipts s ++ [Receipt rh (ReceiptPacked (md_packed md))] ∧
    rh_status rh = (if delay_sec (header (trx (md_trx md))) =? 0 then status_enum.executed else status_enum.delayed);
  tk_trxs : bw_trxs s' = bw_trxs s ++ [md];
  tk_erased : bw_erased s' = md_signed_id md :: bw_erased s;
  tk_actions : actions_run
    (action_key <$> context_free_actions (trx (md_trx md)) ++
       (if delay_sec (header (trx (md_trx md))) =? 0 then actions (trx (md_trx md)) else [])) s s';
  tk_recorded : skip_recording conf md = false →
    ch_transactions (bw_db s) !! md_id md = None ∧
    ch_transactions (bw_db s') = <[md_id md := expiration (header (trx (md_trx md)))]> (ch_transactions (bw_db s));
  tk_expiration : skip_trx_checks (view conf bc checks) = false →
    bc_time bc <= expiration (header (trx (md_trx md))) * 1000000 <=
      bc_time bc + max_transaction_lifetime (ch_configuration (bw_db s)) * 1000000;
  tk_authorized : skip_auth_check (view conf bc checks) = false →
    ∃ ks, recover_keys conf md = Ok ks ∧
      check_authorization (ch_generated (bw_db s)) unpack_transaction unpack_updateauth unpack_deleteauth unpack_linkauth
        unpack_unlinkauth unpack_canceldelay (λ _, mret tt) (ch_configuration (bw_db s)) (ch_authorization (bw_db s))
        (actions (trx (md_trx md))) ks [] (delay_sec (header (trx (md_trx md))) * 1000000) false = Ok tt }.

(** The transaction that the controller pushes at the start of a block ran. *)
Record implicit_run (md : transaction_metadata Sig) (s s' : world) : Prop := {
  ir_receipts : bw_receipts s' = bw_receipts s;
  ir_trxs : bw_trxs s' = bw_trxs s;
  ir_erased : bw_erased s' = bw_erased s;
  ir_actions : actions_run
    (action_key <$> context_free_actions (trx (md_trx md)) ++
       (if delay_sec (header (trx (md_trx md))) =? 0 then actions (trx (md_trx md)) else [])) s s';
  ir_transactions : ch_transactions (bw_db s') = ch_transactions (bw_db s) }.

(** What an accepted transaction leaves, when the block keeps it. *)
Definition kept_run (md : transaction_metadata Sig) (checks : bool) (s s' : world) : Prop :=
  depth_ok (bw_db s') ∧ (if md_implicit md then implicit_run md s s' else taken md checks s s').

Definition keeps_transactions : bool := is_speculative conf || negb (is_producing bc).

Abbreviation push md checks ck deadline billed explicit :=
  (push_transaction conf mode vm vm_setcode load_vm_from_ram bc md checks ck deadline billed explicit).

Lemma restore_appended (s : world) db rs ts acts er :
  restore_block s (BlockWorld db (bw_receipts s ++ rs) (bw_trxs s ++ ts) (bw_actions s ++ acts) er) =
  BlockWorld db (bw_receipts s) (bw_trxs s) (bw_actions s) er.
Proof. unfold restore_block. cbn. by rewrite !take_app_length. Qed.

Lemma validate_expiration_Ok control db t :
  validate_expiration control db t = Ok tt →
  pending_block_time control <= expiration (header t) * 1000000 <=
    pending_block_time control + max_transaction_lifetime (ch_configuration db) * 1000000.
Proof. unfold validate_expiration. intros H. simplify_res. zbool. lia. Qed.

Lemma delay_is_zero d : (d * 1000000 =? 0) = (d =? 0).
Proof. apply eq_true_iff_eq. rewrite !Z.eqb_eq. lia. Qed.

(** A transaction that ran in its session, with the receipts and the actions
    that the block takes over. *)
Lemma session_kept md checks ck deadline billed explicit s tc s1 s2 rs :
  let ti := pushed_input conf bc md ck deadline explicit in
  make_transaction_context ti billed = Ok tc →
  admitted md ti (view conf bc checks) (bw_db s, tc) s1 → check_signatures conf ti (view conf bc checks) md (bw_db s) = Ok tt →
  progress (action_key <$> executed_actions ti s1) s1 s2 →
  (if md_implicit md then rs = []
   else ∃ rh, rs = [Receipt rh (ReceiptPacked (md_packed md))] ∧
     rh_status rh = (if ti_delay ti =? 0 then status_enum.executed else status_enum.delayed)) →
  kept_run md checks s
    (BlockWorld s2.1 (bw_receipts s ++ rs) (bw_trxs s ++ (if md_implicit md then [] else [md])) (bw_actions s ++ executed s2.2)
       (if md_implicit md then bw_erased s else md_signed_id md :: bw_erased s)).
Proof.
  intros ti Htc [A1 A2 A3 A4 A5 A6 A7 A8] Hsig [Hd (l & [R1 R2 R3 R4] & Hl)] Hrs.
  unfold make_transaction_context in Htc. simplify_res. cbn in A1, A2, A3. cbn [fst] in A7.
  rewrite A1 in R1. cbn in R1. unfold executed_actions in Hl. rewrite A2 in Hl. cbn in Hl.
  unfold ti in Hrs. cbn [ti_delay pushed_input] in Hrs. rewrite delay_is_zero in Hl, Hrs.
  assert (Hacts : ∀ rs ts er, actions_run
    (action_key <$> context_free_actions (trx (md_trx md)) ++
       (if delay_sec (header (trx (md_trx md))) =? 0 then actions (trx (md_trx md)) else [])) s
    (BlockWorld s2.1 rs ts (bw_actions s ++ executed s2.2) er)).
  { intros. exists l. cbn. rewrite R1. split_and!; [done|done|]. intros k r Hk. by rewrite (R2 _ _ Hk), A3. }
  split; [done|]. destruct (md_implicit md) eqn:Hi; cbn [orb] in A7.
  - subst rs. constructor; cbn; [by rewrite app_nil_r..|done|apply Hacts|congruence].
  - destruct Hrs as (rh & -> & Hst). constructor; [by exists rh|done|done|apply Hacts|..].
    + intros Hskip. rewrite Hskip in A7. destruct A7 as [? A7]. split; [done|]. cbn. rewrite R4. exact A7.
    + intros Hc. apply (validate_expiration_Ok (view conf bc checks) (bw_db s)). by apply A8.
    + intros Hc. unfold check_signatures in Hsig. rewrite Hc, Hi in Hsig. cbn in Hsig. simplify_res. by eexists.
Qed.

(** What pushing a transaction can do to the pending block. *)
Definition push_outcome (md : transaction_metadata Sig) (checks : bool) (s : world) (r : res (option exception)) (s' : world) : Prop :=
  match r with
  | Throw e => s' = s ∧ derives_from e fc_exception = true
  | Ok (Some e) =>
      s' = (if failure_is_subjective e then s else erase_trx (md_signed_id md) s) ∧ derives_from e fc_exception = true
  | Ok None =>
      if keeps_transactions then kept_run md checks s s'
      else s' = (if md_implicit md then s else erase_trx (md_signed_id md) s)
  end.

Lemma push_transaction_spec md checks ck deadline billed explicit s :
  depth_ok (bw_db s) → xlwp (push md checks ck deadline billed explicit) (push_outcome md checks s) s.
Proof.
  intros Hd. unfold push_transaction. xlwp_step. xlwp_step; [|split; [done|apply thrown_fc]].
  apply xlwp_rethrow. cbv zeta. set (ti := pushed_input conf bc md ck deadline explicit). xlwp_step. xlwp_step.
  destruct (make_transaction_context ti billed) as [tc|e] eqn:Htc; [|split; [done|apply fc_rethrow_fc]].
  xlwp_step. xlwp_step. xlwp_step. xlwp_step.
  apply (xlwp_mono _ (λ r s', match r with Ok _ => push_outcome md checks s (Ok None) s' | Throw e => s' = s end)).
  2:{ intros [[]|e] s'.
      - intros Hout. by xlwp_step.
      - intros ->. split; [intros He|intros He; split; [done|apply fc_rethrow_fc]].
        xlwp_step. destruct (failure_is_subjective e) eqn:Hs; xlwp_step; xlwp_step; unfold push_outcome; by rewrite Hs. }
  xlwp_step. eapply xlwp_in_session; [by apply pushed_body_spec| |done].
  intros s2 (s1 & Ha & Hsig & Hp & Hw). destruct s2 as [db2 tc2]. cbn [snd] in Hw. xlwp_step.
  pose proof (λ rs, session_kept md checks ck deadline billed explicit s tc s1 (db2, tc2) rs Htc Ha Hsig Hp) as Hk.
  unfold pushed_receipt, push_outcome, keeps_transactions. cbn [fst snd] in Hk. destruct (md_implicit md) eqn:Hi.
  - specialize (Hk [] eq_refl). rewrite !app_nil_r in Hk. xlwp_step. xlwp_step. xlwp_step. xlwp_step.
    destruct (is_speculative conf), (is_producing bc); cbn [negb andb orb]; xlwp_step; xlwp_step; try exact Hk.
    pose proof (restore_appended s (bw_db s) [] [] (executed tc2) (bw_erased s)) as Hr. rewrite !app_nil_r in Hr.
    unfold add_actions. rewrite Hr. by destruct s.
  - set (rh := ReceiptHeader (if ti_delay ti =? 0 then status_enum.executed else status_enum.delayed) (u32 (PushTransaction.billed tc2))
        (u32 (net_of tc2 / 8)) (ram_of tc2)).
    specialize (Hk _ (ex_intro _ rh (conj eq_refl eq_refl))). xlwp_step. apply xlwp_push_receipt; [done|]. xlwp_step.
    xlwp_step. xlwp_step. xlwp_step.
    destruct (is_speculative conf), (is_producing bc); cbn [negb andb orb]; xlwp_step; xlwp_step; try exact Hk.
    unfold add_actions, add_trx, add_receipt. cbn. rewrite restore_appended. done.
Qed.

(** ** Scheduled transactions *)

(** The RAM that a scheduled transaction takes. *)
Definition scheduled_size (gtrx : generated_transaction_object) : Z :=
  billable.generated_transaction + Z.of_nat (length (gto_packed_trx gtrx)).

Lemma remove_scheduled_spec db gtrx db1 :
  remove_scheduled_transaction db gtrx = Ok db1 → scheduled_size gtrx < 2 ^ 63 →
  (∃ rl, db1 = with_generated (with_ch_limits db rl) (delete (gto_trx_id gtrx) (ch_generated db))) ∧
  ∃ u, db_usage (ch_limits db) !! gto_payer gtrx = Some u ∧
    (is_unsigned 64 (ram_usage u) →
     db_usage (ch_limits db1) !! gto_payer gtrx =
       Some (Usage (net_usage u) (cpu_usage u) (ram_usage u - scheduled_size gtrx)) ∧ scheduled_size gtrx <= ram_usage u).
Proof.
  unfold remove_scheduled_transaction. fold (scheduled_size gtrx). intros H Hsz.
  assert (Hpos : 0 < scheduled_size gtrx) by (unfold scheduled_size; assert (0 < billable.generated_transaction) by done; lia).
  rewrite (wrap_id 64 (scheduled_size gtrx)) in H by (unfold is_unsigned; lia).
  replace (i64 (u64 (- scheduled_size gtrx))) with (- scheduled_size gtrx) in H
    by (unfold swrap, wrap; cbn [Z.sub Z.pos_sub]; div_lia).
  simplify_res. split; [by eexists|].
  match goal with H : add_pending_ram_usage _ _ _ = Ok _ |- _ => unfold add_pending_ram_usage in H end.
  destruct (Z.eqb_spec (- scheduled_size gtrx) 0); [lia|]. simplify_res.
  match goal with H : Database.db_get _ _ = Ok ?u |- _ => apply db_get_Ok in H; exists u; split; [done|] end.
  intros Hu. cbn. rewrite lookup_insert_eq. zbool. rewrite Z.opp_involutive in *.
  rewrite (wrap_id 64 (scheduled_size gtrx)) in * by (unfold is_unsigned; lia).
  unfold is_unsigned in *. rewrite wrap_id by (unfold is_unsigned; lia). split; [do 2 f_equal; lia|lia].
Qed.

(** How a scheduled transaction was retired, by the status of its receipt;
    [db1] is the database without it. *)
Definition retired_as (gtrx : generated_transaction_object) (db1 : chain_db K) (s s' : world) (o : option exception)
    (st : status_enum) : Prop :=
  match st with
  | status_enum.expired => o = None ∧ gto_expiration gtrx < bc_time bc ∧ bw_db s' = db1 ∧ bw_actions s' = bw_actions s
  | status_enum.executed =>
      o = None ∧ bc_time bc <= gto_expiration gtrx ∧
      ∃ dtrx, unpack_transaction (gto_packed_trx gtrx) = Ok dtrx ∧ actions_run (action_key <$> actions dtrx) s s'
  | status_enum.soft_fail =>
      o = None ∧ bc_time bc <= gto_expiration gtrx ∧ gto_sender gtrx ≠ 0 ∧
      actions_run [(gto_sender gtrx, action_digest (onerror_action gtrx))] s s'
  | status_enum.hard_fail =>
      bc_time bc <= gto_expiration gtrx ∧ bw_actions s' = bw_actions s ∧ (∃ rl, bw_db s' = with_ch_limits db1 rl) ∧
      ∃ e, o = Some e ∧ failure_is_subjective e = false
  | status_enum.delayed => False
  end.

Record retired (gtrx : generated_transaction_object) (s s' : world) (o : option exception) : Prop := {
  rt_ready : gto_delay_until gtrx <= bc_time bc;
  rt_trxs : bw_trxs s' = bw_trxs s;
  rt_erased : bw_erased s' = bw_erased s;
  rt_depth : depth_ok (bw_db s');
  rt_transactions : ch_transactions (bw_db s') = ch_transactions (bw_db s);
  rt_as : ∃ db1 rh, remove_scheduled_transaction (bw_db s) gtrx = Ok db1 ∧
    bw_receipts s' = bw_receipts s ++ [Receipt rh (ReceiptId (gto_trx_id gtrx))] ∧
    retired_as gtrx db1 s s' o (rh_status rh) }.

(** What pushing a scheduled transaction can do to the pending block. *)
Definition scheduled_outcome (gtrx : generated_transaction_object) (explicit : bool) (s : world)
    (r : res (option exception)) (s' : world) : Prop :=
  match r with
  | Throw e => s' = s ∧ derives_from e fc_exception = true
  | Ok o =>
      retired gtrx s s' o ∨
      (s' = s ∧ ∃ e, o = Some e ∧ derives_from e fc_exception = true ∧
         (if explicit then failure_is_subjective e else scheduled_failure_is_subjective e) = true)
  end.

Lemma remove_scheduled_keeps db gtrx db1 :
  remove_scheduled_transaction db gtrx = Ok db1 →
  ch_configuration db1 = ch_configuration db ∧ ch_transactions db1 = ch_transactions db ∧
  ch_global_action_sequence db1 = ch_global_action_sequence db.
Proof. unfold remove_scheduled_transaction. intros H. by simplify_res. Qed.

(** Taking over the result of a session that started without the transaction. *)
Lemma session_retired gtrx s db1 tc ks s2 rh o st :
  remove_scheduled_transaction (bw_db s) gtrx = Ok db1 → gto_delay_until gtrx <= bc_time bc → executed tc = [] →
  progress ks (db1, tc) s2 → rh_status rh = st →
  (∀ s', actions_run ks s s' → retired_as gtrx db1 s s' o st) →
  retired gtrx s (BlockWorld s2.1 (bw_receipts s ++ [Receipt rh (ReceiptId (gto_trx_id gtrx))]) (bw_trxs s)
                    (bw_actions s ++ executed s2.2) (bw_erased s)) o.
Proof.
  intros Hr Hready Htc [Hd (l & [R1 R2 R3 R4] & Hl)] Hst Has. cbn in R1, R2, R4. rewrite Htc in R1. cbn in R1.
  destruct (remove_scheduled_keeps _ _ _ Hr) as (_ & Ht & Hg).
  constructor; [done|done|done|done|cbn; congruence|]. exists db1, rh. split_and!; [done|done|]. rewrite Hst. apply Has.
  exists l. cbn. rewrite R1. split_and!; [done|done|]. intros k r Hk. by rewrite (R2 _ _ Hk), Hg.
Qed.

Lemma fresh_executed ti billed tc : make_transaction_context ti billed = Ok tc → executed tc = [].
Proof. unfold make_transaction_context. intros H. by simplify_res. Qed.

(** The error handler, on the database without the transaction. *)
Lemma apply_onerror_spec gtrx s db1 ck deadline billed explicit :
  remove_scheduled_transaction (bw_db s) gtrx = Ok db1 → depth_ok db1 →
  gto_delay_until gtrx <= bc_time bc → bc_time bc <= gto_expiration gtrx → gto_sender gtrx ≠ 0 →
  xlwp (apply_onerror conf mode vm vm_setcode load_vm_from_ram bc db1 gtrx ck deadline billed explicit)
    (λ r s', match r with
             | Ok None => retired gtrx s s' None
             | Ok (Some (e, _)) => s' = s ∧ derives_from e fc_exception = true
             | Throw _ => s' = s
             end) s.
Proof.
  intros Hr Hd Hready Hexp Hsender. unfold apply_onerror. cbv zeta. xlwp_step. xlwp_step.
  set (ti := TrxInput _ _ _ _ _ _ _ _). destruct (make_transaction_context ti billed) as [tc|e] eqn:Htc; [|done].
  xlwp_step. xlwp_step.
  apply (xlwp_mono _ (λ r s', match r with Ok _ => retired gtrx s s' None | Throw e => s' = s end)).
  2:{ intros [[]|e] s'; [intros Hret; by xlwp_step|]. intros ->. split; [|done]. intros He. by xlwp_step. }
  xlwp_step. eapply xlwp_in_session; [by apply onerror_body_spec| |done].
  intros [db2 tc2] [Hp Hw]. cbn [snd] in Hw. xlwp_step. apply xlwp_push_receipt; [done|].
  do 3 xlwp_step.
  eapply (session_retired gtrx s db1 tc _ (db2, tc2) _ _ _ Hr Hready (fresh_executed _ _ _ Htc) Hp eq_refl). done.
Qed.

Lemma bill_failure_keeps db ti tc cpu db' cpu' :
  bill_failure conf bc db ti tc cpu = Ok (db', cpu') → ∃ rl, db' = with_ch_limits db rl.
Proof. unfold bill_failure. intros H. simplify_res. destruct x as [rl c]. simplify_res. by eexists. Qed.

(** Everything after the failure of the transaction itself. *)
Lemma failed_scheduled_spec gtrx s db1 ti tc ck ck_onerror billed e :
  remove_scheduled_transaction (bw_db s) gtrx = Ok db1 → depth_ok db1 → derives_from e fc_exception = true →
  gto_delay_until gtrx <= bc_time bc → bc_time bc <= gto_expiration gtrx →
  xlwp (failed_scheduled conf mode vm vm_setcode load_vm_from_ram bc db1 gtrx ti tc ck ck_onerror billed e)
    (λ r s', match r with
             | Throw _ => s' = s
             | Ok o => scheduled_outcome gtrx (ti_explicit_billed_cpu_time ti) s (Ok o) s'
             end) s.
Proof.
  intros Hr Hd He Hready Hexp. unfold failed_scheduled. cbv zeta. set (explicit := ti_explicit_billed_cpu_time ti).
  xlwp_step.
  apply (xlwp_mono _ (λ r s', match r with
    | Ok None => retired gtrx s s' None
    | Ok (Some (e, _)) => s' = s ∧ derives_from e fc_exception = true
    | Throw _ => s' = s
    end)).
  { destruct (negb (gto_sender gtrx =? 0) && negb (failure_is_subjective e)) eqn:Hc; [|by xlwp_step].
    apply andb_true_iff in Hc as [Hc _]. apply apply_onerror_spec; [done..|lia]. }
  intros [[[e' cpu]|]|e'] s'; [|intros Hret; xlwp_step; by left|done]. intros [-> He']. xlwp_step.
  destruct (if explicit then failure_is_subjective e' else scheduled_failure_is_subjective e') eqn:Hsub.
  { xlwp_step. xlwp_step. right. split; [done|]. by exists e'. }
  xlwp_step. xlwp_step. destruct (bill_failure conf bc db1 ti tc cpu) as [[db2 cpu2]|e2] eqn:Hb; [|done].
  apply bill_failure_keeps in Hb as [rl ->]. xlwp_step. apply xlwp_push_receipt; [done|]. xlwp_step. xlwp_step. left.
  destruct (remove_scheduled_keeps _ _ _ Hr) as (_ & Ht & _).
  constructor; [done|done|done|exact Hd|exact Ht|]. do 2 eexists. split_and!; [exact Hr|done|].
  split_and!; [done|done|by eexists|]. exists e'. split; [done|]. destruct explicit; [done|].
  unfold scheduled_failure_is_subjective in Hsub. by apply orb_false_iff in Hsub as [_ ?].
Qed.

Lemma push_generated_spec gtrx ck ck_onerror deadline billed explicit s :
  depth_ok (bw_db s) →
  xlwp (push_generated conf mode vm vm_setcode load_vm_from_ram bc gtrx ck ck_onerror deadline billed explicit)
    (scheduled_outcome gtrx explicit s) s.
Proof.
  intros Hd. unfold push_generated. apply xlwp_rethrow.
  assert (Hthrow : ∀ e, scheduled_outcome gtrx explicit s (Throw (fc_rethrow e)) s) by (intros e; split; [done|apply fc_rethrow_fc]).
  xlwp_step. xlwp_step. xlwp_step. xlwp_step.
  destruct (remove_scheduled_transaction (bw_db s) gtrx) as [db1|e] eqn:Hr; [|apply Hthrow].
  destruct (remove_scheduled_keeps _ _ _ Hr) as (Hc & Ht & _). assert (Hd1 : depth_ok db1) by (unfold depth_ok; by rewrite Hc).
  xlwp_step. xlwp_step; [|apply Hthrow]. xlwp_step. xlwp_step.
  destruct (unpack_transaction (gto_packed_trx gtrx)) as [dtrx|e] eqn:Hu; [|apply Hthrow].
  destruct (Z.ltb_spec (gto_expiration gtrx) (bc_time bc)) as [Hexp|Hexp].
  { xlwp_step. apply xlwp_push_receipt; [done|]. do 3 xlwp_step. left. constructor; [lia|done|done|exact Hd1|exact Ht|].
    do 2 eexists. split_and!; [exact Hr|done|]. split_and!; [done|lia|done|done]. }
  cbv zeta. set (ti := scheduled_input dtrx gtrx ck deadline explicit). xlwp_step. xlwp_step.
  destruct (make_transaction_context ti billed) as [tc|e] eqn:Htc; [|apply Hthrow]. xlwp_step. xlwp_step.
  apply (xlwp_mono _ (λ r s', match r with Ok _ => retired gtrx s s' None | Throw e => s' = s end)).
  - xlwp_step. eapply xlwp_in_session; [by apply deferred_body_spec| |done].
    intros [db2 tc2] [Hp Hw]. cbn [snd] in Hw. xlwp_step. apply xlwp_push_receipt; [done|]. do 3 xlwp_step.
    eapply (session_retired gtrx s db1 tc _ (db2, tc2) _ _ _ Hr); [lia|by eapply fresh_executed|exact Hp|done|].
    intros s' Hrun. split_and!; [done|lia|]. by exists dtrx.
  - intros [[]|e] s'; [intros Hret; xlwp_step; by left|]. intros ->. split; [|intros _; apply Hthrow].
    intros He. eapply xlwp_mono; [eapply failed_scheduled_spec; [done|done|done|lia|lia]|].
    intros [o|e'] s'; [done|]. intros ->. apply Hthrow.
Qed.

(** ** The two entry points *)

Lemma in_session_None m Q s0 (s : world) : in_session m s0 s = None → lwp m Q s0 → m s0 = Undefined.
Proof. unfold in_session, lwp. by destruct (m s0). Qed.

Lemma push_receipt_defined (t : receipt_trx Sig) st cpu net ram (s : world) : push_receipt t st cpu net ram s ≠ None.
Proof. unfold push_receipt, xasserts, xlift, xmodify, mbind, X_bind. by destruct (EOS_ASSERT _ _). Qed.

Lemma pushed_receipt_defined md ti tc (s : world) : pushed_receipt md ti tc s ≠ None.
Proof.
  unfold pushed_receipt. destruct (md_implicit md); [done|]. unfold mbind, X_bind, xmodify.
  destruct (push_receipt _ _ _ _ _ s) as [[[]]|] eqn:Hp; [done|done|]. by apply push_receipt_defined in Hp.
Qed.

(** C2: pushing a transaction is all or nothing.  It always comes to an end,
    and unless its execution is undefined one of these holds: it is accepted,
    and the block gets its receipt, its actions in order with the next sequence
    numbers, the record of its id, which was not recorded, and it has not
    expired and its keys satisfy its authorizations when these are checked; or
    it fails, and the block and the database are as before; or it is accepted
    by a node that does not keep speculative transactions, and nothing changes
    either. *)
Theorem push_transaction_all_or_nothing md checks ck deadline billed explicit s :
  depth_ok (bw_db s) →
  match push md checks ck deadline billed explicit s with
  | Some (r, s') => push_outcome md checks s r s'
  | None =>
      let ti := pushed_input conf bc md ck deadline explicit in
      ∃ tc, make_transaction_context ti billed = Ok tc ∧
        pushed_body conf mode vm vm_setcode load_vm_from_ram bc ck ti (view conf bc checks) md (bw_db s, tc) = Undefined
  end.
Proof.
  intros Hd. destruct (push md checks ck deadline billed explicit s) as [[r s']|] eqn:Hp.
  { by eapply push_transaction_spec. }
  cbv zeta. set (ti := pushed_input conf bc md ck deadline explicit). unfold push_transaction in Hp. fold ti in Hp.
  unfold xrethrow, xcatch_all, xtry, xasserts, xlift, xget, xmodify, mbind, X_bind, mret, X_ret in Hp. repeat case_match; simplify_eq.
  - by edestruct pushed_receipt_defined.
  - match goal with H : in_session _ _ _ = None |- _ => eapply in_session_None in H; [by eexists|by apply pushed_body_spec] end.
Qed.

(** The execution of the scheduled transaction or of its error handler is undefined. *)
Definition scheduled_undefined (gtrx : generated_transaction_object) (ck ck_onerror : clock) (deadline billed : Z) (explicit : bool)
    (s : world) : Prop :=
  ∃ db1 dtrx, remove_scheduled_transaction (bw_db s) gtrx = Ok db1 ∧ unpack_transaction (gto_packed_trx gtrx) = Ok dtrx ∧
  ((∃ tc, let ti := scheduled_input dtrx gtrx ck deadline explicit in
      deferred_body conf mode vm vm_setcode load_vm_from_ram ck ti (view conf bc true) (gto_published gtrx) (db1, tc) = Undefined) ∨
   (∃ ti tc, onerror_body conf mode vm vm_setcode load_vm_from_ram ck_onerror ti (view conf bc true) (onerror_action gtrx)
      (gto_sender gtrx) (gto_published gtrx) (db1, tc) = Undefined)).

Lemma apply_onerror_None gtrx db1 ck deadline billed explicit s :
  depth_ok db1 → apply_onerror conf mode vm vm_setcode load_vm_from_ram bc db1 gtrx ck deadline billed explicit s = None →
  ∃ ti tc, onerror_body conf mode vm vm_setcode load_vm_from_ram ck ti (view conf bc true) (onerror_action gtrx)
    (gto_sender gtrx) (gto_published gtrx) (db1, tc) = Undefined.
Proof.
  intros Hd. unfold apply_onerror. cbv zeta. set (ti := TrxInput _ _ _ _ _ _ _ _).
  unfold xtry, xlift, xmodify, mbind, X_bind, mret, X_ret. intros Hp. repeat case_match; simplify_eq.
  - by edestruct push_receipt_defined.
  - match goal with H : in_session _ _ _ = None |- _ => eapply in_session_None in H; [by do 2 eexists|by apply onerror_body_spec] end.
Qed.

Lemma failed_scheduled_None gtrx db1 ti tc ck ck_onerror billed e s :
  depth_ok db1 → failed_scheduled conf mode vm vm_setcode load_vm_from_ram bc db1 gtrx ti tc ck ck_onerror billed e s = None →
  ∃ ti tc, onerror_body conf mode vm vm_setcode load_vm_from_ram ck_onerror ti (view conf bc true) (onerror_action gtrx)
    (gto_sender gtrx) (gto_published gtrx) (db1, tc) = Undefined.
Proof.
  intros Hd. unfold failed_scheduled, xlift, xmodify, mbind, X_bind, mret, X_ret. intros Hp. repeat case_match; simplify_eq.
  all: try (by edestruct push_receipt_defined). all: by eapply apply_onerror_None.
Qed.

Lemma push_generated_None gtrx ck ck_onerror deadline billed explicit s :
  depth_ok (bw_db s) →
  push_generated conf mode vm vm_setcode load_vm_from_ram bc gtrx ck ck_onerror deadline billed explicit s = None →
  scheduled_undefined gtrx ck ck_onerror deadline billed explicit s.
Proof.
  intros Hd. unfold push_generated, xrethrow, xcatch_all. cbv zeta.
  unfold xtry, xasserts, xlift, xget, xmodify, mbind, X_bind, mret, X_ret. intros Hp.
  destruct (remove_scheduled_transaction (bw_db s) gtrx) as [db1|e] eqn:Hr; [|done].
  assert (Hd1 : depth_ok db1) by (unfold depth_ok; by rewrite (proj1 (remove_scheduled_keeps _ _ _ Hr))).
  destruct (EOS_ASSERT _ _); [|done]. destruct (unpack_transaction (gto_packed_trx gtrx)) as [dtrx|e] eqn:Hu; [|done].
  exists db1, dtrx. split_and!; [done|done|].
  repeat case_match; simplify_eq; try by edestruct push_receipt_defined.
  all: try (right; by eapply failed_scheduled_None).
  match goal with H : in_session _ _ _ = None |- _ => eapply in_session_None in H; [left; by eexists|by apply deferred_body_spec] end.
Qed.

End bodies.
