(* ===== verification/BlockExecution.v ===== *)
(** * Executing a block (controller.cpp, block_summary_object.hpp)

    What [start_block], the loop of [apply_block] and [finalize_block] do to the
    pending block and the database: the producer schedule that was proposed
    becomes pending, the system contract is told of the new block, expired
    records of transactions are dropped, the permissions of the producers follow
    the schedule, the transactions of the block are executed and their receipts
    compared, and the limits, the Merkle roots and the block summary are
    brought up to date. *)

From S2P Require Import Prelude Exceptions Config Name Merkle Database ResourceLimits Authority Transaction ChainConfig AuthorizationManager StateMonad IteratorCache BlockHeaderState ChainDatabase ForkDatabase ErrorState Controller TransactionContext ApplyContext TableCalls EosioContract ActionExecution PushTransaction.

(** The default-constructed key and signature, and the hashes of headers. *)
Class header_codec (K Sig : Type) : Type := {
  default_key : K;
  default_sig : Sig;
  hash_header : @block_header K → digest_type;
  hash_pair : digest_type * digest_type → digest_type;
  hash_schedule : @producer_schedule_type K → digest_type }.

(** [signed_block]. *)
Record signed_block (K Sig : Type) : Type := SignedBlock {
  sb_header :> @signed_block_header K Sig;
  sb_transactions : list (transaction_receipt Sig);
  sb_extensions : list (Z * bytes) }.
Arguments SignedBlock {K Sig}.
Arguments sb_header {K Sig}.
Arguments sb_transactions {K Sig}.
Arguments sb_extensions {K Sig}.

(** The database of the node: the chain state and the block summaries. *)
Record block_db (K : Type) : Type := BlockDb {
  bd_chain : chain_db K;
  bd_summaries : gmap Z digest_type }.      (* block_summary_object, by the low 16 bits of the number *)
Arguments BlockDb {K}.
Arguments bd_chain {K}.
Arguments bd_summaries {K}.

(** What the clock shows while a block is executed. *)
Record block_clock : Type := BlockClock {
  ck_onblock : clock;
  ck_trx : nat → clock;                     (* by position in the block *)
  ck_onerror : nat → clock }.

Section block.
Context {K Sig : Type} `{EqDecision K, EqDecision Sig}.
Context {ncodec : native_codec K} {tcodec : trx_codec} {bcodec : block_codec K Sig} {hcodec : header_codec K Sig}.
Context {keys : secondary_keys}.
Variable conf : node_config K.
Variable mode : app_mode.
Variable vm : Z → bytes → Z → Z → Z → program.
Variable vm_setcode : Z → Z → res unit.
Variable load_vm_from_ram : Z → Z → res unit.

Abbreviation header_state := (@block_header_state K Sig).
Abbreviation block := (signed_block K Sig).
Abbreviation block_state := (@ForkDatabase.block_state K Sig block).
Abbreviation metadata := (transaction_metadata Sig).
Abbreviation XB := (X (@block_world K Sig)).

(** ** The header of the pending block *)

(** The generated header state, whether its pending schedule was promoted, and
    the state with the confirmations and the promotion. *)
Definition open_block (h : header_state) (when confirm_block_count : Z) : option (res (header_state * (bool * header_state))) :=
  generated ← generate_next default_sig hash_pair h when;
  Some (match generated with
        | Ok g => Ok (g, maybe_promote_pending (set_confirmed g confirm_block_count))
        | Throw e => Throw e
        end).

(** The proposed schedule becomes pending when it was proposed in a block that
    is irreversible now. *)
Definition promote_proposed (was_pending_promoted : bool) (p : header_state) : XB header_state :=
  s ← xget;
  match ch_proposed (bw_db s) with
  | Some (proposed_schedule_block_num, proposed_schedule) =>
      if (proposed_schedule_block_num <=? bhs_irreversible p) && (length (producers (bhs_pending p)) =? 0)%nat &&
         negb was_pending_promoted
      then
        p ← xlift (set_new_producers hash_schedule p proposed_schedule);
        xmodify (put_bw_db (with_proposed (bw_db s) None));;
        mret p
      else mret p
  | None => mret p
  end.

(** ** The start of a block *)

(** The expirations in the order of the index [by_expiration]. *)
Definition expiration_le (a b : digest_type * Z) : Prop := a.2 <= b.2.
#[export] Instance expiration_le_dec : RelDecision expiration_le := λ a b, decide (a.2 <= b.2).

Fixpoint remove_expired (now : Z) (l : list (digest_type * Z)) (m : gmap digest_type Z) : gmap digest_type Z :=
  match l with
  | [] => m
  | (id, expiration) :: l => if now >? expiration * 1000000 then remove_expired now l (delete id m) else m
  end.

Definition clear_expired_input_transactions (now : Z) (db : chain_db K) : chain_db K :=
  with_transactions db
    (remove_expired now (merge_sort expiration_le (map_to_list (ch_transactions db))) (ch_transactions db)).

(** *** The permissions of the producers *)

Definition calculate_threshold (num_producers numerator denominator : Z) : Z :=
  u32 (u32 (num_producers * numerator) / denominator + 1).

Definition producers_authority (l : list (@producer_key K)) (threshold : Z) : authority K :=
  Authority threshold [] (map (λ p, PermissionLevelWeight (PermissionLevel (producer_name p) config.active_name) 1) l) [].

Definition set_auth (db : @authorization_db K) (p : @permission_object K) (auth : authority K) : @authorization_db K :=
  AuthorizationDb
    (map (λ po, if po_id po =? po_id p
                then PermissionObject (po_id po) (po_usage_id po) (po_parent po) (po_owner po) (po_name po)
                       (po_last_updated po) auth
                else po) (permissions db))
    (next_permission_id db) (usages db) (next_usage_id db) (links db).

Definition update_permission (l : list (@producer_key K)) (db : @authorization_db K) (permission_name threshold : Z)
    : res (@authorization_db K) :=
  p ← get_permission db (PermissionLevel config.producers_account_name permission_name);
  let auth := producers_authority l threshold in
  mret (if bool_decide (po_auth p = auth) then db else set_auth db p auth).

(** More than two thirds, one half, one third and 1/21 of the producers. *)
Definition update_producers_authority (l : list (@producer_key K)) (db : @authorization_db K)
    : res (@authorization_db K) :=
  let num_producers := u32 (Z.of_nat (length l)) in
  db ← update_permission l db config.active_name (calculate_threshold num_producers 2 3);
  db ← update_permission l db config.majority_producers_permission_name (calculate_threshold num_producers 1 2);
  db ← update_permission l db config.minority_producers_permission_name (calculate_threshold num_producers 1 3);
  update_permission l db config.single_producers_permission_name (calculate_threshold num_producers 1 21).

Section pending.
Variable bc : block_context.
Variable h : header_state.                  (* the head *)

Definition block_schedules (p : header_state) : schedules K := {|
  head_block_num := bhs_block_num h;
  active_schedule := bhs_active p;
  pending_schedule := bhs_pending p |}.

(** *** The transaction that tells the system contract of the block *)

Definition onblock_action : action :=
  Action config.system_account_name (N_ "onblock") [PermissionLevel config.system_account_name config.active_name]
    (pack_block_header (bhs_header h)).

Definition get_on_block_transaction : signed_transaction Sig :=
  SignedTransaction (own_transaction bc onblock_action) [] [].

(** Whatever is thrown is only logged. *)
Definition push_onblock (p : header_state) (ck : clock) : XB unit :=
  xcatch_all
    (s ← xget;
     onbtrx ← xlift (metadata_of_signed get_on_block_transaction true);
     push_transaction (sched := block_schedules p) conf mode vm vm_setcode load_vm_from_ram bc onbtrx true ck
       time_point_maximum (min_transaction_cpu_usage (ch_configuration (bw_db s))) true;;
     mret tt)
    (λ _, mret tt).

(** [start_block] once there is a pending block state.  The state of a
    speculative block changes only in a node with speculative reads. *)
Definition start_pending (was_pending_promoted : bool) (p : header_state) (ck : clock) : XB header_state :=
  if is_speculative conf || negb (bool_decide (bc_status bc = incomplete)) then
    p ← promote_proposed was_pending_promoted p;
    push_onblock p ck;;
    xmodify (λ s, put_bw_db (clear_expired_input_transactions (bc_time bc) (bw_db s)) s);;
    s ← xget;
    a ← xlift (update_producers_authority (producers (bhs_active p)) (ch_authorization (bw_db s)));
    xmodify (put_bw_db (with_authorization (bw_db s) a));;
    mret p
  else mret p.

(** ** The transactions of a block *)

Definition push_receipt_trx (p : header_state) (r : transaction_receipt Sig) (ck ck_err : clock) : XB (option exception) :=
  match tr_trx r with
  | ReceiptPacked pt =>
      mtrx ← xlift (metadata_of_packed pt);
      push_transaction (sched := block_schedules p) conf mode vm vm_setcode load_vm_from_ram bc mtrx false ck
        time_point_maximum (rh_cpu_usage_us r) true
  | ReceiptId id =>
      push_scheduled_transaction (sched := block_schedules p) conf mode vm vm_setcode load_vm_from_ram bc id ck ck_err
        time_point_maximum (rh_cpu_usage_us r) true
  end.

Definition transaction_can_fail (r : transaction_receipt Sig) : bool :=
  match rh_status r, tr_trx r with status_enum.hard_fail, ReceiptId _ => true | _, _ => false end.

Definition apply_receipt (p : header_state) (receipt : transaction_receipt Sig) (ck ck_err : clock) : XB unit :=
  s ← xget;
  let num_pending_receipts := length (bw_receipts s) in
  except ← push_receipt_trx p receipt ck ck_err;
  (match except with
   | Some e => if transaction_can_fail receipt then mret tt else xlift (Throw e)
   | None => mret tt
   end);;
  s ← xget;
  xasserts (0 <? length (bw_receipts s))%nat block_validate_exception;;
  xasserts (length (bw_receipts s) =? num_pending_receipts + 1)%nat block_validate_exception;;
  r ← xderef (last (bw_receipts s));
  xasserts (receipt_header_eq (tr_header r) receipt) block_validate_exception.

Fixpoint apply_receipts (p : header_state) (ck : block_clock) (i : nat) (l : list (transaction_receipt Sig)) : XB unit :=
  match l with
  | [] => mret tt
  | r :: l => apply_receipt p r (ck_trx ck i) (ck_onerror ck i);; apply_receipts p ck (S i) l
  end.

(** ** The end of a block *)

Definition max_virtual_mult : Z := 1000.

Definition finalize_limits (db : chain_db K) (block_num : Z) : res (chain_db K) :=
  rl ← process_account_limit_updates (ch_limits db);
  let c := ch_configuration db in
  rl ← set_block_parameters rl
    (ElasticLimitParameters (EOS_PERCENT (max_block_cpu_usage c) (target_block_cpu_usage_pct c)) (max_block_cpu_usage c)
       (config.block_cpu_usage_average_window_ms / config.block_interval_ms) max_virtual_mult (Ratio 99 100) (Ratio 1000 999))
    (ElasticLimitParameters (EOS_PERCENT (max_block_net_usage c) (target_block_net_usage_pct c)) (max_block_net_usage c)
       (config.block_size_average_window_ms / config.block_interval_ms) max_virtual_mult (Ratio 99 100) (Ratio 1000 999));
  rl ← process_block_usage rl block_num;
  mret (with_ch_limits db rl).

(** [transaction_receipt::digest]. *)
Definition receipt_digest (r : transaction_receipt Sig) : digest_type :=
  hash_receipt (rh_status r) (rh_cpu_usage_us r) (rh_net_usage_words r)
    (match tr_trx r with ReceiptId id => id | ReceiptPacked p => packed_digest p end).

(** The Merkle roots and the id are filled in. *)
Definition finalize_block (p : header_state) : XB header_state :=
  xrethrow (
    s ← xget;
    db ← xlift (finalize_limits (bw_db s) (bhs_block_num p));
    xmodify (put_bw_db db);;
    action_mroot ← xderef (merkle hash_pair (map hash_action_receipt (bw_actions s)));
    transaction_mroot ← xderef (merkle hash_pair (map receipt_digest (bw_receipts s)));
    mret (finalize_block_header hash_header endian_reverse_u32 p action_mroot transaction_mroot)).

(** From the pending block state to the finalized one; [g] is the header that
    the block was made with. *)
Definition execute_block (g : header_state) (was_pending_promoted : bool) (p : header_state) (b : block) (ck : block_clock)
    : XB block_state :=
  p ← start_pending was_pending_promoted p (ck_onblock ck);
  apply_receipts p ck 0 (sb_transactions b);;
  p ← finalize_block p;
  s ← xget;
  mret (BlockState p (Some (SignedBlock (bhs_header g) (bw_receipts s) [])) false true).
End pending.

(** [create_block_summary]. *)
Definition create_block_summary (id : digest_type) (m : gmap Z digest_type) : gmap Z digest_type :=
  <[Z.land (num_from_id endian_reverse_u32 id) 0xffff := id]> m.

Definition block_context_of (st : block_status) (light : bool) (h p : header_state) (d : block_db K) : block_context :=
  BlockContext st light (slot_to_time_point (timestamp (bhs_header p))) (bhs_id h)
    (λ n, default digest_zero (bd_summaries d !! n)).

Variable clocks : block → block_clock.

(** The part of [apply_block] that changes the database, for blocks that are
    executed in an undo session. *)
Definition run_block (st : block_status) (light : bool) (h : header_state) (b : block) (d : block_db K)
    : option (block_db K * (list (digest_type * metadata) * list digest_type) * res block_state) :=
  if skip_db_sessions conf st then None
  else
    match open_block h (timestamp b) (confirmed b) with
    | None => None
    | Some (Throw e) => Some (d, ([], []), Throw e)
    | Some (Ok (g, (was_pending_promoted, p))) =>
        match execute_block (block_context_of st light h p d) h g was_pending_promoted p b (clocks b)
                (BlockWorld (bd_chain d) [] [] [] []) with
        | None => None
        | Some (r, s) =>
            let summaries :=
              match r with Ok p => create_block_summary (bhs_id p) (bd_summaries d) | Throw _ => bd_summaries d end in
            Some (BlockDb (bw_db s) summaries, (map (λ md, (md_signed_id md, md)) (bw_trxs s), bw_erased s), r)
        end
    end.
End block.
