(* ===== verification/Genesis.v ===== *)
(** * The genesis of a chain (controller.cpp, genesis_state.hpp)

    The head block and the database that a new chain starts from: three native
    accounts with their permissions, the block summaries and the configuration.
    The theorems show that the database exists for every valid configuration and
    satisfies the invariants that the operations on it keep. *)

From S2P Require Import Prelude Exceptions Config Name Merkle Database ResourceLimits Authority Transaction ChainConfig AuthorizationManager StateMonad IteratorCache BlockHeaderState ChainDatabase ForkDatabase ErrorState Controller TransactionContext ApplyContext ContractTables TableCalls EosioContract NativeActions ActionExecution ExecutionTheorems PushTransaction BlockExecution.

Record genesis_state (K : Type) : Type := GenesisState {
  initial_configuration : chain_config;
  initial_timestamp : Z;                    (* microseconds *)
  initial_key : K }.
Arguments GenesisState {K}.
Arguments initial_configuration {K}.
Arguments initial_timestamp {K}.
Arguments initial_key {K}.

Section genesis.
Context {K Sig : Type} `{EqDecision K}.
Context {ncodec : native_codec K} {tcodec : trx_codec} {hcodec : header_codec K Sig}.
Variable genesis : genesis_state K.
(** [genesis.compute_chain_id()] and the packed [eosio_contract_abi]. *)
Variable chain_id : digest_type.
Variable system_abi : bytes.

(** ** The head block *)

Definition initial_schedule : @producer_schedule_type K :=
  ProducerSchedule 0 [ProducerKey config.system_account_name (initial_key genesis)].

Definition genesis_block_header : @block_header K :=
  BlockHeader (slot_of_time_point (initial_timestamp genesis)) 0 1 digest_zero digest_zero chain_id 0 None [].

Definition genesis_header : @block_header_state K Sig :=
  BlockHeaderState (header_id hash_header endian_reverse_u32 genesis_block_header)
    (header_block_num endian_reverse_u32 genesis_block_header) (SignedBlockHeader genesis_block_header default_sig)
    0 0 0 0 (hash_schedule initial_schedule) initial_schedule initial_schedule incremental_merkle_empty ∅ ∅
    default_key [] [].

Definition genesis_block_state : @ForkDatabase.block_state K Sig (signed_block K Sig) :=
  BlockState genesis_header (Some (SignedBlock (bhs_header genesis_header) [] [])) false false.

(** ** The database *)

Definition native_account_object (name : Z) (privileged : bool) : account_object :=
  AccountObject 0 0 privileged false 0 digest_zero (slot_of_time_point (initial_timestamp genesis)) []
    (if name =? config.system_account_name then system_abi else []).

(** There is no pending block whose time a permission could get. *)
Definition create_genesis_permission (db : @authorization_db K) (account name parent : Z) (auth : authority K) :=
  create_permission db 0 account name parent auth (initial_timestamp genesis).

Definition create_native_account (db : chain_db K) (name : Z) (owner active : authority K) (is_privileged : bool)
    : res (chain_db K) :=
  accounts ← db_create (ch_accounts db) name (native_account_object name is_privileged);
  sequences ← db_create (ch_sequences db) name account_sequence_default;
  '(owner_permission, a) ← create_genesis_permission (ch_authorization db) name config.owner_name 0 owner;
  '(active_permission, a) ← create_genesis_permission a name config.active_name (po_id owner_permission) active;
  rl ← initialize_account (ch_limits db) name;
  let ram_delta :=
    i64 (i64 (i64 (config.overhead_per_account_ram_bytes + 2 * billable_permission) +
              get_billable_size key_pack_size (po_auth owner_permission)) +
         get_billable_size key_pack_size (po_auth active_permission)) in
  rl ← add_pending_ram_usage rl name ram_delta;
  verify_account_ram_usage rl name;;
  mret (with_ch_limits (with_authorization (with_sequences (with_accounts db accounts) sequences) a) rl).

Definition empty_chain_db : chain_db K :=
  ChainDb contract_db_empty ResourceLimits.initialize_database AuthorizationManager.initialize_database ∅ ∅ ∅ ∅ 0
    (initial_configuration genesis) None.

Definition system_auth : authority K := authority_of_key (initial_key genesis) 0.
Definition empty_authority : authority K := Authority 1 [] [] [].
Definition active_producers_authority : authority K :=
  Authority 1 [] [PermissionLevelWeight (PermissionLevel config.system_account_name config.active_name) 1] [].

Definition create_producer_permissions (db : @authorization_db K) : res (@authorization_db K) :=
  active_permission ← get_permission db (PermissionLevel config.producers_account_name config.active_name);
  '(majority_permission, db) ←
    create_genesis_permission db config.producers_account_name config.majority_producers_permission_name
      (po_id active_permission) active_producers_authority;
  '(_, db) ←
    create_genesis_permission db config.producers_account_name config.minority_producers_permission_name
      (po_id majority_permission) active_producers_authority;
  '(_, db) ←
    create_genesis_permission db config.producers_account_name config.single_producers_permission_name
      (po_id majority_permission) active_producers_authority;
  mret db.

(** The block summaries are those of the genesis block and of no other. *)
Definition initialize_database : res (block_db K) :=
  chain_config_validate (initial_configuration genesis);;
  db ← create_native_account empty_chain_db config.system_account_name system_auth system_auth true;
  db ← create_native_account db config.null_account_name empty_authority empty_authority false;
  db ← create_native_account db config.producers_account_name empty_authority active_producers_authority false;
  a ← create_producer_permissions (ch_authorization db);
  mret (BlockDb (with_authorization db a) {[1 := bhs_id genesis_header]}).

(** ** Well-formedness *)

Abbreviation auth_size a := (get_billable_size key_pack_size a).

(** Nothing of the account exists. *)
Record unborn (db : chain_db K) (name : Z) : Prop := {
  ub_account : ch_accounts db !! name = None;
  ub_sequence : ch_sequences db !! name = None;
  ub_limits b : db_limits (ch_limits db) !! (b, name) = None;
  ub_usage : db_usage (ch_limits db) !! name = None;
  ub_permissions p : p ∈ permissions (ch_authorization db) → po_owner p ≠ name }.

(** What a native account adds to the database. *)
Record born (db db' : chain_db K) (name : Z) (owner active : authority K) (privileged : bool) : Prop := {
  bn_accounts : ch_accounts db' = <[name := native_account_object name privileged]> (ch_accounts db);
  bn_unborn n : n ≠ name → unborn db n → unborn db' n;
  bn_limits : db_config (ch_limits db') = db_config (ch_limits db) ∧ db_state (ch_limits db') = db_state (ch_limits db);
  bn_rest : ch_configuration db' = ch_configuration db ∧ ch_transactions db' = ch_transactions db ∧
    ch_generated db' = ch_generated db;
  bn_permissions : ∃ po pa, permissions (ch_authorization db') = permissions (ch_authorization db) ++ [po; pa] ∧
    po_owner po = name ∧ po_name po = config.owner_name ∧ po_auth po = owner ∧
    po_owner pa = name ∧ po_name pa = config.active_name ∧ po_auth pa = active }.

(** The native names as numbers. *)
Lemma native_names :
  config.owner_name = 12044502819693133824 ∧ config.active_name = 3617214756542218240 ∧
  config.majority_producers_permission_name = 12531424605554196480 ∧
  config.minority_producers_permission_name = 12531424609916272640 ∧
  config.single_producers_permission_name = 12531424712991200256 ∧
  config.producers_account_name = 6138663589497696256 ∧ config.system_account_name = 6138663577826885632 ∧
  config.null_account_name = 6138663588472832000.
Proof. split_and!; vm_compute; reflexivity. Qed.
#[local] Opaque N_.

Lemma find_by_owner_fresh (ps : list (@permission_object K)) owner name :
  (∀ p, p ∈ ps → po_owner p ≠ owner ∨ po_name p ≠ name) → find_by_owner ps owner name = None.
Proof.
  intros H. unfold find_by_owner. destruct (list_find _ ps) as [[i p]|] eqn:Hf; [|done].
  apply list_find_Some in Hf as (Hi & [Ho Hn] & _). apply list_elem_of_lookup_2 in Hi. by destruct (H p Hi).
Qed.

Lemma create_genesis_permission_ok (db : @authorization_db K) account name parent auth :
  auth_wf db → valid_parent db account parent → (∀ p, p ∈ permissions db → po_owner p ≠ account ∨ po_name p ≠ name) →
  ∃ p db', create_genesis_permission db account name parent auth = Ok (p, db') ∧ auth_wf db' ∧
    permissions db' = permissions db ++ [p] ∧ po_owner p = account ∧ po_name p = name ∧ po_auth p = auth.
Proof.
  intros Hwf Hp Hf. destruct (create_genesis_permission db account name parent auth) as [[p db']|e] eqn:Hc.
  - exists p, db'. split; [done|]. split; [by eapply create_permission_auth|].
    by apply create_permission_inv in Hc as (? & _ & ? & ? & ? & _).
  - unfold create_genesis_permission, create_permission in Hc. by rewrite find_by_owner_fresh in Hc.
Qed.

Lemma usage_default_wf : usage_wf usage_default.
Proof. unfold usage_wf, accumulator_wf, is_unsigned. cbn. lia. Qed.

(** The first charge of an account without limits. *)
Lemma first_charge (rl : resource_limits_db) name delta :
  (∀ b, db_limits rl !! (b, name) = None) → db_usage rl !! name = None → 0 < delta < 2 ^ 63 →
  ∃ rl', (rl ← initialize_account rl name; rl ← add_pending_ram_usage rl name delta;
          verify_account_ram_usage rl name;; mret rl) = Ok rl' ∧
    db_config rl' = db_config rl ∧ db_state rl' = db_state rl ∧
    db_limits rl' = <[(false, name) := limits_default]> (db_limits rl) ∧
    db_usage rl' = <[name := Usage accumulator_zero accumulator_zero delta]> (db_usage rl).
Proof.
  intros Hl Hu Hd. unfold initialize_account, db_create. rewrite Hl, Hu. cbn [mbind result_bind mret result_ret].
  unfold add_pending_ram_usage. rewrite (proj2 (Z.eqb_neq delta 0)) by lia. unfold Database.db_get at 1. cbn.
  rewrite lookup_insert_eq. cbn. rewrite Z.add_0_l, !(wrap_id 64 delta) by (unfold is_unsigned; lia).
  rewrite !EOS_ASSERT_pass by (unfold uint64_max; lia). cbn [mbind result_bind mret result_ret]. unfold verify_account_ram_usage, get_account_limits. cbn.
  rewrite lookup_insert_ne by congruence. rewrite Hl. unfold Database.db_get. cbn. rewrite !lookup_insert_eq. cbn.
  eexists. split; [done|]. cbn. by rewrite insert_insert_eq.
Qed.

(** The RAM of a native account. *)
Lemma native_account_ram owner active :
  auth_size owner < 2 ^ 40 → auth_size active < 2 ^ 40 →
  0 < i64 (i64 (i64 (config.overhead_per_account_ram_bytes + 2 * billable_permission) + auth_size owner) + auth_size active)
    < 2 ^ 63.
Proof.
  intros Ho Ha. pose proof (auth_size_nonneg owner). pose proof (auth_size_nonneg active).
  change (config.overhead_per_account_ram_bytes + 2 * billable_permission) with 2624.
  rewrite (swrap_id 64 2624) by (unfold is_signed; lia).
  rewrite (swrap_id 64 (2624 + _)) by (unfold is_signed; lia). rewrite swrap_id by (unfold is_signed; lia). lia.
Qed.

Lemma create_native_account_ok db name owner active privileged :
  native_wf db → unborn db name → auth_size owner < 2 ^ 40 → auth_size active < 2 ^ 40 →
  Z.of_nat (length system_abi) < 2 ^ 40 →
  ∃ db', create_native_account db name owner active privileged = Ok db' ∧ native_wf db' ∧ born db db' name owner active privileged.
Proof.
  intros Hwf [Ha Hs Hl Hu Hp] Ho Hac Habi. pose proof (nw_auth _ Hwf) as Hauth.
  destruct (create_genesis_permission_ok (ch_authorization db) name config.owner_name 0 owner Hauth)
    as (po & a1 & Hc1 & Hwf1 & Hps1 & Hpo1 & Hpn1 & Hpa1); [by left|intros p Hin; left; by apply Hp|].
  destruct (create_genesis_permission_ok a1 name config.active_name (po_id po) active Hwf1)
    as (pa & a2 & Hc2 & Hwf2 & Hps2 & Hpo2 & Hpn2 & Hpa2).
  { right. exists po. rewrite Hps1. split; [apply elem_of_app; right; by apply list_elem_of_singleton|done]. }
  { intros p. rewrite Hps1. intros [Hin| ->%list_elem_of_singleton]%elem_of_app; [left; by apply Hp|right].
    destruct native_names as (E1 & E2 & _). lia. }
  unfold create_native_account. unfold db_create at 1 2. rewrite Ha, Hs. cbn [mbind result_bind mret result_ret].
  rewrite Hc1. cbn [mbind result_bind]. rewrite Hc2. cbn [mbind result_bind].
  rewrite Hpa1, Hpa2. pose proof (native_account_ram owner active Ho Hac) as Hdelta. revert Hdelta.
  generalize (i64 (i64 (i64 (config.overhead_per_account_ram_bytes + 2 * billable_permission) + auth_size owner) + auth_size active)).
  intros delta Hdelta.
  destruct (first_charge (ch_limits db) name delta Hl Hu Hdelta) as (rl' & Hrl & Hcfg & Hst & Hlim & Husage).
  destruct (initialize_account (ch_limits db) name) as [r1|]; [cbn [mbind result_bind] in *|done].
  destruct (add_pending_ram_usage r1 name delta) as [r2|]; [cbn [mbind result_bind] in *|done].
  destruct (verify_account_ram_usage r2 name) as [[]|]; [cbn [mbind result_bind] in *|done]. injection Hrl as ->.
  eexists. split; [done|].
  assert (Hperm : ∀ p, p ∈ permissions a2 → p ∈ permissions (ch_authorization db) ∨ p = po ∨ p = pa).
  { intros p. rewrite Hps2, Hps1, !elem_of_app, !list_elem_of_singleton. tauto. }
  split; constructor; cbn.
  - rewrite Husage. intros a u [[<- <-]|[_ Hu']]%lookup_insert_Some; [|by eapply nw_usage].
    unfold usage_wf, accumulator_wf, is_unsigned. cbn. lia.
  - done.
  - intros p [Hin|[-> | ->]]%Hperm; [by apply Hwf|congruence|congruence].
  - intros a o [[<- <-]|[_ Ho']]%lookup_insert_Some; [|by eapply nw_accounts]. cbn. destruct (_ =? config.system_account_name); cbn; lia.
  - apply Hwf.
  - done.
  - intros n Hn [Hna Hns Hnl Hnu Hnp]. constructor; cbn; [by rewrite lookup_insert_ne..| | |].
    + intros b. rewrite Hlim. rewrite lookup_insert_ne; [done|congruence].
    + rewrite Husage. by rewrite lookup_insert_ne.
    + intros p [Hin|[-> | ->]]%Hperm; [by apply Hnp|congruence|congruence].
  - done.
  - done.
  - exists po, pa. rewrite Hps2, Hps1, <- app_assoc. done.
Qed.

(** A permission that [get_permission] finds. *)
Definition has_permission (db : @authorization_db K) (owner name : Z) : Prop :=
  ∃ p, p ∈ permissions db ∧ po_owner p = owner ∧ po_name p = name.

Lemma get_permission_has (db : @authorization_db K) owner name :
  has_permission db owner name → owner ≠ 0 → name ≠ 0 →
  ∃ p, get_permission db (PermissionLevel owner name) = Ok p ∧ p ∈ permissions db ∧ po_owner p = owner ∧ po_name p = name.
Proof.
  intros (p & Hp & Ho & Hn) Ho0 Hn0. unfold get_permission, level_named. cbn.
  rewrite (proj2 (Z.eqb_neq owner 0)), (proj2 (Z.eqb_neq name 0)) by done. cbn.
  destruct (find_by_owner (permissions db) owner name) as [q|] eqn:Hf.
  - exists q. by apply find_by_owner_Some in Hf.
  - by destruct (find_by_owner_None _ _ _ p Hf Hp).
Qed.

(** ** The permissions of the producers *)

Definition auth_of (db : @authorization_db K) (owner name : Z) : option (authority K) :=
  po_auth <$> find_by_owner (permissions db) owner name.

Lemma auth_of_has db owner name : is_Some (auth_of db owner name) ↔ has_permission db owner name.
Proof.
  unfold auth_of. rewrite fmap_is_Some. split.
  - intros [p Hp]. exists p. by apply find_by_owner_Some in Hp.
  - intros (p & Hp & Ho & Hn). destruct (find_by_owner (permissions db) owner name) eqn:Hf; [done|].
    by destruct (find_by_owner_None _ _ _ p Hf Hp).
Qed.

Lemma find_by_owner_fmap (f : @permission_object K → @permission_object K) ps owner name :
  (∀ p, po_owner (f p) = po_owner p ∧ po_name (f p) = po_name p) →
  find_by_owner (map f ps) owner name = f <$> find_by_owner ps owner name.
Proof.
  intros Hf. unfold find_by_owner. rewrite list_find_fmap, <- !option_fmap_compose.
  rewrite (list_find_ext _ (λ p, po_owner p = owner ∧ po_name p = name)).
  - destruct (list_find _ ps) as [[]|]; done.
  - intros p. unfold compose. destruct (Hf p) as [-> ->]. done.
Qed.

Lemma NoDup_map_inj {A B} (f : A → B) (l : list A) x y : NoDup (map f l) → x ∈ l → y ∈ l → f x = f y → x = y.
Proof.
  intros Hl Hx Hy Hf. apply (NoDup_omap_inj (λ a, Some (f a)) l x y (f y)); [|done|done|by rewrite Hf|done].
  assert (E : omap (λ a, Some (f a)) l = map f l) by (clear; induction l; cbn; congruence). by rewrite E.
Qed.

Lemma auth_of_elem (db : @authorization_db K) p :
  auth_wf db → p ∈ permissions db → auth_of db (po_owner p) (po_name p) = Some (po_auth p).
Proof.
  intros [Hwf _] Hp. unfold auth_of. destruct (find_by_owner _ _ _) as [q|] eqn:Hf.
  - apply find_by_owner_Some in Hf as (Hq & Ho & Hn). cbn. do 2 f_equal.
    apply (NoDup_map_inj (λ p, (po_owner p, po_name p)) (permissions db)); [apply Hwf|done|done|]. congruence.
  - by destruct (find_by_owner_None _ _ _ p Hf Hp).
Qed.

Lemma set_auth_of (db : @authorization_db K) p auth owner name :
  auth_wf db → p ∈ permissions db →
  auth_of (set_auth db p auth) owner name =
  (if decide (po_owner p = owner ∧ po_name p = name) then Some auth else auth_of db owner name).
Proof.
  intros [Hwf _] Hp. unfold auth_of, set_auth. cbn [permissions].
  rewrite find_by_owner_fmap by (intros q; by destruct (_ =? _)). rewrite <- option_fmap_compose.
  destruct (find_by_owner (permissions db) owner name) as [q|] eqn:Hf; cbn.
  - apply find_by_owner_Some in Hf as (Hq & Ho & Hn).
    destruct (Z.eqb_spec (po_id q) (po_id p)) as [Hid|Hid].
    + assert (q = p) as -> by (pose proof (find_by_id_elem _ _ _ Hwf Hq); pose proof (find_by_id_elem _ _ _ Hwf Hp); congruence).
      by rewrite decide_True.
    + rewrite decide_False; [done|]. intros [Ho' Hn']. apply Hid. f_equal.
      apply (NoDup_map_inj (λ p, (po_owner p, po_name p)) (permissions db)); [apply Hwf|done|done|]. congruence.
  - rewrite decide_False; [done|]. by apply (find_by_owner_None _ _ _ p Hf).
Qed.

Lemma set_auth_wf (db : @authorization_db K) p auth : auth_wf db → auth_wf (set_auth db p auth).
Proof.
  set (f := λ po : permission_object, if po_id po =? po_id p
    then PermissionObject (po_id po) (po_usage_id po) (po_parent po) (po_owner po) (po_name po) (po_last_updated po) auth else po).
  assert (Hf : ∀ q, po_id (f q) = po_id q ∧ po_owner (f q) = po_owner q ∧ po_name (f q) = po_name q ∧ po_parent (f q) = po_parent q)
    by (intros q; unfold f; by destruct (_ =? _)).
  assert (Hmap : ∀ q, q ∈ map f (permissions db) ↔ ∃ q', q = f q' ∧ q' ∈ permissions db) by (intros q; apply list_elem_of_fmap).
  intros [[Hids Hnames (r & Hr & Hr0 & Hrp) Hpar Hnext] (r' & Hr' & Hr0' & Ho')].
  split; [constructor|]; unfold set_auth; cbn [permissions next_permission_id]; fold f.
  - rewrite map_map. by rewrite (map_ext _ po_id) by (intros q; apply Hf).
  - rewrite map_map. rewrite (map_ext _ (λ q, (po_owner q, po_name q))); [done|].
    intros q. by destruct (Hf q) as (_ & -> & -> & _).
  - exists (f r). destruct (Hf r) as (-> & _ & _ & ->). split; [apply Hmap; by eexists|done].
  - intros q (q' & -> & Hq)%Hmap. destruct (Hf q') as (-> & -> & _ & ->). intros H0.
    destruct (Hpar q' Hq H0) as (Hlt & t & Ht & Hti & Hto). split; [done|]. exists (f t).
    destruct (Hf t) as (-> & -> & _). split; [apply Hmap; by eexists|done].
  - intros q (q' & -> & Hq)%Hmap. destruct (Hf q') as (-> & _). by apply Hnext.
  - exists (f r'). destruct (Hf r') as (-> & -> & _). split; [apply Hmap; by eexists|done].
Qed.

(** One permission of the producers gets its new authority; the others keep theirs. *)
Lemma update_permission_ok l (db : @authorization_db K) name t :
  auth_wf db → has_permission db config.producers_account_name name → name ≠ 0 →
  ∃ db', update_permission l db name t = Ok db' ∧ auth_wf db' ∧
    ∀ o n, auth_of db' o n = if decide (config.producers_account_name = o ∧ name = n)
                             then Some (producers_authority l t) else auth_of db o n.
Proof.
  intros Hwf Hhas Hn. destruct native_names as (_ & _ & _ & _ & _ & E6 & _).
  destruct (get_permission_has _ _ _ Hhas) as (p & Hget & Hp & Ho & Hpn); [lia|done|].
  unfold update_permission. rewrite Hget. cbn [mbind result_bind]. cbv zeta.
  eexists. split; [done|]. case_bool_decide as Ha.
  - split; [done|]. intros o n. case_decide as Hd; [|done]. destruct Hd as [<- <-].
    rewrite <- Ha, <- Ho, <- Hpn. by apply auth_of_elem.
  - split; [by apply set_auth_wf|]. intros o n. rewrite (set_auth_of db p _ o n Hwf Hp), Ho, Hpn. done.
Qed.

Lemma updated_has (db db' : @authorization_db K) name auth :
  (∀ o n, auth_of db' o n = if decide (config.producers_account_name = o ∧ name = n) then Some auth else auth_of db o n) →
  ∀ o n, has_permission db o n → has_permission db' o n.
Proof. intros Ha o n. rewrite <- !auth_of_has, Ha. by case_decide. Qed.

Definition producer_permissions : list Z :=
  [config.active_name; config.majority_producers_permission_name; config.minority_producers_permission_name;
   config.single_producers_permission_name].

Definition has_producer_permissions (db : @authorization_db K) : Prop :=
  Forall (has_permission db config.producers_account_name) producer_permissions.

(** The least number of producers that is more than [numerator / denominator] of them. *)
Lemma calculate_threshold_spec n num den c :
  0 <= n < 2 ^ 30 → 1 <= num <= 2 → 2 <= den → calculate_threshold n num den <= c ↔ n * num < c * den.
Proof.
  intros Hn Hnum Hden. unfold calculate_threshold.
  assert (n * num < 2 ^ 31) by nia. rewrite (wrap_id 32 (n * num)) by (unfold is_unsigned; nia).
  pose proof (Z.div_mod (n * num) den ltac:(lia)). pose proof (Z.mod_pos_bound (n * num) den ltac:(lia)).
  assert (0 <= n * num / den < 2 ^ 31) by (split; [apply Z.div_pos; nia|apply Z.div_lt_upper_bound; nia]).
  rewrite wrap_id by (unfold is_unsigned; lia). nia.
Qed.

(** C9: whenever the four permissions of [eosio.prods] exist,
    [update_producers_authority] succeeds and gives each of them the authority
    of the scheduled producers' active permissions, one vote each, with a
    threshold that [c] votes reach exactly when [c] is more than two thirds,
    one half, one third and 1/21 of the producers; every other permission keeps
    its authority. *)
Theorem producers_control_their_permissions l (db : @authorization_db K) :
  auth_wf db → has_producer_permissions db → Z.of_nat (length l) < 2 ^ 30 →
  let n := Z.of_nat (length l) in
  ∃ db' t1 t2 t3 t4, update_producers_authority l db = Ok db' ∧ auth_wf db' ∧
    (auth_of db' config.producers_account_name <$> producer_permissions) =
      (λ t, Some (producers_authority l t)) <$> [t1; t2; t3; t4] ∧
    (∀ c, (t1 <= c ↔ n * 2 < c * 3) ∧ (t2 <= c ↔ n < c * 2) ∧ (t3 <= c ↔ n < c * 3) ∧ (t4 <= c ↔ n < c * 21)) ∧
    (∀ o m, o ≠ config.producers_account_name ∨ m ∉ producer_permissions → auth_of db' o m = auth_of db o m).
Proof.
  intros Hwf Hhas Hl n. destruct native_names as (_ & E2 & E3 & E4 & E5 & E6 & _).
  unfold has_producer_permissions, producer_permissions in Hhas. rewrite !Forall_cons in Hhas. destruct Hhas as (H1 & H2 & H3 & H4 & _).
  unfold update_producers_authority. cbv zeta. rewrite (wrap_id 32) by (unfold is_unsigned; lia). fold n.
  destruct (update_permission_ok l db config.active_name (calculate_threshold n 2 3) Hwf H1) as (d1 & -> & Hw1 & Ha1); [lia|].
  pose proof (updated_has _ _ _ _ Ha1) as Hk1. cbn [mbind result_bind].
  destruct (update_permission_ok l d1 config.majority_producers_permission_name (calculate_threshold n 1 2))
    as (d2 & -> & Hw2 & Ha2); [done|by apply Hk1|lia|]. pose proof (updated_has _ _ _ _ Ha2) as Hk2. cbn [mbind result_bind].
  destruct (update_permission_ok l d2 config.minority_producers_permission_name (calculate_threshold n 1 3))
    as (d3 & -> & Hw3 & Ha3); [done|by apply Hk2, Hk1|lia|]. pose proof (updated_has _ _ _ _ Ha3) as Hk3. cbn [mbind result_bind].
  destruct (update_permission_ok l d3 config.single_producers_permission_name (calculate_threshold n 1 21))
    as (d4 & -> & Hw4 & Ha4); [done|by apply Hk3, Hk2, Hk1|lia|].
  exists d4, (calculate_threshold n 2 3), (calculate_threshold n 1 2), (calculate_threshold n 1 3), (calculate_threshold n 1 21).
  split_and!; [done|done| | |].
  - unfold producer_permissions. cbn [fmap list_fmap].
    do 4 (apply f_equal2; [rewrite ?Ha4, ?Ha3, ?Ha2, ?Ha1; repeat first [rewrite decide_True by done|rewrite decide_False by lia]; done|]).
    done.
  - intros c. rewrite !calculate_threshold_spec by lia. lia.
  - intros o m Hom. assert (Hne : ∀ k, k ∈ producer_permissions → ¬ (config.producers_account_name = o ∧ k = m)) by naive_solver.
    unfold producer_permissions in Hne. rewrite Ha4, Ha3, Ha2, Ha1. by rewrite !decide_False by (apply Hne; rewrite !elem_of_cons; tauto).
Qed.

Lemma find_by_owner_snoc (ps : list (@permission_object K)) p owner name :
  po_owner p ≠ owner ∨ po_name p ≠ name → find_by_owner (ps ++ [p]) owner name = find_by_owner ps owner name.
Proof.
  intros Hp. unfold find_by_owner. induction ps as [|q ps IH]; cbn; [rewrite decide_False; [done|tauto]|].
  case_decide; [done|]. rewrite <- !option_fmap_compose. destruct (list_find _ (ps ++ [p])) as [[]|], (list_find _ ps) as [[]|]; done.
Qed.

Lemma create_producer_permissions_ok (db : @authorization_db K) :
  auth_wf db → has_permission db config.producers_account_name config.active_name →
  (∀ p, p ∈ permissions db → po_name p = config.owner_name ∨ po_name p = config.active_name ∨ po_name p = 0) →
  ∃ db', create_producer_permissions db = Ok db' ∧ auth_wf db' ∧
    (∀ p, p ∈ permissions db' → p ∈ permissions db ∨ po_auth p = active_producers_authority) ∧
    has_producer_permissions db' ∧ (∀ o n, o ≠ config.producers_account_name → auth_of db' o n = auth_of db o n).
Proof.
  intros Hwf Hact Hnames. destruct native_names as (E1 & E2 & E3 & E4 & E5 & E6 & _).
  destruct (get_permission_has _ _ _ Hact) as (pa & Hget & Hpa & Hpo & _); [lia..|].
  unfold create_producer_permissions. rewrite Hget. cbn [mbind result_bind].
  set (prods := config.producers_account_name) in *. set (auth := active_producers_authority).
  assert (Hfresh : ∀ n, n = config.majority_producers_permission_name ∨ n = config.minority_producers_permission_name ∨
    n = config.single_producers_permission_name → ∀ p, p ∈ permissions db → po_owner p ≠ prods ∨ po_name p ≠ n).
  { intros n Hn p Hp. right. intros Heq. rewrite <- Heq in Hn. destruct (Hnames p Hp) as [E|[E|E]]; lia. }
  destruct (create_genesis_permission_ok db prods config.majority_producers_permission_name (po_id pa) auth Hwf)
    as (p1 & a1 & -> & Hwf1 & Hps1 & Ho1 & Hn1 & Ha1); [right; by exists pa|apply Hfresh; by left|]. cbn [mbind result_bind].
  destruct (create_genesis_permission_ok a1 prods config.minority_producers_permission_name (po_id p1) auth Hwf1)
    as (p2 & a2 & -> & Hwf2 & Hps2 & Ho2 & Hn2 & Ha2).
  { right. exists p1. rewrite Hps1, elem_of_app, list_elem_of_singleton. by split; [right|]. }
  { intros p. rewrite Hps1, elem_of_app, list_elem_of_singleton. intros [Hin| ->]; [apply Hfresh; tauto|]. right. lia. }
  cbn [mbind result_bind].
  destruct (create_genesis_permission_ok a2 prods config.single_producers_permission_name (po_id p1) auth Hwf2)
    as (p3 & a3 & -> & Hwf3 & Hps3 & Ho3 & Hn3 & Ha3).
  { right. exists p1. rewrite Hps2, Hps1, !elem_of_app, !list_elem_of_singleton. split; [tauto|done]. }
  { intros p. rewrite Hps2, Hps1, !elem_of_app, !list_elem_of_singleton.
    intros [[Hin| ->]| ->]; [apply Hfresh; tauto|right; lia|right; lia]. }
  cbn [mbind result_bind]. exists a3. split; [done|].
  assert (Hall : ∀ p, p ∈ permissions a3 ↔ ((p ∈ permissions db ∨ p = p1) ∨ p = p2) ∨ p = p3)
    by (intros p; by rewrite Hps3, Hps2, Hps1, !elem_of_app, !list_elem_of_singleton).
  split_and!; [done| | |].
  - intros p [[[Hp| ->]| ->]| ->]%Hall; [by left|by right..].
  - destruct Hact as (q & Hq & Hqo & Hqn). unfold has_producer_permissions, producer_permissions. rewrite !Forall_cons.
    split_and!; [exists q|exists p1|exists p2|exists p3|constructor]; (split; [apply Hall; tauto|done]).
  - intros o n Hon. unfold auth_of. rewrite Hps3, Hps2, Hps1. by rewrite !find_by_owner_snoc by (left; congruence).
Qed.

Lemma genesis_authorities_small :
  0 <= key_pack_size (initial_key genesis) < 2 ^ 32 →
  auth_size system_auth < 2 ^ 40 ∧ auth_size empty_authority < 2 ^ 40 ∧ auth_size active_producers_authority < 2 ^ 40.
Proof.
  intros Hk. split_and!; [|done..].
  change (u64 (0 + u64 (u64 (0 + billable_key_weight) + key_pack_size (initial_key genesis))) < 2 ^ 40).
  assert (Hb : 0 <= billable_key_weight < 1000) by done. revert Hb. generalize billable_key_weight. intros b Hb.
  rewrite !Z.add_0_l. rewrite (wrap_id 64 b), !(wrap_id 64 (b + _)) by (unfold is_unsigned; lia). lia.
Qed.

Lemma empty_chain_db_wf : native_wf empty_chain_db.
Proof.
  constructor; cbn; try done.
  - constructor; [apply initialize_database_wf|]. exists reserved_permission. split; [apply list_elem_of_here|done].
  - intros p ->%list_elem_of_singleton. done.
Qed.

Lemma empty_chain_db_unborn name : name ≠ 0 → unborn empty_chain_db name.
Proof. intros Hn. constructor; cbn; try done. intros p ->%list_elem_of_singleton. cbn. congruence. Qed.

(** The state that [initialize_database] leaves. *)
Record genesis_db (d : block_db K) : Prop := {
  gd_native : native_wf (bd_chain d);
  gd_limits : block_inv (ch_limits (bd_chain d)) 0;
  gd_depth : depth_ok (bd_chain d);
  gd_producers : has_producer_permissions (ch_authorization (bd_chain d));
  gd_accounts : ch_accounts (bd_chain d) =
    {[config.system_account_name := native_account_object config.system_account_name true;
      config.null_account_name := native_account_object config.null_account_name false;
      config.producers_account_name := native_account_object config.producers_account_name false]};
  gd_system n : n = config.owner_name ∨ n = config.active_name →
    auth_of (ch_authorization (bd_chain d)) config.system_account_name n = Some system_auth;
  gd_transactions : ch_transactions (bd_chain d) = ∅ ∧ ch_generated (bd_chain d) = ∅ }.

Lemma initialize_database_ok :
  chain_config_validate (initial_configuration genesis) = Ok tt →
  is_unsigned 16 (max_inline_action_depth (initial_configuration genesis)) →
  0 <= key_pack_size (initial_key genesis) < 2 ^ 32 → Z.of_nat (length system_abi) < 2 ^ 40 →
  ∃ d, initialize_database = Ok d ∧ genesis_db d.
Proof.
  intros Hval Hdepth Hkey Habi. destruct (genesis_authorities_small Hkey) as (Hs & He & Hp).
  destruct native_names as (E1 & E2 & _ & _ & _ & E6 & E7 & E8). unfold initialize_database. rewrite Hval. cbn [mbind result_bind].
  destruct (create_native_account_ok empty_chain_db config.system_account_name system_auth system_auth true)
    as (d1 & -> & Hw1 & [Ha1 Hu1 Hl1 Hr1 (o1 & q1 & Hp1 & Hp1')]); [apply empty_chain_db_wf|apply empty_chain_db_unborn; lia|done..|].
  cbn [mbind result_bind].
  destruct (create_native_account_ok d1 config.null_account_name empty_authority empty_authority false)
    as (d2 & -> & Hw2 & [Ha2 Hu2 Hl2 Hr2 (o2 & q2 & Hp2 & Hp2')]); [done|apply Hu1, empty_chain_db_unborn; lia|done..|].
  cbn [mbind result_bind].
  destruct (create_native_account_ok d2 config.producers_account_name empty_authority active_producers_authority false)
    as (d3 & -> & Hw3 & [Ha3 Hu3 Hl3 Hr3 (o3 & q3 & Hp3 & Hp3')]); [done|apply Hu2, Hu1, empty_chain_db_unborn; lia|done..|].
  cbn [mbind result_bind].
  assert (Hps : permissions (ch_authorization d3) = reserved_permission :: [o1; q1; o2; q2; o3; q3]).
  { by rewrite Hp3, Hp2, Hp1. }
  destruct (create_producer_permissions_ok (ch_authorization d3)) as (a & -> & Hwa & Hold & Hprods & Hother).
  { apply Hw3. }
  { exists q3. rewrite Hps, !elem_of_cons. tauto. }
  { intros p. rewrite Hps, !elem_of_cons, elem_of_nil.
    intros [->|[->|[->|[->|[->|[->|[->|[]]]]]]]]; [by right; right|tauto..]. }
  cbn [mbind result_bind]. eexists. split; [done|].
  assert (Hsys : ∀ n, n = config.owner_name ∨ n = config.active_name →
    auth_of (ch_authorization d3) config.system_account_name n = Some system_auth).
  { intros n [-> | ->].
    - destruct Hp1' as (<- & <- & <- & _). apply auth_of_elem; [apply Hw3|]. rewrite Hps, !elem_of_cons. tauto.
    - destruct Hp1' as (_ & _ & _ & <- & <- & <-). apply auth_of_elem; [apply Hw3|]. rewrite Hps, !elem_of_cons. tauto. }
  constructor; cbn [bd_chain with_authorization ch_limits ch_accounts ch_authorization ch_transactions ch_generated ch_configuration].
  - destruct Hw3. constructor; [done|done| |done|done]. intros p [Hp0| ->]%Hold; [auto|done].
  - destruct initialize_database_inv. constructor; rewrite ?(proj1 Hl3), ?(proj2 Hl3), ?(proj1 Hl2), ?(proj2 Hl2), ?(proj1 Hl1), ?(proj2 Hl1); done.
  - unfold depth_ok. cbn [with_authorization ch_configuration]. by rewrite (proj1 Hr3), (proj1 Hr2), (proj1 Hr1).
  - done.
  - rewrite Ha3, Ha2, Ha1. cbn [empty_chain_db ch_accounts].
    apply map_eq. intros i. rewrite !lookup_insert, lookup_singleton, lookup_empty. repeat case_decide; try done; lia.
  - intros n Hn. rewrite Hother by lia. by apply Hsys.
  - destruct Hr3 as (_ & -> & ->), Hr2 as (_ & -> & ->), Hr1 as (_ & -> & ->). done.
Qed.

(** C8: for every valid initial configuration the database of a new chain is
    built without an error, and it satisfies the invariants that the operations
    on the database keep: those of the native system contract, of the elastic
    block limits and of the depth of inline actions; exactly the three native
    accounts exist, only [eosio] is privileged and its owner and active
    permissions are those of the initial key, the permissions that every block
    updates are there, and no transaction is recorded or scheduled. *)
Theorem genesis_well_formed :
  chain_config_validate (initial_configuration genesis) = Ok tt →
  is_unsigned 16 (max_inline_action_depth (initial_configuration genesis)) →
  0 <= key_pack_size (initial_key genesis) < 2 ^ 32 → Z.of_nat (length system_abi) < 2 ^ 40 →
  ∃ d, initialize_database = Ok d ∧ genesis_db d.
Proof. apply initialize_database_ok. Qed.
End genesis.
