(* ===== verification/ChainSnapshot.v ===== *)
(** * Snapshots of the chain (controller.cpp, authorization_manager.cpp,
      resource_limits.cpp, chain_snapshot.hpp)

    [add_to_snapshot] writes the state of a node at its head block and
    [read_from_snapshot] starts a node from it.  The theorem composes the
    snapshot file, the tables, the permissions and the plain indices: a node that
    is started from the snapshot of another one has the same head, the same
    accounts, sequences, transactions, limits and configuration, and tables and
    permissions that differ in their internal ids only. *)

From S2P Require Import Prelude Exceptions Config Merkle Authority Database ResourceLimits Transaction ChainConfig AuthorizationManager BlockHeaderState ForkDatabase ChainDatabase ErrorState Bytes SnapshotStream IteratorCache TransactionContext ApplyContext ContractTables TableSnapshot PermissionSnapshot BlockExecution Genesis.

(** The sections of types: each has the name of its type. *)
Inductive section_kind : Set :=
  | chain_snapshot_header_section
  | genesis_state_section
  | block_state_section
  | account_section
  | account_sequence_section
  | global_property_section
  | dynamic_global_property_section
  | block_summary_section
  | transaction_section
  | generated_transaction_section
  | permission_section
  | permission_link_section
  | resource_limits_section
  | resource_usage_section
  | resource_limits_state_section
  | resource_limits_config_section.

#[export] Instance section_kind_eq_dec : EqDecision section_kind.
Proof. solve_decision. Defined.

(** [snapshot_section_traits::section_name]: the names of types are distinct,
    ASCII, and none of them is the name of the section of tables. *)
Class type_names : Type := {
  section_name : section_kind → bytes;
  section_name_ok k : name_ok (section_name k);
  section_name_inj k k' : section_name k = section_name k' → k = k';
  section_name_types k : section_name k ≠ contract_tables }.

(** The order in which an index is walked: that of the ids, which the model of
    an index with another unique key does not keep. *)
Class index_order : Type := {
  walk {K A} `{Countable K} : gmap K A → list (K * A);
  walk_perm {K A} `{Countable K} (m : gmap K A) : walk m ≡ₚ map_to_list m }.

(** The reflected members of an account: [code_activated] is not one of them. *)
Abbreviation account_row := (Z * (Z * Z * bool * Z * digest_type * Z * bytes * bytes))%type.

Definition account_to_row (x : Z * account_object) : account_row :=
  let a := x.2 in
  (x.1, (ao_vm_type a, ao_vm_version a, ao_privileged a, ao_last_code_update a, ao_code_version a, ao_creation_date a,
         ao_code a, ao_abi a)).
Definition account_of_row (r : account_row) : account_object :=
  let '(_, (vm_type, vm_version, privileged, last_code_update, code_version, creation_date, code, abi)) := r in
  AccountObject vm_type vm_version privileged false last_code_update code_version creation_date code abi.

Section snapshot.
Context {K Sig B : Type} `{EqDecision K}.
Context {rules : @header_rules K Sig} {container : multi_index}.
Context {names : type_names} {order : index_order}.
Abbreviation header_state := (@block_header_state K Sig).
Abbreviation fork_database := (@fork_database K Sig B).
Abbreviation block_state := (@block_state K Sig B).
Abbreviation global_row := (option (Z * @producer_schedule_type K) * chain_config)%type.

(** The serialization of the rows. *)
Class chain_codec : Type := {
  version_codec :: row_codec Z;
  genesis_codec :: row_codec (genesis_state K);
  header_state_codec :: row_codec header_state;
  account_codec :: row_codec account_row;
  sequence_codec :: row_codec (Z * account_sequence_object);
  global_codec :: row_codec global_row;
  digest_codec :: row_codec digest_type;
  transaction_codec :: row_codec (digest_type * Z);
  generated_codec :: row_codec generated_transaction_object;
  permission_codec :: row_codec (snapshot_permission_object K);
  link_codec :: row_codec (Z * Z * Z * Z);
  limits_codec :: row_codec (Z * resource_limits_object);
  usage_codec :: row_codec (Z * resource_usage_object);
  state_codec :: row_codec resource_limits_state_object;
  config_codec :: row_codec resource_limits_config_object;
  tables_codec :: table_codec }.

Context {codec : chain_codec}.

(** ** Writing *)

(** What a snapshot is taken of. *)
Record node : Type := Node {
  n_genesis : genesis_state K;
  n_fork : fork_database;
  n_db : block_db K }.

Abbreviation chain n := (bd_chain (n_db n)).
Abbreviation XW := (X ostream_snapshot_writer).

Definition current_version : Z := 1.
Definition minimum_compatible_version : Z := 1.

Definition write_type (k : section_kind) (f : XW unit) : XW unit := write_section (section_name k) f.

(** A section with the rows of an index. *)
Definition write_rows {A} `{row_codec A} (k : section_kind) (l : list A) : XW unit := write_type k (xfor_each l add_row).

(** The objects of [block_summary_object], created once with the ids from 0
    on. *)
Definition block_summaries : Z := 0x10000.
Definition summary_rows (m : gmap Z digest_type) : list digest_type :=
  (λ n, default digest_zero (m !! n)) <$> seqZ 0 block_summaries.

Definition controller_indices (db : block_db K) : XW unit :=
  let c := bd_chain db in
  write_rows account_section (account_to_row <$> walk (ch_accounts c));;
  write_rows account_sequence_section (walk (ch_sequences c));;
  write_rows global_property_section [(ch_proposed c, ch_configuration c)];;
  write_rows dynamic_global_property_section [ch_global_action_sequence c];;
  write_rows block_summary_section (summary_rows (bd_summaries db));;
  write_rows transaction_section (walk (ch_transactions c));;
  write_rows generated_transaction_section (walk (ch_generated c)).*2.

(** [authorization_manager::add_to_snapshot]. *)
Definition authorization_add_to_snapshot (db : @authorization_db K) : XW unit :=
  write_type permission_section (xfor_each (walk_permissions db) (add_permission db));;
  write_rows permission_link_section (walk (links db)).

(** [resource_limits_manager::add_to_snapshot]: [pending] is not reflected. *)
Definition limits_add_to_snapshot (db : resource_limits_db) : XW unit :=
  write_rows resource_limits_section ((λ x, (x.1.2, x.2)) <$> walk (db_limits db));;
  write_rows resource_usage_section (walk (db_usage db));;
  write_rows resource_limits_state_section [db_state db];;
  write_rows resource_limits_config_section [db_config db].

Definition add_to_snapshot (n : node) : XW unit :=
  write_rows chain_snapshot_header_section [current_version];;
  write_rows genesis_state_section [n_genesis n];;
  write_type block_state_section (h ← xderef (head_block (n_fork n)); add_row (bs_header_state h));;
  controller_indices (n_db n);;
  add_contract_tables_to_snapshot (ch_contracts (chain n));;
  authorization_add_to_snapshot (ch_authorization (chain n));;
  limits_add_to_snapshot (ch_limits (chain n)).

(** [controller::write_snapshot]. *)
Definition write_snapshot (pending : bool) (n : node) : XW unit :=
  xasserts (negb pending) block_validate_exception;;
  add_to_snapshot n.

(** ** Reading *)

Abbreviation XR := (X istream_snapshot_reader).

Definition in_section {A} (name : bytes) (f : istream_snapshot_reader → res (A * istream_snapshot_reader)) : XR A := λ r,
  match read_section name f r with
  | Some (Ok (a, r')) => Some (Ok a, r')
  | Some (Throw e) => Some (Throw e, r)
  | None => None
  end.

(** One row. *)
Definition read_one {A} `{row_codec A} (k : section_kind) : XR A :=
  in_section (section_name k) (λ r, '(a, _, r) ← read_row unpack_row r; mret (a, r)).

(** All rows, into an index. *)
Definition read_all {A D} `{row_codec A} (k : section_kind) (create : A → D → res D) (db : D) : XR D :=
  in_section (section_name k) (read_rows unpack_row create db).

(** [db.create] on the indices. *)
Definition create_account (r : account_row) (m : gmap Z account_object) : res (gmap Z account_object) :=
  db_create m r.1 (account_of_row r).
Definition create_pair {K A} `{Countable K} (r : K * A) (m : gmap K A) : res (gmap K A) := db_create m r.1 r.2.
(** An index whose objects have no key but the id. *)
Definition create_object {A} (a : A) (l : list A) : res (list A) := mret (l ++ [a]).
Definition create_generated_row (g : generated_transaction_object) (m : gmap digest_type generated_transaction_object) :
    res (gmap digest_type generated_transaction_object) :=
  match m !! gto_trx_id g,
        list_find (λ x, gto_sender x.2 = gto_sender g ∧ gto_sender_id x.2 = gto_sender_id g) (map_to_list m) with
  | None, None => mret (<[gto_trx_id g := g]> m)
  | _, _ => Throw std_logic_error
  end.
Definition create_limits (r : Z * resource_limits_object) (m : gmap (bool * Z) resource_limits_object) :
    res (gmap (bool * Z) resource_limits_object) := db_create m (false, r.1) r.2.

(** The state of a node after a snapshot was read: the indices of objects
    without a key are lists, of which [db.get] takes the first element. *)
Record restored : Type := Restored {
  re_head : block_state;
  re_fork : fork_database;
  re_accounts : gmap Z account_object;
  re_sequences : gmap Z account_sequence_object;
  re_global : list global_row;
  re_dynamic : list Z;
  re_summaries : list digest_type;
  re_transactions : gmap digest_type Z;
  re_generated : gmap digest_type generated_transaction_object;
  re_contracts : contract_db;
  re_authorization : @authorization_db K;
  re_limits : gmap (bool * Z) resource_limits_object;
  re_usage : gmap Z resource_usage_object;
  re_limits_state : list resource_limits_state_object;
  re_limits_config : list resource_limits_config_object;
  re_revision : Z }.

(** [chain_snapshot_header::validate]. *)
Definition validate_version (version : Z) : res unit :=
  EOS_ASSERT ((version >=? minimum_compatible_version) && (version <=? current_version)) snapshot_validation_exception.

(** The head of the snapshot in an empty fork database. *)
Definition restore_head (h : header_state) (fork_db : fork_database) : XR (block_state * fork_database) :=
  let head_state := BlockState h None false false in
  let '(fork_db, r) := set fork_db head_state in
  xlift r;;
  fork_db ← xderef (set_validity fork_db (bhs_id h) true);
  let '(fork_db, r) := mark_in_current_chain fork_db (bhs_id h) false true in
  xlift r;;
  head ← xderef (get_block fork_db (bhs_id h));
  mret (head, fork_db).

(** [authorization_manager::read_from_snapshot]: the usage of a permission is
    created with it. *)
Definition authorization_read_from_snapshot (db : @authorization_db K) : XR (@authorization_db K) :=
  db ← read_all permission_section create_from_row db;
  read_all permission_link_section create_link db.

(** [resource_limits_manager::read_from_snapshot]. *)
Definition limits_read_from_snapshot : XR (gmap (bool * Z) resource_limits_object * gmap Z resource_usage_object *
    list resource_limits_state_object * list resource_limits_config_object) :=
  limits ← read_all resource_limits_section create_limits ∅;
  usage ← read_all resource_usage_section create_pair ∅;
  limits_state ← read_all resource_limits_state_section create_object [];
  limits_config ← read_all resource_limits_config_section create_object [];
  mret (limits, usage, limits_state, limits_config).

Definition read_from_snapshot (fork_db : fork_database) : XR restored :=
  version ← read_one chain_snapshot_header_section;
  xlift (validate_version version);;
  head_header_state ← read_one block_state_section;
  '(head, fork_db) ← restore_head head_header_state fork_db;
  accounts ← read_all account_section create_account ∅;
  sequences ← read_all account_sequence_section create_pair ∅;
  global ← read_all global_property_section create_object [];
  dynamic ← read_all dynamic_global_property_section create_object [];
  summaries ← read_all block_summary_section create_object [];
  transactions ← read_all transaction_section create_pair ∅;
  generated ← read_all generated_transaction_section create_generated_row ∅;
  contracts ← in_section contract_tables (read_contract_tables contract_db_empty);
  authorization ← authorization_read_from_snapshot authdb_empty;
  '(limits, usage, limits_state, limits_config) ← limits_read_from_snapshot;
  mret (Restored head fork_db accounts sequences global dynamic summaries transactions generated contracts authorization
    limits usage limits_state limits_config (bhs_block_num head)).

(** ** The sections of a node *)

Definition name_of (k : option section_kind) : bytes :=
  match k with Some k => section_name k | None => contract_tables end.

Lemma name_of_inj k k' : name_of k = name_of k' → k = k'.
Proof.
  destruct k as [k|], k' as [k'|]; cbn; intros H; [by rewrite (section_name_inj _ _ H)| | |done].
  - by destruct (section_name_types k).
  - by destruct (section_name_types k').
Qed.

Lemma name_of_ok k : name_ok (name_of k).
Proof. destruct k as [k|]; cbn; [apply section_name_ok|]. apply (bool_decide_unpack _). by vm_compute. Qed.

Definition permission_rows (db : @authorization_db K) : list (snapshot_permission_object K) :=
  omap (λ p, match to_snapshot_row db p with Ok row => Some row | Throw _ => None end) (walk_permissions db).

Definition node_rows (n : node) (h : block_state) : list (option section_kind * list bytes) :=
  let c := chain n in
  [(Some chain_snapshot_header_section, [pack_row current_version]);
   (Some genesis_state_section, [pack_row (n_genesis n)]);
   (Some block_state_section, [pack_row (bs_header_state h)]);
   (Some account_section, pack_row <$> (account_to_row <$> walk (ch_accounts c)));
   (Some account_sequence_section, pack_row <$> walk (ch_sequences c));
   (Some global_property_section, [pack_row (ch_proposed c, ch_configuration c)]);
   (Some dynamic_global_property_section, [pack_row (ch_global_action_sequence c)]);
   (Some block_summary_section, pack_row <$> summary_rows (bd_summaries (n_db n)));
   (Some transaction_section, pack_row <$> walk (ch_transactions c));
   (Some generated_transaction_section, pack_row <$> (walk (ch_generated c)).*2);
   (None, mjoin (group_bytes <$> groups (ch_contracts c)));
   (Some permission_section, pack_row <$> permission_rows (ch_authorization c));
   (Some permission_link_section, pack_row <$> walk (links (ch_authorization c)));
   (Some resource_limits_section, pack_row <$> ((λ x, (x.1.2, x.2)) <$> walk (db_limits (ch_limits c))));
   (Some resource_usage_section, pack_row <$> walk (db_usage (ch_limits c)));
   (Some resource_limits_state_section, [pack_row (db_state (ch_limits c))]);
   (Some resource_limits_config_section, [pack_row (db_config (ch_limits c))])].

Definition named (l : list (option section_kind * list bytes)) : list section := (λ x, (name_of x.1, x.2)) <$> l.

Lemma find_named k l : find_section (name_of k) (named l) = snd <$> (snd <$> list_find (λ x, x.1 = k) l).
Proof.
  unfold find_section, named. induction l as [|[k' rows] l IH]; [done|]. cbn [fmap list_fmap list_find fst snd].
  destruct (decide (k' = k)) as [->|Hne].
  - by rewrite decide_True by done.
  - rewrite decide_False by (by intros He%name_of_inj). unfold prod_map. revert IH.
    destruct (list_find _ (_ <$> l)) as [[? []]|], (list_find _ l) as [[? []]|]; cbn; congruence.
Qed.

(** [m] adds the sections [l] to a snapshot. *)
Definition extends (m : XW unit) (l : list (option section_kind * list bytes)) : Prop :=
  ∀ pre w secs, snapshot_history pre w secs None →
    ∃ w', m w = Some (Ok tt, w') ∧ snapshot_history pre w' (secs ++ named l) None.

Lemma extends_bind m k l1 l2 : extends m l1 → extends k l2 → extends (m;; k) (l1 ++ l2).
Proof.
  intros Hm Hk pre w secs H. destruct (Hm _ _ _ H) as (w1 & Hm1 & H1). destruct (Hk _ _ _ H1) as (w2 & Hk1 & H2).
  exists w2. unfold mbind, X_bind. rewrite Hm1. split; [done|]. unfold named in *. by rewrite fmap_app, app_assoc.
Qed.

Lemma extends_section k m rows : adds m rows → extends (write_section (name_of k) m) [(k, rows)].
Proof. intros Hm pre w secs H. by apply write_section_adds. Qed.

Lemma adds_rows {A} `{row_codec A} (l : list A) : adds (xfor_each l add_row) (pack_row <$> l).
Proof. induction l as [|a l IH]; cbn [xfor_each]; [apply adds_nil|]. apply (adds_bind _ _ [_]); [apply adds_row|done]. Qed.

Lemma extends_rows {A} `{row_codec A} k (l : list A) : extends (write_rows k l) [(Some k, pack_row <$> l)].
Proof. apply (extends_section (Some k)), adds_rows. Qed.

Lemma extends_row {A} `{row_codec A} k (a : A) : extends (write_rows k [a]) [(Some k, [pack_row a])].
Proof. exact (extends_rows k [a]). Qed.

(** What a snapshot needs of a node: well-formed tables and permissions, no
    pending limits, distinct senders of deferred transactions, and a head. *)
Record snapshot_node (n : node) (h : block_state) : Prop := {
  sn_head : head_block (n_fork n) = Some h;
  sn_id : bhs_id h = rule_id (bhs_header h);
  sn_tables : tables_wf None (ch_contracts (chain n));
  sn_small : small_tables (ch_contracts (chain n));
  sn_permissions : snapshot_ready (ch_authorization (chain n));
  sn_accounts a o : ch_accounts (chain n) !! a = Some o → ao_code_activated o = false;
  sn_limits a : db_limits (ch_limits (chain n)) !! (true, a) = None;
  sn_generated id g : ch_generated (chain n) !! id = Some g → gto_trx_id g = id;
  sn_senders id id' g g' : ch_generated (chain n) !! id = Some g → ch_generated (chain n) !! id' = Some g' →
    gto_sender g = gto_sender g' → gto_sender_id g = gto_sender_id g' → id = id' }.

Lemma permission_rows_for db :
  snapshot_ready db →
  Forall2 (λ p row, to_snapshot_row db p = Ok row ∧ row_for (walk_permissions db) p row ∧
    usages db !! po_usage_id p = Some (sp_last_used row)) (walk_permissions db) (permission_rows db).
Proof.
  intros Hr. destruct (walk_ordered db Hr) as [_ Hperm]. unfold permission_rows.
  assert (Hall : ∀ p, p ∈ walk_permissions db → p ∈ permissions db) by (intros p; by rewrite Hperm). clear Hperm.
  enough (H : ∀ l, (∀ p, p ∈ l → p ∈ permissions db) →
    Forall2 (λ p row, to_snapshot_row db p = Ok row ∧ row_for (walk_permissions db) p row ∧ usages db !! po_usage_id p = Some (sp_last_used row))
      l (omap (λ p, match to_snapshot_row db p with Ok row => Some row | Throw _ => None end) l)) by by apply H.
  induction l as [|p l IH]; intros Hl; [constructor|]. cbn.
  destruct (to_snapshot_row_for db p Hr) as (row & Hrow & Hf & Hu); [by apply Hl, list_elem_of_here|]. rewrite Hrow.
  constructor; [done|]. apply IH. intros q Hq. by apply Hl, list_elem_of_further.
Qed.

Lemma adds_permissions db : snapshot_ready db → adds (xfor_each (walk_permissions db) (add_permission db)) (pack_row <$> permission_rows db).
Proof.
  intros Hr. pose proof (permission_rows_for db Hr) as Hf. induction Hf as [|p row l rows (Hrow & _) Hf IH]; cbn [xfor_each]; [apply adds_nil|].
  apply (adds_bind _ _ [_]); [|done]. unfold add_permission. rewrite Hrow. apply adds_row.
Qed.

Lemma summaries_restored m k : 0 <= k < block_summaries → summary_rows m !! Z.to_nat k = Some (default digest_zero (m !! k)).
Proof.
  intros Hk. unfold summary_rows. rewrite list_lookup_fmap, lookup_seqZ_lt by lia.
  cbn. by rewrite Z2Nat.id by lia.
Qed.

#[local] Opaque summary_rows.

Ltac written_rows :=
  match goal with
  | |- extends (write_rows ?k [?a]) _ => exact (extends_row k a)
  | |- extends (write_rows ?k ?l) _ => exact (extends_rows k l)
  end.

(** The whole snapshot. *)
Lemma snapshot_sections n h : snapshot_node n h → extends (add_to_snapshot n) (node_rows n h).
Proof.
  intros Hn. unfold add_to_snapshot, controller_indices, authorization_add_to_snapshot, limits_add_to_snapshot.
  assert (Hhead : adds (h ← xderef (head_block (n_fork n)); add_row (bs_header_state h)) [pack_row (bs_header_state h)]).
  { rewrite (sn_head _ _ Hn). apply adds_row. }
  assert (Htab : extends (add_contract_tables_to_snapshot (ch_contracts (chain n))) [(None, mjoin (group_bytes <$> groups (ch_contracts (chain n))))]).
  { intros pre w secs H. apply contract_tables_written; [apply (sn_small _ _ Hn)|done]. }
  pose proof (extends_section (Some permission_section) _ _ (adds_permissions _ (sn_permissions _ _ Hn))) as Hperm.
  pose proof (extends_section (Some block_state_section) _ _ Hhead) as Hst.
  apply (extends_bind _ _ [_]); [written_rows|]. apply (extends_bind _ _ [_]); [written_rows|].
  apply (extends_bind _ _ [_]); [exact Hst|].
  apply (extends_bind _ _ [_; _; _; _; _; _; _]).
  { repeat (apply (extends_bind _ _ [_]); [written_rows|]). written_rows. }
  apply (extends_bind _ _ [_]); [exact Htab|]. apply (extends_bind _ _ [_; _]).
  { apply (extends_bind _ _ [_]); [exact Hperm|written_rows]. }
  repeat (apply (extends_bind _ _ [_]); [written_rows|]). written_rows.
Qed.

(** ** Reading them *)

(** What is packed is unpacked again. *)
Class chain_codec_ok : Prop := {
  version_codec_ok :: row_codec_ok Z;
  header_state_codec_ok :: row_codec_ok header_state;
  account_codec_ok :: row_codec_ok account_row;
  sequence_codec_ok :: row_codec_ok (Z * account_sequence_object);
  global_codec_ok :: row_codec_ok global_row;
  digest_codec_ok :: row_codec_ok digest_type;
  transaction_codec_ok :: row_codec_ok (digest_type * Z);
  generated_codec_ok :: row_codec_ok generated_transaction_object;
  permission_codec_ok :: row_codec_ok (snapshot_permission_object K);
  link_codec_ok :: row_codec_ok (Z * Z * Z * Z);
  limits_codec_ok :: row_codec_ok (Z * resource_limits_object);
  usage_codec_ok :: row_codec_ok (Z * resource_usage_object);
  state_codec_ok :: row_codec_ok resource_limits_state_object;
  config_codec_ok :: row_codec_ok resource_limits_config_object;
  tables_codec_ok :: table_codec_ok }.

Context {codec_ok : chain_codec_ok}.

Section reading.
Context (pre : bytes) (rows : list (option section_kind * list bytes)) (tail : bytes).
Context (rows_ok : Forall section_ok (named rows)).
Abbreviation file := (snapshot_file pre (named rows) tail).

(** On the file, [m] gives [a]. *)
Definition reads {A} (m : XR A) (a : A) : Prop :=
  ∀ r, on_file file pre r → ∃ r', m r = Some (Ok a, r') ∧ on_file file pre r'.

Lemma reads_bind {A C} (m : XR A) (k : A → XR C) a c : reads m a → reads (k a) c → reads (m ≫= k) c.
Proof.
  intros Hm Hk r Hr. destruct (Hm r Hr) as (r1 & H1 & Hr1). destruct (Hk r1 Hr1) as (r2 & H2 & Hr2).
  exists r2. unfold mbind, X_bind. by rewrite H1.
Qed.

Lemma reads_ret {A} (a : A) : reads (mret a) a.
Proof. intros r Hr. by exists r. Qed.

Lemma reads_lift {A} (x : res A) a : x = Ok a → reads (xlift x) a.
Proof. intros -> r Hr. by exists r. Qed.

Lemma reads_deref {A} (x : option A) a : x = Some a → reads (xderef x) a.
Proof. intros -> r Hr. by exists r. Qed.

Lemma reads_section {A} k f (a : A) l :
  snd <$> (snd <$> list_find (λ x, x.1 = k) rows) = Some l →
  (∀ r, at_rows r l → ir_cur_row r = 0 → on_file file pre r → ∃ r', f r = Ok (a, r') ∧ on_file file pre r') →
  reads (in_section (name_of k) f) a.
Proof.
  intros Hl Hf r Hr. rewrite <- find_named in Hl.
  destruct (read_section_file pre (named rows) tail (name_of k) l f a r (name_of_ok k) rows_ok Hl Hr Hf) as (r' & Hread & Hr').
  exists r'. unfold in_section. by rewrite Hread.
Qed.

Lemma reads_one {A} {c : row_codec A} {ok : row_codec_ok A} k (a : A) :
  snd <$> (snd <$> list_find (λ x, x.1 = Some k) rows) = Some [pack_row a] → reads (read_one k) a.
Proof.
  intros Hl. apply (reads_section (Some k) _ _ _ Hl). intros r Hat _ Hr.
  destruct (read_row_at pack_row unpack_row a [] r (unpack_pack_row a) Hat) as (r' & Hrow & _).
  exists r'. rewrite Hrow. split; [done|]. by eapply read_row_on_file.
Qed.

Lemma reads_all {A D} {c : row_codec A} {ok : row_codec_ok A} k (create : A → D → res D) l db db' :
  snd <$> (snd <$> list_find (λ x, x.1 = Some k) rows) = Some (pack_row <$> l) → create_all create l db = Ok db' →
  reads (read_all k create db) db'.
Proof.
  intros Hl Hc. apply (reads_section (Some k) _ _ _ Hl). intros r Hat H0 Hr. by eapply read_rows_ok.
Qed.

Lemma reads_tables db :
  tables_wf None db → find_section contract_tables (named rows) = Some (mjoin (group_bytes <$> groups db)) →
  ∃ db', reads (in_section contract_tables (read_contract_tables contract_db_empty)) db' ∧ tables_wf None db' ∧ same_tables db db'.
Proof.
  intros Hwf Hl. destruct (contract_tables_read db pre (named rows) tail Hwf rows_ok Hl) as (db' & Hwf' & Hsame & H).
  exists db'. split_and!; [|done|done]. intros r Hr. destruct (H r Hr) as (r' & Hread & Hr'). exists r'. split; [|done].
  unfold in_section. unfold read_contract_tables_from_snapshot in Hread. by rewrite Hread.
Qed.
End reading.

(** ** Indices *)

Lemma create_all_map {R I A} `{Countable I} (f : R → I) (g : R → A) (l : list R) (m0 : gmap I A) :
  NoDup (f <$> l) → (∀ r, r ∈ l → m0 !! f r = None) →
  ∃ m, create_all (λ r m, db_create m (f r) (g r)) l m0 = Ok m ∧
    ∀ k a, m !! k = Some a ↔ m0 !! k = Some a ∨ ∃ r, r ∈ l ∧ f r = k ∧ g r = a.
Proof.
  revert m0. induction l as [|r l IH]; intros m0 Hnd Hf; cbn [create_all].
  { exists m0. split; [done|]. intros k a. split; [by left|]. intros [?|(r & Hr & _)]; [done|]. by apply not_elem_of_nil in Hr. }
  cbn [fmap list_fmap] in Hnd. apply NoDup_cons in Hnd as [Hr Hnd].
  assert (H0 : m0 !! f r = None) by (apply Hf, list_elem_of_here).
  assert (Hc : db_create m0 (f r) (g r) = Ok (<[f r := g r]> m0)) by (unfold db_create; by rewrite H0).
  rewrite Hc. cbn [mbind result_bind].
  destruct (IH (<[f r := g r]> m0) Hnd) as (m & Hm & Hx).
  { intros r' Hr'. rewrite lookup_insert_ne; [by apply Hf, list_elem_of_further|]. intros He. apply Hr. rewrite He. by apply (list_elem_of_fmap_2 f). }
  exists m. split; [done|]. intros k a. rewrite Hx, lookup_insert_Some. setoid_rewrite elem_of_cons.
  destruct (decide (f r = k)) as [<-|Hne]; [rewrite H0|]; naive_solver.
Qed.

(** Reading the rows of an index makes the index. *)
Lemma create_map {R I A} `{Countable I} (f : R → I) (g : R → A) (l : list R) (m : gmap I A) :
  (λ r, (f r, g r)) <$> l ≡ₚ map_to_list m → create_all (λ r m, db_create m (f r) (g r)) l ∅ = Ok m.
Proof.
  intros Hl. destruct (create_all_map f g l ∅) as (m' & -> & Hx).
  - pose proof (NoDup_fst_map_to_list m) as Hnd. rewrite <- Hl, <- list_fmap_compose in Hnd. done.
  - intros r _. apply lookup_empty.
  - f_equal. apply map_eq. intros k. apply option_eq. intros a. rewrite Hx, lookup_empty, <- elem_of_map_to_list, <- Hl, list_elem_of_fmap.
    naive_solver.
Qed.

Lemma create_all_objects {A} (l l0 : list A) : create_all create_object l l0 = Ok (l0 ++ l).
Proof.
  revert l0. induction l as [|a l IH]; intros l0; cbn [create_all]; [by rewrite app_nil_r|].
  cbn [create_object mret result_ret mbind result_bind]. by rewrite IH, <- app_assoc.
Qed.

Lemma create_all_links (l : list (Z * Z * Z * Z)) (db : @authorization_db K) m :
  create_all create_pair l (links db) = Ok m →
  create_all create_link l db = Ok (AuthorizationDb (permissions db) (next_permission_id db) (usages db) (next_usage_id db) m).
Proof.
  revert db. induction l as [|x l IH]; intros db; cbn [create_all].
  { intros [= <-]. by destruct db. }
  intros H. assert (Hl : create_link x db = (m ← create_pair x (links db); mret (AuthorizationDb (permissions db) (next_permission_id db) (usages db) (next_usage_id db) m))) by done.
  rewrite Hl. destruct (create_pair x (links db)) as [m1|]; cbn [mbind result_bind] in *; [|done]. by apply (IH (AuthorizationDb _ _ _ _ m1)).
Qed.

Lemma create_all_generated l (m0 : gmap digest_type generated_transaction_object) :
  NoDup (gto_trx_id <$> l) → NoDup ((λ g, (gto_sender g, gto_sender_id g)) <$> l) →
  (∀ g, g ∈ l → m0 !! gto_trx_id g = None) →
  (∀ g k g', g ∈ l → m0 !! k = Some g' → (gto_sender g', gto_sender_id g') ≠ (gto_sender g, gto_sender_id g)) →
  ∃ m, create_all create_generated_row l m0 = Ok m ∧
    ∀ k a, m !! k = Some a ↔ m0 !! k = Some a ∨ a ∈ l ∧ gto_trx_id a = k.
Proof.
  revert m0. induction l as [|g l IH]; intros m0 Hid Hs Hf Hn; cbn [create_all].
  { exists m0. split; [done|]. intros k a. split; [by left|]. intros [?|[Hr _]]; [done|]. by apply not_elem_of_nil in Hr. }
  cbn [fmap list_fmap] in Hid, Hs. apply NoDup_cons in Hid as [Hg Hid]. apply NoDup_cons in Hs as [Hgs Hs].
  assert (H0 : m0 !! gto_trx_id g = None) by (apply Hf, list_elem_of_here).
  assert (Hrow : create_generated_row g m0 = Ok (<[gto_trx_id g := g]> m0)).
  { unfold create_generated_row. rewrite H0.
    destruct (list_find _ (map_to_list m0)) as [[j [k g']]|] eqn:Hfind; [|done]. exfalso.
    apply list_find_Some in Hfind as (Hj & [H1 H2] & _). cbn in H1, H2.
    apply list_elem_of_lookup_2, elem_of_map_to_list in Hj. apply (Hn g k g' (list_elem_of_here _ _) Hj). by rewrite H1, H2. }
  rewrite Hrow. cbn [mbind result_bind].
  destruct (IH (<[gto_trx_id g := g]> m0) Hid Hs) as (m & Hm & Hx).
  - intros g' Hg'. rewrite lookup_insert_ne; [by apply Hf, list_elem_of_further|]. intros He. apply Hg. rewrite He. by apply (list_elem_of_fmap_2 gto_trx_id).
  - intros g' k g'' Hg' [[<- <-]|[_ Hk]]%lookup_insert_Some; [|by apply (Hn g' k), Hk; apply list_elem_of_further].
    intros He. apply Hgs. rewrite He. by apply (list_elem_of_fmap_2 (λ g, (gto_sender g, gto_sender_id g))).
  - exists m. split; [done|]. intros k a. rewrite Hx, lookup_insert_Some, elem_of_cons.
    destruct (decide (gto_trx_id g = k)) as [<-|Hne]; [rewrite H0|]; naive_solver.
Qed.

(** ** The node that is read *)

(** The state of the other node: equal but for the ids of tables, rows,
    permissions and usages. *)
Record restores (n : node) (h : block_state) (re : restored) : Prop := {
  rs_head : re_head re = BlockState h None true true;
  rs_fork : fdb_wf (re_fork re) ∧ head_block (re_fork re) = Some (re_head re) ∧
    ∀ i b, get_block (re_fork re) i = Some b → b = re_head re;
  rs_accounts : re_accounts re = ch_accounts (chain n);
  rs_sequences : re_sequences re = ch_sequences (chain n);
  rs_global : re_global re = [(ch_proposed (chain n), ch_configuration (chain n))];
  rs_dynamic : re_dynamic re = [ch_global_action_sequence (chain n)];
  rs_summaries k : 0 <= k < block_summaries →
    re_summaries re !! Z.to_nat k = Some (default digest_zero (bd_summaries (n_db n) !! k));
  rs_transactions : re_transactions re = ch_transactions (chain n);
  rs_generated : re_generated re = ch_generated (chain n);
  rs_contracts : tables_wf None (re_contracts re) ∧ same_tables (ch_contracts (chain n)) (re_contracts re);
  rs_authorization : db_wf (re_authorization re) ∧ same_permissions (ch_authorization (chain n)) (re_authorization re) ∧
    links (re_authorization re) = links (ch_authorization (chain n));
  rs_limits : re_limits re = db_limits (ch_limits (chain n)) ∧ re_usage re = db_usage (ch_limits (chain n)) ∧
    re_limits_state re = [db_state (ch_limits (chain n))] ∧ re_limits_config re = [db_config (ch_limits (chain n))];
  rs_revision : re_revision re = bhs_block_num h }.

Lemma restored_head pre rows tail (h : header_state) :
  bhs_id h = rule_id (bhs_header h) →
  ∃ fork, reads pre rows tail (restore_head h fdb_empty) (BlockState h None true true : block_state, fork) ∧ fdb_wf fork ∧
    head_block fork = Some (BlockState h None true true) ∧ ∀ i b, get_block fork i = Some b → b = BlockState h None true true.
Proof.
  intros Hid. unfold restore_head. set (s := BlockState h None false false : block_state).
  destruct (set fdb_empty s) as [f1 r1] eqn:Hset. cbv iota beta. pose proof (set_wf _ _ _ _ fdb_empty_wf Hset) as Hwf1.
  unfold set, fdb_insert, set_guards in Hset. cbn [fdb_index fdb_empty] in Hset. rewrite lookup_empty in Hset.
  rewrite (bool_decide_eq_true_2 _ Hid) in Hset. cbn [EOS_ASSERT mbind result_bind] in Hset. injection Hset as Hf1 <-.
  assert (Hg1 : fdb_index f1 = {[bhs_id h := s]} ∧ fdb_head f1 = Some (bhs_id h)) by (by rewrite <- Hf1). clear Hf1.
  destruct (set_validity f1 (bhs_id h) true) as [f2|] eqn:Hv; [|done]. pose proof Hv as Hv0. pose proof (set_validity_wf _ _ _ _ Hwf1 Hv) as Hwf2.
  injection Hv as Hf2. assert (Hg2 : fdb_index f2 = {[bhs_id h := BlockState h None true false]} ∧ fdb_head f2 = Some (bhs_id h)).
  { rewrite <- Hf2. cbn [fdb_write fdb_index fdb_head]. destruct Hg1 as [-> ->]. split; [|done]. by rewrite alter_singleton_eq. }
  clear Hf2. destruct (mark_in_current_chain f2 (bhs_id h) false true) as [f3 r3] eqn:Hm. pose proof Hm as Hm0. pose proof (mark_in_current_chain_wf _ _ _ _ _ _ Hwf2 Hm) as Hwf3.
  unfold mark_in_current_chain, get_block in Hm. cbn [Bool.eqb] in Hm. rewrite (proj1 Hg2), lookup_singleton_eq in Hm. injection Hm as Hf3 <-.
  assert (Hg3 : fdb_index f3 = {[bhs_id h := BlockState h None true true]} ∧ fdb_head f3 = Some (bhs_id h)).
  { rewrite <- Hf3. cbn [fdb_modify fdb_index fdb_head]. destruct Hg2 as [-> ->]. split; [|done]. by rewrite alter_singleton_eq. }
  clear Hf3. exists f3. split_and!; [|done|..].
  - eapply reads_bind; [by apply reads_lift|]. cbv beta. eapply reads_bind; [by apply reads_deref|]. cbv beta. rewrite Hm0.
    eapply reads_bind; [by apply reads_lift|]. eapply reads_bind; [|apply reads_ret]. apply reads_deref.
    unfold get_block. by rewrite (proj1 Hg3), lookup_singleton_eq.
  - unfold head_block, get_block. rewrite (proj2 Hg3). cbn [mbind option_bind]. by rewrite (proj1 Hg3), lookup_singleton_eq.
  - intros i b. unfold get_block. rewrite (proj1 Hg3). by intros [_ <-]%lookup_singleton_Some.
Qed.

Lemma walk_fmap {I A} `{Countable I} (m : gmap I A) (f : I * A → I * A) :
  (∀ k a, m !! k = Some a → f (k, a) = (k, a)) → f <$> walk m ≡ₚ map_to_list m.
Proof.
  intros Hf. assert (He : f <$> walk m = walk m); [|by rewrite He, walk_perm].
  assert (Hin : ∀ x, x ∈ walk m → f x = x) by (intros [k a]; rewrite walk_perm, elem_of_map_to_list; apply Hf).
  induction (walk m) as [|x l IH]; [done|]. cbn. rewrite Hin by apply list_elem_of_here. f_equal. apply IH.
  intros y Hy. by apply Hin, list_elem_of_further.
Qed.

Lemma accounts_restored n h :
  snapshot_node n h → create_all create_account (account_to_row <$> walk (ch_accounts (chain n))) ∅ = Ok (ch_accounts (chain n)).
Proof.
  intros Hn. apply (create_map (λ r : account_row, r.1) account_of_row). rewrite <- list_fmap_compose. apply walk_fmap.
  intros a o Ho. apply (sn_accounts _ _ Hn) in Ho. destruct o. cbn in Ho. by subst.
Qed.

Lemma limits_restored n h :
  snapshot_node n h →
  create_all create_limits ((λ x, (x.1.2, x.2)) <$> walk (db_limits (ch_limits (chain n)))) ∅ = Ok (db_limits (ch_limits (chain n))).
Proof.
  intros Hn. apply (create_map (λ r : Z * resource_limits_object, (false, r.1)) snd). rewrite <- list_fmap_compose. apply walk_fmap.
  intros [b a] o Ho. destruct b; [|done]. by rewrite (sn_limits _ _ Hn) in Ho.
Qed.

Lemma pairs_restored {I A} `{Countable I} (m : gmap I A) : create_all create_pair (walk m) ∅ = Ok m.
Proof. apply (create_map fst snd). by apply walk_fmap. Qed.

Lemma generated_restored n h :
  snapshot_node n h → create_all create_generated_row (walk (ch_generated (chain n))).*2 ∅ = Ok (ch_generated (chain n)).
Proof.
  intros Hn. set (m := ch_generated (chain n)).
  assert (Hin : ∀ x, x ∈ walk m ↔ m !! x.1 = Some x.2) by (intros [k g]; by rewrite walk_perm, elem_of_map_to_list).
  assert (Hin2 : ∀ g, g ∈ (walk m).*2 ↔ m !! gto_trx_id g = Some g).
  { intros g. rewrite list_elem_of_fmap. split.
    - intros ([k g'] & -> & Hx%Hin). cbn in *. by rewrite (sn_generated _ _ Hn k g' Hx).
    - intros Hg. exists (gto_trx_id g, g). by rewrite Hin. }
  assert (Hnd : NoDup (walk m)) by (rewrite walk_perm; apply NoDup_map_to_list).
  destruct (create_all_generated (walk m).*2 ∅) as (m' & -> & Hx).
  - rewrite <- list_fmap_compose. apply NoDup_fmap_2_strong; [|done]. intros [k g] [k' g'] Hg%Hin Hg'%Hin He. cbn in *.
    rewrite (sn_generated _ _ Hn k g Hg), (sn_generated _ _ Hn k' g' Hg') in He. subst k'. congruence.
  - rewrite <- list_fmap_compose. apply NoDup_fmap_2_strong; [|done]. intros [k g] [k' g'] Hg%Hin Hg'%Hin [= H1 H2]. cbn in *.
    assert (k = k') as <- by by apply (sn_senders _ _ Hn k k' g g'). congruence.
  - intros g _. apply lookup_empty.
  - intros g k g' _. by rewrite lookup_empty.
  - f_equal. apply map_eq. intros k. apply option_eq. intros g. rewrite Hx, lookup_empty, Hin2. split.
    + intros [?|[Hg <-]]; done.
    + intros Hg. right. by rewrite (sn_generated _ _ Hn k g Hg).
Qed.

Lemma permissions_restored db :
  snapshot_ready db →
  ∃ db', create_all create_from_row (permission_rows db) authdb_empty = Ok db' ∧ links db' = ∅ ∧ db_wf db' ∧ same_permissions db db'.
Proof.
  intros Hr. pose proof (permission_rows_for db Hr) as Hf. destruct (walk_ordered db Hr) as [Ho _].
  eexists. split; [apply create_all_restored; [exact Ho|]|].
  - eapply Forall2_impl; [exact Hf|]. by intros p row (_ & ? & _).
  - split; [done|]. split; [by apply restored_tree|]. apply restored_same; [done|]. eapply Forall2_impl; [exact Hf|]. by intros p row (_ & ? & ?).
Qed.

Lemma authorization_read n h pre tail :
  snapshot_node n h → Forall section_ok (named (node_rows n h)) →
  ∃ db', reads pre (node_rows n h) tail (authorization_read_from_snapshot authdb_empty) db' ∧
    db_wf db' ∧ same_permissions (ch_authorization (chain n)) db' ∧ links db' = links (ch_authorization (chain n)).
Proof.
  intros Hn Hok. destruct (permissions_restored _ (sn_permissions _ _ Hn)) as (auth & Hauth & Hlk & Hwf & Hp).
  pose proof (create_all_links (walk (links (ch_authorization (chain n)))) auth (links (ch_authorization (chain n)))) as Hlinks.
  rewrite Hlk in Hlinks. specialize (Hlinks (pairs_restored _)). eexists. split.
  - eapply reads_bind; [by eapply (reads_all _ _ _ Hok); [done|exact Hauth]|].
    by eapply (reads_all _ _ _ Hok); [done|exact Hlinks].
  - by split_and!.
Qed.

Lemma limits_read n h pre tail :
  snapshot_node n h → Forall section_ok (named (node_rows n h)) →
  reads pre (node_rows n h) tail limits_read_from_snapshot
    (db_limits (ch_limits (chain n)), db_usage (ch_limits (chain n)), [db_state (ch_limits (chain n))],
     [db_config (ch_limits (chain n))]).
Proof.
  intros Hn Hok. unfold limits_read_from_snapshot.
  eapply reads_bind; [by eapply (reads_all _ _ _ Hok); [done|by eapply limits_restored]|].
  eapply reads_bind; [by eapply (reads_all _ _ _ Hok); [done|apply pairs_restored]|].
  eapply reads_bind; [by eapply (reads_all _ _ _ Hok _ _ [_]); [done|apply create_all_objects]|].
  eapply reads_bind; [by eapply (reads_all _ _ _ Hok _ _ [_]); [done|apply create_all_objects]|].
  apply reads_ret.
Qed.

Lemma node_read n h pre tail :
  snapshot_node n h → Forall section_ok (named (node_rows n h)) →
  ∃ re, reads pre (node_rows n h) tail (read_from_snapshot fdb_empty) re ∧ restores n h re.
Proof.
  intros Hn Hok. destruct (restored_head pre (node_rows n h) tail h (sn_id _ _ Hn)) as (fork & Hhead & Hfork).
  destruct (reads_tables pre (node_rows n h) tail Hok (ch_contracts (chain n)) (sn_tables _ _ Hn)) as (tabs & Htabs & Hsame).
  { change contract_tables with (name_of None). by rewrite find_named. }
  destruct (authorization_read n h pre tail Hn Hok) as (auth & Hauth & Hperm).
  eexists. split.
  - unfold read_from_snapshot.
    eapply reads_bind; [by apply (reads_one _ _ _ Hok)|]. eapply reads_bind; [by apply reads_lift|].
    eapply reads_bind; [by apply (reads_one _ _ _ Hok)|]. eapply reads_bind; [exact Hhead|]. cbv beta iota.
    eapply reads_bind; [by eapply (reads_all _ _ _ Hok); [done|by eapply accounts_restored]|].
    eapply reads_bind; [by eapply (reads_all _ _ _ Hok); [done|apply pairs_restored]|].
    eapply reads_bind; [by eapply (reads_all _ _ _ Hok _ _ [_]); [done|apply create_all_objects]|].
    eapply reads_bind; [by eapply (reads_all _ _ _ Hok _ _ [_]); [done|apply create_all_objects]|].
    eapply reads_bind; [by eapply (reads_all _ _ _ Hok); [done|apply create_all_objects]|].
    eapply reads_bind; [by eapply (reads_all _ _ _ Hok); [done|apply pairs_restored]|].
    eapply reads_bind; [by eapply (reads_all _ _ _ Hok); [done|by eapply generated_restored]|].
    eapply reads_bind; [exact Htabs|]. eapply reads_bind; [exact Hauth|].
    eapply reads_bind; [by apply limits_read|]. cbv beta iota.
    apply reads_ret.
  - constructor; try done. intros k Hk. by apply summaries_restored.
Qed.

(** C19: A node started from a snapshot is in the state of the node that wrote
    it.  Writing a snapshot of a well-formed node succeeds; the file validates;
    and reading it on a new node gives the same head, validated and on the
    current chain, the same accounts, sequences, transactions, configuration,
    limits and block summaries, and tables and permissions that contracts and
    authorizations cannot tell from the old ones and that satisfy the invariants
    again. *)
Theorem snapshot_restores_chain n h pre :
  snapshot_node n h → Forall section_ok (named (node_rows n h)) →
  ∃ w w', write_snapshot false n (new_writer (OStream pre (zlen pre))) = Some (Ok tt, w) ∧ SnapshotStream.finalize w = Some (Ok tt, w') ∧
    let r := new_reader (IStream (os_data (ow_snapshot w')) (zlen pre) false) in
    SnapshotStream.validate r = Some (Ok tt) ∧ ∃ re r', read_from_snapshot fdb_empty r = Some (Ok re, r') ∧ restores n h re.
Proof.
  intros Hn Hok. destruct (snapshot_sections n h Hn pre _ [] (history_new pre)) as (w & Hw & Hh). cbn [app] in Hh.
  destruct (snapshot_file_valid pre w _ Hh Hok) as (w' & tail & Hf & Hd & Hv). exists w, w'. split_and!; [done|done|].
  cbv zeta. rewrite Hd. split; [done|].
  destruct (node_read n h pre tail Hn Hok) as (re & Hre & Hres).
  destruct (Hre (new_reader (IStream (snapshot_file pre (named (node_rows n h)) tail) (zlen pre) false))) as (r' & Hr' & _); [done|].
  by exists re, r'.
Qed.
End snapshot.
