(* ===== verification/SnapshotExample.v ===== *)
(** * A snapshot of a small chain

    Serializations of all the rows of a snapshot, composed from those of
    integers, pairs, options and lists, and a node with three blocks, a table with two
    rows, permissions, limits and a deferred transaction: the node that is
    started from its snapshot has the same state. *)

From S2P Require Import Prelude Exceptions Config Merkle Authority Database ResourceLimits Transaction ChainConfig AuthorizationManager BlockHeaderState ForkDatabase ChainDatabase ErrorState Bytes SnapshotStream IteratorCache TransactionContext ApplyContext ContractTables TableSnapshot PermissionSnapshot BlockExecution Genesis ForkStorage ChainSnapshot.

(** ** Serializations *)

Module rows_of.
#[local] Instance integer : row_codec Z := { pack_row := stored.pack_any; unpack_row := stored.unpack_any }.
#[local] Instance flag : row_codec bool := { pack_row := stored.pack_any; unpack_row := stored.unpack_any }.

#[local] Instance pair {A B} `{row_codec A, row_codec B} : row_codec (A * B) := {
  pack_row x := pack_row x.1 ++ pack_row x.2;
  unpack_row l := '(a, l) ← unpack_row l; '(b, l) ← unpack_row l; mret ((a, b), l) }.

Fixpoint unpack_list {A} `{row_codec A} (n : nat) (l : bytes) : res (list A * bytes) :=
  match n with
  | O => mret ([], l)
  | S n => '(a, l) ← unpack_row l; '(x, l) ← unpack_list n l; mret (a :: x, l)
  end.
#[local] Instance sequence {A} `{row_codec A} : row_codec (list A) := {
  pack_row x := pack_row (Z.of_nat (length x)) ++ mjoin (pack_row <$> x);
  unpack_row l := '(n, l) ← unpack_row l; unpack_list (Z.to_nat n) l }.

Definition via {A B} `{row_codec B} (f : A → B) (g : B → A) : row_codec A := {|
  pack_row a := pack_row (f a);
  unpack_row l := '(b, l) ← unpack_row l; mret (g b, l) |}.

#[local] Instance integer_ok : row_codec_ok Z := stored.unpack_pack_any.
#[local] Instance flag_ok : row_codec_ok bool := stored.unpack_pack_any.
#[local] Instance pair_ok {A B} `{row_codec_ok A, row_codec_ok B} : row_codec_ok (A * B).
Proof.
  intros [a b] l. cbn. rewrite <- app_assoc, unpack_pack_row. cbn. by rewrite unpack_pack_row.
Qed.
#[local] Instance sequence_ok {A} `{row_codec_ok A} : row_codec_ok (list A).
Proof.
  intros x l. cbn [pack_row unpack_row sequence]. rewrite <- app_assoc.
  rewrite (unpack_pack_row (row_codec_ok := integer_ok)). cbn [mbind result_bind]. rewrite Nat2Z.id.
  induction x as [|a x IH]; [done|].
  change (mjoin (pack_row <$> a :: x)) with (pack_row a ++ mjoin (pack_row <$> x)). cbn [unpack_list length].
  rewrite <- app_assoc, unpack_pack_row. cbn [mbind result_bind]. by rewrite IH.
Qed.
Lemma via_ok {A B} `{row_codec_ok B} (f : A → B) (g : B → A) :
  (∀ a, g (f a) = a) → @row_codec_ok A (via f g).
Proof. intros Hgf a l. cbn. rewrite unpack_pack_row. cbn. by rewrite Hgf. Qed.

#[local] Instance optional {A} `{row_codec A} : row_codec (option A) :=
  via (λ o, match o with Some a => [a] | None => [] end) (λ l, head l).
#[local] Instance optional_ok {A} `{row_codec_ok A} : row_codec_ok (option A).
Proof. apply via_ok. by intros []. Qed.

#[local] Instance map_codec : row_codec (gmap Z Z) := via (B := list (Z * Z)) map_to_list list_to_map.
#[local] Instance map_codec_ok : row_codec_ok (gmap Z Z).
Proof. apply via_ok. intros m. apply list_to_map_to_list. Qed.

#[local] Instance digest : row_codec digest_type :=
  via (λ '(Digest a b c d), (a, b, c, d)) (λ '(a, b, c, d), Digest a b c d).
#[local] Instance digest_ok : row_codec_ok digest_type.
Proof. apply via_ok. by intros []. Qed.

(** *** Producers and headers *)

#[local] Instance key : row_codec (@producer_key Z) := via (λ '(ProducerKey n k), (n, k)) (λ '(n, k), ProducerKey n k).
#[local] Instance key_ok : row_codec_ok (@producer_key Z).
Proof. apply via_ok. by intros []. Qed.
#[local] Instance schedule : row_codec (@producer_schedule_type Z) :=
  via (λ '(ProducerSchedule v l), (v, l)) (λ '(v, l), ProducerSchedule v l).
#[local] Instance schedule_ok : row_codec_ok (@producer_schedule_type Z).
Proof. apply via_ok. by intros []. Qed.
#[local] Instance header : row_codec (@signed_block_header Z Z) :=
  via (λ '(SignedBlockHeader (BlockHeader t p c v m a s n e) g), (t, p, c, v, m, a, s, n, e, g))
    (λ '(t, p, c, v, m, a, s, n, e, g), SignedBlockHeader (BlockHeader t p c v m a s n e) g).
#[local] Instance header_ok : row_codec_ok (@signed_block_header Z Z).
Proof. apply via_ok. by intros [[]]. Qed.
#[local] Instance confirmation : row_codec (@header_confirmation Z) :=
  via (λ '(HeaderConfirmation i p g), (i, p, g)) (λ '(i, p, g), HeaderConfirmation i p g).
#[local] Instance confirmation_ok : row_codec_ok (@header_confirmation Z).
Proof. apply via_ok. by intros []. Qed.
#[local] Instance merkle_row : row_codec incremental_merkle :=
  via (λ '(IncrementalMerkle n l), (n, l)) (λ '(n, l), IncrementalMerkle n l).
#[local] Instance merkle_row_ok : row_codec_ok incremental_merkle.
Proof. apply via_ok. by intros []. Qed.
#[local] Instance header_state : row_codec (@block_header_state Z Z) :=
  via (λ '(BlockHeaderState i n h p l b q r s a m d e k c f), (i, n, h, p, l, b, q, r, s, a, m, d, e, k, c, f))
    (λ '(i, n, h, p, l, b, q, r, s, a, m, d, e, k, c, f), BlockHeaderState i n h p l b q r s a m d e k c f).
#[local] Instance header_state_ok : row_codec_ok (@block_header_state Z Z).
Proof. apply via_ok. by intros []. Qed.

(** *** Objects of the chain *)

#[local] Instance configuration : row_codec chain_config :=
  via (λ '(ChainConfig a b c d e f g h i j k l m n o p q), (a, b, c, d, e, f, g, h, i, j, k, l, m, n, o, p, q))
    (λ '(a, b, c, d, e, f, g, h, i, j, k, l, m, n, o, p, q), ChainConfig a b c d e f g h i j k l m n o p q).
#[local] Instance configuration_ok : row_codec_ok chain_config.
Proof. apply via_ok. by intros []. Qed.
#[local] Instance genesis : row_codec (genesis_state Z) :=
  via (λ '(GenesisState c t k), (c, t, k)) (λ '(c, t, k), GenesisState c t k).
#[local] Instance sequences : row_codec account_sequence_object :=
  via (λ '(AccountSequence a b c d), (a, b, c, d)) (λ '(a, b, c, d), AccountSequence a b c d).
#[local] Instance sequences_ok : row_codec_ok account_sequence_object.
Proof. apply via_ok. by intros []. Qed.
#[local] Instance generated : row_codec generated_transaction_object :=
  via (λ '(GeneratedTransaction a b c d e f g h), (a, b, c, d, e, f, g, h))
    (λ '(a, b, c, d, e, f, g, h), GeneratedTransaction a b c d e f g h).
#[local] Instance generated_ok : row_codec_ok generated_transaction_object.
Proof. apply via_ok. by intros []. Qed.

#[local] Instance key_weights : row_codec (@key_weight Z) := via (λ '(KeyWeight k w), (k, w)) (λ '(k, w), KeyWeight k w).
#[local] Instance key_weights_ok : row_codec_ok (@key_weight Z).
Proof. apply via_ok. by intros []. Qed.
#[local] Instance level_weights : row_codec permission_level_weight :=
  via (λ '(PermissionLevelWeight (PermissionLevel a p) w), (a, p, w)) (λ '(a, p, w), PermissionLevelWeight (PermissionLevel a p) w).
#[local] Instance level_weights_ok : row_codec_ok permission_level_weight.
Proof. apply via_ok. by intros [[]]. Qed.
#[local] Instance wait_weights : row_codec wait_weight := via (λ '(WaitWeight s w), (s, w)) (λ '(s, w), WaitWeight s w).
#[local] Instance wait_weights_ok : row_codec_ok wait_weight.
Proof. apply via_ok. by intros []. Qed.
#[local] Instance permission_row : row_codec (snapshot_permission_object Z) :=
  via (λ '(SnapshotPermission p o n u l (Authority t k a w)), (p, o, n, u, l, (t, k, a, w)))
    (λ '(p, o, n, u, l, (t, k, a, w)), SnapshotPermission p o n u l (Authority t k a w)).
#[local] Instance permission_row_ok : row_codec_ok (snapshot_permission_object Z).
Proof. apply via_ok. by intros [????? []]. Qed.

#[local] Instance limits : row_codec resource_limits_object := via (λ '(Limits n c r), (n, c, r)) (λ '(n, c, r), Limits n c r).
#[local] Instance limits_ok : row_codec_ok resource_limits_object.
Proof. apply via_ok. by intros []. Qed.
#[local] Instance accumulator : row_codec usage_accumulator :=
  via (λ '(Accumulator l v c), (l, v, c)) (λ '(l, v, c), Accumulator l v c).
#[local] Instance accumulator_ok : row_codec_ok usage_accumulator.
Proof. apply via_ok. by intros []. Qed.
#[local] Instance usage : row_codec resource_usage_object := via (λ '(Usage n c r), (n, c, r)) (λ '(n, c, r), Usage n c r).
#[local] Instance usage_ok : row_codec_ok resource_usage_object.
Proof. apply via_ok. by intros []. Qed.
#[local] Instance limits_state : row_codec resource_limits_state_object :=
  via (λ '(LimitsState a b c d e f g h i), (a, b, c, d, e, f, g, h, i))
    (λ '(a, b, c, d, e, f, g, h, i), LimitsState a b c d e f g h i).
#[local] Instance limits_state_ok : row_codec_ok resource_limits_state_object.
Proof. apply via_ok. by intros []. Qed.
#[local] Instance elastic : row_codec elastic_limit_parameters :=
  via (λ '(ElasticLimitParameters t m p x (Ratio a b) (Ratio c d)), (t, m, p, x, (a, b), (c, d)))
    (λ '(t, m, p, x, (a, b), (c, d)), ElasticLimitParameters t m p x (Ratio a b) (Ratio c d)).
#[local] Instance elastic_ok : row_codec_ok elastic_limit_parameters.
Proof. apply via_ok. by intros [???? [] []]. Qed.
#[local] Instance limits_config : row_codec resource_limits_config_object :=
  via (λ '(LimitsConfig c n a b), (c, n, a, b)) (λ '(c, n, a, b), LimitsConfig c n a b).
#[local] Instance limits_config_ok : row_codec_ok resource_limits_config_object.
Proof. apply via_ok. by intros []. Qed.

(** *** Tables *)

#[local] Instance table : row_codec table_id_object :=
  via (λ '(TableId c s t p n), (c, s, t, p, n)) (λ '(c, s, t, p, n), TableId c s t p n).
#[local] Instance table_ok : row_codec_ok table_id_object.
Proof. apply via_ok. by intros []. Qed.
#[local] Instance primary i : row_codec (primary_key_type i).
Proof. destruct i; cbn; apply _. Defined.
#[local] Instance primary_ok i : row_codec_ok (primary_key_type i).
Proof. destruct i; cbn; apply _. Qed.
#[local] Instance value i : row_codec (data_type i).
Proof. destruct i; cbn; apply _. Defined.
#[local] Instance value_ok i : row_codec_ok (data_type i).
Proof. destruct i; cbn; apply _. Qed.

#[local] Instance tables : table_codec := {}.
#[local] Instance tables_ok : table_codec_ok.
Proof. constructor; apply _. Qed.
#[local] Instance all_rows : @chain_codec Z Z := {}.
#[local] Instance all_rows_ok : chain_codec_ok.
Proof. constructor; apply _. Qed.
End rows_of.

(** ** A small node *)

Module small_node.
#[local] Existing Instances forks.toy_rules stable_multi_index rows_of.all_rows.

Definition kind_number (k : section_kind) : Z :=
  match k with
  | chain_snapshot_header_section => 1
  | genesis_state_section => 2
  | block_state_section => 3
  | account_section => 4
  | account_sequence_section => 5
  | global_property_section => 6
  | dynamic_global_property_section => 7
  | block_summary_section => 8
  | transaction_section => 9
  | generated_transaction_section => 10
  | permission_section => 11
  | permission_link_section => 12
  | resource_limits_section => 13
  | resource_usage_section => 14
  | resource_limits_state_section => 15
  | resource_limits_config_section => 16
  end.

#[local] Program Instance letters : type_names := { section_name k := [64 + kind_number k] }.
Next Obligation. intros k. apply Forall_singleton. destruct k; cbn; lia. Qed.
Next Obligation. by intros [] []. Qed.
Next Obligation. by intros []. Qed.

#[local] Program Instance map_order : index_order := { walk _ _ _ _ m := map_to_list m }.
Next Obligation. done. Qed.

Definition one_table : contract_db := create_table_db contract_db_empty 5 6 7 5.
Definition one_row : contract_db := insert_row_db one_table key_value_index 0 (TableId 5 6 7 5 0) 10 5 [1; 2; 3].
Definition contracts : contract_db := insert_row_db one_row index64_index 0 (TableId 5 6 7 5 1) 10 5 77.

Definition owner : @permission_object Z := PermissionObject 1 0 0 5 1 9 (Authority 1 [KeyWeight 100 1] [] []).
Definition active : @permission_object Z := PermissionObject 2 1 1 5 2 9 (Authority 1 [KeyWeight 200 1] [] []).
Definition authorization : @authorization_db Z :=
  AuthorizationDb [reserved_permission; owner; active] 3 (<[0 := 9]> (<[1 := 12]> ∅)) 2 (<[(5, 6, 7) := 2]> ∅).

Definition deferred : generated_transaction_object := GeneratedTransaction (Digest 4 0 0 0) 5 1 5 100 200 50 [8; 8].

Definition chain : chain_db Z :=
  ChainDb contracts
    (ResourceLimitsDb (<[(false, 5) := Limits 1 2 3]> ∅) (<[5 := Usage accumulator_zero accumulator_zero 600]> ∅) config_default
       state_default)
    authorization
    (<[5 := AccountObject 0 0 true false 9 (Digest 3 0 0 0) 2 [0; 97] []]> ∅)
    (<[5 := AccountSequence 3 4 1 1]> ∅)
    (<[Digest 4 0 0 0 := deferred]> ∅) (<[Digest 6 0 0 0 := 70]> ∅) 12 default_chain_config None.

Definition summaries : gmap Z digest_type := <[3 := bs_id stored.third]> ∅.
Definition n : node := Node (GenesisState default_chain_config 9 300) stored.chain (BlockDb chain summaries).

Lemma empty_wf : tables_wf None contract_db_empty.
Proof. by constructor. Qed.

Lemma contracts_wf : tables_wf None contracts.
Proof.
  apply insert_row_wf; [|done|done|done|done]. apply tables_wf_hole.
  apply insert_row_wf; [|done|done|done|done]. by apply (create_table_wf contract_db_empty 5 6 7 5 empty_wf).
Qed.

Lemma authorization_ready : snapshot_ready authorization.
Proof.
  assert (Hall : ∀ p, p ∈ permissions authorization → p = reserved_permission ∨ p = owner ∨ p = active) by set_solver.
  constructor.
  - constructor; cbn; [by apply (bool_decide_unpack _); vm_compute|by apply (bool_decide_unpack _); vm_compute| | |].
    + exists reserved_permission. set_solver.
    + intros p [->|[->| ->]]%Hall; cbn; [done| |]; intros _; (split; [lia|]).
      * exists reserved_permission. split; [set_solver|]. auto.
      * exists owner. split; [set_solver|]. auto.
    + intros p [->|[->| ->]]%Hall; cbn; lia.
  - set_solver.
  - by intros p [->|[->| ->]]%Hall.
  - intros p [->|[->| ->]]%Hall; vm_compute; eauto.
Qed.

Lemma contracts_small : small_tables contracts.
Proof.
  intros i t. unfold walk_range. rewrite merge_sort_Permutation, length_fmap.
  enough (length (map_to_list (by_id (index_rows contracts i))) <= 1)%nat as H.
  { pose proof (length_filter (λ r, r_t_id r = t) (map_to_list (by_id (index_rows contracts i))).*2) as Hf.
    rewrite length_fmap in Hf. lia. }
  rewrite length_map_to_list. destruct i; vm_compute; lia.
Qed.

Lemma node_ok : snapshot_node n stored.third.
Proof.
  constructor.
  - by vm_compute.
  - by vm_compute.
  - apply contracts_wf.
  - apply contracts_small.
  - apply authorization_ready.
  - cbn. by intros a o [[<- <-]|[_ Ho]]%lookup_insert_Some.
  - intros a. cbn. by rewrite lookup_insert_ne, lookup_empty.
  - cbn. by intros i g [[<- <-]|[_ Hg]]%lookup_insert_Some.
  - cbn. by intros i i' g g' [[<- <-]|[_ Hg]]%lookup_insert_Some [[<- <-]|[_ Hg']]%lookup_insert_Some.
Qed.

(** Sections with at most [2^32] rows of at most [2^16] bytes. *)
Lemma small_section_ok name rows :
  name_ok name → zlen name < 2 ^ 16 → zlen rows <= 2 ^ 32 → Forall (λ row, zlen row <= 2 ^ 16) rows → section_ok (name, rows).
Proof.
  intros Hn Hl Hr Hs. assert (Hj : zlen (mjoin rows) <= 2 ^ 16 * zlen rows).
  { clear Hr. induction Hs as [|row rows Hrow Hs IH]; [done|].
    change (mjoin (row :: rows)) with (row ++ mjoin rows). rewrite length_app. cbn [length]. lia. }
  constructor; [done|cbn [snd]; lia|]. unfold section_body. rewrite !length_app. cbn [fst snd length]. lia.
Qed.

Lemma summary_sizes : Forall (λ row, zlen row <= 2 ^ 16) (pack_row <$> summary_rows summaries).
Proof.
  apply Forall_fmap, Forall_fmap, Forall_forall. intros k _. cbn. unfold summaries.
  destruct (decide (3 = k)) as [<-|Hne].
  - rewrite lookup_insert_eq. by vm_compute.
  - rewrite lookup_insert_ne, lookup_empty by done. by vm_compute.
Qed.

Definition small (x : option section_kind * list bytes) : Prop :=
  zlen x.2 <= 2 ^ 32 ∧ Forall (λ row, zlen row <= 2 ^ 16) x.2.
Definition check_small (x : option section_kind * list bytes) : bool :=
  (zlen x.2 <=? 2 ^ 32) && forallb (λ row, zlen row <=? 2 ^ 16) x.2.
Lemma small_check x : check_small x = true → small x.
Proof.
  intros [Hl Hr]%andb_true_iff. split; [lia|]. apply Forall_forall. intros row Hin%list_elem_of_In.
  rewrite forallb_forall in Hr. specialize (Hr _ Hin). cbn in Hr. lia.
Qed.

Lemma sections_ok : Forall section_ok (named (node_rows n stored.third)).
Proof.
  enough (H : Forall small (node_rows n stored.third)).
  { apply Forall_fmap. apply (Forall_impl _ _ _ H). intros [k rows] [Hr Hs].
    apply small_section_ok; [apply name_of_ok| |done|done]. destruct k; by vm_compute. }
  unfold node_rows. repeat apply Forall_cons_2; [..|apply Forall_nil_2].
  8: { split; [|apply summary_sizes]. unfold summary_rows. cbn [snd]. rewrite !length_fmap, length_seqZ. unfold block_summaries. lia. }
  all: apply small_check; by vm_compute.
Qed.
End small_node.

#[local] Existing Instances forks.toy_rules stable_multi_index rows_of.all_rows rows_of.all_rows_ok small_node.letters small_node.map_order.

(** The snapshot of the small node, written behind three other bytes. *)
Lemma snapshot_restores_chain_witness :
  snapshot_node small_node.n stored.third ∧
  ∃ w w', write_snapshot false small_node.n (new_writer (OStream [1; 2; 3] 3)) = Some (Ok tt, w) ∧
    SnapshotStream.finalize w = Some (Ok tt, w') ∧
    let r := new_reader (IStream (os_data (ow_snapshot w')) 3 false) in
    SnapshotStream.validate r = Some (Ok tt) ∧
    ∃ re r', read_from_snapshot fdb_empty r = Some (Ok re, r') ∧ restores small_node.n stored.third re.
Proof.
  split; [apply small_node.node_ok|].
  apply (snapshot_restores_chain small_node.n stored.third [1; 2; 3] small_node.node_ok small_node.sections_ok).
Defined.
