(* ===== verification/BlockTheorems.v ===== *)
(** * Correctness of the execution of blocks

    The execution of a block implements the interface that the controller is
    proved against; records of transactions are dropped exactly when they have
    expired; and along a chain of blocks that are validated in full, no input
    transaction is executed twice. *)

From S2P Require Import Prelude Exceptions Config Name Merkle Database ResourceLimits Authority Transaction ChainConfig AuthorizationManager StateMonad IteratorCache BlockHeaderState ChainDatabase ForkDatabase ErrorState Controller TransactionContext ApplyContext TableCalls EosioContract ActionExecution ExecutionTheorems PushTransaction PushTheorems BlockExecution.

(** ** Exceptions *)

Section exceptions.
Context {K Sig : Type} `{EqDecision K, EqDecision Sig}.
Context {ncodec : native_codec K} {tcodec : trx_codec} {bcodec : block_codec K Sig} {hcodec : header_codec K Sig}.
Context {keys : secondary_keys}.
Context (conf : node_config K) (mode : app_mode) (vm : Z → bytes → Z → Z → Z → program).
Context (vm_setcode load_vm_from_ram : Z → Z → res unit).
Abbreviation world := (@block_world K Sig).

(** Only [fc::exception]s leave the computation. *)
Definition throws_fc {A} (r : res A) : Prop :=
  match r with Throw e => derives_from e fc_exception = true | Ok _ => True end.

(** Neither as a throw nor in the trace. *)
Definition reports_fc (r : res (option exception)) : Prop :=
  match r with Throw e | Ok (Some e) => derives_from e fc_exception = true | Ok None => True end.

Lemma in_session_any m s0 Q (s : world) : (∀ r, Q r s) → xlwp (in_session m s0) Q s.
Proof. unfold xlwp, in_session. intros HQ r s'. destruct (m s0); intros [= <- <-]; auto. Qed.

Lemma xlwp_true {A} (m : X world A) s : xlwp m (λ _ _, True) s.
Proof. done. Qed.

(** The handler of [fc::exception]s in the middle of a computation. *)
Lemma xtry_any {A} (m : X world A) (Q : res (res A) → world → Prop) s :
  (∀ r s', match r with Throw e => derives_from e fc_exception = true | Ok _ => True end → Q (Ok r) s') →
  (∀ e s', Q (Throw e) s') → xlwp (xtry m) Q s.
Proof.
  intros H1 H2. xlwp_step. apply (xlwp_mono _ (λ _ _, True)); [done|].
  intros [a|e] s' _; [by apply H1|]. split; intros He; [by apply H1|apply H2].
Qed.

Lemma push_transaction_fc (sched : schedules K) bc (md : transaction_metadata Sig) checks ck deadline billed explicit s :
  xlwp (push_transaction conf mode vm vm_setcode load_vm_from_ram bc md checks ck deadline billed explicit)
    (λ r _, reports_fc r) s.
Proof.
  unfold push_transaction. xlwp_step. xlwp_step; [|apply thrown_fc]. apply xlwp_rethrow. cbv zeta.
  assert (Hf : ∀ e, reports_fc (Throw (fc_rethrow e))) by (intros e; apply fc_rethrow_fc).
  xlwp_step. xlwp_step. destruct (make_transaction_context _ _) as [tc|e]; [|apply Hf].
  xlwp_step. xlwp_step. xlwp_step. apply xtry_any; [|intros; apply Hf].
  intros [[]|e] s' He; [by xlwp_step|]. xlwp_step. destruct (failure_is_subjective e); xlwp_step; by xlwp_step.
Qed.

Lemma apply_onerror_fc (sched : schedules K) bc db gtrx ck deadline billed explicit (s : world) :
  xlwp (apply_onerror conf mode vm vm_setcode load_vm_from_ram bc db gtrx ck deadline billed explicit)
    (λ r _, match r with Ok (Some (e, _)) => derives_from e fc_exception = true | _ => True end) s.
Proof.
  unfold apply_onerror. cbv zeta. xlwp_step. xlwp_step. destruct (make_transaction_context _ _) as [tc|e]; [|done].
  xlwp_step. apply xtry_any; [|done]. intros [[]|e] s' He; by xlwp_step.
Qed.

Lemma push_generated_fc (sched : schedules K) bc gtrx ck ck_onerror deadline billed explicit (s : world) :
  xlwp (push_generated conf mode vm vm_setcode load_vm_from_ram bc gtrx ck ck_onerror deadline billed explicit)
    (λ r _, reports_fc r) s.
Proof.
  unfold push_generated. apply xlwp_rethrow.
  assert (Hf : ∀ e, reports_fc (Throw (fc_rethrow e))) by (intros e; apply fc_rethrow_fc).
  apply (xlwp_mono _ (λ r _, match r with Ok (Some e) => derives_from e fc_exception = true | _ => True end)).
  2:{ by intros [[]|] s'. }
  xlwp_step. xlwp_step. xlwp_step. xlwp_step. destruct (remove_scheduled_transaction _ _); [|done].
  xlwp_step. xlwp_step; [|done]. xlwp_step. xlwp_step. destruct (unpack_transaction _); [|done].
  destruct (_ <? _).
  { xlwp_step. apply (xlwp_mono _ (λ _ _, True)); [done|]. intros [[]|] s' _; [|done]. xlwp_step. xlwp_step. by xlwp_step. }
  cbv zeta. xlwp_step. xlwp_step. destruct (make_transaction_context _ _) as [tc|e]; [|done].
  xlwp_step. apply xtry_any; [|done]. intros [[]|e] s' He; [by xlwp_step|].
  unfold failed_scheduled. cbv zeta. xlwp_step.
  apply (xlwp_mono _ (λ r _, match r with Ok (Some (e, _)) => derives_from e fc_exception = true | _ => True end)).
  { destruct (_ && _); [apply apply_onerror_fc|by xlwp_step]. }
  intros [[[e' cpu]|]|] t He'; [|by xlwp_step|done]. xlwp_step.
  apply (xlwp_mono _ (λ _ _, True)); [done|]. intros [[]|] t' _; [|done]. by xlwp_step.
Qed.

Lemma push_receipt_trx_fc bc h p r ck ck_err (s : world) :
  xlwp (push_receipt_trx conf mode vm vm_setcode load_vm_from_ram bc h p r ck ck_err) (λ r _, reports_fc r) s.
Proof.
  unfold push_receipt_trx. destruct (tr_trx r) as [id|pt].
  - unfold push_scheduled_transaction. do 4 xlwp_step. destruct (_ !! id); [apply push_generated_fc|apply thrown_fc].
  - xlwp_step. xlwp_step. unfold metadata_of_packed. destruct (get_signed_transaction _ _ _ _) as [[t p']|e]; [|apply fc_rethrow_fc].
    apply push_transaction_fc.
Qed.

Lemma apply_receipt_fc bc h p r ck ck_err (s : world) :
  xlwp (apply_receipt conf mode vm vm_setcode load_vm_from_ram bc h p r ck ck_err) (λ r _, throws_fc r) s.
Proof.
  unfold apply_receipt. cbv zeta. do 3 xlwp_step. eapply xlwp_mono; [apply push_receipt_trx_fc|].
  cbv beta. intros [o|e] s1 Ho; [|done]. xlwp_step. apply (xlwp_mono _ (λ r _, throws_fc r)).
  { destruct o; [destruct (transaction_can_fail r)|]; by xlwp_step. }
  intros [[]|e] s2 He; [|done]. do 3 xlwp_step. xlwp_step; [|apply thrown_fc]. xlwp_step. xlwp_step; [|apply thrown_fc].
  xlwp_step. xlwp_step. xlwp_step; [done|apply thrown_fc].
Qed.

Lemma apply_receipts_fc bc h p ck i l (s : world) :
  xlwp (apply_receipts conf mode vm vm_setcode load_vm_from_ram bc h p ck i l) (λ r _, throws_fc r) s.
Proof.
  revert i s. induction l as [|r l IH]; intros i s; cbn [apply_receipts]; [by xlwp_step|].
  xlwp_step. eapply xlwp_mono; [apply apply_receipt_fc|]. cbv beta. intros [[]|e] s' He; [apply IH|done].
Qed.

Lemma get_permission_fc (db : @authorization_db K) level : throws_fc (get_permission db level).
Proof.
  unfold get_permission. destruct (level_named level); [|done]. by destruct (find_by_owner _ _ _).
Qed.

Lemma throws_fc_bind {A B} (m : res A) (k : A → res B) : throws_fc m → (∀ a, throws_fc (k a)) → throws_fc (m ≫= k).
Proof. destruct m; cbn; auto. Qed.

Lemma update_producers_authority_fc l (db : @authorization_db K) : throws_fc (update_producers_authority l db).
Proof.
  assert (Hu : ∀ db n t, throws_fc (update_permission l db n t)).
  { intros. apply throws_fc_bind; [apply get_permission_fc|done]. }
  unfold update_producers_authority. cbv zeta. do 3 (apply throws_fc_bind; [apply Hu|intros]). apply Hu.
Qed.

Lemma set_new_producers_fc (p : @block_header_state K Sig) sch : throws_fc (set_new_producers hash_schedule p sch).
Proof.
  unfold set_new_producers. apply throws_fc_bind; [by destruct (_ =? _)|intros]. apply throws_fc_bind; [by destruct (_ =? _)%nat|done].
Qed.

(** ** The interface of the controller *)

(** What the header state of the pending block keeps from its start to its end. *)
Record same_slot (p p' : @block_header_state K Sig) : Prop := {
  ss_num : bhs_block_num p' = bhs_block_num p;
  ss_timestamp : timestamp (bhs_header p') = timestamp (bhs_header p);
  ss_previous : previous (bhs_header p') = previous (bhs_header p);
  ss_active : bhs_active p' = bhs_active p }.

Lemma promote_proposed_header was p (s : world) :
  xlwp (promote_proposed was p) (λ r _, match r with Ok p' => same_slot p p' | Throw _ => throws_fc r end) s.
Proof.
  unfold promote_proposed. xlwp_step. xlwp_step. destruct (ch_proposed (bw_db s)) as [[n sch]|]; [|by xlwp_step].
  destruct (_ && _); [|by xlwp_step]. xlwp_step. xlwp_step. pose proof (set_new_producers_fc p sch) as Hfc.
  destruct (set_new_producers hash_schedule p sch) as [p'|e] eqn:Hp; [|done]. do 3 xlwp_step.
  unfold set_new_producers in Hp. simplify_res. by constructor.
Qed.

Lemma start_pending_header bc h was p ck (s : world) :
  xlwp (start_pending conf mode vm vm_setcode load_vm_from_ram bc h was p ck)
    (λ r _, match r with Ok p' => same_slot p p' | Throw _ => throws_fc r end) s.
Proof.
  unfold start_pending. destruct (_ || _); [|by xlwp_step]. xlwp_step.
  eapply xlwp_mono; [apply promote_proposed_header|]. cbv beta. intros [p1|e] s1 Hp; [|done]. xlwp_step.
  apply (xlwp_mono _ (λ r _, r = Ok tt)).
  { unfold push_onblock. xlwp_step. apply (xlwp_mono _ (λ _ _, True)); [done|]. intros [[]|e] s2 _; [done|by xlwp_step]. }
  intros r s2 ->. do 6 xlwp_step. pose proof (update_producers_authority_fc (producers (bhs_active p1))) as Hfc.
  match goal with |- context [update_producers_authority _ ?a] => specialize (Hfc a); destruct (update_producers_authority _ a) end; [|done].
  by do 3 xlwp_step.
Qed.

Lemma execute_block_header bc h g was p b ck (s : world) :
  xlwp (execute_block conf mode vm vm_setcode load_vm_from_ram bc h g was p b ck)
    (λ r s', match r with
             | Ok q => same_slot p q ∧ bs_block q = Some (SignedBlock (bhs_header g) (bw_receipts s') [])
             | Throw _ => throws_fc r
             end) s.
Proof.
  unfold execute_block. xlwp_step. eapply xlwp_mono; [apply start_pending_header|]. cbv beta.
  intros [p1|e] s1 H1; [|done]. xlwp_step. eapply xlwp_mono; [apply apply_receipts_fc|]. cbv beta.
  intros [[]|e] s2 H2; [|done]. xlwp_step. unfold finalize_block. apply xlwp_rethrow.
  apply (xlwp_mono _ (λ r _, match r with Ok q => same_slot p1 q | Throw _ => True end)).
  - xlwp_step. xlwp_step. xlwp_step. xlwp_step. destruct (finalize_limits _ _); [|done].
    do 6 xlwp_step. xlwp_step. by constructor.
  - intros [q|e] s3 H3; [|apply fc_rethrow_fc]. do 3 xlwp_step. split; [|done].
    destruct H1, H3. constructor; cbn; congruence.
Qed.

Lemma open_block_spec (h : @block_header_state K Sig) when c g was p :
  open_block h when c = Some (Ok (g, (was, p))) →
  bhs_block_num p = u32 (bhs_block_num h + 1) ∧ next_slot h when = Ok (timestamp (bhs_header p)) ∧
  previous (bhs_header p) = bhs_id h.
Proof.
  unfold open_block, generate_next. destruct (next_slot h when) as [slot|e] eqn:Hs; cbn; [|done].
  destruct (get_scheduled_producer h slot) as [k|]; cbn; [|done]. intros [= <- Hp]. revert Hp.
  unfold maybe_promote_pending, set_confirmed. destruct (confirm_loop _ _ _). destruct (_ && _); intros [= <- <-]; done.
Qed.

Context (clocks : signed_block K Sig → block_clock).

Lemma open_block_throws (h : @block_header_state K Sig) when c e :
  open_block h when c = Some (Throw e) → derives_from e fc_exception = true.
Proof.
  unfold open_block, generate_next, next_slot. destruct (negb _); cbn.
  - destruct (when >? _); cbn; [by destruct (get_scheduled_producer _ _)|]. by intros [= <-].
  - by destruct (get_scheduled_producer _ _).
Qed.

(** The execution of a block, as the controller uses it. *)
#[export] Instance real_execution : @block_execution K Sig (signed_block K Sig) (transaction_metadata Sig) (block_db K).
Proof.
  refine {|
    header_of := sb_header;
    block_num_of b := header_block_num endian_reverse_u32 (sb_header b);
    set_block_header b h := SignedBlock h (sb_transactions b) (sb_extensions b);
    has_extensions b := negb (length (sb_extensions b) =? 0)%nat;
    Controller.run_block := run_block conf mode vm vm_setcode load_vm_from_ram clocks |}.
  - intros st light h b d d' trxs q. unfold run_block. destruct (skip_db_sessions conf st); [done|].
    destruct (open_block _ _ _) as [[[g [was p]]|e]|] eqn:Ho; [|done|done].
    destruct (execute_block _ _ _ _ _ _ _ _ _ _ _ _ _) as [[r s]|] eqn:He; [|done]. intros [= <- <- ->].
    apply execute_block_header in He as [Hq Hb]. apply open_block_spec in Ho as (Hn & _ & _).
    split; [by rewrite (ss_num _ _ Hq)|by eexists].
  - intros st light h b d d' trxs e. unfold run_block. destruct (skip_db_sessions conf st); [done|].
    destruct (open_block _ _ _) as [[[g [was p]]|e']|] eqn:Ho; [| |done].
    + destruct (execute_block _ _ _ _ _ _ _ _ _ _ _ _ _) as [[r s]|] eqn:He; [|done]. intros [= <- <- ->].
      by apply execute_block_header in He.
    + intros [= <- <- <-]. by eapply open_block_throws.
Defined.
End exceptions.

(** ** Records of transactions *)

#[export] Instance expiration_le_trans : Transitive expiration_le.
Proof. intros a b c. unfold expiration_le. lia. Qed.
#[export] Instance expiration_le_total : Total expiration_le.
Proof. intros a b. unfold expiration_le. lia. Qed.

Definition expired_at (now : Z) (id : digest_type) (p : digest_type * Z) : bool :=
  bool_decide (p.1 = id) && (now >? p.2 * 1000000).

Lemma remove_expired_lookup now l m id :
  StronglySorted expiration_le l →
  remove_expired now l m !! id = if existsb (expired_at now id) l then None else m !! id.
Proof.
  intros Hl. revert m. induction Hl as [|[i e] l Hl IH He]; intros m; cbn; [done|].
  unfold expired_at at 1. cbn [fst snd]. destruct (now >? e * 1000000) eqn:Hnow.
  - rewrite IH. destruct (decide (i = id)) as [->|Hne].
    + rewrite bool_decide_true by done. cbn. rewrite lookup_delete_eq. by destruct (existsb _ _).
    + rewrite bool_decide_false by done. cbn. by rewrite lookup_delete_ne.
  - rewrite andb_false_r. cbn. replace (existsb (expired_at now id) l) with false; [done|]. symmetry.
    apply not_true_iff_false. intros ([j e'] & Hin & Hex)%existsb_exists. apply list_elem_of_In in Hin.
    rewrite Forall_forall in He. specialize (He _ Hin). unfold expired_at, expiration_le in *. cbn in *. lia.
Qed.

(** At the start of a block, the records of input transactions that are
    dropped are exactly the expired ones, although the loop stops at the first
    record that has not expired. *)
Lemma clear_expired_filter {K} now (db : chain_db K) :
  ch_transactions (clear_expired_input_transactions now db) =
  filter (λ p, now <= p.2 * 1000000) (ch_transactions db).
Proof.
  unfold clear_expired_input_transactions. cbn. set (m := ch_transactions db). apply map_eq. intros id.
  rewrite remove_expired_lookup by (apply StronglySorted_merge_sort; apply _).
  destruct (existsb _ _) eqn:Hex.
  - apply existsb_exists in Hex as ([j e] & Hin & Hx). apply list_elem_of_In in Hin.
    rewrite merge_sort_Permutation in Hin. apply elem_of_map_to_list in Hin.
    unfold expired_at in Hx. cbn in Hx. apply andb_true_iff in Hx as [->%bool_decide_eq_true Hx].
    symmetry. apply map_lookup_filter_None. right. intros e' He'. rewrite Hin in He'. injection He' as <-. cbn. lia.
  - destruct (m !! id) as [e|] eqn:Hm; symmetry; [|apply map_lookup_filter_None; by left].
    apply map_lookup_filter_Some. split; [done|]. cbn.
    destruct (Z.le_gt_cases now (e * 1000000)) as [|Hgt]; [done|]. apply not_true_iff_false in Hex. destruct Hex.
    apply existsb_exists. exists (id, e). split.
    + apply list_elem_of_In. rewrite merge_sort_Permutation. by apply elem_of_map_to_list.
    + unfold expired_at. cbn. rewrite bool_decide_true by done. lia.
Qed.

Section records.
Context {K Sig : Type} `{EqDecision K, EqDecision Sig}.
Context {ncodec : native_codec K} {tcodec : trx_codec} {bcodec : block_codec K Sig} {hcodec : header_codec K Sig}.
Context {keys : secondary_keys}.
Context (conf : node_config K) (mode : app_mode) (vm : Z → bytes → Z → Z → Z → program).
Context (vm_setcode load_vm_from_ram : Z → Z → res unit).
Abbreviation world := (@block_world K Sig).
Hypothesis unpack_depth : ∀ data cfg, unpack_chain_config data = Ok cfg → is_unsigned 16 (max_inline_action_depth cfg).
(** The id of a transaction is the hash of its contents. *)
Hypothesis id_expiration :
  ∀ t t', transaction_id t = transaction_id t' → expiration (header t) = expiration (header t').
(** The node is not replaying. *)
Hypothesis not_replaying : replay_head_time conf = None.

(** The transactions that were executed are recorded until they have expired. *)
Definition recorded (now : Z) (seen : list transaction) (db : chain_db K) : Prop :=
  ∀ t, t ∈ seen → ch_transactions db !! transaction_id t = Some (expiration (header t)) ∨
                  expiration (header t) * 1000000 < now.

Lemma recorded_same now seen (db db' : chain_db K) :
  ch_transactions db' = ch_transactions db → recorded now seen db → recorded now seen db'.
Proof. intros Ht H t. rewrite Ht. apply H. Qed.

(** An unexpired transaction that is not recorded was not executed. *)
Lemma recorded_new now seen db t :
  recorded now seen db → ch_transactions db !! transaction_id t = None → now <= expiration (header t) * 1000000 →
  transaction_id t ∉ transaction_id <$> seen.
Proof.
  intros H Hn He Hin. apply list_elem_of_fmap in Hin as (t' & Hid & Ht'). destruct (H t' Ht') as [Hr|Hr].
  - rewrite <- Hid, Hn in Hr. done.
  - rewrite <- (id_expiration t t' Hid) in Hr. lia.
Qed.

Section block.
Variable bc : block_context.
Variable h : @block_header_state K Sig.
(** The transactions of the blocks before. *)
Variable before : list transaction.
Hypothesis validating : bc_status bc ≠ incomplete.
Hypothesis full_checks : skip_trx_checks (view conf bc false) = false.

Definition trx_of (md : transaction_metadata Sig) : transaction := trx (md_trx md).
Definition seen_in (s : world) : list transaction := before ++ (trx_of <$> bw_trxs s).

Record records_ok (s : world) : Prop := {
  ro_depth : depth_ok (bw_db s);
  ro_recorded : recorded (bc_time bc) (seen_in s) (bw_db s);
  ro_once : NoDup (transaction_id <$> seen_in s) }.

(** Nothing that the records speak of has changed. *)
Lemma records_ok_same s s' :
  records_ok s → depth_ok (bw_db s') → bw_trxs s' = bw_trxs s → ch_transactions (bw_db s') = ch_transactions (bw_db s) →
  records_ok s'.
Proof.
  intros [Hd Hr Ho] Hd' Ht Htr. unfold seen_in in *. constructor; unfold seen_in; rewrite ?Ht; [done| |done].
  by eapply recorded_same.
Qed.

Lemma keeps_validating : keeps_transactions conf bc = true.
Proof. unfold keeps_transactions, is_producing. rewrite bool_decide_false by done. apply orb_true_r. Qed.

Lemma metadata_of_packed_Ok pt (md : transaction_metadata Sig) :
  metadata_of_packed (K := K) pt = Ok md → md_implicit md = false ∧ md_id md = transaction_id (trx_of md).
Proof. unfold metadata_of_packed. destruct (get_signed_transaction _ _ _ _) as [[]|]; by intros [= <-]. Qed.

Lemma push_input_records (sched : schedules K) md ck deadline billed explicit s :
  md_implicit md = false → md_id md = transaction_id (trx_of md) → records_ok s →
  xlwp (push_transaction conf mode vm vm_setcode load_vm_from_ram bc md false ck deadline billed explicit)
    (λ r s', r = Ok None → records_ok s' ∧ bw_trxs s' = bw_trxs s ++ [md]) s.
Proof.
  intros Hi Hid [Hd Hr Ho]. eapply xlwp_mono; [by apply push_transaction_spec|]. intros r s' Hout ->.
  unfold push_outcome in Hout. rewrite keeps_validating in Hout. destruct Hout as [Hd' Ht]. rewrite Hi in Ht.
  destruct Ht as [_ Htrxs _ _ Hrec Hexp _]. split; [|done]. destruct Hrec as [Hnew Hins]; [by unfold skip_recording; rewrite not_replaying|].
  specialize (Hexp full_checks). rewrite Hid in *. fold (trx_of md) in *.
  assert (Hseen : seen_in s' = seen_in s ++ [trx_of md]) by (unfold seen_in; by rewrite Htrxs, fmap_app, app_assoc).
  pose proof (recorded_new _ _ _ _ Hr Hnew ltac:(lia)) as Hnot. constructor; [done|..]; rewrite Hseen.
  - intros t [Ht| ->%list_elem_of_singleton]%elem_of_app; rewrite Hins; [|left; by rewrite lookup_insert_eq].
    rewrite lookup_insert_ne; [by apply Hr|]. intros Heq. apply Hnot. rewrite Heq. by apply list_elem_of_fmap_2.
  - rewrite fmap_app. apply NoDup_app. split_and!; [done| |apply NoDup_singleton].
    intros i Hi' ->%list_elem_of_singleton. done.
Qed.

Lemma push_scheduled_records (sched : schedules K) id ck ck_err deadline billed explicit s :
  records_ok s →
  xlwp (push_scheduled_transaction conf mode vm vm_setcode load_vm_from_ram bc id ck ck_err deadline billed explicit)
    (λ r s', is_ok r = true → records_ok s' ∧ bw_trxs s' = bw_trxs s) s.
Proof.
  intros Hs. unfold push_scheduled_transaction. do 4 xlwp_step. destruct (_ !! id) as [gto|]; [|done].
  eapply xlwp_mono; [by apply push_generated_spec, Hs|]. intros [o|e] s' Hout; [|done]. intros _.
  destruct Hout as [[]|[-> _]]; [|done]. split; [|done]. by apply (records_ok_same s).
Qed.

(** The input transaction of a receipt. *)
Definition receipt_input (r : transaction_receipt Sig) : option transaction :=
  match tr_trx r with
  | ReceiptPacked pt => match metadata_of_packed (K := K) pt with Ok md => Some (trx_of md) | Throw _ => None end
  | ReceiptId _ => None
  end.

Lemma apply_receipt_records p r ck ck_err s :
  records_ok s →
  xlwp (apply_receipt conf mode vm vm_setcode load_vm_from_ram bc h p r ck ck_err)
    (λ o s', o = Ok tt → records_ok s' ∧ trx_of <$> bw_trxs s' = (trx_of <$> bw_trxs s) ++ omap receipt_input [r]) s.
Proof.
  intros Hs. unfold apply_receipt. cbv zeta. do 3 xlwp_step.
  apply (xlwp_mono _ (λ o s', match o with
    | Ok (Some _) => transaction_can_fail r = true →
        records_ok s' ∧ trx_of <$> bw_trxs s' = (trx_of <$> bw_trxs s) ++ omap receipt_input [r]
    | Ok None => records_ok s' ∧ trx_of <$> bw_trxs s' = (trx_of <$> bw_trxs s) ++ omap receipt_input [r]
    | Throw _ => True
    end)).
  { unfold push_receipt_trx, transaction_can_fail. cbn [omap list_omap]. unfold receipt_input. destruct (tr_trx r) as [id|pt].
    - eapply xlwp_mono; [by apply push_scheduled_records|]. intros [o|e] s' Ho; [|done]. destruct (Ho eq_refl) as [Hr ->].
      rewrite app_nil_r. by destruct o.
    - xlwp_step. xlwp_step. destruct (metadata_of_packed pt) as [md|e] eqn:Hmd; [|done].
      apply metadata_of_packed_Ok in Hmd as [Hi Hid].
      eapply xlwp_mono; [by apply push_input_records|]. intros [[e|]|e] s' Ho; [by destruct (rh_status r)| |done].
      destruct (Ho eq_refl) as [Hr ->]. by rewrite fmap_app. }
  intros [o|e] s1 Ho; [|done]. xlwp_step.
  apply (xlwp_mono _ (λ q s', q = Ok tt → records_ok s' ∧ trx_of <$> bw_trxs s' = (trx_of <$> bw_trxs s) ++ omap receipt_input [r])).
  { destruct o as [e|]; [destruct (transaction_can_fail r)|]; xlwp_step; try done. by intros _; apply Ho. }
  intros [[]|e] s2 H2; [|done]. specialize (H2 eq_refl). do 3 xlwp_step. xlwp_step; [|done]. xlwp_step. xlwp_step; [|done].
  xlwp_step. xlwp_step. xlwp_step; done.
Qed.

Lemma apply_receipts_records p ck i l s :
  records_ok s →
  xlwp (apply_receipts conf mode vm vm_setcode load_vm_from_ram bc h p ck i l)
    (λ o s', o = Ok tt → records_ok s' ∧ trx_of <$> bw_trxs s' = (trx_of <$> bw_trxs s) ++ omap receipt_input l) s.
Proof.
  revert i s. induction l as [|r l IH]; intros i s Hs; cbn [apply_receipts].
  { xlwp_step. intros _. split; [done|]. cbn. by rewrite app_nil_r. }
  xlwp_step. eapply xlwp_mono; [by apply apply_receipt_records|]. cbv beta. intros [[]|e] s1 H1; [|done].
  destruct (H1 eq_refl) as [Hr1 Ht1]. eapply xlwp_mono; [by apply IH|]. cbv beta. intros o s2 H2 Ho.
  destruct (H2 Ho) as [Hr2 Ht2]. split; [done|]. rewrite Ht2, Ht1, <- app_assoc. f_equal.
  cbn. by destruct (receipt_input r).
Qed.

(** What the start and the end of a block do to the records before they are cleared. *)
Record undisturbed (s s' : world) : Prop := {
  ud_depth : depth_ok (bw_db s) → depth_ok (bw_db s');
  ud_trxs : bw_trxs s' = bw_trxs s;
  ud_transactions : ch_transactions (bw_db s') = ch_transactions (bw_db s) }.

#[local] Instance undisturbed_preorder : PreOrder undisturbed.
Proof. split; [done|]. intros a b c [A1 A2 A3] [B1 B2 B3]. constructor; [auto|congruence|congruence]. Qed.

Lemma promote_proposed_undisturbed was p (s : world) : xlwp (promote_proposed was p) (λ _, undisturbed s) s.
Proof.
  unfold promote_proposed. xlwp_step. xlwp_step. destruct (ch_proposed (bw_db s)) as [[n sch]|]; [|by xlwp_step].
  destruct (_ && _); [|by xlwp_step]. xlwp_step. xlwp_step. destruct (set_new_producers _ _ _); [|done].
  by do 3 xlwp_step.
Qed.

Lemma push_onblock_undisturbed p ck (s : world) :
  depth_ok (bw_db s) →
  xlwp (push_onblock conf mode vm vm_setcode load_vm_from_ram bc h p ck) (λ r s', r = Ok tt ∧ undisturbed s s') s.
Proof.
  intros Hd. unfold push_onblock. xlwp_step. apply (xlwp_mono _ (λ _, undisturbed s)).
  2:{ intros [[]|e] s' Hs; [done|by xlwp_step]. }
  do 4 xlwp_step. destruct (metadata_of_signed _ true) as [md|e] eqn:Hmd; [|done].
  assert (Hi : md_implicit md = true) by (unfold metadata_of_signed in Hmd; by simplify_res).
  xlwp_step. eapply xlwp_mono; [by apply push_transaction_spec|]. intros r s' Hout.
  assert (Hs : undisturbed s s').
  { unfold push_outcome in Hout. rewrite keeps_validating in Hout. destruct r as [[e|]|e].
    - destruct Hout as [-> _]. by destruct (failure_is_subjective e).
    - destruct Hout as [Hd' Hr]. rewrite Hi in Hr. by destruct Hr.
    - by destruct Hout as [-> _]. }
  destruct r; [by xlwp_step|done].
Qed.

Lemma start_pending_records was p ck before_time (s : world) :
  depth_ok (bw_db s) → bw_trxs s = [] → recorded before_time before (bw_db s) → before_time <= bc_time bc →
  NoDup (transaction_id <$> before) →
  xlwp (start_pending conf mode vm vm_setcode load_vm_from_ram bc h was p ck)
    (λ r s', is_ok r = true → records_ok s' ∧ bw_trxs s' = []) s.
Proof.
  intros Hd Ht Hr Htime Hn. unfold start_pending. rewrite (bool_decide_false (bc_status bc = incomplete)) by done.
  rewrite orb_true_r. xlwp_step. eapply xlwp_mono; [apply promote_proposed_undisturbed|]. cbv beta.
  intros [p1|e] s1 H1; [|done]. xlwp_step. eapply xlwp_mono; [apply push_onblock_undisturbed, H1, Hd|]. cbv beta.
  intros [[]|e] s2 [_ H2]; [|done]. pose proof (transitivity H1 H2) as [Hd2 Ht2 Htr2]. do 6 xlwp_step.
  destruct (update_producers_authority _ _) as [a|e]; [|done]. do 3 xlwp_step. intros _. rewrite Ht in Ht2.
  split; [|exact Ht2]. constructor; unfold seen_in; cbn [put_bw_db bw_db bw_trxs]; rewrite ?Ht2; cbn [fmap list_fmap]; rewrite ?app_nil_r;
    [by apply Hd2| |done].
  intros t Hin. change (ch_transactions (with_authorization ?d ?x)) with (ch_transactions d). rewrite clear_expired_filter, Htr2.
  destruct (Hr t Hin) as [Hrec|Hexp]; [|right; lia].
  destruct (Z.le_gt_cases (bc_time bc) (expiration (header t) * 1000000)); [left|by right].
  by apply map_lookup_filter_Some.
Qed.

Lemma execute_block_records g was p b ck before_time (s : world) :
  depth_ok (bw_db s) → bw_trxs s = [] → recorded before_time before (bw_db s) → before_time <= bc_time bc →
  NoDup (transaction_id <$> before) →
  xlwp (execute_block conf mode vm vm_setcode load_vm_from_ram bc h g was p b ck)
    (λ r s', is_ok r = true → records_ok s' ∧ trx_of <$> bw_trxs s' = omap receipt_input (sb_transactions b)) s.
Proof.
  intros Hd Ht Hr Htime Hn. unfold execute_block. xlwp_step. eapply xlwp_mono; [by eapply start_pending_records|].
  cbv beta. intros [p1|e] s1 H1; [|done]. destruct (H1 eq_refl) as [Hr1 Ht1]. xlwp_step.
  eapply xlwp_mono; [by apply apply_receipts_records|]. cbv beta. intros [[]|e] s2 H2; [|done].
  destruct (H2 eq_refl) as [Hr2 Ht2]. rewrite Ht1 in Ht2. cbn in Ht2. xlwp_step. unfold finalize_block. apply xlwp_rethrow.
  apply (xlwp_mono _ (λ r s', is_ok r = true → undisturbed s2 s')).
  - xlwp_step. xlwp_step. xlwp_step. xlwp_step. destruct (finalize_limits _ _) as [db|e] eqn:Hf; [|done].
    do 6 xlwp_step. xlwp_step. intros _. unfold finalize_limits in Hf. simplify_res. done.
  - intros [q|e] s3 H3; [|done]. destruct (H3 eq_refl) as [Hd3 Ht3 Htr3]. do 3 xlwp_step. intros _. split; [|by rewrite Ht3].
    apply (records_ok_same s2); [done|apply Hd3, Hr2|done|done].
Qed.
End block.

(** ** Chains of blocks *)

Context (clocks : signed_block K Sig → block_clock).
Abbreviation header_state := (@block_header_state K Sig).
Abbreviation run := (run_block conf mode vm vm_setcode load_vm_from_ram clocks).

(** No check of transactions is skipped. *)
Definition full_validation (st : block_status) (light : bool) : Prop :=
  st ≠ incomplete ∧ skip_signature_check conf = false ∧
  (st = irreversible ∨ st = validated → disable_replay_opts conf = true) ∧
  (st = complete → light_validation_mode conf = false ∧ light = false).

Lemma full_validation_checks st light bc :
  full_validation st light → bc_status bc = st → bc_light bc = light → skip_trx_checks (view conf bc false) = false.
Proof.
  intros (_ & Hs & Hr & Hl) <- <-. cbn. unfold light_validation_allowed. rewrite Hs.
  destruct (bool_decide (bc_status bc = irreversible ∨ bc_status bc = validated)) eqn:H1;
    [apply bool_decide_eq_true in H1; rewrite (Hr H1)|]; destruct (bool_decide (bc_status bc = complete)) eqn:H2; cbn; try done;
    apply bool_decide_eq_true in H2; by destruct (Hl H2) as [-> ->].
Qed.

(** The input transactions of a block. *)
Definition block_inputs (b : signed_block K Sig) : list transaction := omap receipt_input (sb_transactions b).

(** The blocks [bs] were executed one on top of the other from the state [h0]
    and the database [d0]; the state of a block that the next one builds on has
    the header that the execution gave. *)
Inductive chain (h0 : header_state) (d0 : block_db K) : list (signed_block K Sig) → header_state → block_db K → Prop :=
  | chain_start : chain h0 d0 [] h0 d0
  | chain_block bs h d st light (b : signed_block K Sig) d' trxs q (h' : header_state) :
      chain h0 d0 bs h d → full_validation st light → 0 < timestamp b < 2 ^ 32 →
      run st light h b d = Some (d', trxs, Ok q) → sbh_header (bhs_header h') = sbh_header (bhs_header q) →
      chain h0 d0 (bs ++ [b]) h' d'.

Abbreviation time_of h := (slot_to_time_point (timestamp (bhs_header h))).

Lemma slot_time_exact a : 0 <= a < 2 ^ 32 → slot_to_time_point a = (a * 500 + 946684800000) * 1000.
Proof.
  intros Ha. unfold slot_to_time_point, config.block_interval_ms, config.block_timestamp_epoch.
  rewrite (swrap_id 64 (a * 500)) by (unfold is_signed; lia).
  rewrite (swrap_id 64 (a * 500 + _)) by (unfold is_signed; lia). apply swrap_id; unfold is_signed; lia.
Qed.

Lemma slot_time_mono a b : 0 <= a → a < b < 2 ^ 32 → slot_to_time_point a <= slot_to_time_point b.
Proof. intros Ha Hb. rewrite !slot_time_exact by lia. lia. Qed.

(** The input transactions are those that the controller keeps of the block. *)
Lemma run_block_records st light h (b : signed_block K Sig) d d' trxs q before :
  run st light h b d = Some (d', trxs, Ok q) → full_validation st light → 0 < timestamp b < 2 ^ 32 →
  0 <= timestamp (bhs_header h) → depth_ok (bd_chain d) → recorded (time_of h) before (bd_chain d) →
  NoDup (transaction_id <$> before) →
  timestamp (bhs_header q) = timestamp b ∧ depth_ok (bd_chain d') ∧
  recorded (time_of q) (before ++ block_inputs b) (bd_chain d') ∧ NoDup (transaction_id <$> before ++ block_inputs b) ∧
  trx_of <$> trxs.1.*2 = block_inputs b.
Proof.
  intros Hrun Hfull Hb Hh Hd Hr Hn. unfold run_block in Hrun. destruct (skip_db_sessions conf st); [done|].
  destruct (open_block _ _ _) as [[[g [was p]]|e]|] eqn:Ho; [|done|done].
  destruct (execute_block _ _ _ _ _ _ _ _ _ _ _ _ _) as [[r s]|] eqn:He; [|done]. injection Hrun as <- <- ->.
  apply open_block_spec in Ho as (_ & Hslot & _). unfold next_slot in Hslot.
  rewrite (proj2 (Z.eqb_neq (timestamp b) 0)) in Hslot by lia. cbn in Hslot.
  destruct (timestamp b >? timestamp (bhs_header h)) eqn:Hgt; [|done]. injection Hslot as Htp.
  pose proof (execute_block_header _ _ _ _ _ _ _ _ _ _ _ _ _ _ _ He) as [Hq _].
  set (bc := block_context_of st light h p d) in *.
  assert (Htime : bc_time bc = time_of q) by (cbn; by rewrite (ss_timestamp _ _ Hq)).
  apply (execute_block_records bc h before) with (before_time := time_of h) in He as [Hrec Hin]; try done.
  - destruct Hrec as [Hd' Hrec' Hn']. unfold seen_in in Hrec', Hn'. rewrite Hin, Htime in *.
    split_and!; [by rewrite (ss_timestamp _ _ Hq), Htp|done|done|done|].
    unfold block_inputs. rewrite <- Hin. cbn [fst]. generalize (bw_trxs s). intros l. by induction l; cbn; f_equal.
  - apply Hfull.
  - by eapply full_validation_checks.
  - rewrite Htime. apply slot_time_mono; [done|]. rewrite (ss_timestamp _ _ Hq), <- Htp. lia.
Qed.

(** What holds after a chain of blocks. *)
Lemma chain_records h0 d0 bs h d :
  depth_ok (bd_chain d0) → 0 <= timestamp (bhs_header h0) → chain h0 d0 bs h d →
  0 <= timestamp (bhs_header h) ∧ depth_ok (bd_chain d) ∧
  recorded (time_of h) (concat (map block_inputs bs)) (bd_chain d) ∧
  NoDup (transaction_id <$> concat (map block_inputs bs)).
Proof.
  intros Hd0 H0. induction 1 as [|bs h d st light b d' trxs q h' Hc (Ht & Hd & Hr & Hn) Hfull Hb Hrun Hh'].
  - split_and!; [done|done| |apply NoDup_nil_2]. by intros t ?%elem_of_nil.
  - eapply run_block_records in Hrun as (Hq & Hd' & Hr' & Hn' & _); [|done..].
    rewrite map_app, concat_app. cbn [map concat]. rewrite app_nil_r, Hh', Hq. split_and!; [lia|done| |done]. by rewrite Hq in Hr'.
Qed.

(** C1: no input transaction is executed twice.  In every chain of blocks that
    were executed one on top of the other with full validation, by a node that
    is not replaying, the ids of all input transactions are pairwise distinct:
    a transaction is recorded until it has expired, a recorded one is refused,
    and so is an expired one, across the blocks as within one. *)
Theorem no_transaction_twice h0 d0 bs h d :
  depth_ok (bd_chain d0) → 0 <= timestamp (bhs_header h0) → chain h0 d0 bs h d →
  NoDup (transaction_id <$> concat (map block_inputs bs)).
Proof. intros Hd H0 Hc. by eapply chain_records in Hc as (_ & _ & _ & Hn). Qed.
End records.
