(* ===== verification/ChainExample.v ===== *)
(** * A small chain (examples for the theorems on blocks and transactions)

    A chain that starts from the genesis database, with keys and signatures
    that are numbers and hashes that tell apart what the theorems ask for. *)

From S2P Require Import Prelude Exceptions Config Name Merkle Database ResourceLimits Authority Transaction ChainConfig AuthorizationManager StateMonad IteratorCache BlockHeaderState ChainDatabase ForkDatabase ErrorState Controller TransactionContext ApplyContext ContractTables TableCalls TableTheorems EosioContract NativeActions ActionExecution ExecutionTheorems PushTransaction PushTheorems BlockExecution Genesis BlockTheorems.

Module small_chain.
Definition genesis_time : Z := 1527854400.
Definition hello (exp : Z) : transaction :=
  Transaction (TransactionHeader exp 0 1000 0 0 0 0) []
    [Action config.system_account_name (N_ "hi") [PermissionLevel config.system_account_name config.active_name] []] [].

(** A packed transaction is its expiration, as seconds after the genesis. *)
#[export] Instance tcodec : trx_codec := {|
  pack_transaction t := [expiration (header t) - genesis_time];
  unpack_transaction b := match b with [e] => Ok (hello (genesis_time + e)) | _ => Throw fc_eof_exception end;
  transaction_id t := Digest (expiration (header t)) 1 1 1;
  pack_action a := act_data a;
  unpack_action _ := Throw fc_eof_exception;
  action_digest a := Digest (act_account a) (act_name a) 0 0;
  unpack_chain_config _ := Throw fc_eof_exception;
  endian_reverse_u32 x := x |}.

#[export] Instance bcodec : block_codec Z Z := {|
  raw_pack_cfd _ := [];
  raw_unpack_cfd _ := Ok [];
  deflate b := b;
  inflate b := (b, true);
  pack_size_signatures l := 65 * Z.of_nat (length l);
  pack_digest _ := [];
  sha256 _ := digest_zero;
  recover_key s _ := Ok s;
  hash_packed _ := digest_zero;
  packed_digest _ := digest_zero;
  hash_receipt _ _ _ _ := digest_zero;
  hash_action_receipt _ := digest_zero;
  pack_block_header _ := [];
  pack_onerror _ _ := [] |}.

#[export] Instance hcodec : header_codec Z Z := {|
  default_key := 0;
  default_sig := 0;
  hash_header h := Digest 0 (timestamp h) 0 0;
  hash_pair _ := digest_zero;
  hash_schedule _ := digest_zero |}.
#[export] Existing Instance native_example.codec.
#[export] Existing Instance contract.int_keys.

Definition genesis : genesis_state Z := GenesisState default_chain_config (genesis_time * 1000000) 100.
Definition conf : node_config Z :=
  NodeConfig Z (ControllerConfig SPECULATIVE false false ∅) false false true ∅ native_example.lists None digest_zero None.
Definition mode : app_mode := AppMode true false false.
(** No contract does anything. *)
Definition vm (_ : Z) (_ : bytes) (_ _ _ : Z) : program := Finish.

Definition tick : clock := Clock (genesis_time * 1000000) false (genesis_time * 1000000) (λ _, Ok tt) (genesis_time * 1000000) 100.
Definition clocks (_ : signed_block Z Z) : block_clock := BlockClock tick (λ _, tick) (λ _, tick).

Definition d0 : block_db Z :=
  match initialize_database (Sig := Z) genesis digest_zero [] with Ok d => d | Throw _ => BlockDb (empty_chain_db genesis) ∅ end.
Definition h0 : @block_header_state Z Z := genesis_header genesis digest_zero.

Definition slot0 : Z := slot_of_time_point (initial_timestamp genesis).
Definition input (e net : Z) : transaction_receipt Z :=
  Receipt (ReceiptHeader status_enum.executed 1000 net 0) (ReceiptPacked (PackedTransaction [100] 0 [] [e] None)).
Definition block (n : Z) (l : list (transaction_receipt Z)) : signed_block Z Z :=
  SignedBlock (SignedBlockHeader (BlockHeader (slot0 + n) config.system_account_name 0 digest_zero digest_zero digest_zero 0 None []) 0) l [].
Definition run := run_block conf mode vm (λ _ _, Ok tt) (λ _ _, Ok tt) clocks complete false.

(** The state after a block, and whether it was accepted. *)
Definition after (b : signed_block Z Z) (s : @block_header_state Z Z * block_db Z) : @block_header_state Z Z * block_db Z :=
  match run s.1 b s.2 with Some (d, _, Ok q) => (bs_header_state q, d) | _ => s end.
Definition result_of (b : signed_block Z Z) (s : @block_header_state Z Z * block_db Z) : option (res unit) :=
  match run s.1 b s.2 with
  | Some (_, _, Ok _) => Some (Ok tt)
  | Some (_, _, Throw e) => Some (Throw e)
  | None => None
  end.

Lemma accepted b s :
  result_of b s = Some (Ok tt) → ∃ t q, run s.1 b s.2 = Some ((after b s).2, t, Ok q) ∧ bs_header_state q = (after b s).1.
Proof.
  unfold result_of, after. destruct (run s.1 b s.2) as [[[d t] [q|e]]|]; [|done|done]. intros _. by exists t, q.
Qed.

Lemma id_expiration t t' : transaction_id t = transaction_id t' → expiration (header t) = expiration (header t').
Proof. by intros [= H]. Qed.

Lemma config_depths : ∀ data cfg, unpack_chain_config data = Ok cfg → is_unsigned 16 (max_inline_action_depth cfg).
Proof. done. Qed.

Lemma depth0 : depth_ok (bd_chain d0).
Proof. vm_compute. split; [discriminate|reflexivity]. Qed.

Lemma d0_wf : initialize_database (Sig := Z) genesis digest_zero [] = Ok d0 ∧ genesis_db genesis [] d0.
Proof.
  destruct (initialize_database_ok (Sig := Z) genesis digest_zero []) as (d & Hd & Hg); [by vm_compute..|].
  unfold d0. rewrite Hd. by split.
Qed.

(** The first block, while it is being executed. *)
Definition pending : block_context :=
  BlockContext complete false (slot_to_time_point (slot0 + 1)) (bhs_id h0) (λ _, digest_zero).
#[export] Instance sched : schedules Z := block_schedules h0 h0.
Definition world0 : @block_world Z Z := BlockWorld (bd_chain d0) [] [] [] [].

Definition md : transaction_metadata Z :=
  match metadata_of_packed (K := Z) (PackedTransaction [100] 0 [] [60] None) with
  | Ok md => md
  | Throw _ => Metadata digest_zero digest_zero (SignedTransaction (hello 0) [] []) (PackedTransaction [] 0 [] [] None) false
  end.

(** A transaction that [eosio] has scheduled. *)
Definition scheduled_id : digest_type := Digest 7 7 7 7.
Definition gtrx : generated_transaction_object :=
  GeneratedTransaction scheduled_id config.system_account_name 1 config.system_account_name 0
    (slot_to_time_point (slot0 + 10)) (initial_timestamp genesis) [70].
Definition world1 : @block_world Z Z :=
  BlockWorld (with_generated (bd_chain d0) {[scheduled_id := gtrx]}) [] [] [] [].

Definition block1 : signed_block Z Z := block 1 [input 60 6; input 61 6].
Definition block2 : signed_block Z Z := block 2 [input 62 6].
(** It repeats a transaction of the first block. *)
Definition block3 : signed_block Z Z := block 3 [input 61 6].
Definition state1 := after block1 (h0, d0).
Definition state2 := after block2 state1.
End small_chain.

Import small_chain.

Lemma no_transaction_twice_witness :
  NoDup (transaction_id <$> concat (map block_inputs [block1; block2])) ∧
  length (concat (map block_inputs [block1; block2])) = 3%nat ∧
  result_of block3 state2 = Some (Throw tx_duplicate).
Proof.
  split; [|split; vm_compute; reflexivity].
  apply (no_transaction_twice conf mode vm (λ _ _, Ok tt) (λ _ _, Ok tt) config_depths id_expiration eq_refl clocks h0 d0
    [block1; block2] state2.1 state2.2 depth0).
  - vm_compute. discriminate.
  - assert (Hfull : full_validation conf complete false) by (split; [done|split; [done|split; [by intros [|]|done]]]).
    destruct (accepted block1 (h0, d0)) as (t1 & q1 & H1 & E1); [vm_compute; reflexivity|].
    destruct (accepted block2 state1) as (t2 & q2 & H2 & E2); [vm_compute; reflexivity|].
    change [block1; block2] with (([] ++ [block1]) ++ [block2]).
    apply (chain_block _ _ _ _ _ _ _ _ _ state1.1 state1.2 complete false block2 _ t2 q2);
      [|done|vm_compute; split; reflexivity|exact H2|unfold state2; by rewrite <- E2].
    apply (chain_block _ _ _ _ _ _ _ _ _ h0 d0 complete false block1 _ t1 q1);
      [constructor|done|vm_compute; split; reflexivity|exact H1|unfold state1; by rewrite <- E1].
Defined.

Lemma genesis_well_formed_witness :
  ∃ d, initialize_database (Sig := Z) genesis digest_zero [] = Ok d ∧ genesis_db genesis [] d ∧
    size (ch_accounts (bd_chain d)) = 3%nat.
Proof.
  destruct (genesis_well_formed (Sig := Z) genesis digest_zero []) as (d & Hd & Hg); [by vm_compute..|].
  exists d. split; [done|]. split; [done|]. rewrite (gd_accounts _ _ _ Hg). vm_compute. reflexivity.
Defined.

Lemma producers_control_their_permissions_witness :
  let l := [ProducerKey 5 100; ProducerKey 6 101; ProducerKey 7 102; ProducerKey 8 103] in
  ∃ db' t2 t3 t4, update_producers_authority l (ch_authorization (bd_chain d0)) = Ok db' ∧
    (auth_of db' config.producers_account_name <$> producer_permissions) =
      (λ t, Some (producers_authority l t)) <$> [3; t2; t3; t4].
Proof.
  intros l. destruct d0_wf as [_ Hg].
  destruct (producers_control_their_permissions l (ch_authorization (bd_chain d0)))
    as (db' & t1 & t2 & t3 & t4 & Hu & _ & Ha & Ht & _); [apply (gd_native _ _ _ Hg)|apply (gd_producers _ _ _ Hg)|done|].
  exists db', t2, t3, t4. split; [done|]. rewrite Ha. destruct (Ht 2) as [H2 _]. destruct (Ht 3) as [H3 _]. cbn in H2, H3.
  by replace t1 with 3 by lia.
Defined.

Lemma push_transaction_all_or_nothing_witness :
  ∃ s', push_transaction conf mode vm (λ _ _, Ok tt) (λ _ _, Ok tt) pending md false tick time_point_maximum 1000 true world0 =
    Some (Ok None, s') ∧ kept_run conf pending md false world0 s' ∧ length (bw_receipts s') = 1%nat.
Proof.
  pose proof (push_transaction_all_or_nothing conf mode vm (λ _ _, Ok tt) (λ _ _, Ok tt) pending config_depths md false tick
    time_point_maximum 1000 true world0 depth0) as H.
  assert (Hc : match push_transaction conf mode vm (λ _ _, Ok tt) (λ _ _, Ok tt) pending md false tick time_point_maximum 1000 true world0 with
    | Some (Ok None, s') => length (bw_receipts s') = 1%nat | _ => False end) by (vm_compute; reflexivity).
  destruct (push_transaction _ _ _ _ _ _ _ _ _ _ _ _ _) as [[[[e|]|e] s']|]; [done| |done|done].
  exists s'. split; [done|]. split; [exact H|done].
Defined.

