(* ===== verification/ContractCalls.v ===== *)
(** * Inline actions and deferred transactions of contracts

    A contract acts for an account only if the account has given its permission
    to the [eosio.code] of the contract, and pays for the deferred transactions
    it sends. *)

From S2P Require Import Prelude Exceptions Config Name Merkle Database ResourceLimits Authority AuthorityChecker Transaction ChainConfig AuthorizationManager StateMonad IteratorCache ChainDatabase TransactionContext ApplyContext ContractTables TableCalls TableTheorems EosioContract NativeActions ActionExecution ExecutionTheorems.

Lemma foldM_unit {A} (f : unit → A → res unit) l : foldM f tt l = Ok tt → ∀ x, x ∈ l → f tt x = Ok tt.
Proof.
  induction l as [|y l IH]; intros H x Hx; [by apply not_elem_of_nil in Hx|]. cbn in H.
  destruct (f tt y) as [[]|] eqn:Hy; [|done]. apply elem_of_cons in Hx as [->|Hx]; [done|by apply IH].
Qed.

Section calls.
Context {K : Type} `{EqDecision K} {ncodec : native_codec K} {tcodec : trx_codec} {sched : schedules K}.
Context (control : controller_view) (checktime : nat → res unit) (act : action).
Implicit Types (db : chain_db K) (w : world K).

(** ** Authorization *)

(** The action is authorized by the permission of a contract to act. *)
Definition contract_authorized db (contract delay : Z) (a : action) : Prop :=
  action_authorized (ch_generated db) unpack_transaction unpack_updateauth unpack_deleteauth unpack_linkauth
    unpack_unlinkauth unpack_canceldelay (ch_configuration db) (ch_authorization db) []
    [PermissionLevel contract config.eosio_code_name] delay a.

Lemma check_auth_authorized db acts contract delay a :
  authorities_wf (ch_authorization db) →
  check_auth checktime db acts [PermissionLevel contract config.eosio_code_name] delay = Ok tt → a ∈ acts →
  contract_authorized db contract delay a.
Proof. intros Hwf H Ha. by eapply check_authorization_authorized. Qed.

(** Whether the calls of this contract are checked. *)
Definition checked_contract w : Prop := skip_auth_check control = false ∧ ac_privileged (w_ctx w) = false.

(** The action was added to the inline actions, which it may be. *)
Record inline_sent (a : action) w w' : Prop := {
  is_world : w' = World (w_db w) (w_trx w) (with_inline (w_ctx w) (inline_actions (w_ctx w) ++ [a]));
  is_target : is_account (w_db w) (act_account a) = true;
  is_levels level : level ∈ act_authorization a →
    is_account (w_db w) (actor level) = true ∧ permission_exists (w_db w) level = Ok true;
  is_authorized : checked_contract w → act_account a ≠ ac_receiver (w_ctx w) →
    contract_authorized (w_db w) (ac_receiver (w_ctx w)) (pending_block_time control - published (w_trx w)) a }.

Lemma check_inline_auth_Ok db level :
  check_inline_auth db tt level = Ok tt → is_account db (actor level) = true ∧ permission_exists db level = Ok true.
Proof. unfold check_inline_auth. by destruct (is_account db (actor level)), (permission_exists db level) as [[]|]. Qed.

(** C33: A contract can only send inline actions to existing accounts with
    existing authorizations; unless the contract is privileged, sends the action
    to itself or checks are off, every authorization of the action is granted by
    the permissions that its accounts gave to the contract. *)
Theorem inline_actions_authorized a w w' :
  authorities_wf (ch_authorization (w_db w)) → execute_inline control checktime a w = Done tt w' → inline_sent a w w'.
Proof.
  intros Hwf Hrun. revert Hrun. apply (lwp_Done _ (λ _, inline_sent a w) _ tt w'). unfold execute_inline, put_ctx.
  do 5 lwp_step. lwp_step. match goal with H : foldM _ _ _ = Ok ?x |- _ => destruct x; rename H into Hf end.
  assert (Hl : ∀ level, level ∈ act_authorization a →
    is_account (w_db w) (actor level) = true ∧ permission_exists (w_db w) level = Ok true).
  { intros level Hin. apply check_inline_auth_Ok. by eapply foldM_unit in Hf. }
  lwp_step. destruct (negb (skip_auth_check control) && _ && _) eqn:Hc; repeat lwp_step; constructor; try done.
  - intros [Hs Hp] Hne. match goal with H : check_auth _ _ _ _ _ = Ok ?x |- _ => destruct x; rename H into Ha end.
    eapply check_auth_authorized; [done|exact Ha|apply list_elem_of_here].
  - intros [Hs Hp] Hne. rewrite Hs, Hp in Hc. cbn in Hc. lia.
Qed.

(** ** Deferred transactions *)

Record deferred_allowed (payer : Z) (t : transaction) w : Prop := {
  da_no_context_free : context_free_actions t = [];
  da_payer : checked_contract w → payer = ac_receiver (w_ctx w) ∨ has_authorization act payer = true;
  da_authorized a b : checked_contract w → a ∈ actions t → b ∈ actions t → act_account b ≠ ac_receiver (w_ctx w) →
    contract_authorized (w_db w) (ac_receiver (w_ctx w)) (delay_sec (header t) * 1000000) a }.

Lemma check_deferred_auth_spec payer t w Q :
  authorities_wf (ch_authorization (w_db w)) → context_free_actions t = [] →
  (∀ used, deferred_allowed payer t w → Q tt (World (w_db w) (w_trx w) (with_used (w_ctx w) used))) →
  wp (check_deferred_auth control checktime act payer t) Q w.
Proof.
  intros Hwf Hcf HQ. set (r := ac_receiver (w_ctx w)).
  assert (Hsame : World (w_db w) (w_trx w) (with_used (w_ctx w) (used_authorizations (w_ctx w))) = w)
    by (by destruct w as [? ? []]).
  unfold check_deferred_auth. do 2 wp_step. fold r. destruct (_ && _) eqn:Hc.
  2: { wp_step. rewrite <- Hsame. apply HQ.
       assert (Hn : checked_contract w → False) by (intros [Hs Hp]; by rewrite Hs, Hp in Hc).
       constructor; [done|intros H; by destruct (Hn H)|intros a b H; by destruct (Hn H)]. }
  assert (Hrest : ∀ used, payer = r ∨ has_authorization act payer = true →
    wp (if existsb (λ a, negb (act_account a =? r)) (actions t)
        then lift (check_auth checktime (w_db w) (actions t) [PermissionLevel r config.eosio_code_name]
                     (delay_sec (header t) * 1000000))
        else mret tt) Q (World (w_db w) (w_trx w) (with_used (w_ctx w) used))).
  { intros used Hp. destruct (existsb _ _) eqn:He.
    - apply wp_lift. intros [] Ha. apply HQ. constructor; [done|done|]. intros a b _ Hin _ _.
      by eapply check_auth_authorized.
    - wp_step. apply HQ. constructor; [done|done|]. intros a b _ _ Hin Hne. apply not_true_iff_false in He.
      destruct He. apply existsb_exists. exists b. split; [by apply list_elem_of_In|]. lia. }
  wp_step. destruct (Z.eqb_spec payer r) as [->|Hne]; cbn [negb].
  - wp_step. rewrite <- Hsame. apply Hrest. by left.
  - apply wp_require_auth. intros used Ha. apply Hrest. by right.
Qed.

Abbreviation prepared := (prepare_deferred control).

Lemma prepared_allowed payer t w : deferred_allowed payer (prepared t) w → deferred_allowed payer t w.
Proof. intros [H1 H2 H3]. by constructor. Qed.

(** The key under which the transaction is stored; a replaced one keeps its id. *)
Definition deferred_key db (receiver sender_id : Z) (t : transaction) : digest_type :=
  match find_generated db receiver sender_id with
  | Some old => gto_trx_id old
  | None => transaction_id t
  end.

(** The bytes that the payer of a replaced transaction still pays for. *)
Definition leaked db (receiver sender_id a : Z) : Z :=
  match find_generated db receiver sender_id with
  | Some old => if gto_payer old =? a then generated_bytes old else 0
  | None => 0
  end.

Definition stored_deferred db receiver sender_id payer t : generated_transaction_object :=
  deferred_object control db (deferred_key db receiver sender_id t) receiver sender_id payer t.

Definition with_deferred db receiver sender_id payer t : chain_db K :=
  with_generated db (<[deferred_key db receiver sender_id t := stored_deferred db receiver sender_id payer t]> (ch_generated db)).

Lemma put_deferred_spec replace receiver sender_id payer t w Q :
  ((∀ g, find_generated (w_db w) receiver sender_id = None → ch_generated (w_db w) !! transaction_id t = Some g → False) →
   Q tt (World (with_deferred (w_db w) receiver sender_id payer t) (w_trx w) (w_ctx w))) →
  wp (put_deferred control replace receiver sender_id payer t) Q w.
Proof.
  unfold put_deferred, with_deferred, stored_deferred, deferred_key. intros HQ. do 2 wp_step.
  destruct (find_generated (w_db w) receiver sender_id) as [old|] eqn:Hf.
  - do 2 wp_step. wp_step. wp_step. unfold put_generated. wp_step. by apply HQ.
  - wp_step. apply wp_lift. intros db (Hnone & _ & ->)%create_generated_Ok. unfold put_db. wp_step.
    apply HQ. intros g _ Hg. cbn in Hnone. congruence.
Qed.

Lemma with_deferred_billed db receiver sender_id payer t a :
  native_wf db →
  (∀ g, find_generated db receiver sender_id = None → ch_generated db !! transaction_id t = Some g → False) →
  native_billed (with_deferred db receiver sender_id payer t) a =
  native_billed db a - leaked db receiver sender_id a +
  (if payer =? a then billable.generated_transaction + Z.of_nat (length (pack_transaction t)) else 0).
Proof.
  intros Hw Hfresh. unfold native_billed, leaked, with_deferred, stored_deferred, deferred_key, billed_generated. cbn.
  destruct (find_generated db receiver sender_id) as [old|] eqn:Hf.
  - apply find_generated_Some in Hf as (k & Hk & _). destruct (nw_generated _ Hw _ _ Hk) as [-> _].
    rewrite (map_sum_insert _ _ _ _ _ Hk). unfold generated_bytes. cbn. lia.
  - rewrite map_sum_insert_fresh; [unfold generated_bytes; cbn; lia|].
    destruct (ch_generated db !! transaction_id t) eqn:Hg; [|done]. by edestruct Hfresh.
Qed.

Lemma with_deferred_wf db receiver sender_id payer t :
  native_wf db → Z.of_nat (length (pack_transaction t)) < 2 ^ 32 → native_wf (with_deferred db receiver sender_id payer t).
Proof.
  intros [W1 W2 W3 W4 W5] Hl. constructor; try done. cbn. intros k g [[<- <-]|[_ ?]]%lookup_insert_Some; [|eauto].
  cbn. split; [done|lia].
Qed.

(** What is left after a deferred transaction was sent. *)
Record deferred_sent (sender_id payer : Z) (t : transaction) w w' : Prop := {
  ds_allowed : deferred_allowed payer t w;
  ds_generated : ch_generated (w_db w') =
    ch_generated (with_deferred (w_db w) (ac_receiver (w_ctx w)) sender_id payer (prepared t));
  ds_free a : free_ram (w_db w') a = free_ram (w_db w) a + leaked (w_db w) (ac_receiver (w_ctx w)) sender_id a }.

Lemma schedule_deferred_spec sender_id payer t replace w :
  native_wf (w_db w) → authorities_wf (ch_authorization (w_db w)) →
  Z.of_nat (length (pack_transaction (prepared t))) < 2 ^ 32 →
  wp (schedule_deferred_transaction control checktime act sender_id payer t replace)
    (λ _ w', deferred_sent sender_id payer t w w') w.
Proof.
  intros Hw Hwf Hlen. unfold schedule_deferred_transaction. wp_step. wp_step.
  destruct (context_free_actions t) eqn:Hcf; [|done]. do 2 wp_step. wp_step. wp_step. wp_step. apply wp_lift. intros n _.
  wp_step. unfold put_trx. do 2 wp_step. apply check_deferred_auth_spec; [done|done|]. intros used Hall.
  wp_step. apply put_deferred_spec. cbn [w_db w_trx w_ctx]. intros Hfresh. do 2 wp_step.
  assert (Hb : 0 < billable.generated_transaction < 2 ^ 20) by (vm_compute; split; congruence).
  rewrite (wrap_id 32) by (unfold is_unsigned; lia). rewrite wrap_id by (unfold is_unsigned; lia).
  rewrite swrap_id by (unfold is_signed; lia).
  set (r := ac_receiver (w_ctx w)) in *. pose proof (with_deferred_wf _ r sender_id payer _ Hw Hlen) as Hw1.
  eapply wp_mono; [apply add_ram_usage_spec; [exact (nw_usage _ Hw1)|unfold is_signed; lia]|].
  intros [] w' (F & Hc & _ & _ & Hram). pose proof (fr_db _ _ F) as Hdb. rewrite Hc in Hdb. cbn [w_db] in Hdb. constructor.
  - destruct (prepared_allowed _ _ _ Hall) as [D1 D2 D3]. by constructor.
  - by rewrite Hdb.
  - intros a'. unfold free_ram. specialize (Hram a'). unfold ram_of in Hram. rewrite Hram, Hc. cbn [w_db].
    assert (native_billed (w_db w') a' = native_billed (with_deferred (w_db w) r sender_id payer (prepared t)) a') as ->
      by (by rewrite Hdb).
    rewrite with_deferred_billed by done. rewrite (Z.eqb_sym a' payer). fold r.
    cbn [with_deferred with_generated ch_limits ch_contracts]. destruct (payer =? a'); lia.
Qed.

Abbreviation schedule := (schedule_deferred_transaction control checktime act).


(** A deferred transaction is stored for its sender and billed to its payer.
    A transaction that replaces another one of the sender keeps the id of the
    old one, and the payer of the old one goes on paying for it: what is not
    accounted for grows by the size of the old transaction. *)
Theorem deferred_transactions_bill_ram sender_id payer t replace w w' :
  native_wf (w_db w) → authorities_wf (ch_authorization (w_db w)) →
  Z.of_nat (length (pack_transaction (prepared t))) < 2 ^ 32 →
  schedule sender_id payer t replace w = Done tt w' →
  let receiver := ac_receiver (w_ctx w) in
  let key := deferred_key (w_db w) receiver sender_id (prepared t) in
  ch_generated (w_db w') =
    <[key := deferred_object control (w_db w) key receiver sender_id payer (prepared t)]> (ch_generated (w_db w)) ∧
  ∀ a, free_ram (w_db w') a = free_ram (w_db w) a + leaked (w_db w) receiver sender_id a.
Proof.
  intros Hw Hwf Hlen Hrun.
  destruct (wp_Done _ _ _ _ _ (schedule_deferred_spec _ _ _ replace _ Hw Hwf Hlen) Hrun) as [_ Hg Hf]. done.
Qed.
End calls.

(** ** Examples *)

#[local] Existing Instance native_example.codec.
#[local] Existing Instance execution.codec.
#[local] Existing Instance execution.one_producer.

Module sender.
(** The active permission of account 8 is given to the contract of account 7. *)
Definition contract7 : permission_level := PermissionLevel 7 config.eosio_code_name.
Definition permissions_db : @authorization_db Z :=
  match create_permission native_example.permissions_db 0 8 config.active_name 0
          (Authority 1 [] [PermissionLevelWeight contract7 1] []) 0 with
  | Ok (_, a) => a
  | Throw _ => native_example.permissions_db
  end.

(** Account 8 pays for an earlier transaction of account 7. *)
Definition old : generated_transaction_object := GeneratedTransaction (Digest 1 1 1 1) 7 5 8 0 0 0 [0; 0].
Definition db : chain_db Z :=
  with_generated (with_authorization native_example.db permissions_db) {[Digest 1 1 1 1 := old]}.
Definition start : world Z :=
  World db (with_net bills.fresh (Net 0 1000000 1000000 true false)) (make_apply_context execution.act 7).

Definition for8 : action := Action 8 (N_ "hi") [PermissionLevel 8 config.active_name] [].
Definition t : transaction := Transaction (TransactionHeader 1000 0 0 0 0 0 0) [] [for8] [].

Lemma db_wf : native_wf db.
Proof.
  destruct native_example.start_wf as [W1 W2 W3 W4 _]. constructor; try done.
  - unfold db. cbn [with_generated with_authorization ch_authorization]. unfold permissions_db.
    destruct (create_permission _ _ _ _ _ _ _) as [[p a]|] eqn:H; [|done].
    eapply create_permission_auth; [exact W2|by left|done].
  - assert (H : forallb (λ p, get_billable_size key_pack_size (po_auth p) <? 2 ^ 40) (permissions permissions_db) = true)
      by (vm_compute; reflexivity).
    intros p Hp. rewrite forallb_forall in H. by apply Z.ltb_lt, H, list_elem_of_In.
  - intros k g. cbn [db with_generated ch_generated]. intros [<- <-]%lookup_singleton_Some. by split.
Qed.

Lemma weights : authorities_wf (ch_authorization db).
Proof.
  assert (H : forallb (λ p : @permission_object Z,
    match po_auth p with
    | Authority _ [] [] [] | Authority _ [KeyWeight _ 1] [] [] | Authority _ [] [PermissionLevelWeight _ 1] [] => true
    | _ => false
    end) (permissions permissions_db) = true) by (vm_compute; reflexivity).
  intros p Hp. rewrite forallb_forall in H. specialize (H p (proj1 (list_elem_of_In _ _) Hp)). unfold weights_16bit, is_unsigned.
  repeat (case_match; try discriminate H); cbn; split_and!; repeat constructor; cbn; lia.
Qed.

Lemma short : Z.of_nat (length (pack_transaction (prepare_deferred bills.control t))) < 2 ^ 32.
Proof. by vm_compute. Qed.

Definition send (replace : bool) (w : world Z) : outcome (world Z) unit :=
  schedule_deferred_transaction bills.control (λ _, Ok tt) execution.act 5 7 t replace w.
End sender.

Lemma inline_actions_authorized_witness :
  ∃ w', execute_inline bills.control (λ _, Ok tt) sender.for8 sender.start = Done tt w' ∧
    contract_authorized sender.db 7 (pending_block_time bills.control) sender.for8.
Proof.
  destruct (execute_inline bills.control (λ _, Ok tt) sender.for8 sender.start) as [[] w'| | |] eqn:Hrun;
    [|by vm_compute in Hrun..].
  exists w'. split; [reflexivity|].
  apply (inline_actions_authorized bills.control (λ _, Ok tt) sender.for8 sender.start w' sender.weights Hrun);
    [by split|discriminate].
Defined.


Lemma deferred_transactions_bill_ram_witness :
  ∃ w' g, sender.send true sender.start = Done tt w' ∧ ch_generated (w_db w') !! Digest 1 1 1 1 = Some g ∧
    gto_packed_trx g = pack_transaction sender.t ∧ gto_trx_id g ≠ transaction_id sender.t ∧ gto_payer g = 7 ∧
    free_ram (w_db w') 8 = free_ram sender.db 8 + generated_bytes sender.old.
Proof.
  destruct (sender.send true sender.start) as [[] w'| | |] eqn:Hrun; [|by vm_compute in Hrun..].
  destruct (deferred_transactions_bill_ram bills.control (λ _, Ok tt) execution.act 5 7 sender.t true
    sender.start w' sender.db_wf sender.weights sender.short Hrun) as [Hg Hf].
  exists w'. eexists. split; [reflexivity|]. split; [rewrite Hg; reflexivity|].
  split; [reflexivity|]. split; [discriminate|]. split; [reflexivity|]. exact (Hf 8).
Defined.
