(* ===== verification/Token.v ===== *)
(** * The token contract (contracts/eosio.token, contracts/eosiolib/asset.hpp
      and symbol.hpp)

    The contract that keeps the supply of tokens and the balances of accounts.
    Its tables are finite maps; who authorized the action and which accounts
    exist come from the chain and are parameters.  The main theorem is that
    balances always add up to the supply. *)

From S2P Require Import Prelude Exceptions Config Name Database.

(** ** Symbols and assets *)

(** A failed [eosio_assert]. *)
Definition eosio_assert (c : bool) : res unit := EOS_ASSERT c eosio_assert_message_exception.

(** The [do] loop of [is_valid_symbol]: the remaining bytes are zero. *)
Fixpoint padding_is_zero (n : nat) (sym : Z) : bool :=
  match n with
  | O => true
  | S n =>
      let sym := Z.shiftr sym 8 in
      if negb (Z.land sym 0xff =? 0) then false else padding_is_zero n sym
  end.

(** The [for] loop with [n] rounds left. *)
Fixpoint valid_symbol_loop (n : nat) (sym : Z) : bool :=
  match n with
  | O => true
  | S n =>
      let c := Z.land sym 0xff in
      if negb ((65 <=? c) && (c <=? 90)) then false
      else
        let sym := Z.shiftr sym 8 in
        if Z.land sym 0xff =? 0 then padding_is_zero (S n) sym else valid_symbol_loop n sym
  end.

Definition is_valid_symbol (sym : Z) : bool := valid_symbol_loop 7 (Z.shiftr sym 8).

(** [symbol_type::name]. *)
Definition symbol_code (value : Z) : Z := Z.shiftr value 8.

Record asset : Set := Asset { amount : Z; symbol : Z }.

#[export] Instance asset_eq_dec : EqDecision asset.
Proof. solve_decision. Defined.

Definition max_amount : Z := Z.shiftl 1 62 - 1.

Definition is_amount_within_range (a : asset) : bool := (- max_amount <=? amount a) && (amount a <=? max_amount).
Definition asset_is_valid (a : asset) : bool := is_amount_within_range a && is_valid_symbol (symbol a).

(** [operator-=] and [operator+=]. *)
Definition asset_sub (x a : asset) : res asset :=
  eosio_assert (symbol a =? symbol x);;
  let r := i64 (amount x - amount a) in
  eosio_assert (- max_amount <=? r);;
  eosio_assert (r <=? max_amount);;
  mret (Asset r (symbol x)).

Definition asset_add (x a : asset) : res asset :=
  eosio_assert (symbol a =? symbol x);;
  let r := i64 (amount x + amount a) in
  eosio_assert (- max_amount <=? r);;
  eosio_assert (r <=? max_amount);;
  mret (Asset r (symbol x)).

(** ** Tables *)

Record currency_stats : Set := Stats { supply : asset; max_supply : asset; issuer : Z }.

(** [stats] is keyed by the symbol code, which is also its scope; [accounts]
    by its scope, the owner, and the symbol code. *)
Record token_db : Set := TokenDb {
  stats : gmap Z currency_stats;
  accounts : gmap (Z * Z) asset }.

Definition token_db_empty : token_db := TokenDb ∅ ∅.

(** An inline [transfer] that an action sends. *)
Record transfer_args : Set := TransferArgs {
  tr_from : Z; tr_to : Z; tr_quantity : asset; tr_memo : string }.

(** What an action leaves: the tables, the accounts notified and the inline
    actions sent. *)
Record effects : Set := Effects {
  ef_db : token_db; ef_notified : list Z; ef_inline : list transfer_args }.

Definition sub_balance (db : token_db) (owner : Z) (value : asset) : res token_db :=
  let key := (owner, symbol_code (symbol value)) in
  from ← of_option (fc_throw_exception eosio_assert_message_exception) (accounts db !! key);
  eosio_assert (amount from >=? amount value);;
  if amount from =? amount value
  then mret (TokenDb (stats db) (delete key (accounts db)))
  else
    balance ← asset_sub from value;
    mret (TokenDb (stats db) (<[key := balance]> (accounts db))).

(** The payer of the row is not part of the tables. *)
Definition add_balance (db : token_db) (owner : Z) (value : asset) : res token_db :=
  let key := (owner, symbol_code (symbol value)) in
  match accounts db !! key with
  | None => mret (TokenDb (stats db) (<[key := value]> (accounts db)))
  | Some to =>
      balance ← asset_add to value;
      mret (TokenDb (stats db) (<[key := balance]> (accounts db)))
  end.

Definition get_supply (db : token_db) (sym : Z) : res asset :=
  st ← of_option (fc_throw_exception eosio_assert_message_exception) (stats db !! sym);
  mret (supply st).

Definition get_balance (db : token_db) (owner sym : Z) : res asset :=
  of_option (fc_throw_exception eosio_assert_message_exception) (accounts db !! (owner, sym)).

(** ** Balances add up to the supply *)

Definition balance_of (db : token_db) (owner code : Z) : Z :=
  match accounts db !! (owner, code) with Some a => amount a | None => 0 end.

(** All balances of the token with the given symbol code. *)
Definition total (db : token_db) (code : Z) : Z :=
  map_sum (λ k a, if k.2 =? code then amount a else 0) (accounts db).

Record token_wf (db : token_db) : Prop := {
  tw_stats : ∀ c st, stats db !! c = Some st →
    symbol_code (symbol (supply st)) = c ∧ symbol (max_supply st) = symbol (supply st) ∧
    0 <= amount (supply st) <= amount (max_supply st) ∧ amount (max_supply st) <= max_amount;
  tw_accounts : ∀ o c a, accounts db !! (o, c) = Some a →
    ∃ st, stats db !! c = Some st ∧ symbol a = symbol (supply st) ∧ 0 < amount a;
  tw_total : ∀ c st, stats db !! c = Some st → total db c = amount (supply st) }.

Lemma max_amount_eq : max_amount = 2 ^ 62 - 1.
Proof. done. Qed.

Lemma token_db_empty_wf : token_wf token_db_empty.
Proof. by constructor. Qed.

Lemma total_insert db st o c a :
  total (TokenDb st (<[(o, c) := a]> (accounts db))) c = total db c - balance_of db o c + amount a.
Proof.
  unfold total, balance_of. cbn. destruct (accounts db !! (o, c)) as [b|] eqn:Hb.
  - rewrite (map_sum_insert _ _ _ b) by done. cbn. rewrite Z.eqb_refl. done.
  - rewrite map_sum_insert_fresh by done. cbn. rewrite Z.eqb_refl. lia.
Qed.

Lemma total_insert_ne db st o c c' a :
  c' ≠ c → total (TokenDb st (<[(o, c) := a]> (accounts db))) c' = total db c'.
Proof.
  intros Hc. unfold total. cbn. destruct (accounts db !! (o, c)) as [b|] eqn:Hb.
  - rewrite (map_sum_insert _ _ _ b) by done. cbn. rewrite (proj2 (Z.eqb_neq _ _)) by done. lia.
  - rewrite map_sum_insert_fresh by done. cbn. rewrite (proj2 (Z.eqb_neq _ _)) by done. lia.
Qed.

Lemma total_delete db st o c c' :
  total (TokenDb st (delete (o, c) (accounts db))) c' =
  if c =? c' then total db c' - balance_of db o c else total db c'.
Proof.
  unfold total, balance_of. cbn. destruct (accounts db !! (o, c)) as [b|] eqn:Hb.
  - rewrite (map_sum_delete _ _ _ b) by done. cbn. case_match; lia.
  - rewrite delete_id by done. case_match; lia.
Qed.

(** A single balance, and two balances of different owners, are within the
    supply. *)
Lemma balance_le_total db o c :
  (∀ o c a, accounts db !! (o, c) = Some a → 0 < amount a) → 0 <= balance_of db o c <= total db c.
Proof.
  intros Hpos. pose proof (total_delete db (stats db) o c c) as Hd. rewrite Z.eqb_refl in Hd.
  assert (0 <= total (TokenDb (stats db) (delete (o, c) (accounts db))) c).
  { apply map_sum_nonneg. cbn. intros [o' c'] a [_ Ha]%lookup_delete_Some. apply Hpos in Ha. case_match; lia. }
  assert (0 <= balance_of db o c).
  { unfold balance_of. case_match eqn:Ha; [|lia]. apply Hpos in Ha. lia. }
  lia.
Qed.

Lemma add_balance_ok db owner v :
  (∀ a, accounts db !! (owner, symbol_code (symbol v)) = Some a → symbol a = symbol v) →
  0 <= balance_of db owner (symbol_code (symbol v)) → 0 < amount v →
  balance_of db owner (symbol_code (symbol v)) + amount v <= max_amount →
  add_balance db owner v = Ok (TokenDb (stats db)
    (<[(owner, symbol_code (symbol v)) :=
       Asset (balance_of db owner (symbol_code (symbol v)) + amount v) (symbol v)]> (accounts db))).
Proof.
  intros Hsym H0 Hv Hmax. unfold add_balance, balance_of in *.
  destruct (accounts db !! _) as [a|] eqn:Ha; cbn.
  - unfold asset_add, eosio_assert. rewrite max_amount_eq in *.
    rewrite (swrap_id 64) by (unfold is_signed; lia). rewrite (Hsym a eq_refl).
    repeat pass_assert. done.
  - by destruct v.
Qed.

Lemma sub_balance_ok db owner v a :
  accounts db !! (owner, symbol_code (symbol v)) = Some a → symbol a = symbol v →
  0 < amount v <= amount a → amount a <= max_amount →
  sub_balance db owner v = Ok (TokenDb (stats db)
    (if amount a =? amount v then delete (owner, symbol_code (symbol v)) (accounts db)
     else <[(owner, symbol_code (symbol v)) := Asset (amount a - amount v) (symbol v)]> (accounts db))).
Proof.
  intros Ha Hsym Hv Hmax. unfold sub_balance. rewrite Ha. cbn [of_option]. unfold eosio_assert.
  change (Ok a ≫= ?f) with (f a). cbn beta. pass_assert. destruct (amount a =? amount v); [done|].
  unfold asset_sub, eosio_assert. rewrite max_amount_eq in *. rewrite (swrap_id 64) by (unfold is_signed; lia).
  rewrite Hsym. repeat pass_assert. done.
Qed.

Lemma token_wf_positive db o c a : token_wf db → accounts db !! (o, c) = Some a → 0 < amount a.
Proof. intros Hwf Ha. by destruct (tw_accounts db Hwf o c a Ha) as (_ & _ & _ & ?). Qed.

(** Taking [q] from an owner who has it: every balance is known afterwards and
    all of them are positive and of the token's symbol. *)
Lemma sub_balance_wf db owner q st db' :
  let c := symbol_code (symbol q) in
  token_wf db → stats db !! c = Some st → symbol q = symbol (supply st) → 0 < amount q →
  sub_balance db owner q = Ok db' →
  amount q <= balance_of db owner c ∧ stats db' = stats db ∧
  (∀ o c', balance_of db' o c' = if decide ((o, c') = (owner, c)) then balance_of db o c' - amount q
                                  else balance_of db o c') ∧
  (∀ o c' a, accounts db' !! (o, c') = Some a →
     ∃ st', stats db !! c' = Some st' ∧ symbol a = symbol (supply st') ∧ 0 < amount a) ∧
  (∀ c', total db' c' = if decide (c' = c) then total db c' - amount q else total db c').
Proof.
  intros c Hwf Hst Hsym Hq H.
  assert (Ha : ∃ a, accounts db !! (owner, c) = Some a ∧ amount q <= amount a).
  { unfold sub_balance, eosio_assert in H. destruct (accounts db !! _) as [a|] eqn:Ha; simplify_res; simplify_eq.
    eexists. split; [done|]. lia. }
  destruct Ha as (a & Ha & Hle).
  destruct (tw_accounts db Hwf _ _ _ Ha) as (st' & Hst' & Hsa & Hpos). assert (st' = st) as -> by congruence.
  assert (Hbal : balance_of db owner c = amount a) by (unfold balance_of; by rewrite Ha).
  assert (Hmax : amount a <= max_amount).
  { pose proof (balance_le_total db owner c (λ o c a, token_wf_positive db o c a Hwf)).
    pose proof (tw_total db Hwf c st Hst). pose proof (tw_stats db Hwf c st Hst). lia. }
  rewrite (sub_balance_ok db owner q a) in H by (done || lia || congruence). injection H as <-. cbn. fold c.
  split_and!; [lia|done|..].
  - intros o c'. unfold balance_of. cbn. destruct (Z.eqb_spec (amount a) (amount q)) as [He|He]; case_decide as Hd.
    + injection Hd as -> ->. rewrite lookup_delete_eq, Ha. lia.
    + by rewrite lookup_delete_ne.
    + injection Hd as -> ->. rewrite lookup_insert_eq, Ha. done.
    + by rewrite lookup_insert_ne.
  - intros o c' b. destruct (Z.eqb_spec (amount a) (amount q)) as [He|He].
    + intros [_ Hb]%lookup_delete_Some. by apply (tw_accounts db Hwf o).
    + intros [[[= <- <-] <-]|[_ Hb]]%lookup_insert_Some; [|by apply (tw_accounts db Hwf o)].
      exists st. cbn. split_and!; [done|done|lia].
  - intros c'. destruct (Z.eqb_spec (amount a) (amount q)) as [He|He]; case_decide as Hd.
    + subst c'. rewrite total_delete, Z.eqb_refl, Hbal. lia.
    + rewrite total_delete, (proj2 (Z.eqb_neq _ _)) by auto. done.
    + subst c'. rewrite total_insert, Hbal. cbn. lia.
    + by rewrite total_insert_ne.
Qed.

(** Adding [q], which the supply has room for. *)
Lemma add_balance_wf db owner q st :
  let c := symbol_code (symbol q) in
  (∀ c st, stats db !! c = Some st →
    symbol_code (symbol (supply st)) = c ∧ symbol (max_supply st) = symbol (supply st) ∧
    0 <= amount (supply st) <= amount (max_supply st) ∧ amount (max_supply st) <= max_amount) →
  (∀ o c' a, accounts db !! (o, c') = Some a →
     ∃ st', stats db !! c' = Some st' ∧ symbol a = symbol (supply st') ∧ 0 < amount a) →
  (∀ c' st', stats db !! c' = Some st' →
     total db c' = amount (supply st') - if decide (c' = c) then amount q else 0) →
  stats db !! c = Some st → symbol q = symbol (supply st) → 0 < amount q →
  ∃ db', add_balance db owner q = Ok db' ∧ token_wf db' ∧ stats db' = stats db ∧
    ∀ o c', balance_of db' o c' = if decide ((o, c') = (owner, c)) then balance_of db o c' + amount q
                                   else balance_of db o c'.
Proof.
  intros c Hstats Hacc Htot Hst Hsym Hq.
  assert (Hpos : ∀ o c a, accounts db !! (o, c) = Some a → 0 < amount a).
  { intros o c' a Ha. by destruct (Hacc o c' a Ha) as (_ & _ & _ & ?). }
  pose proof (balance_le_total db owner c Hpos) as Hb.
  pose proof (Htot c st Hst) as Ht. rewrite decide_True in Ht by done. pose proof (Hstats c st Hst) as Hs.
  eexists. split; [apply add_balance_ok; [|fold c; lia|done|fold c; lia]|].
  { intros a Ha. destruct (Hacc owner c a Ha) as (st' & Hst' & -> & _). congruence. }
  fold c. split_and!; [constructor|done|]; cbn.
  - done.
  - intros o c' a [[[= <- <-] <-]|[_ Ha]]%lookup_insert_Some; [|by apply (Hacc o)].
    exists st. cbn. split_and!; [done|done|lia].
  - intros c' st' Hst'. specialize (Htot c' st' Hst'). case_decide as Hd.
    + subst c'. rewrite total_insert. cbn. lia.
    + rewrite total_insert_ne by done. lia.
  - intros o c'. unfold balance_of at 1. cbn. case_decide as Hd.
    + injection Hd as -> ->. by rewrite lookup_insert_eq.
    + by rewrite lookup_insert_ne.
Qed.

(** What was taken from one owner can be given to another. *)
Lemma move_balance db from to q st db1 :
  token_wf db → stats db !! symbol_code (symbol q) = Some st → symbol q = symbol (supply st) → 0 < amount q →
  sub_balance db from q = Ok db1 →
  ∃ db2, add_balance db1 to q = Ok db2 ∧ token_wf db2 ∧ stats db2 = stats db ∧
    ∀ o c, balance_of db2 o c =
      balance_of db o c + (if decide ((o, c) = (to, symbol_code (symbol q))) then amount q else 0)
                        - (if decide ((o, c) = (from, symbol_code (symbol q))) then amount q else 0).
Proof.
  intros Hwf Hst Hsym Hq Hsub.
  destruct (sub_balance_wf db from q st db1) as (Hle & Hs1 & Hb1 & Ha1 & Ht1); try done.
  destruct (add_balance_wf db1 to q st) as (db2 & Hadd & Hwf2 & Hs2 & Hb2);
    [rewrite Hs1; by apply (tw_stats db Hwf)|by rewrite Hs1| |by rewrite Hs1|done|done|].
  { intros c st' Hst'. rewrite Ht1. rewrite Hs1 in Hst'. pose proof (tw_total db Hwf c st' Hst').
    case_decide; lia. }
  exists db2. split_and!; [done|done|congruence|].
  intros o c. rewrite Hb2, Hb1. repeat case_decide; lia.
Qed.

(** ** Actions *)

Section token.
(** The account of the contract, the authorizations of the action and the
    existing accounts. *)
Variable self : Z.
Variable has_auth : Z → bool.
Variable is_account : Z → bool.

Definition require_auth (n : Z) : res unit := EOS_ASSERT (has_auth n) missing_auth_exception.

Definition create (db : token_db) (the_issuer : Z) (maximum_supply : asset) : res effects :=
  require_auth self;;
  let sym := symbol maximum_supply in
  eosio_assert (is_valid_symbol sym);;
  eosio_assert (asset_is_valid maximum_supply);;
  eosio_assert (amount maximum_supply >? 0);;
  eosio_assert (match stats db !! symbol_code sym with Some _ => false | None => true end);;
  mret (Effects
    (TokenDb (<[symbol_code sym := Stats (Asset 0 sym) maximum_supply the_issuer]> (stats db)) (accounts db))
    [] []).

Definition issue (db : token_db) (to : Z) (quantity : asset) (memo : string) : res effects :=
  let sym := symbol quantity in
  eosio_assert (is_valid_symbol sym);;
  eosio_assert (Z.of_nat (String.length memo) <=? 256);;
  let sym_name := symbol_code sym in
  st ← of_option (fc_throw_exception eosio_assert_message_exception) (stats db !! sym_name);
  require_auth (issuer st);;
  eosio_assert (asset_is_valid quantity);;
  eosio_assert (amount quantity >? 0);;
  eosio_assert (symbol quantity =? symbol (supply st));;
  eosio_assert (amount quantity <=? i64 (amount (max_supply st) - amount (supply st)));;
  new_supply ← asset_add (supply st) quantity;
  let db := TokenDb (<[sym_name := Stats new_supply (max_supply st) (issuer st)]> (stats db)) (accounts db) in
  db ← add_balance db (issuer st) quantity;
  mret (Effects db [] (if negb (to =? issuer st) then [TransferArgs (issuer st) to quantity memo] else [])).

Definition transfer (db : token_db) (from to : Z) (quantity : asset) (memo : string) : res effects :=
  eosio_assert (negb (from =? to));;
  require_auth from;;
  eosio_assert (is_account to);;
  let sym := symbol_code (symbol quantity) in
  st ← of_option (fc_throw_exception eosio_assert_message_exception) (stats db !! sym);
  eosio_assert (asset_is_valid quantity);;
  eosio_assert (amount quantity >? 0);;
  eosio_assert (symbol quantity =? symbol (supply st));;
  eosio_assert (Z.of_nat (String.length memo) <=? 256);;
  db ← sub_balance db from quantity;
  db ← add_balance db to quantity;
  mret (Effects db [from; to] []).

(** When a transfer goes through. *)
Definition transfer_allowed (db : token_db) (from to : Z) (q : asset) (memo : string) : Prop :=
  from ≠ to ∧ has_auth from = true ∧ is_account to = true ∧
  (∃ st, stats db !! symbol_code (symbol q) = Some st ∧ symbol q = symbol (supply st)) ∧
  asset_is_valid q = true ∧ 0 < amount q <= balance_of db from (symbol_code (symbol q)) ∧
  Z.of_nat (String.length memo) <= 256.

Lemma transfer_inv db from to q memo e :
  token_wf db → transfer db from to q memo = Ok e →
  transfer_allowed db from to q memo ∧ token_wf (ef_db e) ∧ stats (ef_db e) = stats db ∧
  ef_notified e = [from; to] ∧ ef_inline e = [] ∧
  ∀ o c, balance_of (ef_db e) o c =
    balance_of db o c + (if decide ((o, c) = (to, symbol_code (symbol q))) then amount q else 0)
                      - (if decide ((o, c) = (from, symbol_code (symbol q))) then amount q else 0).
Proof.
  clear self. intros Hwf H. unfold transfer, require_auth, eosio_assert in H. simplify_res. zbool.
  match goal with H : stats db !! _ = Some ?s |- _ => rename s into st; rename H into Hst end.
  match goal with H : sub_balance _ _ _ = Ok ?d |- _ => rename d into db1; rename H into Hsub end.
  match goal with H : add_balance _ _ _ = Ok ?d |- _ => rename d into db2; rename H into Hadd end.
  destruct (sub_balance_wf db from q st db1) as (Hle & _); try done.
  destruct (move_balance db from to q st db1) as (db2' & Hadd' & Hwf2 & Hs2 & Hb2); try done.
  assert (db2' = db2) as -> by congruence.
  split; [unfold transfer_allowed; split_and!; try done; eauto; lia|]. done.
Qed.

Lemma transfer_total db from to q memo :
  token_wf db → transfer_allowed db from to q memo → ∃ e, transfer db from to q memo = Ok e.
Proof.
  clear self. intros Hwf (Hft & Hauth & Hacc & (st & Hst & Hsym) & Hval & Hq & Hmemo).
  assert (Ha : ∃ a, accounts db !! (from, symbol_code (symbol q)) = Some a ∧ amount q <= amount a).
  { unfold balance_of in Hq. case_match; [|lia]. eexists. split; [done|lia]. }
  destruct Ha as (a & Ha & Hle).
  destruct (tw_accounts db Hwf _ _ _ Ha) as (st' & Hst' & Hsa & _). assert (st' = st) as -> by congruence.
  assert (Hmax : amount a <= max_amount).
  { pose proof (balance_le_total db from (symbol_code (symbol q)) (λ o c a, token_wf_positive db o c a Hwf)) as Hb.
    unfold balance_of in Hb. rewrite Ha in Hb.
    pose proof (tw_total db Hwf _ st Hst). pose proof (tw_stats db Hwf _ st Hst). lia. }
  assert (Hsub : ∃ db1, sub_balance db from q = Ok db1).
  { eexists. apply (sub_balance_ok db from q a); try done; [congruence|lia]. }
  destruct Hsub as [db1 Hsub].
  destruct (move_balance db from to q st db1) as (db2 & Hadd & _); try done; [lia|].
  eexists. unfold transfer, require_auth, eosio_assert.
  do 3 pass_assert. rewrite Hst. cbn [of_option]. change (Ok st ≫= ?f) with (f st). cbn beta.
  do 4 pass_assert. rewrite Hsub. change (Ok db1 ≫= ?f) with (f db1). cbn beta. rewrite Hadd. done.
Qed.

(** C11: A transfer goes through exactly when the two accounts differ, the
    sender has authorized it and holds the quantity, the receiver exists, the
    quantity is a positive valid amount of an existing token and the memo is
    short.  It then moves exactly the quantity from the one balance to the
    other, notifies both and changes nothing else.  No overflow check fails. *)
Theorem transfer_spec db from to q memo :
  token_wf db →
  (transfer_allowed db from to q memo → ∃ e, transfer db from to q memo = Ok e) ∧
  ∀ e, transfer db from to q memo = Ok e →
    transfer_allowed db from to q memo ∧ token_wf (ef_db e) ∧ stats (ef_db e) = stats db ∧
    ef_notified e = [from; to] ∧ ef_inline e = [] ∧
    ∀ o c, balance_of (ef_db e) o c =
      balance_of db o c + (if decide ((o, c) = (to, symbol_code (symbol q))) then amount q else 0)
                        - (if decide ((o, c) = (from, symbol_code (symbol q))) then amount q else 0).
Proof. intros Hwf. split; [by apply transfer_total|]. intros e. by apply transfer_inv. Qed.

Lemma create_wf db the_issuer m e : token_wf db → create db the_issuer m = Ok e → token_wf (ef_db e).
Proof.
  clear is_account.
  intros Hwf H. unfold create, require_auth, eosio_assert in H. simplify_res. zbool. cbn.
  set (c := symbol_code (symbol m)) in *.
  assert (Hn : stats db !! c = None) by by destruct (stats db !! c).
  assert (Hacc : ∀ o a, accounts db !! (o, c) = Some a → False).
  { intros o a Ha. destruct (tw_accounts db Hwf o c a Ha) as (st & Hst & _). congruence. }
  constructor; cbn.
  - intros c' st [[<- <-]|[_ Hst]]%lookup_insert_Some; [|by apply (tw_stats db Hwf)]. cbn.
    unfold asset_is_valid, is_amount_within_range in *. zbool. split_and!; try done; lia.
  - intros o c' a Ha. destruct (tw_accounts db Hwf o c' a Ha) as (st & Hst & ?). exists st. split; [|done].
    rewrite lookup_insert_ne; [done|]. intros <-. by eapply Hacc.
  - intros c' st [[<- <-]|[_ Hst]]%lookup_insert_Some; [|by apply (tw_total db Hwf)]. cbn.
    apply map_sum_zero. cbn. intros [o c'] a Ha. cbn. destruct (Z.eqb_spec c' c) as [->|]; [by apply Hacc in Ha|done].
Qed.

Lemma issue_inv db to q memo e :
  token_wf db → issue db to q memo = Ok e →
  ∃ st, stats db !! symbol_code (symbol q) = Some st ∧ has_auth (issuer st) = true ∧ 0 < amount q ∧
    amount (supply st) + amount q <= amount (max_supply st) ∧
    token_wf (ef_db e) ∧
    stats (ef_db e) = <[symbol_code (symbol q) :=
      Stats (Asset (amount (supply st) + amount q) (symbol q)) (max_supply st) (issuer st)]> (stats db) ∧
    (∀ o c, balance_of (ef_db e) o c =
       balance_of db o c + if decide ((o, c) = (issuer st, symbol_code (symbol q))) then amount q else 0) ∧
    ef_inline e = (if to =? issuer st then [] else [TransferArgs (issuer st) to q memo]).
Proof.
  clear is_account self. intros Hwf H. unfold issue, require_auth, eosio_assert in H. simplify_res. zbool.
  match goal with H : stats db !! _ = Some ?s |- _ => rename s into st; rename H into Hst end.
  match goal with H : asset_add _ _ = Ok ?s |- _ => rename s into sup; rename H into Hsup end.
  match goal with H : add_balance _ _ _ = Ok ?d |- _ => rename d into db2; rename H into Hadd end.
  pose proof (tw_stats db Hwf _ st Hst) as (Hcode & Hms & Hsu & Hmax).
  assert (Hsupply : sup = Asset (amount (supply st) + amount q) (symbol q) ∧
    amount (supply st) + amount q <= amount (max_supply st)).
  { rewrite max_amount_eq in *. rewrite (swrap_id 64) in * by (unfold is_signed; lia).
    unfold asset_add, eosio_assert in Hsup. simplify_res. zbool.
    rewrite (swrap_id 64) by (unfold is_signed; lia). split; [congruence|lia]. }
  destruct Hsupply as [-> Hroom]. set (c := symbol_code (symbol q)) in *.
  set (st' := Stats (Asset (amount (supply st) + amount q) (symbol q)) (max_supply st) (issuer st)) in *.
  destruct (add_balance_wf (TokenDb (<[c := st']> (stats db)) (accounts db)) (issuer st) q st')
    as (db2' & Hadd' & Hwf2 & Hs2 & Hb2); cbn; try done.
  - intros c' s [[<- <-]|[_ Hs]]%lookup_insert_Some; [|by apply (tw_stats db Hwf)]. cbn.
    split_and!; try done; try congruence; lia.
  - intros o c' a Ha. destruct (tw_accounts db Hwf o c' a Ha) as (s & Hs & Hsy & Hpos).
    destruct (decide (c' = c)) as [->|Hc].
    + exists st'. rewrite lookup_insert_eq. split_and!; try done. cbn. congruence.
    + exists s. by rewrite lookup_insert_ne.
  - intros c' s [[<- <-]|[Hc Hs]]%lookup_insert_Some.
    + pose proof (tw_total db Hwf c st Hst) as Ht. rewrite decide_True by done. unfold total in *. cbn in *. lia.
    + pose proof (tw_total db Hwf c' s Hs) as Ht. rewrite decide_False by auto. unfold total in *. cbn in *. lia.
  - apply lookup_insert_eq.
  - assert (db2' = db2) as -> by congruence. exists st. split_and!; try done.
    + intros o c'. cbn [ef_db]. rewrite Hb2. fold c.
      change (balance_of (TokenDb _ (accounts db)) o c') with (balance_of db o c'). case_decide; lia.
    + cbn. by destruct (to =? issuer st).
Qed.

(** What can happen to the tables of the contract: its three actions, by
    anyone. *)
Inductive token_history : token_db → Prop :=
  | history_start : token_history token_db_empty
  | history_create db i m e : token_history db → create db i m = Ok e → token_history (ef_db e)
  | history_issue db to q memo e : token_history db → issue db to q memo = Ok e → token_history (ef_db e)
  | history_transfer db from to q memo e :
      token_history db → transfer db from to q memo = Ok e → token_history (ef_db e).

(** C10: No tokens appear or vanish: after any sequence of actions the balances
    of every token add up to its supply, the supply is between zero and the
    maximum supply, every balance row is positive and carries the token's
    symbol. *)
Theorem token_conservation db :
  token_history db →
  ∀ c st, stats db !! c = Some st →
    total db c = amount (supply st) ∧ 0 <= amount (supply st) <= amount (max_supply st) ∧
    ∀ o a, accounts db !! (o, c) = Some a → 0 < amount a <= amount (supply st) ∧ symbol a = symbol (supply st).
Proof.
  intros H. assert (Hwf : token_wf db).
  { induction H as [|? ? ? ? _ ? He|? ? ? ? ? _ ? He|? ? ? ? ? ? _ ? He];
      [apply token_db_empty_wf|by eapply create_wf| |].
    - apply issue_inv in He as (st & _ & _ & _ & _ & ? & _); done.
    - apply transfer_inv in He as (_ & ? & _); done. }
  intros c st Hst. pose proof (tw_stats db Hwf c st Hst) as (_ & _ & Hs & _).
  split_and!; [by apply (tw_total db Hwf)|lia|lia|]. intros o a Ha.
  destruct (tw_accounts db Hwf o c a Ha) as (st' & Hst' & Hsym & Hpos). assert (st' = st) as -> by congruence.
  pose proof (balance_le_total db o c (λ o c a, token_wf_positive db o c a Hwf)) as Hb.
  unfold balance_of in Hb. rewrite Ha, (tw_total db Hwf c st Hst) in Hb. split; [lia|done].
Qed.
End token.

(** ** Instances *)

(** Account 1 is the contract, 2 issues the token [4,EOS]. *)
Definition eos_symbol : Z := 4 + 69 * 2 ^ 8 + 79 * 2 ^ 16 + 83 * 2 ^ 24.

Definition demo_created : token_db :=
  match create 1 (λ _, true) token_db_empty 2 (Asset 1000 eos_symbol) with Ok e => ef_db e | Throw _ => token_db_empty end.
Definition demo_issued : token_db :=
  match issue (λ _, true) demo_created 2 (Asset 600 eos_symbol) EmptyString with
  | Ok e => ef_db e | Throw _ => token_db_empty end.

Lemma demo_history : token_history 1 (λ _, true) (λ _, true) demo_issued.
Proof.
  eapply (history_issue _ _ _ demo_created 2 (Asset 600 eos_symbol) EmptyString (Effects demo_issued [] []));
    [|by vm_compute].
  eapply (history_create _ _ _ token_db_empty 2 (Asset 1000 eos_symbol) (Effects demo_created [] []));
    [apply history_start|by vm_compute].
Qed.

Lemma token_conservation_witness : total demo_issued (symbol_code eos_symbol) = 600.
Proof.
  destruct (token_conservation 1 (λ _, true) (λ _, true) demo_issued demo_history (symbol_code eos_symbol)
    (Stats (Asset 600 eos_symbol) (Asset 1000 eos_symbol) 2)) as [H _]; [by vm_compute|exact H].
Defined.

Lemma demo_issued_wf : token_wf demo_issued.
Proof.
  assert (H : token_wf demo_created).
  { apply (create_wf 1 (λ _, true) token_db_empty 2 (Asset 1000 eos_symbol) (Effects demo_created [] []));
      [apply token_db_empty_wf|by vm_compute]. }
  destruct (issue_inv (λ _, true) demo_created 2 (Asset 600 eos_symbol) EmptyString (Effects demo_issued [] []))
    as (st & _ & _ & _ & _ & ? & _); [done|by vm_compute|done].
Qed.

Lemma transfer_spec_witness :
  ∃ e, transfer (λ _, true) (λ _, true) demo_issued 2 3 (Asset 250 eos_symbol) EmptyString = Ok e.
Proof.
  apply (transfer_spec (λ _, true) (λ _, true) demo_issued 2 3 (Asset 250 eos_symbol) EmptyString demo_issued_wf).
  unfold transfer_allowed. split_and!; try by vm_compute.
  exists (Stats (Asset 600 eos_symbol) (Asset 1000 eos_symbol) 2). by vm_compute.
Defined.
